(* ===== verification/_CoqProject ===== *)
-Q . S2P
Prelude.v
Core.v
Capability.v
Sqlite.v
RelayDb.v
Relay.v
RelayFacts.v
RelayTx.v
RelayInv.v
RelayTrace.v
ToyCrypto.v
RelayTheorems.v
RelayDelivery.v
RelayRetry.v
RelayRuns.v
RelayExchange.v
RelayObserve.v
RelaySpec.v
RelayBoxes.v
RelayDrain.v
RelayPersist.v
RelayConcurrent.v
RelayWitness.v
ServiceWitness.v
Client.v
ClientFacts.v
Envelope.v
Companion.v
StateStore.v
StateStoreTx.v
StateStoreTheorems.v
StateStoreShared.v
StateStoreTamper.v
StateStoreBounds.v
Redaction.v
Schema.v
RelayOpening.v
SchemaTests.v
Demo.v
EndToEnd.v
Unreliable.v
ToyEndpoint.v
EndpointWitness.v
RelayTests.v
StateStoreTests.v
SystemWitness.v
UnreliableWitness.v
