(* ===== verification/Prelude.v ===== *)
(** * Secure Messenger Lab: a verification development

    ** The program

    The crate is the proof of concept of a store-and-forward messenger. A relay
    ([src/src/relay.rs]) keeps opaque packets in [SQLite] for mailboxes that are only known by
    their public keys; every command is signed by one of three capabilities of the mailbox
    ([src/src/capability.rs]); clients ([src/src/client.rs]) seal and open the packets over an Olm
    session; an endpoint persists its serialised state encrypted in a one-row database
    ([src/src/persistence/]); both stores refuse suspicious companion files
    ([src/src/companion.rs]); [src/src/main.rs] runs one exchange in each direction.

    ** The files

    - [Prelude]: bytes, machine integers, big-endian encodings, the [result] type, the
      state-and-error monad [SM], length-prefixed framing and its injectivity, tactics.
    - [Core]: [error.rs], [ids.rs], the protocol domain, and the interface of the signature and
      hash libraries ([CryptoOps], [CryptoLaws]).
    - [Capability]: [capability.rs]: canonical encoding, requests, capabilities, the recipient's
      envelope check; the signed bytes separate and determine commands.
    - [Sqlite]: connections. A [Connection] has the durable database, the image of the open
      transaction and the outcomes the environment has in store for the coming calls; a [COMMIT]
      or a statement outside a transaction ([autocommit]) can take effect although it reports a
      failure. Containment of failures ([contained],
      [reader]) is proved once, compositionally, for every operation of both stores.
    - [RelayDb], [Relay]: the tables with one function per SQL statement, and the public methods
      of the relay in the source's order: checks, transaction with early returns, commit, audit
      event. The statements inside a transaction are definitions of their own
      ([register_transaction] and so on).
    - [RelayFacts], [RelayTx], [RelayInv], [RelayTrace]: the operations as one type of commands;
      the same operations as pure transitions of the tables and the proof that the code implements
      them under failures; the invariant [db_wf]; runs of calls, each with its own clock value and
      failures, and what a run can do to the tables.
    - [RelayTheorems], [RelayDelivery], [RelayRetry], [RelayRuns]: the theorems about the relay.
    - [RelayExchange]: the calls that carry one message through the relay, composed.
    - [RelayObserve]: equality of databases up to expired rows, with its [Proper] instances; two
      runs side by side ([twin], [alike]); what purging and the audit trail show.
    - [RelaySpec]: the abstract service, one mailbox at a time ([Box], [box_step], [box_trace]),
      without tables, rows or sweeps. [RelayBoxes]: the relay refines a family of independent
      mailboxes. [RelayDrain]: the recipient's loop, proved against the abstract mailbox.
      [RelayPersist]: callers that repeat a command until it succeeds, on a relay whose storage
      fails and that others use ([tries], [attempts]).
    - [RelayConcurrent]: processes that share one database file, as a step system ([sys_step]) of
      invocation, lock, transaction, return and death, with an executable scheduler.
    - [Client], [ClientFacts]: [client.rs] over the interface [OlmOps] (Olm and JSON), its
      theorems and the laws [OlmLaws].
    - [Envelope]: [persistence/envelope.rs], [persistence/protector.rs] over [AeadOps].
    - [Companion]: [companion.rs], and [has_nonempty_recovery_companion] and [immutable_uri] of
      [relay.rs], over a record of file-system calls.
    - [StateStore], [StateStoreTx], [StateStoreTheorems]: [persistence/sqlite.rs]: the operations,
      their transitions and the refinement, the theorems.
    - [StateStoreShared]: any number of handles on one file and an abstract append-only register
      of snapshots that they refine. [StateStoreBounds]: the exact limits of sizes and generations.
      [StateStoreTamper]: the same handles with an attacker who replaces the file.
    - [Redaction]: the hand-written [Debug] implementations and the error messages.
    - [Schema]: the schema manifest, classification, migration, preflight and opening of
      [relay.rs], over [DdlOps], with its theorems; every introspection query is a call that can
      fail, and what [SQLite]'s own recovery makes of a file is an argument of [open_at].
      [RelayOpening]: processes that open, use and leave one file ([host_act], [host_run]).
    - [Demo]: [main.rs], with the opening of its relay. [EndToEnd]: clients, capabilities and
      relay composed, over what Olm documents of a pair of sessions ([OlmChannel], [OlmChannelLaws]). [Unreliable]: the same
      composition with every call retried on an unreliable, busy relay.
    - [ToyCrypto], [ToyEndpoint], [RelayWitness], [ServiceWitness], [EndpointWitness],
      [SystemWitness], [UnreliableWitness]: concrete executable instances of every interface that
      satisfy its laws, and each theorem applied to them.
    - [RelayTests]: the integration tests [tests/e2e_relay.rs], [tests/expiry_revalidation.rs],
      [tests/request_boundaries.rs] and [tests/state_staging.rs], evaluated on the model.
    - [SchemaTests]: the tests of [tests/relay_schema_upgrade.rs] about what an open accepts and
      refuses, proved for every [SQLite] that meets [DdlLaws] and every recovery with the outcome
      of the test's fixture.
    - [StateStoreTests]: the test doubles and unit tests of [persistence/sqlite.rs] and
      [persistence/envelope.rs], evaluated on the model.

    ** How state and operations correspond to the code

    A [Relay] is a connection and the audit trail; a computation [RelayM A] reads and updates it
    and may return early with a [LabError], keeping the state reached, as the source does; a
    transaction that is left without a commit is dropped ([with_transaction]). Clock readings and
    random draws are arguments. [u64] values are integers [Z] with [saturating_add],
    [checked_add] and [to_i64] as in the source. [ClientStateStore] is a connection and the fields
    of the handle; [create_with_rng] and [open_store] run on the connection of the file. A
    database is what [SQLite] presents of the file after its own recovery, with the journal mode
    of its header ([wal_mode], [rf_wal]): both stores set [journal_mode = DELETE] when they open,
    which converts a WAL-mode file ([rollback_journal], [rollback_file]).

    ** What the theorems show

    - Relay, safety over runs: a message is stored at most once, signed requests are used once, a
      deleted mailbox never returns, effects need the capability, mailboxes are isolated, a
      message is removed only by expiry, its acknowledgement or the deletion of its mailbox; the
      invariant holds in every reachable state and retention is bounded.
    - Relay, behaviour: every operation refines its transition under arbitrary storage failures;
      a valid fetch succeeds and delivers exactly the live rows, stored messages are delivered,
      acknowledgement removes exactly its message, enqueue and acknowledge can be retried after a
      failure; registration binds the owner's keys and the owner's capabilities carry authority;
      whether and when the sweep runs cannot be observed through the other commands, under any
      failures ([tombstone_count], which counts expired rows, is the exception); the audit trail
      is a function of the replies.
    - Relay, as a service: every mailbox gets exactly the replies of its own abstract state
      machine, whatever else the relay serves; reading a mailbox to the end terminates and empties
      it; calls of several processes on one file are linearizable, and concurrent sends of one
      message identifier, with clocks of their own and any failures, store at most one message and
      answer the others against it.
    - End to end: a conversation of any length between two clients is delivered exactly, in order,
      through the relay, also when every call has to be retried because storage fails, with or
      without the effect of the failed attempt, while others use the relay; the demo opens its relay
      and succeeds for all its random values.
    - Signatures: signed bytes determine the command; contact bundles are bound as a whole and
      apart from commands.
    - Client: rejected packets change nothing, opened messages are bound and displayed at most
      once, sealing fails closed, one session per client.
    - State store: a commit is old or new for whoever reopens, a stale handle cannot write,
      successful commits form a prefix, creation never overwrites, opening authenticates and
      changes neither schema nor rows, a poisoned handle is dead; the envelope round trip
      and its associated data; handles that interleave in any way, with any failures, refine a register of snapshots, so nothing
      acknowledged is lost, the file is well typed in every reachable state and recovery is always
      possible; the limits on size and generation are exact; an attacker who replaces the file
      without forging ciphertexts can take a client back to a snapshot it once sealed, and nothing
      else.
    - Logs: the [Debug] output shows lengths, expiry, generation and poisoning only.
    - Opening the relay: exactly what is accepted, atomic migration, what a refused file looks like
      afterwards, reopening, exactly what the preflight lets through, the WAL guard and the
      read-only URI; processes that open one file at the same time migrate it once, and a late
      one loses nothing that others stored.

    ** Bounds

    No operation needs fuel: all recursion is structural. The recipient's loop [drain] is not code
    of the crate but a use of it; it recurses on the nonces drawn for its rounds, and more nonces
    than live messages are proved to be enough. Neither are the retry loops [tries]: they recurse
    on the attempts, of which the last one meets no failure. Lists of failures are finite and
    padded with success; a run considers any number of calls. Clock values of a run do not go
    back; theorems that need it say so, and those that store times assume them to fit [i64],
    as the code checks.

    ** What is not modelled

    The libraries ([vodozemac], [sha2], [chacha20poly1305], [serde_json], [SQLite]'s reading of
    DDL) are class parameters with their documented laws; no secrecy or unforgeability is claimed
    of them, so a theorem says which signature or decryption was accepted, and packets are bound
    through their digests; the theorem about a replaced state file assumes of the replacement
    itself that it is no forgery ([unforged]). Zeroization, pragmas other than [journal_mode], the
    bytes of a database file and printing are outside the model. [SQLite]'s recovery from hot journals
    and WAL files is not modelled but quantified over: for the relay it is the argument [recover]
    of [open_at], durable before any check of the opened database; the state store's connection
    starts on the recovered database. [PRAGMA journal_mode = DELETE] is taken to convert the file
    when it succeeds, which holds for the only connection to it; with several processes
    ([RelayOpening]) it may also leave the mode as it is. [SQLite]'s write lock is taken
    as documented: between the opening and the end of an immediate transaction no other connection writes. The handles of the
    state store interleave call by call. The death of a process is a connection whose remaining
    calls fail, or a crash step. Of the tests, searches in raw file bytes, the staging of a
    foreign WAL file and the fate of companion files are not modelled. The checks an open
    makes outside its transaction may, with several processes, answer anything in [RelayOpening];
    that the relay's own transactions keep [foreign_key_check] and [integrity_check] clean there
    is [SQLite]'s enforcement of its constraints. The rest of the crate is module wiring and
    imports. *)

From Stdlib.Strings Require Export Byte.
From Stdlib Require Export ZArith Lia.
From stdpp Require Export base tactics gmap strings numbers option countable.
From stdpp Require Export list.

#[global] Open Scope Z_scope.
#[export] Set Warnings "-clear-no-such-hyp".

(** ** Bytes *)

#[global] Instance byte_eq_dec : EqDecision byte := Byte.byte_eq_dec.

#[global] Program Instance byte_countable : Countable byte :=
  inj_countable Byte.to_N Byte.of_N _.
Next Obligation. intros b. apply Byte.of_to_N. Qed.

(** [b"..."] literals of the source. *)
Definition bstr (s : string) : list byte := String.list_byte_of_string s.

Definition byte_val (b : byte) : Z := Z.of_N (Byte.to_N b).

(** The low eight bits of an integer as a byte ([as u8]). *)
Definition byte_of_Z (z : Z) : byte :=
  default x00 (Byte.of_N (Z.to_N (z mod 256))).

Lemma byte_val_range b : 0 <= byte_val b < 256.
Proof.
  unfold byte_val. pose proof (Byte.to_N_bounded b). lia.
Qed.

Lemma byte_val_inj b1 b2 : byte_val b1 = byte_val b2 -> b1 = b2.
Proof.
  unfold byte_val. intros H%N2Z.inj.
  pose proof (Byte.of_to_N b1). pose proof (Byte.of_to_N b2). congruence.
Qed.

Lemma byte_val_of_Z z : byte_val (byte_of_Z z) = z mod 256.
Proof.
  unfold byte_of_Z, byte_val. pose proof (Z.mod_pos_bound z 256 ltac:(lia)).
  destruct (Byte.of_N (Z.to_N (z mod 256))) as [b|] eqn:E.
  - apply Byte.to_of_N in E. simpl. rewrite E. lia.
  - apply Byte.of_N_None_iff in E. lia.
Qed.

Lemma byte_of_Z_val b : byte_of_Z (byte_val b) = b.
Proof.
  apply byte_val_inj. rewrite byte_val_of_Z.
  apply Z.mod_small, byte_val_range.
Qed.

(** ** Machine integers *)

Definition U8_MAX : Z := 2 ^ 8 - 1.
Definition U32_MAX : Z := 2 ^ 32 - 1.
Definition U64_MAX : Z := 2 ^ 64 - 1.
Definition I64_MAX : Z := 2 ^ 63 - 1.
Definition I64_MIN : Z := - 2 ^ 63.

(** Range predicates of the machine types. *)
Definition is_u8 (z : Z) : Prop := 0 <= z <= U8_MAX.
Definition is_u64 (z : Z) : Prop := 0 <= z <= U64_MAX.
Definition is_i64 (z : Z) : Prop := I64_MIN <= z <= I64_MAX.

(** [u64::saturating_add] and [u64::checked_add]. *)
Definition saturating_add (a b : Z) : Z := Z.min (a + b) U64_MAX.
Definition checked_add (a b : Z) : option Z :=
  if decide (a + b <= U64_MAX) then Some (a + b) else None.

Lemma saturating_add_spec a b :
  saturating_add a b = a + b \/ saturating_add a b = U64_MAX /\ U64_MAX <= a + b.
Proof. unfold saturating_add. lia. Qed.

(** ** Big-endian encoding: [to_be_bytes] *)

(** The [n] low-order bytes of [z], most significant first. *)
Fixpoint be_bytes (n : nat) (z : Z) : list byte :=
  match n with
  | O => []
  | S n => byte_of_Z (z / 256 ^ Z.of_nat n) :: be_bytes n z
  end.

Definition be_value (bs : list byte) : Z :=
  foldl (fun acc b => 256 * acc + byte_val b) 0 bs.

Lemma length_be_bytes n z : length (be_bytes n z) = n.
Proof. induction n; simpl; congruence. Qed.

Lemma foldl_be_bytes n z acc :
  foldl (fun a b => 256 * a + byte_val b) acc (be_bytes n z)
    = 256 ^ Z.of_nat n * acc + z mod 256 ^ Z.of_nat n.
Proof.
  revert acc. induction n as [|n IH]; intros acc.
  - simpl. rewrite Z.mod_1_r. lia.
  - cbn [be_bytes foldl]. rewrite IH, byte_val_of_Z.
    rewrite Nat2Z.inj_succ, Z.pow_succ_r by lia.
    rewrite (Z.mul_comm 256 (256 ^ _)), (Z.rem_mul_r z (256 ^ Z.of_nat n) 256) by lia.
    ring.
Qed.

(** [u64::from_be_bytes (to_be_bytes z) = z] at any width. *)
Lemma be_value_be_bytes n z :
  0 <= z < 256 ^ Z.of_nat n -> be_value (be_bytes n z) = z.
Proof.
  intros Hz. unfold be_value. rewrite foldl_be_bytes, Z.mod_small by done. lia.
Qed.

Lemma be_bytes_inj n a b :
  0 <= a < 256 ^ Z.of_nat n -> 0 <= b < 256 ^ Z.of_nat n ->
  be_bytes n a = be_bytes n b -> a = b.
Proof.
  intros Ha Hb E. rewrite <- (be_value_be_bytes n a), <- (be_value_be_bytes n b) by done.
  by rewrite E.
Qed.

(** Two's complement: [i64::to_be_bytes] is the unsigned encoding of [z mod 2^64],
    which [be_bytes 8] computes. *)
Definition u64_be (z : Z) : list byte := be_bytes 8 z.
Definition u32_be (z : Z) : list byte := be_bytes 4 z.

Lemma length_u64_be z : length (u64_be z) = 8%nat.
Proof. apply length_be_bytes. Qed.

Lemma length_u32_be z : length (u32_be z) = 4%nat.
Proof. apply length_be_bytes. Qed.

Lemma u64_be_inj a b : is_u64 a -> is_u64 b -> u64_be a = u64_be b -> a = b.
Proof.
  unfold is_u64, U64_MAX. intros Ha Hb. apply be_bytes_inj;
    change (256 ^ Z.of_nat 8) with (2 ^ 64); lia.
Qed.

Lemma u32_be_inj a b :
  0 <= a <= U32_MAX -> 0 <= b <= U32_MAX -> u32_be a = u32_be b -> a = b.
Proof.
  unfold U32_MAX. intros Ha Hb. apply be_bytes_inj;
    change (256 ^ Z.of_nat 4) with (2 ^ 32); lia.
Qed.

(** ** Results and the state-and-error monad *)

(** Rust's [Result<A, E>]. *)
Inductive result (E A : Type) : Type :=
  | Ok (a : A)
  | Err (e : E).
Arguments Ok {E A} a.
Arguments Err {E A} e.

#[global] Instance result_eq_dec `{EqDecision E, EqDecision A} : EqDecision (result E A).
Proof. solve_decision. Defined.

#[global] Instance result_ret {E} : MRet (result E) := fun A a => Ok a.
#[global] Instance result_bind {E} : MBind (result E) := fun A B f m =>
  match m with Ok a => f a | Err e => Err e end.

Lemma Ok_inj {E A} (a b : A) : @Ok E A a = Ok b -> a = b.
Proof. by intros [= ->]. Qed.

Definition is_ok {E A} (r : result E A) : bool :=
  match r with Ok _ => true | Err _ => false end.

(** [Option::ok_or] *)
Definition ok_or {E A} (e : E) (o : option A) : result E A :=
  match o with Some a => Ok a | None => Err e end.

(** A computation that reads and updates a state and may return early with an error.
    The state reached before the early return is kept: rolling it back is the business of
    whoever owns it, as it is in the source ([Drop] of a transaction). *)
Definition SM (S E A : Type) : Type := S -> result E A * S.

#[global] Instance SM_ret {S E} : MRet (SM S E) := fun A a s => (Ok a, s).
#[global] Instance SM_bind {S E} : MBind (SM S E) := fun A B f m s =>
  match m s with
  | (Ok a, s') => f a s'
  | (Err e, s') => (Err e, s')
  end.

Definition sm_get {S E} : SM S E S := fun s => (Ok s, s).
Definition sm_modify {S E} (f : S -> S) : SM S E unit := fun s => (Ok tt, f s).
Definition sm_throw {S E A} (e : E) : SM S E A := fun s => (Err e, s).

(** The [?] operator on a pure [Result]. *)
Definition sm_lift {S E A} (r : result E A) : SM S E A := fun s => (r, s).

(** Run a computation on a component of the state. *)
Definition sm_zoom {S T E A} (get : S -> T) (put : T -> S -> S) (m : SM T E A) : SM S E A :=
  fun s => let '(r, t) := m (get s) in (r, put t s).

(** Early return when a guard fails. *)
Definition sm_guard {S E} (b : bool) (e : E) : SM S E unit :=
  if b then mret tt else sm_throw e.

Definition result_guard {E} (b : bool) (e : E) : result E unit :=
  if b then Ok tt else Err e.

Section SMLaws.
Context {S E : Type}.

Lemma sm_bind_ok {A B} (m : SM S E A) (f : A -> SM S E B) s a s' :
  m s = (Ok a, s') -> (m ≫= f) s = f a s'.
Proof. intros H. unfold mbind, SM_bind. by rewrite H. Qed.

Lemma sm_bind_err {A B} (m : SM S E A) (f : A -> SM S E B) s e s' :
  m s = (Err e, s') -> (m ≫= f) s = (Err e, s').
Proof. intros H. unfold mbind, SM_bind. by rewrite H. Qed.

Lemma sm_bind_assoc {A B C} (m : SM S E A) (f : A -> SM S E B) (g : B -> SM S E C) s :
  ((m ≫= f) ≫= g) s = (m ≫= (fun a => f a ≫= g)) s.
Proof. unfold mbind, SM_bind. by destruct (m s) as [[a|e] s']. Qed.

Lemma sm_bind_inv {A B} (m : SM S E A) (f : A -> SM S E B) s b s'' :
  (m ≫= f) s = (Ok b, s'') ->
  exists a s', m s = (Ok a, s') /\ f a s' = (Ok b, s'').
Proof.
  unfold mbind, SM_bind. destruct (m s) as [[a|e] s'] eqn:Hm; naive_solver.
Qed.

End SMLaws.

Lemma result_bind_ok {E A B} (m : result E A) (f : A -> result E B) b :
  m ≫= f = Ok b -> exists a, m = Ok a /\ f a = Ok b.
Proof. destruct m; [eauto|done]. Qed.

Lemma result_guard_ok {E} b (e : E) u : result_guard b e = Ok u -> b = true.
Proof. by destruct b. Qed.

Lemma ok_or_ok {E A} (e : E) (o : option A) a : ok_or e o = Ok a -> o = Some a.
Proof. destruct o; naive_solver. Qed.

(** Follow a successful computation of the result monad. *)
Ltac inv_ok H :=
  repeat match type of H with
  | _ ≫= _ = Ok _ =>
      let a := fresh "v" in let Ha := fresh "Hv" in
      apply result_bind_ok in H as (a & Ha & H);
      try apply result_guard_ok in Ha; try apply ok_or_ok in Ha
  end.

(** ** Length-prefixed concatenation *)

(** Both signed commands and the associated data of the client state are sequences of parts,
    each preceded by its length in big-endian bytes of a fixed width. *)
Section Framing.
Context (width : nat).

Definition frame (part : list byte) : list byte :=
  be_bytes width (Z.of_nat (length part)) ++ part.

Definition frames (parts : list (list byte)) : list byte := concat (map frame parts).

Definition fits (part : list byte) : Prop :=
  Z.of_nat (length part) < 256 ^ Z.of_nat width.

Lemma frame_app_inj p q r1 r2 :
  fits p -> fits q -> frame p ++ r1 = frame q ++ r2 -> p = q /\ r1 = r2.
Proof.
  unfold frame, fits. intros Hp Hq E. rewrite <- !app_assoc in E.
  apply app_inj_1 in E as [El E]; [|by rewrite !length_be_bytes].
  apply be_bytes_inj in El; [|lia..].
  apply app_inj_1 in E; [|lia]. done.
Qed.

(** Framing is injective: the bytes determine the parts, whatever follows them. *)
Lemma frames_app_inj ps qs r1 r2 :
  length ps = length qs -> Forall fits ps -> Forall fits qs ->
  frames ps ++ r1 = frames qs ++ r2 -> ps = qs /\ r1 = r2.
Proof.
  revert qs. induction ps as [|p ps IH]; intros [|q qs] Hlen Hps Hqs E;
    simpl in Hlen; try lia; [done|].
  apply Forall_cons_1 in Hps as [? ?], Hqs as [? ?].
  unfold frames in E. simpl in E. rewrite <- !app_assoc in E.
  apply frame_app_inj in E as [-> E]; [|done..].
  destruct (IH qs) as [-> ->]; auto with lia.
Qed.

Lemma frame_nonempty p : (0 < width)%nat -> frame p <> [].
Proof.
  intros Hw E. apply (f_equal length) in E. unfold frame in E.
  rewrite length_app, length_be_bytes in E. simpl in E. lia.
Qed.

(** ... and needs no agreement on the number of parts. *)
Lemma frames_inj ps qs :
  (0 < width)%nat -> Forall fits ps -> Forall fits qs -> frames ps = frames qs -> ps = qs.
Proof.
  intros Hw. revert qs. induction ps as [|p ps IH]; intros [|q qs] Hps Hqs E; [done| | |].
  - symmetry in E. apply app_eq_nil in E as [E _]. by apply frame_nonempty in E.
  - apply app_eq_nil in E as [E _]. by apply frame_nonempty in E.
  - apply Forall_cons_1 in Hps as [? ?], Hqs as [? ?].
    unfold frames in E. simpl in E. apply frame_app_inj in E as [-> E]; [|done..].
    f_equal. by apply IH.
Qed.

Lemma length_frames ps :
  length (frames ps) = (sum_list (length <$> ps) + width * length ps)%nat.
Proof.
  induction ps as [|p ps IH]; [simpl; lia|].
  change (frames (p :: ps)) with (frame p ++ frames ps).
  rewrite length_app, IH. unfold frame. rewrite length_app, length_be_bytes.
  rewrite fmap_cons. simpl. lia.
Qed.

End Framing.

(** ** Automation *)

(** Case analysis on the scrutinee of the first [match] or [if] of a hypothesis. *)
Ltac destruct_match_in H :=
  match type of H with
  | context [match ?x with _ => _ end] =>
      lazymatch x with
      | context [match _ with _ => _ end] => fail
      | _ => destruct x eqn:?
      end
  end.

Ltac destruct_match_goal :=
  match goal with
  | |- context [match ?x with _ => _ end] =>
      lazymatch x with
      | context [match _ with _ => _ end] => fail
      | _ => destruct x eqn:?
      end
  end.

(** Boolean tests of the code to propositions. *)
Create Rewrite HintDb boolprop.
#[export] Hint Rewrite andb_true_iff andb_false_iff orb_true_iff orb_false_iff negb_true_iff
  negb_false_iff bool_decide_eq_true bool_decide_eq_false Z.leb_le Z.ltb_lt Z.leb_gt Z.ltb_ge
  Z.eqb_eq Z.eqb_neq : boolprop.

Ltac boolprop := autorewrite with boolprop in *.
