(* ===== verification/Core.v ===== *)
(** * Shared vocabulary of the crate

    [src/error.rs] (the coarse error type), [src/ids.rs] (fixed-length opaque identifiers),
    the protocol domain of [src/lib.rs], and the interface of the cryptographic library the
    crate calls ([vodozemac]'s Ed25519 and [sha2]'s SHA-256), which is not part of the
    repository and therefore a parameter: a class of operations with a class of the documented
    laws the code relies on. *)

From S2P Require Import Prelude.

(** ** [src/error.rs] *)

Inductive LabError : Type :=
  | MissingSession
  | SessionAlreadyExists
  | ExpectedPreKey
  | PeerVerificationFailed
  | Crypto
  | Encoding
  | InvalidPayload
  | WrongConversation
  | MessageIdMismatch
  | DuplicateMessage
  | Unauthorized
  | RequestExpired
  | InvalidExpiry
  | MailboxNotFound
  | MailboxConflict
  | MessageConflict
  | MessageGone
  | MessageNotFound
  | Storage.

#[global] Instance LabError_eq_dec : EqDecision LabError.
Proof. solve_decision. Defined.

(** [pub type Result<T> = std::result::Result<T, LabError>] *)
Abbreviation Result := (result LabError).

(** [i64::try_from(value).map_err(|_| LabError::Storage)], used by the relay and by the
    client state store. *)
Definition to_i64 (value : Z) : Result Z :=
  if decide (value <= I64_MAX) then Ok value else Err Storage.

Lemma to_i64_ok v w : to_i64 v = Ok w -> w = v /\ v <= I64_MAX.
Proof. unfold to_i64. case_decide; naive_solver. Qed.

Lemma to_i64_le v : v <= I64_MAX -> to_i64 v = Ok v.
Proof. intros. unfold to_i64. by case_decide. Qed.

(** ** Fixed-size byte arrays: [[u8; n]] *)

Definition array (n : nat) : Type := dsig (fun l : list byte => length l = n).

Definition as_slice {n} (a : array n) : list byte := proj1_sig a.

(** [<[u8; n]>::try_from(slice).ok()] *)
Definition array_from_slice (n : nat) (value : list byte) : option (array n) :=
  match decide (length value = n) with
  | left H => Some (dexist value H)
  | right _ => None
  end.

#[global] Instance array_eq_dec n : EqDecision (array n).
Proof.
  intros a b. destruct (decide (as_slice a = as_slice b)) as [E|E].
  - left. by apply dsig_eq.
  - right. intros ->. done.
Defined.

Lemma length_as_slice {n} (a : array n) : length (as_slice a) = n.
Proof. exact (proj2_dsig a). Qed.

Lemma as_slice_inj {n} (a b : array n) : as_slice a = as_slice b -> a = b.
Proof. apply dsig_eq. Qed.

Lemma array_from_as_slice {n} (a : array n) : array_from_slice n (as_slice a) = Some a.
Proof.
  unfold array_from_slice. destruct (decide _) as [H|H].
  - f_equal. by apply as_slice_inj.
  - by destruct H; apply length_as_slice.
Qed.

Lemma array_from_slice_Some n l (a : array n) :
  array_from_slice n l = Some a <-> as_slice a = l.
Proof.
  split.
  - unfold array_from_slice. destruct (decide _); naive_solver.
  - intros <-. apply array_from_as_slice.
Qed.

Lemma array_from_slice_None n l :
  array_from_slice n l = None <-> length l <> n.
Proof. unfold array_from_slice. destruct (decide _); naive_solver. Qed.

(** ** [src/ids.rs]: the types the [opaque_id!] macro generates

    The value [OsRng] draws in [random] is an argument wherever the source calls it. *)

Definition QueueId : Type := array 32.
Definition MessageId : Type := array 16.
Definition ConversationId : Type := array 16.
Definition Nonce : Type := array 16.

(** [MessageId::from_slice] *)
Definition MessageId_from_slice (value : list byte) : option MessageId :=
  array_from_slice 16 value.

(** ** [src/lib.rs] *)

Definition PROTOCOL_DOMAIN : list byte := bstr "secure-messenger-lab/phase0/v1".

(** ** The signature and hash libraries *)

Class CryptoOps : Type := {
  (** [Sha256::digest] *)
  sha256 : list byte -> array 32;
  Ed25519PublicKey : Type;
  Ed25519Signature : Type;
  Ed25519Keypair : Type;
  pk_eq_dec :: EqDecision Ed25519PublicKey;
  (** [Ed25519PublicKey::as_bytes], [Ed25519PublicKey::from_slice], [verify] *)
  pk_as_bytes : Ed25519PublicKey -> array 32;
  pk_from_slice : array 32 -> option Ed25519PublicKey;
  verify : Ed25519PublicKey -> list byte -> Ed25519Signature -> bool;
  (** [Ed25519Signature::to_bytes], [Ed25519Signature::from_slice] *)
  sig_to_bytes : Ed25519Signature -> array 64;
  sig_from_slice : list byte -> option Ed25519Signature;
  (** [Ed25519Keypair::public_key], [Ed25519Keypair::sign] *)
  public_key : Ed25519Keypair -> Ed25519PublicKey;
  sign : Ed25519Keypair -> list byte -> Ed25519Signature;
}.

(** Documented behaviour of the library: serialised keys and signatures parse back to
    themselves, and a signature made with a key pair verifies under its public key. *)
Class CryptoLaws `{CryptoOps} : Prop := {
  pk_from_as_bytes : forall k, pk_from_slice (pk_as_bytes k) = Some k;
  sig_from_to_bytes : forall s, sig_from_slice (as_slice (sig_to_bytes s)) = Some s;
  verify_sign : forall kp m, verify (public_key kp) m (sign kp m) = true;
}.

Lemma pk_as_bytes_inj `{CryptoLaws} k1 k2 : pk_as_bytes k1 = pk_as_bytes k2 -> k1 = k2.
Proof.
  intros E. apply (f_equal pk_from_slice) in E. rewrite !pk_from_as_bytes in E. naive_solver.
Qed.

(** [pub(crate) fn digest] of [src/capability.rs] *)
Definition digest `{CryptoOps} (bytes : list byte) : array 32 := sha256 bytes.
