(* ===== verification/Capability.v ===== *)
(** * Mailbox capabilities and canonical command binding: [src/capability.rs]

    The five signed relay commands, the byte string each signature covers, the capabilities
    that sign them, and the recipient's check of a fetched envelope. The data types of
    [src/client.rs] and [src/relay.rs] that capabilities exchange ([EncryptedPacket],
    [PlainMessage], [OpenedMessage], [StoredEnvelope]) are declared here. *)

From S2P Require Import Prelude Core.

(** ** Canonical encoding *)

Definition ACTION_REGISTER : list byte := bstr "register".
Definition ACTION_SEND : list byte := bstr "send".
Definition ACTION_FETCH : list byte := bstr "fetch".
Definition ACTION_ACK : list byte := bstr "ack".
Definition ACTION_DELETE : list byte := bstr "delete-mailbox".
(** of [src/client.rs] *)
Definition CONTACT_BUNDLE_ACTION : list byte := bstr "peer-prekey".

(** [u64::try_from(part.len()).unwrap_or(u64::MAX)], then the eight length bytes and the part. *)
Definition append_part (target part : list byte) : list byte :=
  let len := Z.of_nat (length part) in
  let len := if decide (len <= U64_MAX) then len else U64_MAX in
  target ++ u64_be len ++ part.

Definition canonical (action : list byte) (parts : list (list byte)) : list byte :=
  let encoded := append_part [] PROTOCOL_DOMAIN in
  let encoded := append_part encoded action in
  foldl append_part encoded parts.

Section Capability.
Context `{Crypto : CryptoOps}.

(** ** Data exchanged between the components *)

(** Opaque wire bytes ([client.rs]); [from_untrusted] and [as_bytes] are the constructor and
    the projection of the newtype. *)
Record EncryptedPacket : Type := mkPacket { packet_bytes : list byte }.

Definition packet_digest (p : EncryptedPacket) : array 32 := digest (packet_bytes p).

(** [PlainMessage] of [client.rs]; [version] is a [u8], [sent_at] a [u64]. *)
Record PlainMessage : Type := mkPlain {
  pm_version : Z;
  pm_conversation_id : ConversationId;
  pm_message_id : MessageId;
  pm_sent_at : Z;
  pm_body : string;
}.

(** [StoredEnvelope] of [relay.rs]. *)
Record StoredEnvelope : Type := mkStored {
  se_queue_id : QueueId;
  se_message_id : MessageId;
  se_packet : EncryptedPacket;
  se_expires_at : Z;
  se_sender_signature : Ed25519Signature;
}.

Record VerifiedEnvelope : Type := mkVerified {
  ve_queue_id : QueueId;
  ve_message_id : MessageId;
  ve_packet : EncryptedPacket;
  ve_expires_at : Z;
}.

(** [OpenedMessage] of [client.rs]. *)
Record OpenedMessage : Type := mkOpened {
  om_message : PlainMessage;
  om_envelope : VerifiedEnvelope;
}.

(** ** Requests *)

Record MailboxRegistration : Type := mkRegistration {
  mr_queue_id : QueueId;
  mr_send_key : Ed25519PublicKey;
  mr_receive_key : Ed25519PublicKey;
  mr_manage_key : Ed25519PublicKey;
  mr_nonce : Nonce;
  mr_valid_until : Z;
  mr_signature : Ed25519Signature;
}.

Record SendRequest : Type := mkSend {
  sr_queue_id : QueueId;
  sr_message_id : MessageId;
  sr_packet : EncryptedPacket;
  sr_expires_at : Z;
  sr_signature : Ed25519Signature;
}.

Record FetchRequest : Type := mkFetch {
  fr_queue_id : QueueId;
  fr_nonce : Nonce;
  fr_valid_until : Z;
  fr_signature : Ed25519Signature;
}.

Record AckRequest : Type := mkAck {
  ar_queue_id : QueueId;
  ar_message_id : MessageId;
  ar_packet_hash : array 32;
  ar_valid_until : Z;
  ar_signature : Ed25519Signature;
}.

Record DeleteMailboxRequest : Type := mkDelete {
  dr_queue_id : QueueId;
  dr_nonce : Nonce;
  dr_valid_until : Z;
  dr_signature : Ed25519Signature;
}.

(** ** The bytes each signature covers *)

Definition registration_signing_bytes (r : MailboxRegistration) : list byte :=
  canonical ACTION_REGISTER
    [as_slice (mr_queue_id r); as_slice (pk_as_bytes (mr_send_key r));
     as_slice (pk_as_bytes (mr_receive_key r)); as_slice (pk_as_bytes (mr_manage_key r));
     as_slice (mr_nonce r); u64_be (mr_valid_until r)].

Definition send_signing_bytes (queue_id : QueueId) (message_id : MessageId)
    (packet : EncryptedPacket) (expires_at : Z) : list byte :=
  canonical ACTION_SEND
    [as_slice queue_id; as_slice message_id; as_slice (packet_digest packet);
     u64_be expires_at].

Definition send_request_signing_bytes (r : SendRequest) : list byte :=
  send_signing_bytes (sr_queue_id r) (sr_message_id r) (sr_packet r) (sr_expires_at r).

Definition fetch_signing_bytes (r : FetchRequest) : list byte :=
  canonical ACTION_FETCH
    [as_slice (fr_queue_id r); as_slice (fr_nonce r); u64_be (fr_valid_until r)].

Definition ack_signing_bytes (r : AckRequest) : list byte :=
  canonical ACTION_ACK
    [as_slice (ar_queue_id r); as_slice (ar_message_id r); as_slice (ar_packet_hash r);
     u64_be (ar_valid_until r)].

Definition delete_signing_bytes (r : DeleteMailboxRequest) : list byte :=
  canonical ACTION_DELETE
    [as_slice (dr_queue_id r); as_slice (dr_nonce r); u64_be (dr_valid_until r)].

(** ** Capabilities *)

Record MailboxOwner : Type := mkOwner {
  mo_queue_id : QueueId;
  mo_send : Ed25519Keypair;
  mo_receive : Ed25519Keypair;
  mo_manage : Ed25519Keypair;
}.

Record SendCapability : Type := mkSendCap {
  sc_queue_id : QueueId;
  sc_signing_key : Ed25519Keypair;
}.

Record ReceiveCapability : Type := mkReceiveCap {
  rc_queue_id : QueueId;
  rc_signing_key : Ed25519Keypair;
  rc_send_verification_key : Ed25519PublicKey;
}.

Record ManageCapability : Type := mkManageCap {
  mc_queue_id : QueueId;
  mc_signing_key : Ed25519Keypair;
}.

(** [MailboxOwner::registration]; [nonce] is the value [Nonce::random()] draws. *)
Definition registration (self : MailboxOwner) (nonce : Nonce) (valid_until : Z)
    : MailboxRegistration :=
  let send_key := public_key (mo_send self) in
  let receive_key := public_key (mo_receive self) in
  let manage_key := public_key (mo_manage self) in
  let signing_bytes :=
    canonical ACTION_REGISTER
      [as_slice (mo_queue_id self); as_slice (pk_as_bytes send_key);
       as_slice (pk_as_bytes receive_key); as_slice (pk_as_bytes manage_key);
       as_slice nonce; u64_be valid_until] in
  mkRegistration (mo_queue_id self) send_key receive_key manage_key nonce valid_until
    (sign (mo_manage self) signing_bytes).

Definition sender_capability (self : MailboxOwner) : SendCapability :=
  mkSendCap (mo_queue_id self) (mo_send self).

Definition receiver_capability (self : MailboxOwner) : ReceiveCapability :=
  mkReceiveCap (mo_queue_id self) (mo_receive self) (public_key (mo_send self)).

Definition manager_capability (self : MailboxOwner) : ManageCapability :=
  mkManageCap (mo_queue_id self) (mo_manage self).

(** [SendCapability::authorize] *)
Definition authorize (self : SendCapability) (message_id : MessageId)
    (packet : EncryptedPacket) (expires_at : Z) : SendRequest :=
  let signing_bytes :=
    canonical ACTION_SEND
      [as_slice (sc_queue_id self); as_slice message_id; as_slice (packet_digest packet);
       u64_be expires_at] in
  mkSend (sc_queue_id self) message_id packet expires_at
    (sign (sc_signing_key self) signing_bytes).

(** [ReceiveCapability::authorize_fetch]; [nonce] is the value [Nonce::random()] draws. *)
Definition authorize_fetch (self : ReceiveCapability) (nonce : Nonce) (valid_until : Z)
    : FetchRequest :=
  let signing_bytes :=
    canonical ACTION_FETCH
      [as_slice (rc_queue_id self); as_slice nonce; u64_be valid_until] in
  mkFetch (rc_queue_id self) nonce valid_until (sign (rc_signing_key self) signing_bytes).

(** [ReceiveCapability::verify_envelope] *)
Definition verify_envelope (self : ReceiveCapability) (envelope : StoredEnvelope) (now : Z)
    : Result VerifiedEnvelope :=
  if bool_decide (se_queue_id envelope <> rc_queue_id self)
     || (se_expires_at envelope <=? now)
  then Err Unauthorized
  else if verify (rc_send_verification_key self)
            (send_signing_bytes (se_queue_id envelope) (se_message_id envelope)
               (se_packet envelope) (se_expires_at envelope))
            (se_sender_signature envelope)
  then Ok (mkVerified (se_queue_id envelope) (se_message_id envelope) (se_packet envelope)
             (se_expires_at envelope))
  else Err Unauthorized.

(** [ReceiveCapability::authorize_ack] *)
Definition authorize_ack (self : ReceiveCapability) (opened : OpenedMessage) (valid_until : Z)
    : AckRequest :=
  let envelope := om_envelope opened in
  let packet_hash := packet_digest (ve_packet envelope) in
  let signing_bytes :=
    canonical ACTION_ACK
      [as_slice (rc_queue_id self); as_slice (ve_message_id envelope); as_slice packet_hash;
       u64_be valid_until] in
  mkAck (rc_queue_id self) (ve_message_id envelope) packet_hash valid_until
    (sign (rc_signing_key self) signing_bytes).

(** [ManageCapability::authorize_delete]; [nonce] is the value [Nonce::random()] draws. *)
Definition authorize_delete (self : ManageCapability) (nonce : Nonce) (valid_until : Z)
    : DeleteMailboxRequest :=
  let signing_bytes :=
    canonical ACTION_DELETE
      [as_slice (mc_queue_id self); as_slice nonce; u64_be valid_until] in
  mkDelete (mc_queue_id self) nonce valid_until (sign (mc_signing_key self) signing_bytes).

(** ** The commands as one type *)

Inductive SignedCommand : Type :=
  | CmdRegister (r : MailboxRegistration)
  | CmdSend (r : SendRequest)
  | CmdFetch (r : FetchRequest)
  | CmdAck (r : AckRequest)
  | CmdDelete (r : DeleteMailboxRequest).

Definition signing_bytes (c : SignedCommand) : list byte :=
  match c with
  | CmdRegister r => registration_signing_bytes r
  | CmdSend r => send_request_signing_bytes r
  | CmdFetch r => fetch_signing_bytes r
  | CmdAck r => ack_signing_bytes r
  | CmdDelete r => delete_signing_bytes r
  end.

(** The [u64] field of a command. *)
Definition command_time (c : SignedCommand) : Z :=
  match c with
  | CmdRegister r => mr_valid_until r
  | CmdSend r => sr_expires_at r
  | CmdFetch r => fr_valid_until r
  | CmdAck r => ar_valid_until r
  | CmdDelete r => dr_valid_until r
  end.

(** Two commands a signature cannot tell apart should be the same command: same action, same
    fields. A send request is bound to its packet through the packet's digest. *)
Definition same_binding (c1 c2 : SignedCommand) : Prop :=
  match c1, c2 with
  | CmdRegister r, CmdRegister r' =>
      mr_queue_id r = mr_queue_id r' /\ mr_send_key r = mr_send_key r' /\
      mr_receive_key r = mr_receive_key r' /\ mr_manage_key r = mr_manage_key r' /\
      mr_nonce r = mr_nonce r' /\ mr_valid_until r = mr_valid_until r'
  | CmdSend r, CmdSend r' =>
      sr_queue_id r = sr_queue_id r' /\ sr_message_id r = sr_message_id r' /\
      packet_digest (sr_packet r) = packet_digest (sr_packet r') /\
      sr_expires_at r = sr_expires_at r'
  | CmdFetch r, CmdFetch r' =>
      fr_queue_id r = fr_queue_id r' /\ fr_nonce r = fr_nonce r' /\
      fr_valid_until r = fr_valid_until r'
  | CmdAck r, CmdAck r' =>
      ar_queue_id r = ar_queue_id r' /\ ar_message_id r = ar_message_id r' /\
      ar_packet_hash r = ar_packet_hash r' /\ ar_valid_until r = ar_valid_until r'
  | CmdDelete r, CmdDelete r' =>
      dr_queue_id r = dr_queue_id r' /\ dr_nonce r = dr_nonce r' /\
      dr_valid_until r = dr_valid_until r'
  | _, _ => False
  end.

End Capability.

#[global] Instance EncryptedPacket_eq_dec : EqDecision EncryptedPacket.
Proof. solve_decision. Defined.

(** ** Lemmas *)

Lemma append_part_frame target part :
  fits 8 part -> append_part target part = target ++ frame 8 part.
Proof.
  unfold fits, append_part, frame, u64_be, U64_MAX. intros H.
  change (256 ^ Z.of_nat 8) with (2 ^ 64) in H. case_decide; [done|lia].
Qed.

Lemma foldl_append_part acc parts :
  Forall (fits 8) parts -> foldl append_part acc parts = acc ++ frames 8 parts.
Proof.
  intros Hp. revert acc. induction Hp as [|p ps Hp _ IH]; intros acc; cbn [foldl].
  - by rewrite app_nil_r.
  - rewrite IH, append_part_frame, <- app_assoc by done. done.
Qed.

Lemma fits_small part : (length part <= 64)%nat -> fits 8 part.
Proof.
  unfold fits. change (256 ^ Z.of_nat 8) with (2 ^ 64). lia.
Qed.

Lemma fits_domain : fits 8 PROTOCOL_DOMAIN.
Proof. apply fits_small. vm_compute. lia. Qed.

Lemma canonical_frames action parts :
  fits 8 action -> Forall (fits 8) parts ->
  canonical action parts = frames 8 (PROTOCOL_DOMAIN :: action :: parts).
Proof.
  intros Ha Hp. unfold canonical. rewrite foldl_append_part by done.
  rewrite (append_part_frame _ PROTOCOL_DOMAIN) by apply fits_domain.
  rewrite (append_part_frame _ action) by done. unfold frames. cbn [map concat].
  by rewrite <- !app_assoc.
Qed.

Lemma canonical_inj_aux a1 a2 ps1 ps2 :
  fits 8 a1 -> fits 8 a2 -> Forall (fits 8) ps1 -> Forall (fits 8) ps2 ->
  canonical a1 ps1 = canonical a2 ps2 -> a1 = a2 /\ ps1 = ps2.
Proof.
  intros ???? E. rewrite !canonical_frames in E by done.
  apply frames_inj in E; [by simplify_eq|lia|..]; eauto using fits_domain.
Qed.

(** Side conditions of [canonical_inj_aux] for the parts the commands use. *)
Ltac solve_fits :=
  repeat first
    [ apply Forall_nil_2 | apply Forall_cons_2 | apply fits_small
    | rewrite length_as_slice | rewrite length_u64_be ]; vm_compute; lia.

Create HintDb binding.
#[export] Hint Resolve as_slice_inj u64_be_inj pk_as_bytes_inj : binding.

(** Equal encodings of two commands' parts give equal fields. *)
Ltac solve_binding E :=
  apply canonical_inj_aux in E as [E1 E2]; [|solve_fits..];
  try discriminate E1;
  repeat match type of E2 with _ :: _ = _ :: _ => apply (inj2 cons) in E2 as [? E2] end;
  repeat split; eauto 4 with binding.

Section CapabilityFacts.
Context `{Laws : CryptoLaws}.

(** C21. A signature made for one command is a signature for that command only: the covered
    bytes separate the five actions and determine every field (a packet through its digest). *)
Theorem signing_bytes_injective c1 c2 :
  is_u64 (command_time c1) -> is_u64 (command_time c2) ->
  signing_bytes c1 = signing_bytes c2 -> same_binding c1 c2.
Proof.
  intros H1 H2 E. destruct c1 as [[]|[]|[]|[]|[]], c2 as [[]|[]|[]|[]|[]];
    simpl in H1, H2, E |- *;
    unfold registration_signing_bytes, send_request_signing_bytes, send_signing_bytes,
      fetch_signing_bytes, ack_signing_bytes, delete_signing_bytes in E; simpl in E;
    solve_binding E.
Qed.

(** The verification key each command is checked against, for a mailbox whose owner is known. *)
Definition owner_key (o : MailboxOwner) (c : SignedCommand) : Ed25519PublicKey :=
  match c with
  | CmdRegister _ | CmdDelete _ => public_key (mo_manage o)
  | CmdSend _ => public_key (mo_send o)
  | CmdFetch _ | CmdAck _ => public_key (mo_receive o)
  end.

Definition command_signature (c : SignedCommand) : Ed25519Signature :=
  match c with
  | CmdRegister r => mr_signature r
  | CmdSend r => sr_signature r
  | CmdFetch r => fr_signature r
  | CmdAck r => ar_signature r
  | CmdDelete r => dr_signature r
  end.

(** What the capabilities of an owner can produce. *)
Inductive authorized (o : MailboxOwner) : SignedCommand -> Prop :=
  | auth_register nonce t : authorized o (CmdRegister (registration o nonce t))
  | auth_send mid p t : authorized o (CmdSend (authorize (sender_capability o) mid p t))
  | auth_fetch nonce t :
      authorized o (CmdFetch (authorize_fetch (receiver_capability o) nonce t))
  | auth_ack om t : authorized o (CmdAck (authorize_ack (receiver_capability o) om t))
  | auth_delete nonce t :
      authorized o (CmdDelete (authorize_delete (manager_capability o) nonce t)).

(** Every command a capability signs verifies under the key the relay stores for its role. *)
Lemma authorized_verifies o c :
  authorized o c -> verify (owner_key o c) (signing_bytes c) (command_signature c) = true.
Proof. intros []; apply verify_sign. Qed.

(** [verify_envelope] on every branch: it accepts exactly the unexpired envelopes of its own
    queue that carry a valid sender signature, and returns their fields unchanged. *)
Lemma verify_envelope_spec cap env now :
  (exists v, verify_envelope cap env now = Ok v /\
    se_queue_id env = rc_queue_id cap /\ now < se_expires_at env /\
    verify (rc_send_verification_key cap)
      (send_signing_bytes (se_queue_id env) (se_message_id env) (se_packet env)
         (se_expires_at env)) (se_sender_signature env) = true /\
    v = mkVerified (se_queue_id env) (se_message_id env) (se_packet env) (se_expires_at env))
  \/ verify_envelope cap env now = Err Unauthorized /\
     (se_queue_id env <> rc_queue_id cap \/ se_expires_at env <= now \/
      verify (rc_send_verification_key cap)
        (send_signing_bytes (se_queue_id env) (se_message_id env) (se_packet env)
           (se_expires_at env)) (se_sender_signature env) = false).
Proof.
  unfold verify_envelope. case_bool_decide; simpl; [naive_solver|].
  destruct (Z.leb_spec (se_expires_at env) now); [naive_solver|].
  destruct (verify _ _ _) eqn:?; naive_solver.
Qed.

(** The sender's signature on a stored envelope is the one [authorize] made: an envelope that
    carries a send request unchanged is accepted by the mailbox's receiver until it expires. *)
Lemma verify_envelope_authorized o mid p t now :
  now < t ->
  let r := authorize (sender_capability o) mid p t in
  verify_envelope (receiver_capability o)
    (mkStored (sr_queue_id r) (sr_message_id r) (sr_packet r) (sr_expires_at r)
       (sr_signature r)) now
  = Ok (mkVerified (mo_queue_id o) mid p t).
Proof.
  intros Ht. simpl. unfold verify_envelope. simpl. rewrite bool_decide_false by naive_solver.
  destruct (Z.leb_spec t now); [lia|]. simpl. by rewrite verify_sign.
Qed.

End CapabilityFacts.
