(* ===== verification/Sqlite.v ===== *)
(** * Connections, transactions and storage failures

    Both stores of the crate drive [SQLite] through [rusqlite] the same way: begin a
    transaction, run statements, each of which may fail ([?] maps every failure to
    [LabError::Storage]), commit explicitly, and rely on [Drop] to roll back an uncommitted
    transaction on an early return. A [Connection] holds the durable database, the image of the
    open transaction, and the outcomes the environment has in store for the coming calls. The
    SQL text of the source is translated, statement by statement, into functions on a database
    type [DB]; this file is about everything around them. *)

From S2P Require Import Prelude Core.

(** Outcome of one call into [SQLite]. [IoLost] is the outcome of a [COMMIT] that became
    durable although the call reported a failure; for any other call it is a plain failure.
    A process death at a call leaves the same durable database as a failure there. *)
Inductive io : Type := IoOk | IoErr | IoLost.

#[global] Instance io_eq_dec : EqDecision io.
Proof. solve_decision. Defined.

Record Connection (DB : Type) : Type := mkConn {
  disk : DB;
  txn : option DB;
  faults : list io;
}.
Arguments mkConn {DB} disk txn faults.
Arguments disk {DB} c : rename.
Arguments txn {DB} c : rename.
Arguments faults {DB} c : rename.

Section Statements.
Context {DB : Type}.

(** The database a statement sees: the open transaction's image, or the durable one. *)
Definition current (c : Connection DB) : DB := default (disk c) (txn c).

Definition set_current (db : DB) (c : Connection DB) : Connection DB :=
  match txn c with
  | Some _ => mkConn (disk c) (Some db) (faults c)
  | None => mkConn db None (faults c)
  end.

Definition next_io (c : Connection DB) : io := default IoOk (head (faults c)).
Definition pop_io (c : Connection DB) : Connection DB :=
  mkConn (disk c) (txn c) (tail (faults c)).

(** One statement. [None] is a constraint violation, a missing row or a value of the wrong
    type: an error of the call, with no effect. *)
Definition sql {A} (f : DB -> option (A * DB)) : SM (Connection DB) LabError A := fun c =>
  let c' := pop_io c in
  match next_io c with
  | IoOk =>
      match f (current c') with
      | Some (a, db) => (Ok a, set_current db c')
      | None => (Err Storage, c')
      end
  | _ => (Err Storage, c')
  end.

(** A statement that runs outside a transaction and is durable when it ends, such as
    [PRAGMA journal_mode = ..]: like a commit, it may have taken effect although it failed. *)
Definition autocommit {A} (f : DB -> option (A * DB)) : SM (Connection DB) LabError A := fun c =>
  let c' := pop_io c in
  match next_io c, f (current c') with
  | IoOk, Some (a, db) => (Ok a, set_current db c')
  | IoLost, Some (_, db) => (Err Storage, set_current db c')
  | _, _ => (Err Storage, c')
  end.

(** A statement that only reads. *)
Definition query {A} (f : DB -> option A) : SM (Connection DB) LabError A :=
  sql (fun db => (fun a => (a, db)) <$> f db).

(** [connection.transaction_with_behavior(..)] *)
Definition begin_transaction : SM (Connection DB) LabError unit := fun c =>
  let c' := pop_io c in
  match next_io c with
  | IoOk => (Ok tt, mkConn (disk c') (Some (disk c')) (faults c'))
  | _ => (Err Storage, c')
  end.

(** [transaction.commit()] *)
Definition commit : SM (Connection DB) LabError unit := fun c =>
  let c' := pop_io c in
  match next_io c with
  | IoOk => (Ok tt, mkConn (current c') None (faults c'))
  | IoErr => (Err Storage, c')
  | IoLost => (Err Storage, mkConn (current c') None (faults c'))
  end.

(** [Drop] of the transaction: an uncommitted image is discarded. *)
Definition drop_transaction (c : Connection DB) : Connection DB :=
  mkConn (disk c) None (faults c).

Definition clear_faults (c : Connection DB) : Connection DB :=
  mkConn (disk c) (txn c) [].

(** What survives the operation: the durable database. *)
Definition settled (c : Connection DB) : Connection DB := mkConn (disk c) None [].

End Statements.

(** ** State types that own a connection *)

Class HasConn (S DB : Type) : Type := {
  conn : S -> Connection DB;
  set_conn : Connection DB -> S -> S;
}.

Class HasConnLaws (S DB : Type) `{HasConn S DB} : Prop := {
  conn_set : forall c s, conn (set_conn c s) = c;
  set_conn_id : forall s, set_conn (conn s) s = s;
  set_conn_twice : forall c c' s, set_conn c (set_conn c' s) = set_conn c s;
}.

#[global] Instance has_conn_self (DB : Type) : HasConn (Connection DB) DB :=
  {| conn := fun c => c; set_conn := fun c _ => c |}.

#[global] Instance has_conn_self_laws (DB : Type) : HasConnLaws (Connection DB) DB.
Proof. by split. Qed.

Section Owners.
Context {S DB : Type} `{HasConn S DB}.

(** Run a connection-level computation from the owner. *)
Definition on_conn {A} (m : SM (Connection DB) LabError A) : SM S LabError A :=
  sm_zoom conn set_conn m.

Definition dropped (s : S) : S := set_conn (drop_transaction (conn s)) s.

(** A block that holds a transaction: it begins one, and whatever way the block is left, the
    transaction value is dropped. *)
Definition with_transaction {A} (body : SM S LabError A) : SM S LabError A := fun s =>
  match on_conn begin_transaction s with
  | (Ok _, s1) => let '(r, s2) := body s1 in (r, dropped s2)
  | (Err e, s1) => (Err e, s1)
  end.

(** ** Failure containment *)

(** The owner without pending failures, and without an open transaction either. *)
Definition clean (s : S) : S := set_conn (clear_faults (conn s)) s.
Definition settle (s : S) : S := set_conn (settled (conn s)) s.
Definition with_disk (d : DB) (s : S) : S := set_conn (mkConn d None []) s.

Definition in_txn (s : S) : Prop := is_Some (txn (conn s)).

(** A computation that, inside a transaction, leaves the durable database and its owner's other
    fields alone and the transaction open. *)
Definition tx_quiet {A} (m : SM S LabError A) : Prop :=
  forall s, in_txn s -> in_txn (snd (m s)) /\ settle (snd (m s)) = settle s.

(** A run contains storage failures when it returns what the run without failures returns, in
    the same state, or else returns [Storage] with the durable effect of not running or of
    running to completion, and nothing else changed. *)
Definition contained_at {A} (m : SM S LabError A) (s : S) : Prop :=
  let '(r, s1) := m s in let '(r0, s0) := m (clean s) in
    clean s0 = s0 /\
    (r = r0 /\ clean s1 = s0 \/
     r = Err Storage /\
       (settle s1 = settle s \/ settle s1 = with_disk (disk (conn s0)) s)).

Definition contained {A} (m : SM S LabError A) : Prop := forall s, contained_at m s.
Definition tx_contained {A} (m : SM S LabError A) : Prop :=
  forall s, in_txn s -> contained_at m s.

(** A computation that neither fails nor touches the connection. *)
Definition steady {A} (m : SM S LabError A) : Prop :=
  exists v h, (forall s, m s = (Ok v, h s)) /\ (forall s, h (clean s) = clean (h s)) /\
    forall s, conn (h s) = conn s.

End Owners.

Section Containment.
Context {S DB : Type} `{HasConnLaws S DB}.
Implicit Types (s : S) (d : DB).

(** *** Algebra of the owner's fields *)

Lemma clean_clean s : clean (clean s) = clean s.
Proof. unfold clean. by rewrite conn_set, set_conn_twice. Qed.

Lemma settle_clean s : settle (clean s) = settle s.
Proof. unfold settle, clean. by rewrite conn_set, set_conn_twice. Qed.

Lemma settle_set c s : settle (set_conn c s) = with_disk (disk c) s.
Proof. unfold settle, with_disk. by rewrite conn_set, set_conn_twice. Qed.

Lemma with_disk_settle d s : with_disk d (settle s) = with_disk d s.
Proof. unfold with_disk, settle. by rewrite set_conn_twice. Qed.

Lemma with_disk_self s : with_disk (disk (conn s)) s = settle s.
Proof. done. Qed.

Lemma disk_of_settle s s' : settle s = settle s' -> disk (conn s) = disk (conn s').
Proof.
  intros E. apply (f_equal (fun s => disk (conn s))) in E.
  unfold settle in E. by rewrite !conn_set in E.
Qed.

Lemma with_disk_cong d s s' : settle s = settle s' -> with_disk d s = with_disk d s'.
Proof. intros E. by rewrite <- (with_disk_settle d s), E, with_disk_settle. Qed.

Lemma in_txn_clean s : in_txn (clean s) <-> in_txn s.
Proof. unfold in_txn, clean. by rewrite conn_set. Qed.

(** *** Building blocks *)

Lemma contained_at_on_conn {A} (m : SM (Connection DB) LabError A) s :
  contained_at m (conn s) -> contained_at (on_conn m) s.
Proof.
  unfold contained_at, on_conn, sm_zoom, clean, settle, with_disk. rewrite !conn_set.
  cbn [conn set_conn has_conn_self].
  destruct (m (conn s)) as [r c1], (m (clear_faults (conn s))) as [r0 c0].
  rewrite !conn_set, !set_conn_twice. intros [E [[-> E'] | [-> E']]].
  - rewrite E, E'. auto.
  - rewrite E. split; [done|]. right. split; [done|]. destruct E' as [E'|E']; rewrite E'; auto.
Qed.

Lemma tx_quiet_on_conn {A} (m : SM (Connection DB) LabError A) :
  tx_quiet m -> tx_quiet (on_conn m).
Proof.
  unfold tx_quiet, in_txn. intros Hq s Hs. specialize (Hq (conn s) Hs).
  cbn [conn set_conn has_conn_self] in Hq.
  unfold on_conn, sm_zoom. destruct (m (conn s)) as [r c1]. simpl in *.
  destruct Hq as [Ht E]. rewrite conn_set. split; [done|].
  unfold settle in *. rewrite conn_set, set_conn_twice. simpl in E. congruence.
Qed.

Lemma tx_contained_on_conn {A} (m : SM (Connection DB) LabError A) :
  tx_contained m -> tx_contained (on_conn m).
Proof. intros Hm s Hs. apply contained_at_on_conn, Hm, Hs. Qed.

Lemma sm_lift_contained_at {A} (r : Result A) s : contained_at (sm_lift r) s.
Proof. unfold contained_at, sm_lift. rewrite clean_clean. auto. Qed.

Lemma tx_quiet_lift {A} (r : Result A) : tx_quiet (sm_lift r).
Proof. done. Qed.

Lemma tx_contained_lift {A} (r : Result A) : tx_contained (sm_lift r).
Proof. intros s _. apply sm_lift_contained_at. Qed.

Lemma tx_quiet_bind {A B} (m : SM S LabError A) (f : A -> SM S LabError B) :
  tx_quiet m -> (forall a, tx_quiet (f a)) -> tx_quiet (m ≫= f).
Proof.
  intros Hm Hf s Hs. unfold mbind, SM_bind. destruct (Hm s Hs) as [H1 H2].
  destruct (m s) as [[a|e] s1]; simpl in *; [|done].
  destruct (Hf a s1 H1) as [H3 H4]. split; [done|congruence].
Qed.

(** Sequencing after a computation without durable effect. *)
Lemma tx_contained_bind {A B} (m : SM S LabError A) (f : A -> SM S LabError B) :
  tx_quiet m -> tx_contained m -> (forall a, tx_contained (f a)) -> tx_contained (m ≫= f).
Proof.
  intros Hq Hm Hf s Hs. specialize (Hm s Hs).
  destruct (Hq s Hs) as [Hs1 Hq1].
  destruct (Hq (clean s) (proj2 (in_txn_clean s) Hs)) as [Hs0 _].
  unfold contained_at, mbind, SM_bind in *.
  destruct (m s) as [r s1], (m (clean s)) as [r0 s0]; simpl in *.
  destruct Hm as [Hc [[<- <-] | [-> Hd]]].
  - destruct r as [a|e]; [|rewrite clean_clean; auto].
    specialize (Hf a s1 Hs1). unfold contained_at in Hf.
    destruct (f a s1) as [r1 s2], (f a (clean s1)) as [r2 s3].
    destruct Hf as [E1 [?|[-> [E2|E2]]]]; split; auto; right; split; auto.
    + left. congruence.
    + right. by rewrite E2; apply with_disk_cong.
  - destruct r0 as [a|e]; [|auto].
    specialize (Hf a s0 Hs0). unfold contained_at in Hf. rewrite Hc in Hf.
    destruct (f a s0) as [r2 s3]. split; [apply Hf|auto].
Qed.

(** Sequencing before a computation that cannot fail, such as recording an audit event. *)
Lemma contained_at_bind_steady {A B} (m : SM S LabError A) (f : A -> SM S LabError B) s :
  contained_at m s -> (forall a, steady (f a)) -> contained_at (m ≫= f) s.
Proof.
  intros Hm Hf. unfold contained_at, mbind, SM_bind in *.
  destruct (m s) as [r s1], (m (clean s)) as [r0 s0].
  destruct Hm as [Hc [[<- <-] | [-> Hd]]].
  - destruct r as [a|e]; [|rewrite clean_clean; auto].
    destruct (Hf a) as (v & h & Ef & Eh & _). rewrite !Ef, Eh, clean_clean. auto.
  - destruct r0 as [a|e]; [|auto].
    destruct (Hf a) as (v & h & Ef & Eh & Ec). rewrite Ef, <- Eh, Hc, Ec. auto.
Qed.

Lemma tx_contained_bind_steady {A B} (m : SM S LabError A) (f : A -> SM S LabError B) :
  tx_contained m -> (forall a, steady (f a)) -> tx_contained (m ≫= f).
Proof. intros Hm Hf s Hs. by apply contained_at_bind_steady; [apply Hm|]. Qed.

Lemma contained_bind_steady {A B} (m : SM S LabError A) (f : A -> SM S LabError B) :
  contained m -> (forall a, steady (f a)) -> contained (m ≫= f).
Proof. intros Hm Hf s. by apply contained_at_bind_steady. Qed.

Lemma steady_ret {A} (a : A) : steady (S:=S) (mret a).
Proof. by exists a, id. Qed.

Lemma steady_bind {A B} (m : SM S LabError A) (f : A -> SM S LabError B) :
  steady m -> (forall a, steady (f a)) -> steady (m ≫= f).
Proof.
  intros (a & h & E & Hc & Hd) Hf. destruct (Hf a) as (b & k & E' & Hc' & Hd').
  exists b, (fun s => k (h s)). unfold mbind, SM_bind. repeat split; intros s.
  - by rewrite E.
  - by rewrite Hc, Hc'.
  - by rewrite Hd', Hd.
Qed.

Lemma contained_lift_bind {A B} (r : Result A) (f : A -> SM S LabError B) :
  (forall a, r = Ok a -> contained (f a)) -> contained (sm_lift r ≫= f).
Proof.
  intros Hf s. destruct r as [a|e].
  - by apply Hf.
  - apply (sm_lift_contained_at (Err e)).
Qed.

(** The owner just after a transaction began, with the given calls to come. *)
Definition opened (fs : list io) (s : S) : S :=
  set_conn (mkConn (disk (conn s)) (Some (disk (conn s))) fs) s.

Lemma opened_in_txn fs s : in_txn (opened fs s).
Proof. unfold in_txn, opened. rewrite conn_set. eauto. Qed.

Lemma clean_opened fs s : clean (opened fs s) = opened [] s.
Proof. unfold clean, opened. by rewrite conn_set, set_conn_twice. Qed.

Lemma settle_opened fs s : settle (opened fs s) = settle s.
Proof. unfold opened. by rewrite settle_set. Qed.

Lemma clean_dropped s : clean (dropped s) = dropped (clean s).
Proof. unfold clean, dropped. by rewrite !conn_set, !set_conn_twice. Qed.

Lemma settle_dropped s : settle (dropped s) = settle s.
Proof. unfold dropped. by rewrite settle_set. Qed.

Lemma disk_dropped s : disk (conn (dropped s)) = disk (conn s).
Proof. unfold dropped. by rewrite conn_set. Qed.

Lemma on_begin s :
  on_conn begin_transaction s =
    match next_io (conn s) with
    | IoOk => (Ok tt, opened (tail (faults (conn s))) s)
    | _ => (Err Storage, set_conn (pop_io (conn s)) s)
    end.
Proof. unfold on_conn, sm_zoom, begin_transaction. by destruct (next_io (conn s)). Qed.

Lemma with_transaction_clean {A} (body : SM S LabError A) s :
  with_transaction body (clean s) = let '(r, s2) := body (opened [] s) in (r, dropped s2).
Proof.
  unfold with_transaction. rewrite on_begin. unfold clean, opened.
  rewrite conn_set. simpl. by rewrite set_conn_twice.
Qed.

Lemma with_transaction_contained {A} (body : SM S LabError A) :
  tx_contained body -> contained (with_transaction body).
Proof.
  intros Hb s. unfold contained_at. rewrite with_transaction_clean.
  unfold with_transaction. rewrite on_begin.
  pose proof (Hb _ (opened_in_txn [] s)) as Hc. unfold contained_at in Hc.
  rewrite clean_opened in Hc.
  destruct (next_io (conn s)).
  2,3: destruct (body (opened [] s)) as [r0 s0]; rewrite clean_dropped;
    destruct Hc as [-> _]; rewrite settle_set; auto.
  set (fs := tail (faults (conn s))).
  pose proof (Hb _ (opened_in_txn fs s)) as Hf.
  unfold contained_at in Hf. rewrite clean_opened in Hf.
  destruct (body (opened fs s)) as [r s1], (body (opened [] s)) as [r0 s0].
  rewrite !clean_dropped, !settle_dropped, disk_dropped.
  destruct Hf as [E [[-> <-] | [-> Hd]]]; rewrite ?clean_clean, ?E; split; auto.
  right. split; [done|]. rewrite settle_opened in Hd. destruct Hd as [?|Hd]; [auto|].
  right. rewrite Hd. apply with_disk_cong, settle_opened.
Qed.

(** *** The [SQLite] calls *)

Lemma tx_quiet_sql {A} (f : DB -> option (A * DB)) : tx_quiet (sql f).
Proof.
  intros [d [db|] fs] [x Hx]; [|done]. unfold sql, next_io, current, set_current. simpl in *.
  repeat destruct_match_goal; simpl; split; done || by eexists.
Qed.

Lemma tx_contained_sql {A} (f : DB -> option (A * DB)) : tx_contained (sql f).
Proof.
  intros [d [db|] fs] [x Hx]; [|done]. unfold contained_at, sql, clean, next_io, current,
    set_current. simpl in *.
  repeat destruct_match_goal; simplify_eq; simpl; split; auto.
Qed.

Lemma query_contained {A} (f : DB -> option A) : contained (query (DB:=DB) f).
Proof.
  intros [d t fs]. unfold contained_at, query, sql, clean, next_io, current, set_current.
  simpl. destruct (f _) as [a|]; simpl; destruct t; simpl;
    repeat destruct_match_goal; simplify_eq; simpl; split; auto.
Qed.

Lemma autocommit_contained {A} (f : DB -> option (A * DB)) : contained (autocommit f).
Proof.
  intros [d t fs]. unfold contained_at, autocommit, clean, next_io, current, set_current, settle,
    with_disk, settled. simpl.
  destruct (f _) as [[a db]|]; simpl; destruct t; simpl;
    repeat destruct_match_goal; simplify_eq; simpl; split; auto.
Qed.

Lemma tx_contained_commit : tx_contained (commit (DB:=DB)).
Proof.
  intros [d [db|] fs] [x Hx]; [|done]. unfold contained_at, commit, clean, next_io, current.
  simpl in *. repeat destruct_match_goal; simplify_eq; simpl; split; auto.
Qed.

End Containment.

Section ContainmentSugar.
Context {S DB : Type} `{HasConnLaws S DB}.

Lemma tx_quiet_ret {A} (a : A) : tx_quiet (S:=S) (mret a).
Proof. apply (tx_quiet_lift (Ok a)). Qed.

Lemma tx_quiet_throw {A} e : tx_quiet (S:=S) (A:=A) (sm_throw e).
Proof. apply (tx_quiet_lift (Err e)). Qed.

Lemma tx_quiet_guard b e : tx_quiet (S:=S) (sm_guard b e).
Proof. destruct b; [apply tx_quiet_ret | apply tx_quiet_throw]. Qed.

Lemma tx_quiet_on_sql {A} (f : DB -> option (A * DB)) : tx_quiet (S:=S) (on_conn (sql f)).
Proof. apply tx_quiet_on_conn, tx_quiet_sql. Qed.

Lemma tx_quiet_on_query {A} (f : DB -> option A) : tx_quiet (S:=S) (on_conn (query f)).
Proof. apply tx_quiet_on_sql. Qed.

Lemma tx_contained_ret {A} (a : A) : tx_contained (S:=S) (mret a).
Proof. apply (tx_contained_lift (Ok a)). Qed.

Lemma tx_contained_throw {A} e : tx_contained (S:=S) (A:=A) (sm_throw e).
Proof. apply (tx_contained_lift (Err e)). Qed.

Lemma tx_contained_guard b e : tx_contained (S:=S) (sm_guard b e).
Proof. destruct b; [apply tx_contained_ret | apply tx_contained_throw]. Qed.

Lemma tx_contained_on_sql {A} (f : DB -> option (A * DB)) :
  tx_contained (S:=S) (on_conn (sql f)).
Proof. apply tx_contained_on_conn, tx_contained_sql. Qed.

Lemma tx_contained_on_query {A} (f : DB -> option A) :
  tx_contained (S:=S) (on_conn (query f)).
Proof. apply tx_contained_on_sql. Qed.

Lemma tx_contained_on_commit : tx_contained (S:=S) (on_conn (DB:=DB) commit).
Proof. apply tx_contained_on_conn, tx_contained_commit. Qed.

Lemma contained_throw {A} e : contained (S:=S) (A:=A) (sm_throw e).
Proof. intros s. apply (sm_lift_contained_at (Err e)). Qed.

Lemma contained_ret {A} (a : A) : contained (S:=S) (mret a).
Proof. intros s. apply (sm_lift_contained_at (Ok a)). Qed.

Lemma contained_guard_bind {A} b e (f : unit -> SM S LabError A) :
  contained (f tt) -> contained (sm_guard b e ≫= f).
Proof. destruct b; intros Hf; [exact Hf | apply (contained_throw e)]. Qed.

End ContainmentSugar.

(** ** No transaction outlives an operation *)

Definition rests {S DB A} `{HasConn S DB} (m : SM S LabError A) : Prop :=
  forall s, txn (conn s) = None -> txn (conn (snd (m s))) = None.

Section Rests.
Context {S DB : Type} `{HasConnLaws S DB}.

Lemma rests_lift {A} (r : Result A) : rests (S:=S) (sm_lift r).
Proof. by intros s. Qed.

Lemma rests_ret {A} (a : A) : rests (S:=S) (mret a).
Proof. by intros s. Qed.

Lemma rests_guard b e : rests (S:=S) (sm_guard b e).
Proof. by destruct b; intros s. Qed.

Lemma rests_bind {A B} (m : SM S LabError A) (f : A -> SM S LabError B) :
  rests m -> (forall a, rests (f a)) -> rests (m ≫= f).
Proof.
  intros Hm Hf s Hs. unfold mbind, SM_bind. specialize (Hm s Hs).
  destruct (m s) as [[a|e] s1]; [by apply Hf | done].
Qed.

Lemma rests_with_transaction {A} (body : SM S LabError A) : rests (with_transaction body).
Proof.
  intros s Hs. unfold with_transaction. rewrite on_begin. destruct (next_io _).
  - destruct (body _) as [r s2]. simpl. unfold dropped. by rewrite conn_set.
  - simpl. by rewrite conn_set.
  - simpl. by rewrite conn_set.
Qed.

Lemma rests_query {A} (f : DB -> option A) : rests (S:=S) (on_conn (query f)).
Proof.
  intros s Hs. unfold on_conn, sm_zoom, query, sql, set_current. simpl.
  destruct (next_io (conn s)), (f (current (pop_io (conn s)))); simpl;
    rewrite ?Hs; simpl; rewrite ?conn_set; done.
Qed.

Lemma rests_autocommit {A} (f : DB -> option (A * DB)) : rests (S:=S) (on_conn (autocommit f)).
Proof.
  intros s Hs. unfold on_conn, sm_zoom, autocommit, set_current. simpl.
  destruct (next_io (conn s)), (f (current (pop_io (conn s)))) as [[]|]; simpl;
    rewrite ?Hs; simpl; rewrite ?conn_set; done.
Qed.

Lemma rests_steady {A} (m : SM S LabError A) : steady m -> rests m.
Proof. intros (v & h & E & _ & Ec) s Hs. rewrite E. simpl. by rewrite Ec. Qed.

End Rests.

(** ** Reading outside and inside a transaction *)

(** No transaction is open, or one that has not written. *)
Definition calm {S DB} `{HasConn S DB} (s : S) : Prop :=
  txn (conn s) = None \/ txn (conn s) = Some (disk (conn s)).

(** A computation without durable effect, that contains failures. *)
Definition reader {S DB A} `{HasConn S DB} (m : SM S LabError A) : Prop :=
  forall s, calm s -> calm (snd (m s)) /\ settle (snd (m s)) = settle s /\ contained_at m s.

Definition calm_contained {S DB A} `{HasConn S DB} (m : SM S LabError A) : Prop :=
  forall s, calm s -> contained_at m s.

Section Readers.
Context {S DB : Type} `{HasConnLaws S DB}.
Implicit Types (s : S).

Lemma calm_clean s : calm (clean s) <-> calm s.
Proof. unfold calm, clean. by rewrite conn_set. Qed.

Lemma contained_calm {A} (m : SM S LabError A) : contained m -> calm_contained m.
Proof. intros Hm s _. apply Hm. Qed.

Lemma reader_contained {A} (m : SM S LabError A) : reader m -> calm_contained m.
Proof. intros Hm s Hs. by apply Hm. Qed.

(** Sequencing after a reader. *)
Lemma calm_contained_bind {A B} (m : SM S LabError A) (f : A -> SM S LabError B) :
  reader m -> (forall a, calm_contained (f a)) -> calm_contained (m ≫= f).
Proof.
  intros Hm Hf s Hs. destruct (Hm s Hs) as (Hs1 & Hq1 & Hc).
  destruct (Hm (clean s) (proj2 (calm_clean s) Hs)) as (Hs0 & _ & _).
  unfold contained_at, mbind, SM_bind in *.
  destruct (m s) as [r s1], (m (clean s)) as [r0 s0]; simpl in *.
  destruct Hc as [Hc [[<- <-] | [-> Hd]]].
  - destruct r as [a|e]; [|rewrite clean_clean; auto].
    specialize (Hf a s1 Hs1). unfold contained_at in Hf.
    destruct (f a s1) as [r1 s2], (f a (clean s1)) as [r2 s3].
    destruct Hf as [E1 [?|[-> [E2|E2]]]]; split; auto; right; split; auto.
    + left. congruence.
    + right. by rewrite E2; apply with_disk_cong.
  - destruct r0 as [a|e]; [|auto].
    specialize (Hf a s0 Hs0). unfold contained_at in Hf. rewrite Hc in Hf.
    destruct (f a s0) as [r2 s3]. split; [apply Hf|auto].
Qed.

Lemma reader_bind {A B} (m : SM S LabError A) (f : A -> SM S LabError B) :
  reader m -> (forall a, reader (f a)) -> reader (m ≫= f).
Proof.
  intros Hm Hf s Hs. destruct (Hm s Hs) as (Hs1 & Hq1 & _).
  assert (calm_contained (m ≫= f)) as Hc by (apply calm_contained_bind; auto using reader_contained).
  specialize (Hc s Hs). unfold mbind, SM_bind in *.
  destruct (m s) as [[a|e] s1] eqn:E; simpl in *; [|done].
  destruct (Hf a s1 Hs1) as (? & ? & _). split; [done|]. split; [congruence|]. exact Hc.
Qed.

Lemma reader_lift {A} (r : Result A) : reader (S:=S) (sm_lift r).
Proof. intros s Hs. split; [done|]. split; [done|]. apply sm_lift_contained_at. Qed.

Lemma reader_ret {A} (a : A) : reader (S:=S) (mret a).
Proof. apply (reader_lift (Ok a)). Qed.

Lemma reader_guard b e : reader (S:=S) (sm_guard b e).
Proof. destruct b; [apply reader_ret|apply (reader_lift (Err e))]. Qed.

(** On an owner, through its connection. *)
Lemma reader_on_conn {A} (m : SM (Connection DB) LabError A) : reader m -> reader (on_conn m).
Proof.
  intros Hm s Hs. destruct (Hm (conn s) Hs) as (Hc & Hq & Hct).
  split; [|split; [|by apply contained_at_on_conn]]; unfold on_conn, sm_zoom;
    destruct (m (conn s)) as [r c1]; simpl in *.
  - unfold calm in *. by rewrite conn_set.
  - unfold settle in *. rewrite conn_set, set_conn_twice. simpl in Hq. congruence.
Qed.

Lemma reader_query {A} (f : DB -> option A) : reader (query f).
Proof.
  intros c Hc. split; [|split; [|apply query_contained]]; destruct c as [d t fs];
    unfold calm, query, sql, set_current, settle, settled, current in *; simpl in *;
    destruct Hc as [->| ->]; simpl; destruct (next_io _); simpl; try destruct (f d); simpl; auto.
Qed.

Lemma reader_commit : reader (commit (DB:=DB)).
Proof.
  intros [d t fs] Hc. unfold calm, commit, settle, settled, current, next_io, contained_at, clean,
    clear_faults, with_disk in *; simpl in *.
  destruct Hc as [->| ->]; simpl; destruct (default IoOk (head fs)); simpl; auto 8.
Qed.

Lemma reader_on_query {A} (f : DB -> option A) : reader (S:=S) (on_conn (query f)).
Proof. apply reader_on_conn, reader_query. Qed.

Lemma reader_on_commit : reader (S:=S) (on_conn (DB:=DB) commit).
Proof. apply reader_on_conn, reader_commit. Qed.

Lemma calm_opened fs s : calm (opened fs s).
Proof. unfold calm, opened. rewrite conn_set. by right. Qed.

Lemma calm_dropped s : calm (dropped s).
Proof. unfold calm, dropped. rewrite conn_set. by left. Qed.

Lemma reader_with_transaction {A} (body : SM S LabError A) :
  reader body -> reader (with_transaction body).
Proof.
  intros Hb s Hs.
  enough (Hrest : calm (snd (with_transaction body s)) /\
    settle (snd (with_transaction body s)) = settle s).
  { destruct Hrest. split; [done|]. split; [done|]. unfold contained_at. rewrite with_transaction_clean. unfold with_transaction. rewrite on_begin.
    destruct (Hb _ (calm_opened [] s)) as (_ & _ & Hc0). unfold contained_at in Hc0.
    rewrite clean_opened in Hc0.
    destruct (next_io (conn s)).
    2,3: destruct (body (opened [] s)) as [r0 s0]; rewrite clean_dropped;
      destruct Hc0 as [-> _]; rewrite settle_set; auto.
    set (fs := tail (faults (conn s))).
    destruct (Hb _ (calm_opened fs s)) as (_ & Hq & Hf). unfold contained_at in Hf.
    rewrite clean_opened in Hf.
    destruct (body (opened fs s)) as [r s1], (body (opened [] s)) as [r0 s0]. simpl in Hq.
    rewrite !clean_dropped, !settle_dropped.
    destruct Hf as [E [[-> <-] | [-> _]]]; rewrite ?clean_clean, ?E; split; auto.
    right. split; [done|]. left. by rewrite Hq, settle_opened. }
  unfold with_transaction. rewrite on_begin. destruct (next_io (conn s)).
  2,3: unfold calm in *; simpl; rewrite conn_set, settle_set; done.
  set (fs := tail (faults (conn s))). destruct (Hb _ (calm_opened fs s)) as (_ & Hq & _).
  destruct (body (opened fs s)) as [r s1]. simpl in *.
  split; [apply calm_dropped|]. by rewrite settle_dropped, Hq, settle_opened.
Qed.

End Readers.

(** ** Queries, anywhere *)

(** A computation that leaves the durable database and the transaction's image alone wherever it
    runs, and contains failures: a query, or several. *)
Definition observes {DB A} (m : SM (Connection DB) LabError A) : Prop :=
  forall c, disk (snd (m c)) = disk c /\ txn (snd (m c)) = txn c /\ contained_at m c.

Section Observers.
Context {DB : Type}.
Implicit Types (c : Connection DB).

Lemma observes_query {A} (f : DB -> option A) : observes (query f).
Proof.
  intros c. split; [|split; [|apply query_contained]]; destruct c as [d t fs];
    unfold query, sql, set_current, current; destruct (next_io _); try done; simpl;
    destruct (f (default d t)), t; done.
Qed.

Lemma observes_lift {A} (r : Result A) : observes (DB:=DB) (sm_lift r).
Proof. intros c. split; [done|]. split; [done|]. apply sm_lift_contained_at. Qed.

Lemma observes_ret {A} (a : A) : observes (DB:=DB) (mret a).
Proof. apply (observes_lift (Ok a)). Qed.

Lemma observes_throw {A} e : observes (DB:=DB) (A:=A) (sm_throw e).
Proof. apply (observes_lift (Err e)). Qed.

Lemma observes_guard b e : observes (DB:=DB) (sm_guard b e).
Proof. destruct b; [apply observes_ret|apply observes_throw]. Qed.

Lemma observes_settle {A} (m : SM (Connection DB) LabError A) c :
  observes m -> settle (snd (m c)) = settle c.
Proof. intros Hm. destruct (Hm c) as [E _]. unfold settle, settled. simpl. by rewrite E. Qed.

Lemma observes_bind {A B} (m : SM (Connection DB) LabError A) (f : A -> SM (Connection DB) LabError B) :
  observes m -> (forall a, observes (f a)) -> observes (m ≫= f).
Proof.
  intros Hm Hf c. pose proof (observes_settle m c Hm) as Hq1.
  destruct (Hm c) as (Hd1 & Ht1 & Hc). unfold contained_at, mbind, SM_bind in *.
  destruct (m c) as [r c1], (m (clean c)) as [r0 c0]; simpl in Hd1, Ht1, Hq1.
  destruct Hc as [Hc [[<- <-] | [-> Hd]]].
  - destruct r as [a|e]; [|rewrite clean_clean; auto 6].
    destruct (Hf a c1) as (Hd2 & Ht2 & Hc2). unfold contained_at in Hc2.
    destruct (f a c1) as [r1 c2], (f a (clean c1)) as [r2 c3]. simpl in *.
    split; [congruence|]. split; [congruence|]. destruct Hc2 as [E1 [?|[-> [E2|E2]]]];
      (split; [done|]); [by left|right; split; [done|]..]; [left|right]; congruence.
  - simpl. split; [done|]. split; [done|]. destruct r0 as [a|e]; [|auto].
    destruct (Hf a c0) as (_ & _ & Hc0). unfold contained_at in Hc0. rewrite Hc in Hc0.
    destruct (f a c0) as [r2 c3]. split; [apply Hc0|auto].
Qed.

Lemma observes_reader {A} (m : SM (Connection DB) LabError A) : observes m -> reader m.
Proof.
  intros Hm c Hc. destruct (Hm c) as (Hd & Ht & Hct).
  split; [|split; [by apply observes_settle|done]]. unfold calm in *. simpl in *. by rewrite Hd, Ht.
Qed.

Lemma observes_tx_quiet {A} (m : SM (Connection DB) LabError A) : observes m -> tx_quiet m.
Proof.
  intros Hm c Hc. destruct (Hm c) as (_ & Ht & _). split; [|by apply observes_settle].
  unfold in_txn in *. simpl in *. by rewrite Ht.
Qed.

Lemma observes_tx_contained {A} (m : SM (Connection DB) LabError A) : observes m -> tx_contained m.
Proof. intros Hm c _. apply Hm. Qed.

End Observers.

Create HintDb contain.
#[export] Hint Resolve tx_quiet_ret tx_quiet_throw tx_quiet_lift tx_quiet_guard tx_quiet_on_sql
  tx_quiet_on_query tx_quiet_bind tx_contained_ret tx_contained_throw tx_contained_lift
  tx_contained_guard tx_contained_on_sql tx_contained_on_query tx_contained_on_commit
  contained_throw contained_ret steady_ret rests_lift rests_ret rests_guard
  rests_with_transaction rests_query rests_autocommit rests_steady reader_lift reader_ret reader_guard
  reader_on_query reader_on_commit observes_query observes_lift observes_ret observes_throw
  observes_guard : contain.

(** Decide containment of a computation by following its structure: [tx_contained_bind] up to the
    commit, [tx_contained_bind_steady] after it. *)
Ltac contain :=
  repeat first
    [ progress intros
    | solve [eauto 2 with contain typeclass_instances]
    | apply contained_lift_bind
    | apply contained_guard_bind
    | apply with_transaction_contained
    | apply reader_with_transaction
    | apply tx_quiet_bind
    | apply steady_bind
    | apply rests_bind
    | apply reader_bind
    | apply observes_bind
    | apply tx_contained_bind; [solve [contain] | solve [contain] | ]
    | apply tx_contained_bind_steady; [solve [contain] | ]
    | apply contained_bind_steady; [solve [contain] | ]
    | destruct_match_goal ].
