(* ===== verification/RelayDb.v ===== *)
(** * The relay's tables and SQL statements: [src/relay.rs]

    [RelayDb] has one field per table of [CURRENT_SCHEMA_DDL], and one function per SQL
    statement the relay executes. A cell holds what [SQLite] stores: a [BLOB] is a byte list, an
    [INTEGER] a signed integer. [messages] is read in [rowid] order, so it is a list to which an
    insertion appends (a fresh [rowid] is larger than every present one); the other tables are
    only ever accessed by primary key or swept, so they are maps from that key. Constraints of
    the schema ([CHECK], primary keys, foreign keys with [ON DELETE CASCADE]) are part of the
    statements: [None] is a statement that fails. *)

From S2P Require Import Prelude Core Capability.

Record MailboxRow : Type := mkMailbox {
  mb_send_key : list byte;
  mb_receive_key : list byte;
  mb_manage_key : list byte;
  mb_created_at : Z;
}.

Record MessageRow : Type := mkMessage {
  mg_queue_id : list byte;
  mg_message_id : list byte;
  mg_ciphertext : list byte;
  mg_expires_at : Z;
  mg_sender_signature : list byte;
}.

#[global] Instance MailboxRow_eq_dec : EqDecision MailboxRow.
Proof. solve_decision. Defined.
#[global] Instance MessageRow_eq_dec : EqDecision MessageRow.
Proof. solve_decision. Defined.

Record RelayDb : Type := mkDb {
  mailboxes : gmap (list byte) MailboxRow;
  messages : list MessageRow;
  tombstones : gmap (list byte * list byte) Z;
  request_nonces : gmap (list byte * string * list byte) Z;
  registration_nonces : gmap (list byte * list byte) Z;
  retired_queues : gmap (list byte) Z;
}.

Definition empty_db : RelayDb := mkDb ∅ [] ∅ ∅ ∅ ∅.

(** ** Field updates *)

Definition set_mailboxes x db :=
  mkDb x (messages db) (tombstones db) (request_nonces db) (registration_nonces db)
    (retired_queues db).
Definition set_messages x db :=
  mkDb (mailboxes db) x (tombstones db) (request_nonces db) (registration_nonces db)
    (retired_queues db).
Definition set_tombstones x db :=
  mkDb (mailboxes db) (messages db) x (request_nonces db) (registration_nonces db)
    (retired_queues db).
Definition set_request_nonces x db :=
  mkDb (mailboxes db) (messages db) (tombstones db) x (registration_nonces db)
    (retired_queues db).
Definition set_registration_nonces x db :=
  mkDb (mailboxes db) (messages db) (tombstones db) (request_nonces db) x
    (retired_queues db).
Definition set_retired_queues x db :=
  mkDb (mailboxes db) (messages db) (tombstones db) (request_nonces db)
    (registration_nonces db) x.

(** The foreign key [queue_id REFERENCES mailboxes(queue_id)] of a new row. *)
Definition fk_ok (q : list byte) (db : RelayDb) : bool := bool_decide (is_Some (mailboxes db !! q)).

Definition msg_key (m : MessageRow) : list byte * list byte := (mg_queue_id m, mg_message_id m).

(** ** Queries *)

(** [SELECT EXISTS(SELECT 1 FROM retired_queues WHERE queue_hash = ?1)] *)
Definition retired_exists (h : list byte) (db : RelayDb) : bool :=
  bool_decide (is_Some (retired_queues db !! h)).

(** [SELECT EXISTS(SELECT 1 FROM tombstones WHERE queue_id = ?1 AND message_id = ?2
    AND delete_after > ?3)] *)
Definition live_tombstone_exists (q m : list byte) (now : Z) (db : RelayDb) : bool :=
  match tombstones db !! (q, m) with
  | Some delete_after => now <? delete_after
  | None => false
  end.

(** [SELECT EXISTS(SELECT 1 FROM tombstones WHERE queue_id = ?1 AND message_id = ?2)] *)
Definition tombstone_exists (q m : list byte) (db : RelayDb) : bool :=
  bool_decide (is_Some (tombstones db !! (q, m))).

(** [SELECT ... FROM messages WHERE queue_id = ?1 AND message_id = ?2] *)
Definition select_message (q m : list byte) (db : RelayDb) : option MessageRow :=
  snd <$> list_find (fun r => msg_key r = (q, m)) (messages db).

(** [SELECT ... FROM messages WHERE queue_id = ?1 AND expires_at > ?2 ORDER BY rowid ASC] *)
Definition select_queue (q : list byte) (now : Z) (db : RelayDb) : list MessageRow :=
  filter (fun r => mg_queue_id r = q /\ now < mg_expires_at r) (messages db).

(** ** Statements that write; the count is what [execute] returns *)

(** [DELETE FROM messages WHERE expires_at <= ?1] *)
Definition delete_expired_messages (now : Z) (db : RelayDb) : option (nat * RelayDb) :=
  Some (length (filter (fun r => mg_expires_at r <= now) (messages db)),
        set_messages (filter (fun r => ~ mg_expires_at r <= now) (messages db)) db).

(** [DELETE FROM tombstones WHERE delete_after <= ?1] *)
Definition delete_expired_tombstones (now : Z) (db : RelayDb) : option (nat * RelayDb) :=
  Some (size (filter (fun kv => kv.2 <= now) (tombstones db)),
        set_tombstones (filter (fun kv => ~ kv.2 <= now) (tombstones db)) db).

(** [DELETE FROM request_nonces WHERE delete_after <= ?1] *)
Definition delete_expired_request_nonces (now : Z) (db : RelayDb) : option (nat * RelayDb) :=
  Some (size (filter (fun kv => kv.2 <= now) (request_nonces db)),
        set_request_nonces (filter (fun kv => ~ kv.2 <= now) (request_nonces db)) db).

(** [DELETE FROM registration_nonces WHERE delete_after <= ?1] *)
Definition delete_expired_registration_nonces (now : Z) (db : RelayDb)
    : option (nat * RelayDb) :=
  Some (size (filter (fun kv => kv.2 <= now) (registration_nonces db)),
        set_registration_nonces (filter (fun kv => ~ kv.2 <= now) (registration_nonces db)) db).

(** [INSERT OR IGNORE INTO registration_nonces(queue_id, nonce, delete_after)]: a row that
    violates a [CHECK] or the primary key is skipped. *)
Definition insert_or_ignore_registration_nonce (q n : list byte) (t : Z) (db : RelayDb)
    : option (nat * RelayDb) :=
  if bool_decide (length q = 32%nat) && bool_decide (length n = 16%nat)
     && bool_decide (registration_nonces db !! (q, n) = None)
  then Some (1%nat, set_registration_nonces (<[(q, n) := t]> (registration_nonces db)) db)
  else Some (0%nat, db).

(** [INSERT INTO mailboxes(queue_id, send_key, receive_key, manage_key, created_at)] *)
Definition insert_mailbox (q : list byte) (row : MailboxRow) (db : RelayDb)
    : option (nat * RelayDb) :=
  if bool_decide (length q = 32%nat) && bool_decide (length (mb_send_key row) = 32%nat)
     && bool_decide (length (mb_receive_key row) = 32%nat)
     && bool_decide (length (mb_manage_key row) = 32%nat)
     && bool_decide (mailboxes db !! q = None)
  then Some (1%nat, set_mailboxes (<[q := row]> (mailboxes db)) db)
  else None.

(** [INSERT INTO messages(queue_id, message_id, ciphertext, expires_at, sender_signature)] *)
Definition insert_message (row : MessageRow) (db : RelayDb) : option (nat * RelayDb) :=
  if bool_decide (length (mg_message_id row) = 16%nat)
     && bool_decide (length (mg_sender_signature row) = 64%nat)
     && bool_decide (select_message (mg_queue_id row) (mg_message_id row) db = None)
     && fk_ok (mg_queue_id row) db
  then Some (1%nat, set_messages (messages db ++ [row]) db)
  else None.

(** [DELETE FROM messages WHERE queue_id = ?1 AND message_id = ?2] *)
Definition delete_message (q m : list byte) (db : RelayDb) : option (nat * RelayDb) :=
  Some (length (filter (fun r => msg_key r = (q, m)) (messages db)),
        set_messages (filter (fun r => msg_key r <> (q, m)) (messages db)) db).

(** [INSERT INTO tombstones(..) ON CONFLICT(queue_id, message_id) DO UPDATE SET delete_after =
    excluded.delete_after] *)
Definition upsert_tombstone (q m : list byte) (t : Z) (db : RelayDb)
    : option (nat * RelayDb) :=
  if bool_decide (length m = 16%nat) && fk_ok q db
  then Some (1%nat, set_tombstones (<[(q, m) := t]> (tombstones db)) db)
  else None.

(** [INSERT OR IGNORE INTO request_nonces(queue_id, role, nonce, delete_after)]: [OR IGNORE]
    does not cover the foreign key. *)
Definition insert_or_ignore_request_nonce (q : list byte) (role : string) (n : list byte)
    (t : Z) (db : RelayDb) : option (nat * RelayDb) :=
  if bool_decide (length n = 16%nat)
     && bool_decide (request_nonces db !! (q, role, n) = None)
  then if fk_ok q db
       then Some (1%nat, set_request_nonces (<[(q, role, n) := t]> (request_nonces db)) db)
       else None
  else Some (0%nat, db).

(** [INSERT OR IGNORE INTO retired_queues(queue_hash, retired_at)] *)
Definition insert_or_ignore_retired (h : list byte) (t : Z) (db : RelayDb)
    : option (nat * RelayDb) :=
  if bool_decide (length h = 32%nat) && bool_decide (retired_queues db !! h = None)
  then Some (1%nat, set_retired_queues (<[h := t]> (retired_queues db)) db)
  else Some (0%nat, db).

(** [DELETE FROM mailboxes WHERE queue_id = ?1]; the rows of [messages], [tombstones] and
    [request_nonces] that reference the mailbox go with it ([ON DELETE CASCADE]) and are not
    counted. *)
Definition delete_mailbox_row (q : list byte) (db : RelayDb) : option (nat * RelayDb) :=
  match mailboxes db !! q with
  | None => Some (0%nat, db)
  | Some _ =>
      Some (1%nat,
        mkDb (delete q (mailboxes db))
          (filter (fun r => mg_queue_id r <> q) (messages db))
          (filter (fun kv => kv.1.1 <> q) (tombstones db))
          (filter (fun kv => kv.1.1.1 <> q) (request_nonces db))
          (registration_nonces db) (retired_queues db))
  end.
