(* ===== verification/Relay.v ===== *)
(** * The relay's operations: [src/relay.rs]

    [Relay] is the handle: a connection and the audit trail of the process. Each public method
    is a computation on it, in the source's order: checks before the transaction, the
    transaction with its early returns, the commit, the audit event. *)

From S2P Require Import Prelude Core Capability Sqlite RelayDb.

Definition MAX_PACKET_BYTES : Z := 1048576.
Definition MAX_MESSAGE_TTL_SECONDS : Z := 7 * 24 * 60 * 60.
Definition TOMBSTONE_TTL_SECONDS : Z := 7 * 24 * 60 * 60.

Inductive EnqueueOutcome : Type := Stored | Duplicate.
Inductive AckOutcome : Type := Deleted | AlreadyDeleted.

#[global] Instance EnqueueOutcome_eq_dec : EqDecision EnqueueOutcome.
Proof. solve_decision. Defined.
#[global] Instance AckOutcome_eq_dec : EqDecision AckOutcome.
Proof. solve_decision. Defined.

Record Relay : Type := mkRelay {
  connection : Connection RelayDb;
  audit_events : list string;
}.

#[global] Instance relay_has_conn : HasConn Relay RelayDb :=
  {| conn := connection; set_conn := fun c r => mkRelay c (audit_events r) |}.

#[global] Instance relay_has_conn_laws : HasConnLaws Relay RelayDb.
Proof. split; [done | by intros [] | done]. Qed.

Abbreviation RelayM := (SM Relay LabError).

(** [self.audit_events.push(event)] *)
Definition push_event (event : string) : RelayM unit :=
  sm_modify (fun r => mkRelay (connection r) (audit_events r ++ [event])).

(** [connection.execute(..)?] and the read-only [query_row(..)?] *)
Definition execute {A} (f : RelayDb -> option (A * RelayDb)) : RelayM A := on_conn (sql f).
Definition query_row {A} (f : RelayDb -> A) : RelayM A :=
  on_conn (query (fun db => Some (f db))).
Definition commit_transaction : RelayM unit := on_conn commit.

(** ** Helpers *)

Definition validate_request_time (valid_until now : Z) : Result unit :=
  if (valid_until <=? now) || (saturating_add now (5 * 60) <? valid_until)
  then Err RequestExpired else Ok tt.

Definition validate_message_expiry (expires_at now : Z) : Result unit :=
  if (expires_at <=? now) || (saturating_add now MAX_MESSAGE_TTL_SECONDS <? expires_at)
  then Err InvalidExpiry else Ok tt.

Definition purge_expired_in (now : Z) : RelayM nat :=
  now ← sm_lift (to_i64 now);
  deleted ← execute (delete_expired_messages now);
  execute (delete_expired_tombstones now);;
  execute (delete_expired_request_nonces now);;
  execute (delete_expired_registration_nonces now);;
  mret deleted.

Section Operations.
Context `{Crypto : CryptoOps}.

(** The SELECTs of [mailbox_key]: [None] for an unknown column name. *)
Definition mailbox_column (column : string) : option (MailboxRow -> list byte) :=
  if decide (column = "send_key"%string) then Some mb_send_key
  else if decide (column = "receive_key"%string) then Some mb_receive_key
  else if decide (column = "manage_key"%string) then Some mb_manage_key
  else None.

Definition mailbox_key (queue_id : QueueId) (column : string) : RelayM Ed25519PublicKey :=
  match mailbox_column column with
  | None => sm_throw Storage
  | Some col =>
      cell ← query_row (fun db => col <$> mailboxes db !! as_slice queue_id);
      bytes ← sm_lift (ok_or MailboxNotFound cell);
      bytes ← sm_lift (ok_or Storage (array_from_slice 32 bytes));
      sm_lift (ok_or Storage (pk_from_slice bytes))
  end.

Definition record_nonce (queue_id : QueueId) (role : string) (nonce : Nonce)
    (delete_after : Z) : RelayM unit :=
  delete_after ← sm_lift (to_i64 delete_after);
  inserted ← execute (insert_or_ignore_request_nonce (as_slice queue_id) role
                        (as_slice nonce) delete_after);
  sm_guard (bool_decide (inserted = 1%nat)) Unauthorized.

(** ** Operations *)

(** The statements of [Relay::register] between the opening of its transaction and its return. *)
Definition register_transaction (request : MailboxRegistration) (now : Z) : RelayM bool :=
  purge_expired_in now;;
  let queue_hash := as_slice (digest (as_slice (mr_queue_id request))) in
  retired ← query_row (retired_exists queue_hash);
  sm_guard (negb retired) MailboxConflict;;
  existing ← query_row (fun db => mailboxes db !! as_slice (mr_queue_id request));
  match existing with
  | Some row =>
      let same :=
        bool_decide (mb_send_key row = as_slice (pk_as_bytes (mr_send_key request)))
        && bool_decide (mb_receive_key row = as_slice (pk_as_bytes (mr_receive_key request)))
        && bool_decide (mb_manage_key row = as_slice (pk_as_bytes (mr_manage_key request))) in
      sm_guard same MailboxConflict;;
      valid_until ← sm_lift (to_i64 (mr_valid_until request));
      execute (insert_or_ignore_registration_nonce (as_slice (mr_queue_id request))
                 (as_slice (mr_nonce request)) valid_until);;
      commit_transaction;;
      push_event "mailbox_registration_duplicate";;
      mret false
  | None =>
      valid_until ← sm_lift (to_i64 (mr_valid_until request));
      recorded ← execute (insert_or_ignore_registration_nonce
                            (as_slice (mr_queue_id request))
                            (as_slice (mr_nonce request)) valid_until);
      sm_guard (bool_decide (recorded = 1%nat)) Unauthorized;;
      created_at ← sm_lift (to_i64 now);
      execute (insert_mailbox (as_slice (mr_queue_id request))
                 (mkMailbox (as_slice (pk_as_bytes (mr_send_key request)))
                    (as_slice (pk_as_bytes (mr_receive_key request)))
                    (as_slice (pk_as_bytes (mr_manage_key request))) created_at));;
      commit_transaction;;
      push_event "mailbox_registered";;
      mret true
  end.

(** [Relay::register]; [true] for a new mailbox, [false] for an identical retry. *)
Definition register (request : MailboxRegistration) (now : Z) : RelayM bool :=
  sm_lift (validate_request_time (mr_valid_until request) now);;
  sm_guard (verify (mr_manage_key request) (registration_signing_bytes request)
              (mr_signature request)) Unauthorized;;
  with_transaction (register_transaction request now).

(** The statements of [Relay::enqueue] between the opening of its transaction and its return. *)
Definition enqueue_transaction (request : SendRequest) (now : Z) : RelayM EnqueueOutcome :=
  purge_expired_in now;;
  send_key ← mailbox_key (sr_queue_id request) "send_key";
  sm_guard (verify send_key (send_request_signing_bytes request) (sr_signature request))
    Unauthorized;;
  now ← sm_lift (to_i64 now);
  tombstoned ← query_row (live_tombstone_exists (as_slice (sr_queue_id request))
                            (as_slice (sr_message_id request)) now);
  sm_guard (negb tombstoned) MessageGone;;
  existing ← query_row (select_message (as_slice (sr_queue_id request))
                          (as_slice (sr_message_id request)));
  match existing with
  | Some row =>
      if bool_decide (mg_ciphertext row = packet_bytes (sr_packet request))
      then expires_at ← sm_lift (to_i64 (sr_expires_at request));
           sm_guard (mg_expires_at row =? expires_at) MessageConflict;;
           commit_transaction;;
           push_event "message_enqueue_duplicate";;
           mret Duplicate
      else sm_throw MessageConflict
  | None =>
      expires_at ← sm_lift (to_i64 (sr_expires_at request));
      execute (insert_message
                 (mkMessage (as_slice (sr_queue_id request))
                    (as_slice (sr_message_id request)) (packet_bytes (sr_packet request))
                    expires_at (as_slice (sig_to_bytes (sr_signature request)))));;
      commit_transaction;;
      push_event "message_enqueued";;
      mret Stored
  end.

(** [Relay::enqueue] *)
Definition enqueue (request : SendRequest) (now : Z) : RelayM EnqueueOutcome :=
  sm_guard (negb (bool_decide (packet_bytes (sr_packet request) = [])
                  || (MAX_PACKET_BYTES <? Z.of_nat (length (packet_bytes (sr_packet request))))))
    InvalidPayload;;
  sm_lift (validate_message_expiry (sr_expires_at request) now);;
  with_transaction (enqueue_transaction request now).

(** The row mapping of [fetch]: a malformed cell is an [InvalidQuery] error of the call. *)
Definition row_to_envelope (queue_id : QueueId) (row : MessageRow) : Result StoredEnvelope :=
  message_id ← ok_or Storage (MessageId_from_slice (mg_message_id row));
  expires_at ← (if decide (0 <= mg_expires_at row) then Ok (mg_expires_at row)
                else Err Storage);
  sender_signature ← ok_or Storage (sig_from_slice (mg_sender_signature row));
  mret (mkStored queue_id message_id (mkPacket (mg_ciphertext row)) expires_at
          sender_signature).

(** [rows.collect::<Result<Vec<_>, _>>()] *)
Fixpoint collect_rows (queue_id : QueueId) (rows : list MessageRow)
    : Result (list StoredEnvelope) :=
  match rows with
  | [] => mret []
  | row :: rows =>
      e ← row_to_envelope queue_id row;
      es ← collect_rows queue_id rows;
      mret (e :: es)
  end.

(** The statements of [Relay::fetch] between the opening of its transaction and its return. *)
Definition fetch_transaction (request : FetchRequest) (now : Z) : RelayM (list StoredEnvelope) :=
  purge_expired_in now;;
  receive_key ← mailbox_key (fr_queue_id request) "receive_key";
  sm_guard (verify receive_key (fetch_signing_bytes request) (fr_signature request))
    Unauthorized;;
  record_nonce (fr_queue_id request) "receive" (fr_nonce request) (fr_valid_until request);;
  now ← sm_lift (to_i64 now);
  rows ← query_row (select_queue (as_slice (fr_queue_id request)) now);
  envelopes ← sm_lift (collect_rows (fr_queue_id request) rows);
  commit_transaction;;
  push_event "mailbox_fetched";;
  mret envelopes.

(** [Relay::fetch] *)
Definition fetch (request : FetchRequest) (now : Z) : RelayM (list StoredEnvelope) :=
  sm_lift (validate_request_time (fr_valid_until request) now);;
  with_transaction (fetch_transaction request now).

(** The statements of [Relay::acknowledge] between the opening of its transaction and its return. *)
Definition acknowledge_transaction (request : AckRequest) (now : Z) : RelayM AckOutcome :=
  purge_expired_in now;;
  receive_key ← mailbox_key (ar_queue_id request) "receive_key";
  sm_guard (verify receive_key (ack_signing_bytes request) (ar_signature request))
    Unauthorized;;
  existing ← query_row (select_message (as_slice (ar_queue_id request))
                          (as_slice (ar_message_id request)));
  match existing with
  | None =>
      already_deleted ← query_row (tombstone_exists (as_slice (ar_queue_id request))
                                     (as_slice (ar_message_id request)));
      sm_guard already_deleted MessageNotFound;;
      commit_transaction;;
      push_event "message_ack_duplicate";;
      mret AlreadyDeleted
  | Some row =>
      sm_guard (bool_decide (digest (mg_ciphertext row) = ar_packet_hash request))
        Unauthorized;;
      execute (delete_message (as_slice (ar_queue_id request))
                 (as_slice (ar_message_id request)));;
      delete_after ← sm_lift (to_i64 (saturating_add now TOMBSTONE_TTL_SECONDS));
      execute (upsert_tombstone (as_slice (ar_queue_id request))
                 (as_slice (ar_message_id request)) delete_after);;
      commit_transaction;;
      push_event "message_acknowledged_and_deleted";;
      mret Deleted
  end.

(** [Relay::acknowledge] *)
Definition acknowledge (request : AckRequest) (now : Z) : RelayM AckOutcome :=
  sm_lift (validate_request_time (ar_valid_until request) now);;
  with_transaction (acknowledge_transaction request now).

(** The statements of [Relay::delete_mailbox] between the opening of its transaction and its return. *)
Definition delete_mailbox_transaction (request : DeleteMailboxRequest) (now : Z) : RelayM bool :=
  purge_expired_in now;;
  manage_key ← mailbox_key (dr_queue_id request) "manage_key";
  sm_guard (verify manage_key (delete_signing_bytes request) (dr_signature request))
    Unauthorized;;
  record_nonce (dr_queue_id request) "manage" (dr_nonce request) (dr_valid_until request);;
  let queue_hash := as_slice (digest (as_slice (dr_queue_id request))) in
  retired_at ← sm_lift (to_i64 now);
  execute (insert_or_ignore_retired queue_hash retired_at);;
  deleted ← execute (delete_mailbox_row (as_slice (dr_queue_id request)));
  commit_transaction;;
  push_event "mailbox_deleted";;
  mret (bool_decide (deleted = 1%nat)).

(** [Relay::delete_mailbox] *)
Definition delete_mailbox (request : DeleteMailboxRequest) (now : Z) : RelayM bool :=
  sm_lift (validate_request_time (dr_valid_until request) now);;
  with_transaction (delete_mailbox_transaction request now).

End Operations.

(** The statements of [Relay::purge_expired] inside its transaction. *)
Definition purge_transaction (now : Z) : RelayM nat :=
  deleted ← purge_expired_in now; commit_transaction;; mret deleted.

(** [Relay::purge_expired] *)
Definition purge_expired (now : Z) : RelayM nat :=
  deleted ← with_transaction (purge_transaction now);
  (if bool_decide (0 < deleted)%nat then push_event "expired_messages_deleted" else mret tt);;
  mret deleted.

(** [usize::try_from(count).map_err(..)] of a [COUNT( * )]: never negative. *)
Definition queued_message_count_at (now : Z) : RelayM nat :=
  purge_expired now;;
  query_row (fun db => length (messages db)).

(** [Relay::tombstone_count] *)
Definition tombstone_count : RelayM nat := query_row (fun db => size (tombstones db)).

(** [unix_now]: the reading of the system clock, [None] for a time before the epoch. *)
Definition unix_now (clock : option Z) : Result Z := ok_or Storage clock.

(** [Relay::queued_message_count] *)
Definition queued_message_count (clock : option Z) : RelayM nat :=
  now ← sm_lift (unix_now clock); queued_message_count_at now.
