(* ===== verification/RelayFacts.v ===== *)
(** * Relay: the operations as one type, and failure containment *)

From S2P Require Import Prelude Core Capability Sqlite RelayDb Relay.

(** ** The operations as one type *)

Section Commands.
Context `{Crypto : CryptoOps}.

Inductive Command : Type :=
  | Register (r : MailboxRegistration)
  | Enqueue (r : SendRequest)
  | Fetch (r : FetchRequest)
  | Acknowledge (r : AckRequest)
  | DeleteMailbox (r : DeleteMailboxRequest)
  | PurgeExpired.

Inductive Reply : Type :=
  | Registered (fresh : bool)
  | Enqueued (o : EnqueueOutcome)
  | Fetched (es : list StoredEnvelope)
  | Acknowledged (o : AckOutcome)
  | MailboxDeleted (b : bool)
  | Purged (n : nat).

(** One call of a public method at clock value [now]. *)
Definition exec (c : Command) (now : Z) : RelayM Reply :=
  match c with
  | Register r => b ← register r now; mret (Registered b)
  | Enqueue r => o ← enqueue r now; mret (Enqueued o)
  | Fetch r => es ← fetch r now; mret (Fetched es)
  | Acknowledge r => o ← acknowledge r now; mret (Acknowledged o)
  | DeleteMailbox r => b ← delete_mailbox r now; mret (MailboxDeleted b)
  | PurgeExpired => n ← purge_expired now; mret (Purged n)
  end.

End Commands.

(** ** Failure containment *)

Lemma steady_push_event e : steady (push_event e).
Proof. by exists tt, (fun r => mkRelay (connection r) (audit_events r ++ [e])). Qed.

#[export] Hint Resolve steady_push_event : contain.

Lemma tx_quiet_purge now : tx_quiet (purge_expired_in now).
Proof. unfold purge_expired_in, execute. contain. Qed.

Lemma tx_contained_purge now : tx_contained (purge_expired_in now).
Proof. unfold purge_expired_in, execute. contain. Qed.

#[export] Hint Resolve tx_quiet_purge tx_contained_purge : contain.

Section Containment.
Context `{Crypto : CryptoOps}.

Lemma tx_quiet_mailbox_key q col : tx_quiet (mailbox_key q col).
Proof. unfold mailbox_key, query_row. contain. Qed.

Lemma tx_contained_mailbox_key q col : tx_contained (mailbox_key q col).
Proof. unfold mailbox_key, query_row. contain. Qed.

Lemma tx_quiet_record_nonce q role n t : tx_quiet (record_nonce q role n t).
Proof. unfold record_nonce, execute. contain. Qed.

Lemma tx_contained_record_nonce q role n t : tx_contained (record_nonce q role n t).
Proof. unfold record_nonce, execute. contain. Qed.

End Containment.

#[export] Hint Resolve tx_quiet_mailbox_key tx_contained_mailbox_key tx_quiet_record_nonce
  tx_contained_record_nonce : contain.

Section Atomicity.
Context `{Crypto : CryptoOps}.

(** Whatever calls into [SQLite] fail, and even if a commit takes effect although it reports a
    failure, an operation either behaves exactly as without failures or returns [Storage] and
    leaves the durable database as it was or as the failure-free operation leaves it; no
    partial effect is ever visible, and no audit event is recorded for a failed operation. *)
Lemma exec_contained_aux c now : contained (exec c now).
Proof.
  destruct c; simpl; apply contained_bind_steady; try contain;
   unfold register, enqueue, fetch, acknowledge, delete_mailbox, purge_expired,
     register_transaction, enqueue_transaction, fetch_transaction, acknowledge_transaction,
     delete_mailbox_transaction, purge_transaction, execute, query_row, commit_transaction; contain.
Qed.

End Atomicity.
