(* ===== verification/RelayTx.v ===== *)
(** * The relay's operations as transitions of the tables

    Each operation without its plumbing: a function from the durable tables to a reply, the
    audit event and the new tables, or to an error, in which case the tables stay as they are.
    [exec_outcome] states that the operations of [Relay.v] implement these transitions on every
    run, failures of [SQLite] included. *)

From S2P Require Import Prelude Core Capability Sqlite RelayDb Relay RelayFacts.

(** ** The global expiry sweep *)

Definition sweep (now : Z) (db : RelayDb) : RelayDb :=
  mkDb (mailboxes db)
    (filter (fun r => ~ mg_expires_at r <= now) (messages db))
    (filter (fun kv => ~ kv.2 <= now) (tombstones db))
    (filter (fun kv => ~ kv.2 <= now) (request_nonces db))
    (filter (fun kv => ~ kv.2 <= now) (registration_nonces db))
    (retired_queues db).

Definition expired_messages (now : Z) (db : RelayDb) : nat :=
  length (filter (fun r => mg_expires_at r <= now) (messages db)).

Section Tx.
Context `{Crypto : CryptoOps}.

(** The key a mailbox row holds in a column, parsed. *)
Definition stored_key (col : MailboxRow -> list byte) (q : QueueId) (db : RelayDb)
    : Result Ed25519PublicKey :=
  row ← ok_or MailboxNotFound (mailboxes db !! as_slice q);
  bytes ← ok_or Storage (array_from_slice 32 (col row));
  ok_or Storage (pk_from_slice bytes).

(** A successful transaction: the reply, the audit event if any, the new tables. *)
Definition Outcome : Type := Reply * option string * RelayDb.

Definition register_tx (r : MailboxRegistration) (now : Z) (db : RelayDb) : Result Outcome :=
  let q := as_slice (mr_queue_id r) in
  let row := mkMailbox (as_slice (pk_as_bytes (mr_send_key r)))
               (as_slice (pk_as_bytes (mr_receive_key r)))
               (as_slice (pk_as_bytes (mr_manage_key r))) now in
  validate_request_time (mr_valid_until r) now;;
  result_guard (verify (mr_manage_key r) (registration_signing_bytes r) (mr_signature r))
    Unauthorized;;
  to_i64 now;;
  let db := sweep now db in
  result_guard (negb (retired_exists (as_slice (digest q)) db)) MailboxConflict;;
  match mailboxes db !! q with
  | Some old =>
      result_guard (bool_decide (mb_send_key old = mb_send_key row)
                    && bool_decide (mb_receive_key old = mb_receive_key row)
                    && bool_decide (mb_manage_key old = mb_manage_key row)) MailboxConflict;;
      to_i64 (mr_valid_until r);;
      let nonces := registration_nonces db in
      let nonces := match nonces !! (q, as_slice (mr_nonce r)) with
                    | Some _ => nonces
                    | None => <[(q, as_slice (mr_nonce r)) := mr_valid_until r]> nonces
                    end in
      mret (Registered false, Some "mailbox_registration_duplicate"%string,
            set_registration_nonces nonces db)
  | None =>
      to_i64 (mr_valid_until r);;
      result_guard (bool_decide (registration_nonces db !! (q, as_slice (mr_nonce r)) = None))
        Unauthorized;;
      mret (Registered true, Some "mailbox_registered"%string,
            set_mailboxes (<[q := row]> (mailboxes db))
              (set_registration_nonces
                 (<[(q, as_slice (mr_nonce r)) := mr_valid_until r]> (registration_nonces db))
                 db))
  end.

Definition enqueue_tx (r : SendRequest) (now : Z) (db : RelayDb) : Result Outcome :=
  let q := as_slice (sr_queue_id r) in
  let m := as_slice (sr_message_id r) in
  let p := packet_bytes (sr_packet r) in
  result_guard (negb (bool_decide (p = []) || (MAX_PACKET_BYTES <? Z.of_nat (length p))))
    InvalidPayload;;
  validate_message_expiry (sr_expires_at r) now;;
  to_i64 now;;
  let db := sweep now db in
  key ← stored_key mb_send_key (sr_queue_id r) db;
  result_guard (verify key (send_request_signing_bytes r) (sr_signature r)) Unauthorized;;
  result_guard (negb (live_tombstone_exists q m now db)) MessageGone;;
  match select_message q m db with
  | Some row =>
      result_guard (bool_decide (mg_ciphertext row = p)) MessageConflict;;
      to_i64 (sr_expires_at r);;
      result_guard (mg_expires_at row =? sr_expires_at r) MessageConflict;;
      mret (Enqueued Duplicate, Some "message_enqueue_duplicate"%string, db)
  | None =>
      to_i64 (sr_expires_at r);;
      mret (Enqueued Stored, Some "message_enqueued"%string,
            set_messages (messages db ++
              [mkMessage q m p (sr_expires_at r) (as_slice (sig_to_bytes (sr_signature r)))])
              db)
  end.

(** [record_nonce] of a command that found its mailbox. *)
Definition nonce_tx (q : list byte) (role : string) (n : list byte) (t : Z) (db : RelayDb)
    : Result RelayDb :=
  to_i64 t;;
  result_guard (bool_decide (request_nonces db !! (q, role, n) = None)) Unauthorized;;
  mret (set_request_nonces (<[(q, role, n) := t]> (request_nonces db)) db).

Definition fetch_tx (r : FetchRequest) (now : Z) (db : RelayDb) : Result Outcome :=
  let q := as_slice (fr_queue_id r) in
  validate_request_time (fr_valid_until r) now;;
  to_i64 now;;
  let db := sweep now db in
  key ← stored_key mb_receive_key (fr_queue_id r) db;
  result_guard (verify key (fetch_signing_bytes r) (fr_signature r)) Unauthorized;;
  db ← nonce_tx q "receive" (as_slice (fr_nonce r)) (fr_valid_until r) db;
  es ← collect_rows (fr_queue_id r) (select_queue q now db);
  mret (Fetched es, Some "mailbox_fetched"%string, db).

Definition acknowledge_tx (r : AckRequest) (now : Z) (db : RelayDb) : Result Outcome :=
  let q := as_slice (ar_queue_id r) in
  let m := as_slice (ar_message_id r) in
  validate_request_time (ar_valid_until r) now;;
  to_i64 now;;
  let db := sweep now db in
  key ← stored_key mb_receive_key (ar_queue_id r) db;
  result_guard (verify key (ack_signing_bytes r) (ar_signature r)) Unauthorized;;
  match select_message q m db with
  | None =>
      result_guard (tombstone_exists q m db) MessageNotFound;;
      mret (Acknowledged AlreadyDeleted, Some "message_ack_duplicate"%string, db)
  | Some row =>
      result_guard (bool_decide (digest (mg_ciphertext row) = ar_packet_hash r)) Unauthorized;;
      until ← to_i64 (saturating_add now TOMBSTONE_TTL_SECONDS);
      mret (Acknowledged Deleted, Some "message_acknowledged_and_deleted"%string,
            set_tombstones (<[(q, m) := until]> (tombstones db))
              (set_messages (filter (fun r => msg_key r <> (q, m)) (messages db)) db))
  end.

(** What removing a mailbox row removes with it. *)
Definition drop_mailbox (q : list byte) (db : RelayDb) : RelayDb :=
  mkDb (delete q (mailboxes db))
    (filter (fun r => mg_queue_id r <> q) (messages db))
    (filter (fun kv => kv.1.1 <> q) (tombstones db))
    (filter (fun kv => kv.1.1.1 <> q) (request_nonces db))
    (registration_nonces db) (retired_queues db).

Definition delete_tx (r : DeleteMailboxRequest) (now : Z) (db : RelayDb) : Result Outcome :=
  let q := as_slice (dr_queue_id r) in
  let h := as_slice (digest q) in
  validate_request_time (dr_valid_until r) now;;
  to_i64 now;;
  let db := sweep now db in
  key ← stored_key mb_manage_key (dr_queue_id r) db;
  result_guard (verify key (delete_signing_bytes r) (dr_signature r)) Unauthorized;;
  db ← nonce_tx q "manage" (as_slice (dr_nonce r)) (dr_valid_until r) db;
  let retired := match retired_queues db !! h with
                 | Some _ => retired_queues db
                 | None => <[h := now]> (retired_queues db)
                 end in
  mret (MailboxDeleted true, Some "mailbox_deleted"%string,
        drop_mailbox q (set_retired_queues retired db)).

Definition purge_tx (now : Z) (db : RelayDb) : Result Outcome :=
  to_i64 now;;
  let n := expired_messages now db in
  mret (Purged n, if bool_decide (0 < n)%nat then Some "expired_messages_deleted"%string else None,
        sweep now db).

Definition tx (c : Command) (now : Z) (db : RelayDb) : Result Outcome :=
  match c with
  | Register r => register_tx r now db
  | Enqueue r => enqueue_tx r now db
  | Fetch r => fetch_tx r now db
  | Acknowledge r => acknowledge_tx r now db
  | DeleteMailbox r => delete_tx r now db
  | PurgeExpired => purge_tx now db
  end.

End Tx.

(** ** Evaluation without failures *)

(** A relay at rest, and one inside a transaction. *)
Definition at_rest (db : RelayDb) (ev : list string) : Relay := mkRelay (mkConn db None []) ev.
Definition inside (d db : RelayDb) (ev : list string) : Relay :=
  mkRelay (mkConn d (Some db) []) ev.

Lemma run_bind {A B} (m : RelayM A) (f : A -> RelayM B) s :
  (m ≫= f) s = match m s with (Ok a, s') => f a s' | (Err e, s') => (Err e, s') end.
Proof. done. Qed.

Lemma run_lift {A} (r : Result A) s : sm_lift (S:=Relay) r s = (r, s).
Proof. done. Qed.

Lemma run_ret {A} (a : A) s : (mret a : RelayM A) s = (Ok a, s).
Proof. done. Qed.

Lemma run_throw {A} e s : (sm_throw e : RelayM A) s = (Err e, s).
Proof. done. Qed.

Lemma run_guard b e s :
  (sm_guard b e : RelayM unit) s = ((if b then Ok tt else Err e), s).
Proof. by destruct b. Qed.

Lemma run_execute {A} (f : RelayDb -> option (A * RelayDb)) d db ev :
  execute f (inside d db ev) =
    match f db with
    | Some (a, db') => (Ok a, inside d db' ev)
    | None => (Err Storage, inside d db ev)
    end.
Proof.
  unfold execute, on_conn, sm_zoom, sql, inside, current. simpl.
  by destruct (f db) as [[]|].
Qed.

Lemma run_query {A} (f : RelayDb -> A) d db ev :
  query_row f (inside d db ev) = (Ok (f db), inside d db ev).
Proof. done. Qed.

Lemma run_commit d db ev : commit_transaction (inside d db ev) = (Ok tt, at_rest db ev).
Proof. done. Qed.

Lemma run_push e db ev : push_event e (at_rest db ev) = (Ok tt, at_rest db (ev ++ [e])).
Proof. done. Qed.

Lemma run_with_transaction {A} (body : RelayM A) db ev :
  with_transaction body (at_rest db ev) =
    let '(r, s) := body (inside db db ev) in (r, dropped s).
Proof. done. Qed.

Lemma dropped_at_rest db ev : dropped (at_rest db ev) = at_rest db ev.
Proof. done. Qed.

Lemma dropped_inside d db ev : dropped (inside d db ev) = at_rest d ev.
Proof. done. Qed.

Lemma run_purge now d db ev :
  purge_expired_in now (inside d db ev) =
    match to_i64 now with
    | Ok _ => (Ok (expired_messages now db), inside d (sweep now db) ev)
    | Err e => (Err e, inside d db ev)
    end.
Proof.
  unfold purge_expired_in. rewrite run_bind, run_lift.
  destruct (to_i64 now) as [n|e] eqn:E; [|done]. by apply to_i64_ok in E as [-> _].
Qed.

Section Runs.
Context `{Crypto : CryptoOps}.

Lemma run_mailbox_key q column col d db ev :
  mailbox_column column = Some col ->
  mailbox_key q column (inside d db ev) = (stored_key col q db, inside d db ev).
Proof.
  intros Hc. unfold mailbox_key, stored_key. rewrite Hc, run_bind, run_query.
  destruct (mailboxes db !! as_slice q) as [row|]; [|done]. simpl.
  rewrite run_bind, run_lift. simpl. rewrite run_bind, run_lift.
  by destruct (array_from_slice 32 (col row)).
Qed.

Lemma run_record_nonce (q : QueueId) role (n : Nonce) t d db ev :
  is_Some (mailboxes db !! as_slice q) ->
  record_nonce q role n t (inside d db ev) =
    match nonce_tx (as_slice q) role (as_slice n) t db with
    | Ok db' => (Ok tt, inside d db' ev)
    | Err e => (Err e, inside d db ev)
    end.
Proof.
  intros Hq. unfold record_nonce, nonce_tx. rewrite run_bind, run_lift.
  destruct (to_i64 t) as [t'|e] eqn:E; [|done]. apply to_i64_ok in E as [-> _].
  rewrite run_bind, run_execute. unfold insert_or_ignore_request_nonce, fk_ok.
  rewrite (bool_decide_true (length (as_slice n) = 16%nat)) by apply length_as_slice.
  rewrite (bool_decide_true (is_Some _)) by done.
  by destruct (request_nonces db !! (as_slice q, role, as_slice n)).
Qed.

(** One step of both sides of an equation between a run and its transition: evaluate the
    head call of the run, or split on the test both sides branch on next. *)
Ltac run_step :=
  first
    [ rewrite run_bind | rewrite run_lift | rewrite run_ret | rewrite run_throw
    | rewrite run_guard | rewrite run_query | rewrite run_purge | rewrite run_commit
    | rewrite run_push | rewrite run_with_transaction
    | rewrite run_execute | rewrite dropped_at_rest | rewrite dropped_inside
    | progress cbn [mbind result_bind mret result_ret ok_or] ].

Ltac split_on t := destruct t eqn:?; repeat run_step; try done.

Definition finish {A} (db : RelayDb) (ev : list string) (r : Result (A * option string * RelayDb))
    : Result A * Relay :=
  match r with
  | Ok (v, e, db') => (Ok v, at_rest db' (ev ++ option_list e))
  | Err e => (Err e, at_rest db ev)
  end.

Ltac split_i64 t :=
  let E := fresh "E" in
  destruct (to_i64 t) as [?|?] eqn:E; [apply to_i64_ok in E as [-> E]|];
  repeat run_step; try done.

Lemma exec_register r now db ev :
  exec (Register r) now (at_rest db ev) = finish db ev (register_tx r now db).
Proof.
  unfold exec, register, register_transaction, register_tx, result_guard,
    insert_or_ignore_registration_nonce,
    insert_mailbox. repeat run_step.
  split_on (validate_request_time (mr_valid_until r) now).
  split_on (verify (mr_manage_key r) (registration_signing_bytes r) (mr_signature r)).
  split_i64 now.
  generalize dependent (sweep now db). intros swept.
  split_on (retired_exists (as_slice (digest (as_slice (mr_queue_id r)))) swept).
  rewrite !length_as_slice, !bool_decide_true by done. cbn [andb].
  destruct (mailboxes _ !! _) as [row|] eqn:Eq; repeat run_step.
  - cbn [mb_send_key mb_receive_key mb_manage_key].
    destruct (_ && _ && _); repeat run_step; try done.
    split_i64 (mr_valid_until r). destruct (registration_nonces _ !! _); [by destruct swept|done].
  - split_i64 (mr_valid_until r).
    destruct (registration_nonces _ !! _); repeat run_step; try done.
    simpl. repeat run_step. simpl.
    rewrite !length_as_slice, Eq, !bool_decide_true by done. done.
Qed.

Lemma stored_key_found col q db k :
  stored_key col q db = Ok k -> is_Some (mailboxes db !! as_slice q).
Proof. unfold stored_key. destruct (mailboxes db !! _); [by eexists|done]. Qed.

Lemma exec_enqueue r now db ev :
  exec (Enqueue r) now (at_rest db ev) = finish db ev (enqueue_tx r now db).
Proof.
  unfold exec, enqueue, enqueue_transaction, enqueue_tx, result_guard, insert_message, fk_ok. repeat run_step.
  destruct (negb _); repeat run_step; try done.
  split_on (validate_message_expiry (sr_expires_at r) now). split_i64 now.
  generalize dependent (sweep now db). intros swept.
  rewrite (run_mailbox_key _ _ mb_send_key) by done.
  split_on (stored_key mb_send_key (sr_queue_id r) swept).
  split_on (verify a0 (send_request_signing_bytes r) (sr_signature r)).
  split_on (live_tombstone_exists (as_slice (sr_queue_id r)) (as_slice (sr_message_id r))
              now swept).
  destruct (select_message _ _ _) as [row|] eqn:Em; repeat run_step.
  - destruct (bool_decide _); repeat run_step; try done.
    split_i64 (sr_expires_at r). by destruct (_ =? _).
  - split_i64 (sr_expires_at r). simpl.
    rewrite !length_as_slice, Em, !bool_decide_true by eauto using stored_key_found. done.
Qed.

Lemma exec_fetch r now db ev :
  exec (Fetch r) now (at_rest db ev) = finish db ev (fetch_tx r now db).
Proof.
  unfold exec, fetch, fetch_transaction, fetch_tx, result_guard. repeat run_step.
  split_on (validate_request_time (fr_valid_until r) now). split_i64 now.
  generalize dependent (sweep now db). intros swept.
  rewrite (run_mailbox_key _ _ mb_receive_key) by done.
  split_on (stored_key mb_receive_key (fr_queue_id r) swept).
  split_on (verify a0 (fetch_signing_bytes r) (fr_signature r)).
  rewrite run_record_nonce by eauto using stored_key_found.
  split_on (nonce_tx (as_slice (fr_queue_id r)) "receive" (as_slice (fr_nonce r))
              (fr_valid_until r) swept).
  by destruct (collect_rows _ _).
Qed.

Lemma exec_acknowledge r now db ev :
  exec (Acknowledge r) now (at_rest db ev) = finish db ev (acknowledge_tx r now db).
Proof.
  unfold exec, acknowledge, acknowledge_transaction, acknowledge_tx, result_guard, delete_message, upsert_tombstone,
    fk_ok. repeat run_step.
  split_on (validate_request_time (ar_valid_until r) now). split_i64 now.
  generalize dependent (sweep now db). intros swept.
  rewrite (run_mailbox_key _ _ mb_receive_key) by done.
  split_on (stored_key mb_receive_key (ar_queue_id r) swept).
  split_on (verify a0 (ack_signing_bytes r) (ar_signature r)).
  destruct (select_message _ _ _) as [row|] eqn:Em; repeat run_step.
  - destruct (bool_decide _); repeat run_step; try done.
    split_i64 (saturating_add now TOMBSTONE_TTL_SECONDS).
    rewrite !length_as_slice, !bool_decide_true by eauto using stored_key_found. done.
  - by destruct (tombstone_exists _ _ _).
Qed.

Lemma mailboxes_nonce_tx q role n t db db' :
  nonce_tx q role n t db = Ok db' ->
  db' = set_request_nonces (<[(q, role, n) := t]> (request_nonces db)) db /\
  request_nonces db !! (q, role, n) = None /\ t <= I64_MAX.
Proof.
  unfold nonce_tx, result_guard. destruct (to_i64 t) as [t'|] eqn:E; [|done].
  apply to_i64_ok in E as [-> Ht]. cbn. destruct (bool_decide _) eqn:Eb; [|done].
  apply bool_decide_eq_true in Eb. intros [= <-]. auto.
Qed.

Lemma exec_delete r now db ev :
  exec (DeleteMailbox r) now (at_rest db ev) = finish db ev (delete_tx r now db).
Proof.
  unfold exec, delete_mailbox, delete_mailbox_transaction, delete_tx, result_guard, insert_or_ignore_retired,
    delete_mailbox_row. repeat run_step.
  split_on (validate_request_time (dr_valid_until r) now). split_i64 now.
  generalize dependent (sweep now db). intros swept.
  rewrite (run_mailbox_key _ _ mb_manage_key) by done.
  split_on (stored_key mb_manage_key (dr_queue_id r) swept).
  split_on (verify a0 (delete_signing_bytes r) (dr_signature r)).
  rewrite run_record_nonce by eauto using stored_key_found.
  split_on (nonce_tx (as_slice (dr_queue_id r)) "manage" (as_slice (dr_nonce r))
              (dr_valid_until r) swept).
  apply stored_key_found in Heqr1 as [row Hrow].
  apply mailboxes_nonce_tx in Heqr2 as (-> & _ & _).
  rewrite length_as_slice, bool_decide_true by done. cbn [andb].
  simpl. destruct (retired_queues swept !! as_slice (digest (as_slice (dr_queue_id r))));
    simpl; repeat run_step; simpl; rewrite Hrow; by destruct swept.
Qed.

Lemma exec_purge now db ev :
  exec PurgeExpired now (at_rest db ev) = finish db ev (purge_tx now db).
Proof.
  unfold exec, purge_expired, purge_transaction, purge_tx. repeat run_step. split_i64 now.
  destruct (bool_decide _); repeat run_step; simpl; [done|by rewrite app_nil_r].
Qed.

Lemma exec_rests c now : rests (exec c now).
Proof.
  destruct c; unfold exec, register, enqueue, fetch, acknowledge, delete_mailbox, purge_expired,
    register_transaction, enqueue_transaction, fetch_transaction, acknowledge_transaction,
    delete_mailbox_transaction, purge_transaction;
    contain.
Qed.

Lemma exec_tx c now db ev : exec c now (at_rest db ev) = finish db ev (tx c now db).
Proof.
  destruct c; eauto using exec_register, exec_enqueue, exec_fetch, exec_acknowledge,
    exec_delete, exec_purge.
Qed.

Lemma settle_at_rest s : settle s = at_rest (disk (connection s)) (audit_events s).
Proof. done. Qed.

Lemma clean_at_rest s :
  txn (connection s) = None -> clean s = at_rest (disk (connection s)) (audit_events s).
Proof. destruct s as [[d t fs] ev]. simpl. by intros ->. Qed.

(** The run of an operation on a relay at rest with arbitrary failures to come. *)
Lemma exec_outcome c now s :
  txn (connection s) = None ->
  let '(r, s') := exec c now s in
  txn (connection s') = None /\
  ((match tx c now (disk (connection s)) with
    | Ok (v, e, db') =>
        r = Ok v /\ disk (connection s') = db' /\
        audit_events s' = audit_events s ++ option_list e
    | Err e =>
        r = Err e /\ disk (connection s') = disk (connection s) /\
        audit_events s' = audit_events s
    end)
   \/ r = Err Storage /\ audit_events s' = audit_events s /\
      (disk (connection s') = disk (connection s) \/
       exists v e, tx c now (disk (connection s)) = Ok (v, e, disk (connection s')))).
Proof.
  intros Hs. pose proof (exec_contained_aux c now s) as Hc. pose proof (exec_rests c now s Hs) as Hr.
  unfold contained_at in Hc. rewrite (clean_at_rest s Hs), exec_tx in Hc.
  destruct (exec c now s) as [r s']. simpl in Hr. split; [done|].
  unfold finish in Hc. rewrite clean_at_rest, !settle_at_rest in Hc by done.
  destruct (tx c now _) as [[[v e] db']|e]; destruct Hc as [_ [[-> E] | [-> [E|E]]]];
    injection E as E1 E2; naive_solver.
Qed.

End Runs.
