(* ===== verification/RelayInv.v ===== *)
(** * The relay's invariant

    What holds of the durable tables after every operation, whatever calls into [SQLite] fail:
    the constraints of the schema, and beyond them that every stored packet carries a signature
    of its mailbox's send key, and that a message identifier is never both queued and
    tombstoned. *)

From S2P Require Import Prelude Core Capability Sqlite RelayDb Relay RelayFacts RelayTx.

Section Invariant.
Context `{Crypto : CryptoOps}.

(** The key bytes of a column parse to a public key. *)
Definition parses_to (bytes : list byte) (k : Ed25519PublicKey) : Prop :=
  exists a : array 32, as_slice a = bytes /\ pk_from_slice a = Some k.

(** A queued row carries a signature, by the send key of its mailbox, of its own fields. *)
Definition authentic (db : RelayDb) (row : MessageRow) : Prop :=
  exists (q : QueueId) (m : MessageId) (mb : MailboxRow) k s,
    as_slice q = mg_queue_id row /\ as_slice m = mg_message_id row /\
    mailboxes db !! mg_queue_id row = Some mb /\ parses_to (mb_send_key mb) k /\
    as_slice (sig_to_bytes s) = mg_sender_signature row /\
    verify k (send_signing_bytes q m (mkPacket (mg_ciphertext row)) (mg_expires_at row)) s
      = true.

Record db_wf (db : RelayDb) : Prop := {
  wf_mailbox q mb : mailboxes db !! q = Some mb ->
    length q = 32%nat /\ (exists k, parses_to (mb_send_key mb) k) /\
    (exists k, parses_to (mb_receive_key mb) k) /\ (exists k, parses_to (mb_manage_key mb) k);
  wf_nodup : NoDup (msg_key <$> messages db);
  wf_message row : row ∈ messages db ->
    authentic db row /\ 0 <= mg_expires_at row <= I64_MAX /\
    0 < Z.of_nat (length (mg_ciphertext row)) <= MAX_PACKET_BYTES;
  wf_tombstone q m t : tombstones db !! (q, m) = Some t ->
    is_Some (mailboxes db !! q) /\ length m = 16%nat /\ (q, m) ∉ msg_key <$> messages db;
  wf_nonce q role n t : request_nonces db !! (q, role, n) = Some t ->
    is_Some (mailboxes db !! q) /\ length n = 16%nat;
}.

(** ** Lookups *)

Lemma select_message_Some q m db row :
  select_message q m db = Some row -> row ∈ messages db /\ msg_key row = (q, m).
Proof.
  unfold select_message. intros ([i x] & H & ->)%fmap_Some.
  apply list_find_Some in H as (H & Hk & _). split; [|exact Hk].
  by eapply list_elem_of_lookup_2.
Qed.

Lemma select_message_None q m db row :
  select_message q m db = None -> row ∈ messages db -> msg_key row <> (q, m).
Proof.
  unfold select_message. intros H%fmap_None Hr Hk.
  apply list_find_None in H. rewrite Forall_forall in H. by apply (H row).
Qed.

Lemma select_message_None_keys q m db :
  select_message q m db = None <-> (q, m) ∉ msg_key <$> messages db.
Proof.
  unfold select_message. rewrite fmap_None, list_find_None, Forall_forall.
  rewrite list_elem_of_fmap. split.
  - intros H (row & E & Hr). by apply (H row Hr).
  - intros H row Hr E. apply H. by exists row.
Qed.

Lemma nodup_key_eq db r1 r2 :
  NoDup (msg_key <$> messages db) -> r1 ∈ messages db -> r2 ∈ messages db ->
  msg_key r1 = msg_key r2 -> r1 = r2.
Proof.
  intros Hn H1 H2 E. apply list_elem_of_lookup in H1 as [i Hi], H2 as [j Hj].
  assert (i = j) as ->; [|congruence].
  apply (NoDup_lookup _ i j (msg_key r1)) in Hn; [done|..];
    rewrite list_lookup_fmap; [by rewrite Hi | rewrite Hj; simpl; congruence].
Qed.

(** With unique keys, the selected row is the row. *)
Lemma select_message_iff q m db row :
  NoDup (msg_key <$> messages db) ->
  select_message q m db = Some row <-> row ∈ messages db /\ msg_key row = (q, m).
Proof.
  intros Hn. split; [apply select_message_Some|]. intros [Hr Hk].
  destruct (select_message q m db) as [r|] eqn:E.
  - apply select_message_Some in E as [? ?]. f_equal. apply (nodup_key_eq db); congruence.
  - by destruct (select_message_None _ _ _ _ E Hr).
Qed.

Lemma NoDup_fmap_filter {A B} (f : A -> B) (P : A -> Prop) `{forall x, Decision (P x)} l :
  NoDup (f <$> l) -> NoDup (f <$> filter P l).
Proof.
  induction l as [|x l IH]; [done|]. rewrite fmap_cons, NoDup_cons. intros [Hx Hl].
  rewrite filter_cons. case_decide; [|auto]. rewrite fmap_cons, NoDup_cons.
  split; [|auto]. rewrite list_elem_of_fmap in *. intros (y & ? & Hy).
  apply Hx. exists y. split; [done|]. by apply list_elem_of_filter in Hy as [_ ?].
Qed.

(** ** What a successful transition says *)

Lemma validate_request_time_ok t now u :
  validate_request_time t now = Ok u -> now < t <= saturating_add now (5 * 60).
Proof.
  unfold validate_request_time.
  destruct (Z.leb_spec t now), (Z.ltb_spec (saturating_add now (5 * 60)) t); simpl; naive_solver.
Qed.

Lemma validate_message_expiry_ok t now u :
  validate_message_expiry t now = Ok u ->
  now < t <= saturating_add now MAX_MESSAGE_TTL_SECONDS.
Proof.
  unfold validate_message_expiry.
  destruct (Z.leb_spec t now), (Z.ltb_spec (saturating_add now MAX_MESSAGE_TTL_SECONDS) t);
    simpl; naive_solver.
Qed.

Lemma stored_key_ok col q db k :
  stored_key col q db = Ok k ->
  exists mb, mailboxes db !! as_slice q = Some mb /\ parses_to (col mb) k.
Proof.
  unfold stored_key. intros H. inv_ok H. apply ok_or_ok in H. exists v. split; [done|].
  exists v0. by apply array_from_slice_Some in Hv0.
Qed.

Definition registration_row (r : MailboxRegistration) (now : Z) : MailboxRow :=
  mkMailbox (as_slice (pk_as_bytes (mr_send_key r)))
    (as_slice (pk_as_bytes (mr_receive_key r))) (as_slice (pk_as_bytes (mr_manage_key r))) now.

Definition same_keys (a b : MailboxRow) : Prop :=
  mb_send_key a = mb_send_key b /\ mb_receive_key a = mb_receive_key b /\
  mb_manage_key a = mb_manage_key b.

Lemma register_tx_ok r now db v e db' :
  register_tx r now db = Ok (v, e, db') ->
  let q := as_slice (mr_queue_id r) in
  let n := (q, as_slice (mr_nonce r)) in
  now < mr_valid_until r <= saturating_add now (5 * 60) /\ now <= I64_MAX /\
  mr_valid_until r <= I64_MAX /\
  verify (mr_manage_key r) (registration_signing_bytes r) (mr_signature r) = true /\
  retired_queues db !! as_slice (digest q) = None /\
  ((exists old, v = Registered false /\ e = Some "mailbox_registration_duplicate"%string /\
      mailboxes db !! q = Some old /\ same_keys old (registration_row r now) /\
      exists nonces, db' = set_registration_nonces nonces (sweep now db) /\
        forall k t, nonces !! k = Some t ->
          registration_nonces (sweep now db) !! k = Some t \/ t = mr_valid_until r)
   \/ v = Registered true /\ e = Some "mailbox_registered"%string /\
      mailboxes db !! q = None /\
      registration_nonces (sweep now db) !! n = None /\
      db' = set_mailboxes (<[q := registration_row r now]> (mailboxes db))
              (set_registration_nonces
                 (<[n := mr_valid_until r]> (registration_nonces (sweep now db)))
                 (sweep now db))).
Proof.
  unfold register_tx. intros H. inv_ok H.
  apply validate_request_time_ok in Hv. apply to_i64_ok in Hv1 as [-> Hv1].
  apply negb_true_iff, bool_decide_eq_false in Hv2.
  rewrite <- eq_None_not_Some in Hv2.
  change (mailboxes (sweep now db)) with (mailboxes db) in H.
  destruct (mailboxes db !! _) as [old|] eqn:E; inv_ok H.
  - apply to_i64_ok in Hv4 as [-> Hv4]. rewrite !andb_true_iff, !bool_decide_eq_true in Hv3.
    injection H as <- <- <-. repeat split; try done || lia. left. exists old.
    repeat split; [tauto..|]. eexists. split; [done|]. intros k t.
    destruct_match_goal; [by left|].
    intros [[_ ->]|[_ ?]]%lookup_insert_Some; [by right|by left].
  - apply to_i64_ok in Hv3 as [-> Hv3]. apply bool_decide_eq_true in Hv4.
    injection H as <- <- <-. repeat split; try done || lia. by right.
Qed.

Lemma enqueue_tx_ok r now db v e db' :
  enqueue_tx r now db = Ok (v, e, db') ->
  let q := as_slice (sr_queue_id r) in
  let m := as_slice (sr_message_id r) in
  let p := packet_bytes (sr_packet r) in
  0 < Z.of_nat (length p) <= MAX_PACKET_BYTES /\
  now < sr_expires_at r <= saturating_add now MAX_MESSAGE_TTL_SECONDS /\
  now <= I64_MAX /\ sr_expires_at r <= I64_MAX /\
  (exists mb k, mailboxes db !! q = Some mb /\ parses_to (mb_send_key mb) k /\
     verify k (send_request_signing_bytes r) (sr_signature r) = true) /\
  tombstones (sweep now db) !! (q, m) = None /\
  ((exists row, v = Enqueued Duplicate /\ e = Some "message_enqueue_duplicate"%string /\
      select_message q m (sweep now db) = Some row /\ mg_ciphertext row = p /\
      mg_expires_at row = sr_expires_at r /\ db' = sweep now db)
   \/ v = Enqueued Stored /\ e = Some "message_enqueued"%string /\
      select_message q m (sweep now db) = None /\
      db' = set_messages (messages (sweep now db) ++
              [mkMessage q m p (sr_expires_at r) (as_slice (sig_to_bytes (sr_signature r)))])
              (sweep now db)).
Proof.
  unfold enqueue_tx. intros H. inv_ok H.
  apply negb_true_iff, orb_false_iff in Hv as [Hv%bool_decide_eq_false Hp2%Z.ltb_ge].
  apply validate_message_expiry_ok in Hv0. apply to_i64_ok in Hv1 as [-> Hv1].
  apply stored_key_ok in Hv2 as (mb & Hmb & Hv2). apply negb_true_iff in Hv4.
  assert (tombstones (sweep now db) !! (as_slice (sr_queue_id r), as_slice (sr_message_id r))
          = None).
  { unfold live_tombstone_exists in Hv4. destruct (tombstones _ !! _) as [t|] eqn:E; [|done].
    simpl in E. apply map_lookup_filter_Some in E as [_ E]. simpl in E.
    apply Z.ltb_ge in Hv4. lia. }
  assert (0 < Z.of_nat (length (packet_bytes (sr_packet r)))).
  { destruct (packet_bytes _); simpl; [done|lia]. }
  destruct (select_message _ _ _) as [row|] eqn:E; inv_ok H; injection H as <- <- <-.
  - apply bool_decide_eq_true in Hv5. apply to_i64_ok in Hv6 as [-> Hv6].
    apply Z.eqb_eq in Hv7. repeat split; try done || lia; [by eauto|]. left. by exists row.
  - apply to_i64_ok in Hv5 as [-> Hv5]. repeat split; try done || lia; [by eauto|]. by right.
Qed.

Lemma fetch_tx_ok r now db v e db' :
  fetch_tx r now db = Ok (v, e, db') ->
  let q := as_slice (fr_queue_id r) in
  let n := (q, "receive"%string, as_slice (fr_nonce r)) in
  now < fr_valid_until r <= saturating_add now (5 * 60) /\ now <= I64_MAX /\
  (exists mb k, mailboxes db !! q = Some mb /\ parses_to (mb_receive_key mb) k /\
     verify k (fetch_signing_bytes r) (fr_signature r) = true) /\
  request_nonces (sweep now db) !! n = None /\
  e = Some "mailbox_fetched"%string /\
  (exists es, v = Fetched es /\
     collect_rows (fr_queue_id r) (select_queue q now (sweep now db)) = Ok es) /\
  db' = set_request_nonces (<[n := fr_valid_until r]> (request_nonces (sweep now db)))
          (sweep now db).
Proof.
  unfold fetch_tx. intros H. inv_ok H.
  apply validate_request_time_ok in Hv. apply to_i64_ok in Hv0 as [-> Hv0].
  apply stored_key_ok in Hv1 as (mb & Hmb & Hv1).
  apply mailboxes_nonce_tx in Hv3 as (-> & Hn & _).
  injection H as <- <- <-. repeat split; try done || lia; eauto.
Qed.

Lemma acknowledge_tx_ok r now db v e db' :
  acknowledge_tx r now db = Ok (v, e, db') ->
  let q := as_slice (ar_queue_id r) in
  let m := as_slice (ar_message_id r) in
  now < ar_valid_until r <= saturating_add now (5 * 60) /\ now <= I64_MAX /\
  (exists mb k, mailboxes db !! q = Some mb /\ parses_to (mb_receive_key mb) k /\
     verify k (ack_signing_bytes r) (ar_signature r) = true) /\
  ((exists row, v = Acknowledged Deleted /\
      e = Some "message_acknowledged_and_deleted"%string /\
      select_message q m (sweep now db) = Some row /\
      digest (mg_ciphertext row) = ar_packet_hash r /\
      saturating_add now TOMBSTONE_TTL_SECONDS <= I64_MAX /\
      db' = set_tombstones
              (<[(q, m) := saturating_add now TOMBSTONE_TTL_SECONDS]>
                 (tombstones (sweep now db)))
              (set_messages (filter (fun r => msg_key r <> (q, m)) (messages (sweep now db)))
                 (sweep now db)))
   \/ v = Acknowledged AlreadyDeleted /\ e = Some "message_ack_duplicate"%string /\
      select_message q m (sweep now db) = None /\
      is_Some (tombstones (sweep now db) !! (q, m)) /\ db' = sweep now db).
Proof.
  unfold acknowledge_tx. intros H. inv_ok H.
  apply validate_request_time_ok in Hv. apply to_i64_ok in Hv0 as [-> Hv0].
  apply stored_key_ok in Hv1 as (mb & Hmb & Hv1).
  destruct (select_message _ _ _) as [row|] eqn:E; inv_ok H; injection H as <- <- <-.
  - apply bool_decide_eq_true in Hv3. apply to_i64_ok in Hv4 as [-> Hv4].
    repeat split; try done || lia; [by eauto|]. left. by exists row.
  - apply bool_decide_eq_true in Hv3.
    repeat split; try done || lia; [by eauto|]. by right.
Qed.

Lemma delete_tx_ok r now db v e db' :
  delete_tx r now db = Ok (v, e, db') ->
  let q := as_slice (dr_queue_id r) in
  let n := (q, "manage"%string, as_slice (dr_nonce r)) in
  now < dr_valid_until r <= saturating_add now (5 * 60) /\ now <= I64_MAX /\
  (exists mb k, mailboxes db !! q = Some mb /\ parses_to (mb_manage_key mb) k /\
     verify k (delete_signing_bytes r) (dr_signature r) = true) /\
  request_nonces (sweep now db) !! n = None /\
  v = MailboxDeleted true /\ e = Some "mailbox_deleted"%string /\
  exists nonces retired,
    db' = drop_mailbox q (set_retired_queues retired
            (set_request_nonces (<[n := nonces]> (request_nonces (sweep now db)))
               (sweep now db))) /\
    is_Some (retired !! as_slice (digest q)) /\
    (forall h, h <> as_slice (digest q) -> retired !! h = retired_queues db !! h).
Proof.
  unfold delete_tx. intros H. inv_ok H.
  apply validate_request_time_ok in Hv. apply to_i64_ok in Hv0 as [-> Hv0].
  apply stored_key_ok in Hv1 as (mb & Hmb & Hv1).
  apply mailboxes_nonce_tx in Hv3 as (-> & Hn & _).
  injection H as <- <- <-. repeat split; try done || lia; [by eauto|].
  eexists _, _. split; [done|]. simpl.
  destruct (retired_queues db !! _) eqn:E; [by eauto|]. split; [by simplify_map_eq|].
  intros h Hh. by rewrite lookup_insert_ne.
Qed.

(** ** Preservation *)

Lemma authentic_mono db db' row :
  (forall mb, mailboxes db !! mg_queue_id row = Some mb ->
     mailboxes db' !! mg_queue_id row = Some mb) ->
  authentic db row -> authentic db' row.
Proof. intros Hm (q & m & mb & k & s & ? & ? & Hmb & Hr). exists q, m, mb, k, s. auto. Qed.

Lemma fmap_filter_elem {A B} (f : A -> B) (P : A -> Prop) `{forall x, Decision (P x)}
    (l : list A) (y : B) :
  y ∈ f <$> filter P l -> y ∈ f <$> l.
Proof.
  rewrite !list_elem_of_fmap. intros (x & -> & Hx). apply list_elem_of_filter in Hx as [_ ?].
  eauto.
Qed.

Lemma wf_empty : db_wf empty_db.
Proof.
  split; simpl; try by setoid_rewrite lookup_empty. { constructor. }
  intros row Hr. by apply not_elem_of_nil in Hr.
Qed.

Lemma wf_sweep now db : db_wf db -> db_wf (sweep now db).
Proof.
  intros [Hmb Hnd Hmsg Htomb Hnon]. split; simpl.
  - exact Hmb.
  - by apply NoDup_fmap_filter.
  - intros row [_ Hr]%list_elem_of_filter. exact (Hmsg row Hr).
  - intros q m t [Ht _]%map_lookup_filter_Some. destruct (Htomb q m t Ht) as (? & ? & Hn).
    repeat split; [done..|]. intros Hin. by apply fmap_filter_elem, Hn in Hin.
  - intros q role n t [Ht _]%map_lookup_filter_Some. by eapply Hnon.
Qed.

Lemma wf_set_registration_nonces x db : db_wf db -> db_wf (set_registration_nonces x db).
Proof. intros [? ? ? ? ?]. by split. Qed.

(** A new mailbox row whose columns parse. *)
Lemma wf_insert_mailbox q row db :
  db_wf db -> mailboxes db !! q = None -> length q = 32%nat ->
  (exists k, parses_to (mb_send_key row) k) -> (exists k, parses_to (mb_receive_key row) k) ->
  (exists k, parses_to (mb_manage_key row) k) ->
  db_wf (set_mailboxes (<[q := row]> (mailboxes db)) db).
Proof.
  intros [Hmb Hnd Hmsg Htomb Hnon] Hq Hl Hs Hr Hm.
  assert (Hgrow : forall q' mb, mailboxes db !! q' = Some mb ->
            <[q := row]> (mailboxes db) !! q' = Some mb).
  { intros q' mb H. rewrite lookup_insert_ne; [done|]. congruence. }
  assert (Hgrow' : forall q', is_Some (mailboxes db !! q') ->
            is_Some (<[q := row]> (mailboxes db) !! q')).
  { intros q' [mb H]. eauto. }
  split; simpl.
  - intros q' mb [[<- <-]|[_ H]]%lookup_insert_Some; [done|by apply Hmb].
  - done.
  - intros r Hin. destruct (Hmsg r Hin) as [Ha ?]. split; [|done].
    eapply authentic_mono; [|exact Ha]. intros mb. apply Hgrow.
  - intros q' m t Ht. destruct (Htomb _ _ _ Ht) as (? & ? & ?). eauto.
  - intros q' role n t Ht. destruct (Hnon _ _ _ _ Ht). eauto.
Qed.

Lemma wf_insert_message row db :
  db_wf db -> authentic db row -> 0 <= mg_expires_at row <= I64_MAX ->
  0 < Z.of_nat (length (mg_ciphertext row)) <= MAX_PACKET_BYTES ->
  tombstones db !! msg_key row = None -> msg_key row ∉ msg_key <$> messages db ->
  db_wf (set_messages (messages db ++ [row]) db).
Proof.
  intros [Hmb Hnd Hmsg Htomb Hnon] Ha He Hc Ht Hfresh. split; simpl; try done.
  - rewrite fmap_app. apply NoDup_app. split; [done|]. split.
    + intros k Hk ->%list_elem_of_singleton. done.
    + apply NoDup_singleton.
  - intros r [Hr| ->%list_elem_of_singleton]%elem_of_app; [exact (Hmsg r Hr)|done].
  - intros q m t Hqm. destruct (Htomb q m t Hqm) as (? & ? & Hn). repeat split; [done..|].
    rewrite fmap_app, not_elem_of_app. split; [done|].
    intros E%list_elem_of_singleton. rewrite E in Hqm. unfold msg_key in Hqm, Ht. congruence.
Qed.

Lemma wf_insert_nonce q role n t db :
  db_wf db -> is_Some (mailboxes db !! q) -> length n = 16%nat ->
  db_wf (set_request_nonces (<[(q, role, n) := t]> (request_nonces db)) db).
Proof.
  intros [Hmb Hnd Hmsg Htomb Hnon] Hq Hn. split; simpl; try done.
  intros q' role' n' t' [[[= <- <- <-] _]|[_ H]]%lookup_insert_Some; [done|by eapply Hnon].
Qed.

(** Moving a queued message to the tombstones. *)
Lemma wf_bury q m t db :
  db_wf db -> is_Some (mailboxes db !! q) -> length m = 16%nat ->
  db_wf (set_tombstones (<[(q, m) := t]> (tombstones db))
           (set_messages (filter (fun r => msg_key r <> (q, m)) (messages db)) db)).
Proof.
  intros [Hmb Hnd Hmsg Htomb Hnon] Hq Hm. split; simpl; try done.
  - by apply NoDup_fmap_filter.
  - intros row [_ Hr]%list_elem_of_filter. exact (Hmsg row Hr).
  - intros q' m' t' [[[= <- <-] _]|[_ H]]%lookup_insert_Some.
    + repeat split; [done..|]. rewrite list_elem_of_fmap. intros (r & Hk & Hr).
      by apply list_elem_of_filter in Hr as [Hr _].
    + destruct (Htomb _ _ _ H) as (? & ? & Hn). repeat split; [done..|].
      intros Hin. by apply fmap_filter_elem, Hn in Hin.
Qed.

(** Removing a mailbox and everything that refers to it. *)
Lemma wf_drop_mailbox q retired db :
  db_wf db -> db_wf (drop_mailbox q (set_retired_queues retired db)).
Proof.
  intros [Hmb Hnd Hmsg Htomb Hnon].
  assert (Hkeep : forall q' : list byte, q' <> q -> is_Some (mailboxes db !! q') ->
            is_Some (delete q (mailboxes db) !! q')).
  { intros q' Hne ?. by rewrite lookup_delete_ne. }
  split; simpl.
  - intros q' mb [_ H]%lookup_delete_Some. by apply Hmb.
  - by apply NoDup_fmap_filter.
  - intros row [Hq Hr]%list_elem_of_filter. destruct (Hmsg row Hr) as [Ha ?].
    split; [|done]. eapply authentic_mono; [|exact Ha]. intros mb Hm. simpl.
    by rewrite lookup_delete_ne.
  - intros q' m t [Ht Hq]%map_lookup_filter_Some. simpl in Hq.
    destruct (Htomb q' m t Ht) as (? & ? & Hn). repeat split; [by apply Hkeep|done|].
    intros Hin. by apply fmap_filter_elem, Hn in Hin.
  - intros q' role n t [Ht Hq]%map_lookup_filter_Some. simpl in Hq.
    destruct (Hnon _ _ _ _ Ht). split; [by apply Hkeep|done].
Qed.

Lemma parses_as_bytes `{!CryptoLaws} k : exists k', parses_to (as_slice (pk_as_bytes k)) k'.
Proof. exists k, (pk_as_bytes k). split; [done|]. apply pk_from_as_bytes. Qed.

(** Every transition preserves the invariant. *)
Lemma tx_wf `{!CryptoLaws} c now db v e db' :
  0 <= now -> db_wf db -> tx c now db = Ok (v, e, db') -> db_wf db'.
Proof.
  intros Hnow Hwf%(wf_sweep now) Htx. destruct c as [r|r|r|r|r|]; simpl in Htx.
  - apply register_tx_ok in Htx as (_ & _ & _ & _ & _ & [(old & _ & _ & _ & _ & nonces & -> & _)|Hn]).
    + by apply wf_set_registration_nonces.
    + destruct Hn as (_ & _ & Hq & _ & ->).
      refine (wf_insert_mailbox _ _ (set_registration_nonces _ (sweep now db)) _ _ _ _ _ _);
        [by apply wf_set_registration_nonces|done|apply length_as_slice|
         apply parses_as_bytes..].
  - apply enqueue_tx_ok in Htx as (Hc & He & _ & He' & (mb & k & Hmb & Hk & Hv) & Ht & Ho).
    destruct Ho as [(row & _ & _ & _ & _ & _ & ->)|(_ & _ & Hs & ->)]; [done|].
    apply select_message_None_keys in Hs.
    apply wf_insert_message; try done; cbn [mg_expires_at]; [|lia].
    exists (sr_queue_id r), (sr_message_id r), mb, k, (sr_signature r).
    done.
  - apply fetch_tx_ok in Htx as (_ & _ & (mb & k & Hmb & _) & _ & _ & _ & ->).
    apply wf_insert_nonce; [done|by eexists|apply length_as_slice].
  - apply acknowledge_tx_ok in Htx as (_ & _ & (mb & k & Hmb & _) & Ho).
    destruct Ho as [(row & _ & _ & _ & _ & _ & ->)|(_ & _ & _ & _ & ->)]; [|done].
    apply wf_bury; [done|by eexists|apply length_as_slice].
  - apply delete_tx_ok in Htx as (_ & _ & (mb & k & Hmb & _) & _ & _ & _ & t & ret & -> & _).
    apply wf_drop_mailbox, wf_insert_nonce; [done|by eexists|apply length_as_slice].
  - unfold purge_tx in Htx. inv_ok Htx. by injection Htx as <- <- <-.
Qed.

End Invariant.
