(* ===== verification/RelayTrace.v ===== *)
(** * Relay: sequences of operations

    [run] executes a list of calls, each at its own clock value and with its own failures. The
    relation [evolves] collects what any single call, successful or not, may do to the durable
    tables; the theorems over sequences of calls follow from it by induction. *)

From S2P Require Import Prelude Core Capability Sqlite RelayDb Relay RelayFacts RelayTx RelayInv.

Section Trace.
Context `{Crypto : CryptoOps}.

Record Call : Type := mkCall {
  call_command : Command;
  call_now : Z;
  call_faults : list io;
}.

(** The environment decides which calls into [SQLite] fail. *)
Definition load (fs : list io) (s : Relay) : Relay :=
  set_conn (mkConn (disk (connection s)) (txn (connection s)) fs) s.

Definition perform (k : Call) (s : Relay) : Result Reply * Relay :=
  exec (call_command k) (call_now k) (load (call_faults k) s).

Fixpoint run (ks : list Call) (s : Relay) : list (Result Reply) * Relay :=
  match ks with
  | [] => ([], s)
  | k :: ks =>
      let '(r, s1) := perform k s in
      let '(rs, s2) := run ks s1 in (r :: rs, s2)
  end.

(** Clock values are [u64]s and never go back. *)
Fixpoint clocked (t : Z) (ks : list Call) : Prop :=
  match ks with
  | [] => True
  | k :: ks => t <= call_now k <= U64_MAX /\ clocked (call_now k) ks
  end.

(** The relay of a freshly created database, no transaction open. *)
Definition fresh_relay : Relay := at_rest empty_db [].
Definition idle (s : Relay) : Prop := txn (connection s) = None.

Record evolves (now : Z) (db db' : RelayDb) : Prop := {
  (** A mailbox row is never altered, only removed, and then its locator is retired. *)
  ev_mailbox q mb : mailboxes db !! q = Some mb ->
    mailboxes db' !! q = Some mb \/
    mailboxes db' !! q = None /\ is_Some (retired_queues db' !! as_slice (digest q));
  ev_retired h : is_Some (retired_queues db !! h) -> is_Some (retired_queues db' !! h);
  ev_gone q : mailboxes db !! q = None -> is_Some (retired_queues db !! as_slice (digest q)) ->
    mailboxes db' !! q = None;
  (** An unexpired row stays while its mailbox does, unless an acknowledgement buries it. *)
  ev_message row : row ∈ messages db -> now < mg_expires_at row ->
    is_Some (mailboxes db' !! mg_queue_id row) ->
    row ∈ messages db' \/
    tombstones db' !! msg_key row = Some (saturating_add now TOMBSTONE_TTL_SECONDS);
  ev_tombstone q m d : tombstones db !! (q, m) = Some d -> now < d ->
    is_Some (mailboxes db' !! q) ->
    tombstones db' !! (q, m) = Some d \/
    tombstones db' !! (q, m) = Some (saturating_add now TOMBSTONE_TTL_SECONDS);
  ev_nonce q role n d : request_nonces db !! (q, role, n) = Some d -> now < d ->
    is_Some (mailboxes db' !! q) -> request_nonces db' !! (q, role, n) = Some d;
}.

Lemma evolves_refl now db : evolves now db db.
Proof. split; auto. Qed.

Lemma sweep_message now db row :
  row ∈ messages db -> now < mg_expires_at row -> row ∈ messages (sweep now db).
Proof. intros. apply list_elem_of_filter. split; [lia|done]. Qed.

Lemma sweep_tombstone now db k d :
  tombstones db !! k = Some d -> now < d -> tombstones (sweep now db) !! k = Some d.
Proof. intros. apply map_lookup_filter_Some. split; [done|simpl; lia]. Qed.

Lemma sweep_nonce now db k d :
  request_nonces db !! k = Some d -> now < d -> request_nonces (sweep now db) !! k = Some d.
Proof. intros. apply map_lookup_filter_Some. split; [done|simpl; lia]. Qed.

#[local] Hint Resolve sweep_message sweep_tombstone sweep_nonce : core.

(** Transitions that only add rows after the sweep. *)
Lemma evolves_adding now db db' :
  (forall q mb, mailboxes db !! q = Some mb -> mailboxes db' !! q = Some mb) ->
  (forall q, mailboxes db !! q = None -> is_Some (retired_queues db !! as_slice (digest q)) ->
     mailboxes db' !! q = None) ->
  retired_queues db' = retired_queues db ->
  tombstones db' = tombstones (sweep now db) ->
  (forall row, row ∈ messages (sweep now db) -> row ∈ messages db') ->
  (forall k d, request_nonces (sweep now db) !! k = Some d ->
     request_nonces db' !! k = Some d) ->
  evolves now db db'.
Proof.
  intros Em Eg Er Et Hr Hn. split; rewrite ?Er, ?Et; auto.
Qed.

Lemma insert_keeps `{Countable K} {A} (m : gmap K A) k x k' y :
  m !! k = None -> m !! k' = Some y -> <[k := x]> m !! k' = Some y.
Proof. intros. rewrite lookup_insert_ne; congruence. Qed.

Lemma register_evolves r now db v e db' :
  register_tx r now db = Ok (v, e, db') -> evolves now db db'.
Proof.
  intros (_ & _ & _ & _ & Hret & Hor)%register_tx_ok.
  destruct Hor as [(old & _ & _ & _ & _ & nonces & -> & _) | (_ & _ & Hq & _ & ->)].
  { apply evolves_adding; auto. }
  apply evolves_adding; simpl; auto.
  - intros q mb Hmb. by apply insert_keeps.
  - intros q Hq' Hr. rewrite lookup_insert_ne; [done|]. intros <-. rewrite Hret in Hr.
    by destruct Hr.
Qed.

Lemma enqueue_evolves r now db v e db' :
  enqueue_tx r now db = Ok (v, e, db') -> evolves now db db'.
Proof.
  intros (_ & _ & _ & _ & _ & _ & Hor)%enqueue_tx_ok.
  destruct Hor as [(row & _ & _ & _ & _ & _ & ->) | (_ & _ & _ & ->)];
    apply evolves_adding; auto.
  intros row Hr. simpl. apply elem_of_app. auto.
Qed.

Lemma fetch_evolves r now db v e db' :
  fetch_tx r now db = Ok (v, e, db') -> evolves now db db'.
Proof.
  intros (_ & _ & _ & Hn & _ & _ & ->)%fetch_tx_ok.
  apply evolves_adding; auto. intros k d. by apply insert_keeps.
Qed.

Lemma acknowledge_evolves r now db v e db' :
  acknowledge_tx r now db = Ok (v, e, db') -> evolves now db db'.
Proof.
  intros (_ & _ & _ & Hor)%acknowledge_tx_ok.
  destruct Hor as [(row & _ & _ & _ & _ & _ & ->) | (_ & _ & _ & _ & ->)].
  2: { apply evolves_adding; auto. }
  set (k := (as_slice (ar_queue_id r), as_slice (ar_message_id r))).
  split; [by auto..| | |].
  - intros row' Hr He _. simpl. destruct (decide (msg_key row' = k)) as [->|Hne].
    + right. apply lookup_insert_eq.
    + left. apply list_elem_of_filter. split; [done|]. by apply sweep_message.
  - intros q m d Hd Hn _. simpl. destruct (decide ((q, m) = k)) as [->|Hne].
    + right. apply lookup_insert_eq.
    + left. rewrite lookup_insert_ne by done. by apply sweep_tombstone.
  - intros q role n d Hd Hn _. by apply sweep_nonce.
Qed.

Lemma delete_evolves r now db v e db' :
  delete_tx r now db = Ok (v, e, db') -> evolves now db db'.
Proof.
  intros (_ & _ & _ & Hn & _ & _ & t & ret & -> & Hret & Hothers)%delete_tx_ok.
  set (q0 := as_slice (dr_queue_id r)) in *.
  assert (Hstay : forall h, is_Some (retired_queues db !! h) -> is_Some (ret !! h)).
  { intros h Hh. destruct (decide (h = as_slice (digest q0))) as [->|Hne]; [done|].
    by rewrite Hothers. }
  assert (Hne : forall q : list byte, is_Some (delete q0 (mailboxes db) !! q) -> q <> q0).
  { intros q Hq ->. rewrite lookup_delete_eq in Hq. by destruct Hq. }
  split; simpl.
  - intros q mb Hmb. destruct (decide (q = q0)) as [->|Hq].
    + right. by rewrite lookup_delete_eq.
    + left. by rewrite lookup_delete_ne.
  - auto.
  - intros q Hq _. apply lookup_delete_None. auto.
  - intros row Hr He Hq. left. apply list_elem_of_filter. split; [by apply Hne|].
    by apply sweep_message.
  - intros q m d Hd Hnow Hq. left. apply map_lookup_filter_Some. split; [|by apply Hne].
    by apply sweep_tombstone.
  - intros q role n d Hd Hnow Hq. apply map_lookup_filter_Some. split; [|by apply Hne].
    apply insert_keeps; [done|]. by apply sweep_nonce.
Qed.

Lemma tx_evolves c now db v e db' : tx c now db = Ok (v, e, db') -> evolves now db db'.
Proof.
  destruct c; simpl; eauto using register_evolves, enqueue_evolves, fetch_evolves,
    acknowledge_evolves, delete_evolves.
  unfold purge_tx. intros H. inv_ok H. injection H as _ _ <-. apply evolves_adding; auto.
Qed.

(** ** One call *)

Lemma perform_outcome k s :
  idle s ->
  let '(r, s') := perform k s in
  idle s' /\
  ((exists v e, r = Ok v /\
      tx (call_command k) (call_now k) (disk (connection s)) = Ok (v, e, disk (connection s')) /\
      audit_events s' = audit_events s ++ option_list e)
   \/ (exists e, r = Err e) /\ audit_events s' = audit_events s /\
      (disk (connection s') = disk (connection s) \/
       exists v e, tx (call_command k) (call_now k) (disk (connection s))
         = Ok (v, e, disk (connection s')))).
Proof.
  intros Hs. unfold perform.
  pose proof (exec_outcome (call_command k) (call_now k) (load (call_faults k) s) Hs) as Ho.
  destruct (exec _ _ _) as [r s']. simpl in Ho. destruct Ho as [Hi Ho]. split; [done|].
  destruct (tx _ _ _) as [[[v e] db']|e] eqn:E; naive_solver.
Qed.

Lemma perform_evolves k s :
  idle s -> idle (snd (perform k s)) /\
  evolves (call_now k) (disk (connection s)) (disk (connection (snd (perform k s)))).
Proof.
  intros Hs. pose proof (perform_outcome k s Hs) as Ho. destruct (perform k s) as [r s'].
  simpl. destruct Ho as [Hi [(v & e & _ & Htx & _) | (_ & _ & [->|(v & e & Htx)])]];
    eauto using tx_evolves, evolves_refl.
Qed.

Lemma perform_wf `{!CryptoLaws} k s :
  idle s -> 0 <= call_now k -> db_wf (disk (connection s)) ->
  db_wf (disk (connection (snd (perform k s)))).
Proof.
  intros Hs Hn Hwf. pose proof (perform_outcome k s Hs) as Ho.
  destruct (perform k s) as [r s'].
  simpl. destruct Ho as [Hi [(v & e & _ & Htx & _) | (_ & _ & [->|(v & e & Htx)])]];
    eauto using tx_wf.
Qed.

(** ** Sequences of calls *)

Definition last_clock (t : Z) (ks : list Call) : Z := foldl (fun _ k => call_now k) t ks.

Lemma run_app ks1 ks2 s :
  snd (run (ks1 ++ ks2) s) = snd (run ks2 (snd (run ks1 s))).
Proof.
  revert s. induction ks1 as [|k ks1 IH]; intros s; [done|]. simpl.
  destruct (perform k s) as [r s1]. specialize (IH s1).
  destruct (run (ks1 ++ ks2) s1), (run ks1 s1). simpl in *. done.
Qed.

Lemma clocked_app t ks1 ks2 :
  clocked t (ks1 ++ ks2) <-> clocked t ks1 /\ clocked (last_clock t ks1) ks2.
Proof.
  revert t. induction ks1 as [|k ks1 IH]; intros t; simpl; [tauto|]. rewrite IH. tauto.
Qed.

(** A property of the clock and the tables that every transition keeps, and that survives the
    passing of time, is kept by every run. [Q] restricts the calls considered. *)
Lemma run_invariant (Q : Command -> Prop) (P : Z -> RelayDb -> Prop) ks t s :
  (forall t now db, P t db -> t <= now -> P now db) ->
  (forall c t now db v e db', Q c -> P t db -> t <= now -> tx c now db = Ok (v, e, db') ->
     P now db') ->
  idle s -> clocked t ks -> Forall (fun k => Q (call_command k)) ks -> P t (disk (connection s)) ->
  idle (snd (run ks s)) /\ P (last_clock t ks) (disk (connection (snd (run ks s)))).
Proof.
  intros Hmono HP. revert t s. induction ks as [|k ks IH]; intros t s Hi Hc Hq Hp; [done|].
  destruct Hc as [Ht Hc]. apply Forall_cons_1 in Hq as [Hk Hq].
  pose proof (perform_outcome k s Hi) as Ho. simpl.
  destruct (perform k s) as [r s1]. destruct Ho as [Hi' Ho].
  specialize (IH (call_now k) s1 Hi' Hc Hq).
  destruct (run ks s1) as [rs s2]. apply IH.
  destruct Ho as [(v & e & _ & Htx & _) | (_ & _ & [->|(v & e & Htx)])];
    [eapply HP; eauto; lia|eapply Hmono; eauto; lia|eapply HP; eauto; lia].
Qed.

Lemma Forall_any ks : Forall (fun k => (fun _ => True) (call_command k)) ks.
Proof. by apply Forall_forall. Qed.

(** The same for a property that every evolution keeps. *)
Lemma run_preserves (P : Z -> RelayDb -> Prop) ks t s :
  (forall t now db db', P t db -> t <= now -> evolves now db db' -> P now db') ->
  idle s -> clocked t ks -> P t (disk (connection s)) ->
  idle (snd (run ks s)) /\ P (last_clock t ks) (disk (connection (snd (run ks s)))).
Proof.
  intros HP Hi Hc. apply (run_invariant (fun _ => True) P); eauto using Forall_any.
  - intros ????. eauto using evolves_refl.
  - intros. eauto using tx_evolves.
Qed.

Lemma run_wf `{!CryptoLaws} ks t s :
  0 <= t -> idle s -> clocked t ks -> db_wf (disk (connection s)) ->
  idle (snd (run ks s)) /\ db_wf (disk (connection (snd (run ks s)))).
Proof.
  intros Hpos Hi Hc Hwf.
  destruct (run_invariant (fun _ => True) (fun t db => 0 <= t /\ db_wf db) ks t s)
    as (? & ? & ?); eauto using Forall_any.
  - intros ??? [??] ?. split; [lia|done].
  - intros c t' now db v e db' _ [??] ? ?. split; [lia|]. eapply (tx_wf c now db); eauto. lia.
Qed.

(** ** What makes a request unusable *)

(** The mailbox is gone for good. *)
Definition gone (q : list byte) (db : RelayDb) : Prop :=
  mailboxes db !! q = None /\ is_Some (retired_queues db !! as_slice (digest q)).

Lemma gone_evolves q now db db' : gone q db -> evolves now db db' -> gone q db'.
Proof. intros [H1 H2] He. split; [by eapply ev_gone|by eapply ev_retired]. Qed.

(** A mailbox either stays as it is or is gone. *)
Lemma mailbox_evolves q mb now db db' :
  mailboxes db !! q = Some mb -> evolves now db db' ->
  mailboxes db' !! q = Some mb \/ gone q db'.
Proof. intros Hq He. by destruct (ev_mailbox _ _ _ He q mb Hq) as [|]; [left|right]. Qed.

(** The message identified by [(q, m)], sent with expiry [x], cannot be stored again: it is
    queued, or tombstoned until [x], or [x] is past, or the mailbox is gone. *)
Definition spent_send (q m : list byte) (x t : Z) (db : RelayDb) : Prop :=
  x <= saturating_add t MAX_MESSAGE_TTL_SECONDS /\
  (x <= t \/ gone q db \/
   is_Some (mailboxes db !! q) /\
   ((exists row, row ∈ messages db /\ msg_key row = (q, m) /\ mg_expires_at row = x) \/
    (exists d, tombstones db !! (q, m) = Some d /\ x <= d))).

Lemma saturating_add_mono t now x : t <= now -> saturating_add t x <= saturating_add now x.
Proof. unfold saturating_add. lia. Qed.

Lemma spent_send_evolves q m x t now db db' :
  spent_send q m x t db -> t <= now -> evolves now db db' -> spent_send q m x now db'.
Proof.
  intros [Hx Hs] Ht He. pose proof (saturating_add_mono t now MAX_MESSAGE_TTL_SECONDS Ht).
  split; [lia|]. destruct (decide (x <= now)) as [|Hnow]; [auto|].
  destruct Hs as [|[Hg|[[mb Hmb] Hs]]]; [lia|by eauto using gone_evolves|].
  destruct (mailbox_evolves _ _ _ _ _ Hmb He) as [Hmb'|]; [|auto].
  right. right. split; [eauto|]. destruct Hs as [(row & Hr & Hk & Hex) | (d & Hd & Hxd)].
  - assert (Hq : mg_queue_id row = q) by (unfold msg_key in Hk; congruence).
    destruct (ev_message _ _ _ He row Hr) as [Hin|Ht']; [lia|rewrite Hq; eauto|by eauto|].
    right. rewrite Hk in Ht'. eexists. split; [exact Ht'|].
    change TOMBSTONE_TTL_SECONDS with MAX_MESSAGE_TTL_SECONDS. lia.
  - right. destruct (ev_tombstone _ _ _ He q m d Hd) as [Hd'|Hd']; [lia|by eauto|by eauto|].
    eexists. split; [exact Hd'|].
    change TOMBSTONE_TTL_SECONDS with MAX_MESSAGE_TTL_SECONDS. lia.
Qed.

(** The nonce of a request valid until [v] cannot be used again. *)
Definition spent_nonce (q : list byte) (role : string) (n : list byte) (v t : Z) (db : RelayDb)
    : Prop :=
  v <= t \/ gone q db \/
  is_Some (mailboxes db !! q) /\ request_nonces db !! (q, role, n) = Some v.

Lemma spent_nonce_evolves q role n v t now db db' :
  spent_nonce q role n v t db -> t <= now -> evolves now db db' ->
  spent_nonce q role n v now db'.
Proof.
  intros Hs Ht He. destruct (decide (v <= now)) as [|Hnow]; [by left|].
  destruct Hs as [|[Hg|[[mb Hmb] Hs]]]; [lia|right; left; by eapply gone_evolves|].
  destruct (mailbox_evolves _ _ _ _ _ Hmb He) as [Hmb'|]; [|by right; left].
  right. right. split; [eauto|]. eapply ev_nonce; eauto. lia.
Qed.

End Trace.
