(* ===== verification/ToyCrypto.v ===== *)
(** * A concrete instance of the cryptographic interface

    It satisfies the laws of [CryptoLaws] and computes, so that statements about the crate can
    be evaluated on concrete inputs. It offers no security: keys are public and the "hash" is a
    polynomial. *)

From S2P Require Import Prelude Core Capability.

(** A checksum modulo a small prime, padded to the wanted width. *)
Definition toy_sum (l : list byte) : Z :=
  foldl (fun acc b => (acc * 257 + byte_val b + 1) mod 65521) 7 l.

Definition toy_hash (n : nat) (l : list byte) : list byte :=
  resize n x00 (be_bytes 2 (toy_sum l)).

Lemma length_toy_hash n l : length (toy_hash n l) = n.
Proof. apply length_resize. Qed.

Definition toy_array (n : nat) (l : list byte) : array n :=
  dexist (toy_hash n l) (length_toy_hash n l).

Definition toy_sign (k : array 32) (m : list byte) : array 64 := toy_array 64 (as_slice k ++ m).

#[global] Instance toy_crypto : CryptoOps := {|
  sha256 := toy_array 32;
  Ed25519PublicKey := array 32;
  Ed25519Signature := array 64;
  Ed25519Keypair := array 32;
  pk_eq_dec := array_eq_dec 32;
  pk_as_bytes := fun k => k;
  pk_from_slice := fun k => Some k;
  verify := fun k m s => bool_decide (s = toy_sign k m);
  sig_to_bytes := fun s => s;
  sig_from_slice := fun l => array_from_slice 64 l;
  public_key := fun k => k;
  sign := toy_sign;
|}.

#[global] Instance toy_laws : CryptoLaws.
Proof.
  split; simpl; intros; [done | apply array_from_as_slice | by apply bool_decide_eq_true].
Qed.

(** Concrete identifiers, keys and a mailbox. *)
Definition toy_id (n : nat) (seed : string) : array n := toy_array n (bstr seed).

Definition toy_owner : MailboxOwner :=
  mkOwner (toy_id 32 "queue") (toy_id 32 "send") (toy_id 32 "receive") (toy_id 32 "manage").

Definition toy_packet : EncryptedPacket := mkPacket (bstr "ciphertext").
