(* ===== verification/RelayTheorems.v ===== *)
(** * Relay: at most once, authorization, isolation

    Theorems over runs of calls with arbitrary storage failures. *)

From S2P Require Import Prelude Core Capability Sqlite RelayDb Relay.
From S2P Require Import RelayFacts RelayTx RelayInv RelayTrace ToyCrypto.

(** ** Helpers *)

Section Helpers.
Context `{Crypto : CryptoOps}.

Lemma perform_ok k s v s' :
  idle s -> perform k s = (Ok v, s') ->
  idle s' /\ exists e,
    tx (call_command k) (call_now k) (disk (connection s)) = Ok (v, e, disk (connection s')).
Proof.
  intros Hi E. pose proof (perform_outcome k s Hi) as Ho. rewrite E in Ho.
  destruct Ho as [? [(v' & e & [= <-] & H & _) | ((e & [=]) & _)]]. eauto.
Qed.

Lemma spent_send_blocks r now t db v e db' :
  spent_send (as_slice (sr_queue_id r)) (as_slice (sr_message_id r)) (sr_expires_at r) t db ->
  t <= now -> enqueue_tx r now db = Ok (v, e, db') -> v <> Enqueued Stored.
Proof.
  intros [_ Hs] Ht (_ & [Hx _] & _ & _ & (mb & k & Hmb & _) & Htomb & Hor)%enqueue_tx_ok.
  destruct Hs as [|[[Hg _]|[_ Hs]]]; [lia|congruence|].
  destruct Hor as [(row & -> & _)|(-> & _ & Hsel & _)]; [done|]. exfalso.
  destruct Hs as [(row & Hr & Hk & Hex)|(d & Hd & Hxd)].
  - eapply select_message_None; [exact Hsel| |exact Hk]. apply sweep_message; [done|lia].
  - rewrite (sweep_tombstone _ _ _ _ Hd) in Htomb; [done|lia].
Qed.

Lemma stored_spends r now db e db' :
  enqueue_tx r now db = Ok (Enqueued Stored, e, db') ->
  spent_send (as_slice (sr_queue_id r)) (as_slice (sr_message_id r)) (sr_expires_at r) now db'.
Proof.
  intros (_ & [_ Hx] & _ & _ & (mb & k & Hmb & _) & _ & Hor)%enqueue_tx_ok.
  destruct Hor as [(row & [=] & _)|(_ & _ & _ & ->)].
  split; [done|]. right. right. simpl. split; [eauto|]. left. eexists.
  split; [apply elem_of_app; right; by apply list_elem_of_singleton|done].
Qed.

Lemma spent_nonce_gone q role n v t db :
  spent_nonce q role n v t db -> t < v -> is_Some (mailboxes db !! q) ->
  request_nonces db !! (q, role, n) = Some v.
Proof.
  intros [?|[[Hg _]|[_ H]]] Ht [mb Hmb]; [lia|congruence|done].
Qed.

(** The queue a command addresses. *)
Definition command_queue (c : Command) : option QueueId :=
  match c with
  | Register r => Some (mr_queue_id r)
  | Enqueue r => Some (sr_queue_id r)
  | Fetch r => Some (fr_queue_id r)
  | Acknowledge r => Some (ar_queue_id r)
  | DeleteMailbox r => Some (dr_queue_id r)
  | PurgeExpired => None
  end.

Lemma gone_blocks c q now db v e db' :
  command_queue c = Some q -> gone (as_slice q) db -> tx c now db <> Ok (v, e, db').
Proof.
  intros Hq [Hm [t Ht]] H. destruct c as [r|r|r|r|r|]; simpl in Hq, H; simplify_eq.
  - apply register_tx_ok in H as (_ & _ & _ & _ & Hret & _). congruence.
  - apply enqueue_tx_ok in H as (_ & _ & _ & _ & (mb & k & Hmb & _) & _). congruence.
  - apply fetch_tx_ok in H as (_ & _ & (mb & k & Hmb & _) & _). congruence.
  - apply acknowledge_tx_ok in H as (_ & _ & (mb & k & Hmb & _) & _). congruence.
  - apply delete_tx_ok in H as (_ & _ & (mb & k & Hmb & _) & _). congruence.
Qed.

Lemma delete_makes_gone r now db v e db' :
  delete_tx r now db = Ok (v, e, db') -> gone (as_slice (dr_queue_id r)) db'.
Proof.
  intros (_ & _ & _ & _ & _ & _ & t & ret & -> & Hret & _)%delete_tx_ok.
  split; simpl; [apply lookup_delete_eq|done].
Qed.

(** A step taken by a run, split from what precedes it. *)
Lemma run_then k1 ks k2 s t v1 (P : Z -> RelayDb -> Prop) :
  idle s -> clocked t (k1 :: ks ++ [k2]) ->
  (forall t now db db', P t db -> t <= now -> evolves now db db' -> P now db') ->
  fst (perform k1 s) = Ok v1 ->
  (forall e db', tx (call_command k1) (call_now k1) (disk (connection s)) = Ok (v1, e, db') ->
     P (call_now k1) db') ->
  let s2 := snd (run ks (snd (perform k1 s))) in
  idle s2 /\ exists t', t' <= call_now k2 /\ P t' (disk (connection s2)).
Proof.
  intros Hi [Ht [Hc [Hk2 _]]%clocked_app] HP H1 Hfirst.
  destruct (perform k1 s) as [r s1] eqn:P1. simpl in H1. subst r.
  apply perform_ok in P1 as [Hi1 [e T1]]; [|done].
  destruct (run_preserves P ks _ s1 HP Hi1 Hc (Hfirst _ _ T1)) as [Hi2 Hp]. simpl.
  split; [done|]. exists (last_clock (call_now k1) ks). split; [lia|done].
Qed.

Lemma perform_not_ok k s :
  idle s ->
  (forall v e db', tx (call_command k) (call_now k) (disk (connection s)) <> Ok (v, e, db')) ->
  exists err, fst (perform k s) = Err err.
Proof.
  intros Hi Hn. destruct (perform k s) as [[v|e] s'] eqn:E; [|by eauto].
  apply perform_ok in E as [_ [e H]]; [|done]. by destruct (Hn v e (disk (connection s'))).
Qed.

End Helpers.

(** ** At most once *)

Section AtMostOnce.
Context `{Crypto : CryptoOps}.

(** Two send requests with the same signed identity. *)
Definition same_send (r r' : SendRequest) : Prop :=
  sr_queue_id r = sr_queue_id r' /\ sr_message_id r = sr_message_id r' /\
  sr_expires_at r = sr_expires_at r'.

(** C1. A message is stored at most once. Once a send request has been stored, no later call
    with the same queue, message identifier and expiry is stored again: whatever happens in
    between, acknowledgement, expiry sweeps, mailbox deletion, re-registration attempts or
    storage failures included, as long as the clock does not go back. *)
Theorem send_stored_at_most_once s t k1 ks k2 r1 r2 :
  idle s -> clocked t (k1 :: ks ++ [k2]) ->
  call_command k1 = Enqueue r1 -> call_command k2 = Enqueue r2 -> same_send r1 r2 ->
  fst (perform k1 s) = Ok (Enqueued Stored) ->
  fst (perform k2 (snd (run ks (snd (perform k1 s))))) <> Ok (Enqueued Stored).
Proof.
  intros Hi Hc E1 E2 (Eq & Em & Ex) H1 H2.
  destruct (run_then k1 ks k2 s t _
    (spent_send (as_slice (sr_queue_id r1)) (as_slice (sr_message_id r1)) (sr_expires_at r1))
    Hi Hc ltac:(eauto using spent_send_evolves) H1) as (Hi2 & t' & Ht' & Hs).
  { rewrite E1. intros e db'. apply stored_spends. }
  rewrite Eq, Em, Ex in Hs.
  destruct (perform k2 _) as [r s3] eqn:P2. simpl in H2. subst r.
  apply perform_ok in P2 as [_ [e' T2]]; [|done]. rewrite E2 in T2.
  by eapply spent_send_blocks in T2.
Qed.

(** The same signed fetch or delete request: same queue, nonce and validity. *)
Definition replays (c c' : Command) : Prop :=
  match c, c' with
  | Fetch r, Fetch r' =>
      fr_queue_id r = fr_queue_id r' /\ fr_nonce r = fr_nonce r' /\
      fr_valid_until r = fr_valid_until r'
  | DeleteMailbox r, DeleteMailbox r' =>
      dr_queue_id r = dr_queue_id r' /\ dr_nonce r = dr_nonce r' /\
      dr_valid_until r = dr_valid_until r'
  | _, _ => False
  end.

(** C14. A signed fetch or delete request succeeds at most once: its nonce is remembered for as
    long as the request is valid, and afterwards the request has expired. *)
Theorem signed_request_used_once s t k1 ks k2 v :
  idle s -> clocked t (k1 :: ks ++ [k2]) ->
  replays (call_command k1) (call_command k2) -> fst (perform k1 s) = Ok v ->
  exists err, fst (perform k2 (snd (run ks (snd (perform k1 s))))) = Err err.
Proof.
  intros Hi Hc Hr H1.
  destruct (call_command k1) as [r|r|r|r|r|] eqn:E1, (call_command k2) as [r'|r'|r'|r'|r'|] eqn:E2;
    simpl in Hr; try done; destruct Hr as (Eq & En & Ev).
  - destruct (run_then k1 ks k2 s t _ (spent_nonce (as_slice (fr_queue_id r)) "receive"
      (as_slice (fr_nonce r)) (fr_valid_until r)) Hi Hc ltac:(eauto using spent_nonce_evolves) H1)
      as (Hi2 & t' & Ht' & Hs).
    { rewrite E1. intros e db' (_ & _ & (mb & k & Hmb & _) & _ & _ & _ & ->)%fetch_tx_ok.
      right. right. simpl. split; [eauto|apply lookup_insert_eq]. }
    apply perform_not_ok; [done|]. rewrite E2.
    intros v' e db' ([? _] & _ & (mb & k & Hmb & _) & Hn & _)%fetch_tx_ok.
    rewrite Eq, En, Ev in Hs. apply spent_nonce_gone in Hs; [|lia|eauto].
    rewrite (sweep_nonce _ _ _ _ Hs) in Hn; [done|lia].
  - destruct (run_then k1 ks k2 s t _ (fun _ => gone (as_slice (dr_queue_id r))) Hi Hc
      (fun _ now db db' H _ => gone_evolves _ now db db' H) H1) as (Hi2 & t' & Ht' & Hs).
    { rewrite E1. intros e db'. apply delete_makes_gone. }
    apply perform_not_ok; [done|]. intros v' e db'.
    apply (gone_blocks _ (dr_queue_id r')); [by rewrite E2|by rewrite <- Eq].
Qed.

(** C15. A deleted mailbox stays deleted: after a successful deletion every later command on its
    queue fails, registration included. *)
Theorem deleted_mailbox_never_returns s t k1 ks k2 r v :
  idle s -> clocked t (k1 :: ks ++ [k2]) -> call_command k1 = DeleteMailbox r ->
  command_queue (call_command k2) = Some (dr_queue_id r) -> fst (perform k1 s) = Ok v ->
  exists err, fst (perform k2 (snd (run ks (snd (perform k1 s))))) = Err err.
Proof.
  intros Hi Hc E1 E2 H1.
  destruct (run_then k1 ks k2 s t _ (fun _ => gone (as_slice (dr_queue_id r))) Hi Hc
    (fun _ now db db' H _ => gone_evolves _ now db db' H) H1) as (Hi2 & t' & Ht' & Hs).
  { rewrite E1. intros e db'. apply delete_makes_gone. }
  apply perform_not_ok; [done|]. intros v' e db'. by eapply gone_blocks.
Qed.

End AtMostOnce.

(** ** Authorization and isolation *)

Section Authorization.
Context `{Crypto : CryptoOps}.

(** The proof of authority each command carries, checked against the durable tables. *)
Definition holds_capability (c : Command) (now : Z) (db : RelayDb) : Prop :=
  let signed_by (col : MailboxRow -> list byte) (q : QueueId) bytes s :=
    exists mb k, mailboxes db !! as_slice q = Some mb /\ parses_to (col mb) k /\
      verify k bytes s = true in
  let in_time v := now < v <= saturating_add now (5 * 60) in
  match c with
  | Register r =>
      verify (mr_manage_key r) (registration_signing_bytes r) (mr_signature r) = true /\
      in_time (mr_valid_until r)
  | Enqueue r =>
      signed_by mb_send_key (sr_queue_id r) (send_request_signing_bytes r) (sr_signature r) /\
      now < sr_expires_at r <= saturating_add now MAX_MESSAGE_TTL_SECONDS
  | Fetch r =>
      signed_by mb_receive_key (fr_queue_id r) (fetch_signing_bytes r) (fr_signature r) /\
      in_time (fr_valid_until r)
  | Acknowledge r =>
      signed_by mb_receive_key (ar_queue_id r) (ack_signing_bytes r) (ar_signature r) /\
      in_time (ar_valid_until r)
  | DeleteMailbox r =>
      signed_by mb_manage_key (dr_queue_id r) (delete_signing_bytes r) (dr_signature r) /\
      in_time (dr_valid_until r)
  | PurgeExpired => True
  end.

Lemma tx_holds_capability c now db v e db' :
  tx c now db = Ok (v, e, db') -> holds_capability c now db.
Proof.
  destruct c; simpl; intros H.
  - apply register_tx_ok in H as (? & _ & _ & ? & _). done.
  - apply enqueue_tx_ok in H as (_ & ? & _ & _ & ? & _). done.
  - apply fetch_tx_ok in H as (? & _ & ? & _). done.
  - apply acknowledge_tx_ok in H as (? & _ & ? & _). done.
  - apply delete_tx_ok in H as (? & _ & ? & _). done.
  - done.
Qed.

(** C5. No effect without the capability: if a call succeeds, or fails but still changes the
    durable tables (a commit whose confirmation was lost), its command carries a valid
    signature of the role it needs, by the key the mailbox was registered with, and is within
    its validity window. *)
Theorem effects_require_capability k s :
  idle s ->
  is_ok (fst (perform k s)) = true \/
    disk (connection (snd (perform k s))) <> disk (connection s) ->
  holds_capability (call_command k) (call_now k) (disk (connection s)).
Proof.
  intros Hi He. pose proof (perform_outcome k s Hi) as Ho. destruct (perform k s) as [r s'].
  destruct Ho as [_ [(v & e & _ & Htx & _) | ((e & ->) & _ & [Hd|(v & e' & Htx)])]];
    simpl in He; [by eapply tx_holds_capability| |by eapply tx_holds_capability].
  by destruct He as [?|[]].
Qed.

(** What the tables say about one queue. *)
Definition same_queue (q : list byte) (db db' : RelayDb) : Prop :=
  mailboxes db !! q = mailboxes db' !! q /\
  filter (fun r => mg_queue_id r = q) (messages db)
    = filter (fun r => mg_queue_id r = q) (messages db') /\
  (forall m, tombstones db !! (q, m) = tombstones db' !! (q, m)) /\
  (forall role n, request_nonces db !! (q, role, n) = request_nonces db' !! (q, role, n)) /\
  (forall n, registration_nonces db !! (q, n) = registration_nonces db' !! (q, n)).

Lemma filter_filter_other {A} (P Q : A -> Prop) `{forall x, Decision (P x)}
    `{forall x, Decision (Q x)} (l : list A) :
  (forall x, P x -> Q x) -> filter P (filter Q l) = filter P l.
Proof.
  intros HPQ. rewrite list_filter_filter. apply list_filter_iff. intros x. split; [tauto|auto].
Qed.

Lemma register_isolated r now db v e db' q :
  as_slice (mr_queue_id r) <> q -> register_tx r now db = Ok (v, e, db') ->
  same_queue q (sweep now db) db'.
Proof.
  intros Hq H. unfold register_tx in H. inv_ok H.
  destruct (mailboxes _ !! _); inv_ok H; injection H as _ _ <-;
    repeat split; simpl; try done; intros.
  - destruct_match_goal; [done|]. rewrite lookup_insert_ne; congruence.
  - rewrite lookup_insert_ne; congruence.
  - rewrite lookup_insert_ne; congruence.
Qed.

Lemma tx_isolated c now db v e db' q :
  command_queue c <> Some q -> tx c now db = Ok (v, e, db') ->
  same_queue (as_slice q) (sweep now db) db'.
Proof.
  intros Hq H.
  assert (Hs : forall q', command_queue c = Some q' -> as_slice q' <> as_slice q).
  { intros q' E E'%as_slice_inj. congruence. }
  destruct c as [r|r|r|r|r|]; simpl in Hs, H.
  - eapply register_isolated; [by apply Hs|done].
  - apply enqueue_tx_ok in H as (_ & _ & _ & _ & _ & _ & [(row & _ & _ & _ & _ & _ & ->) | (_ & _ & _ & ->)]);
      [done|]. repeat split. simpl. rewrite filter_app, filter_cons_False; [|by apply Hs].
    by rewrite app_nil_r.
  - apply fetch_tx_ok in H as (_ & _ & _ & _ & _ & _ & ->). repeat split. intros role n. simpl.
    rewrite lookup_insert_ne; [done|]. intros [= E _ _]. by eapply Hs.
  - apply acknowledge_tx_ok in H as (_ & _ & _ & [(row & _ & _ & _ & _ & _ & ->) | (_ & _ & _ & _ & ->)]);
      [|done]. repeat split; simpl.
    + rewrite (filter_filter_other _ (fun r => msg_key r <> _)); [done|].
      intros row' E [= E' _]. apply (Hs (ar_queue_id r)); [done|congruence].
    + intros m. rewrite lookup_insert_ne; [done|]. intros [= E _]. by eapply Hs.
  - apply delete_tx_ok in H as (_ & _ & _ & _ & _ & _ & t & ret & -> & _).
    repeat split; simpl.
    + rewrite lookup_delete_ne; [done|]. by apply Hs.
    + rewrite (filter_filter_other _ (fun r => mg_queue_id r <> _)); [done|].
      intros row' E E'. apply (Hs (dr_queue_id r)); [done|congruence].
    + intros m. apply option_eq. intros x. rewrite (map_lookup_filter_Some _ (filter _ _)). simpl.
      split; [|tauto]. intros ?. split; [done|]. intros E. by eapply Hs.
    + intros role n. apply option_eq. intros x. rewrite (map_lookup_filter_Some _ (<[_:=_]> _)). simpl.
      rewrite lookup_insert_ne by (intros [= E _ _]; by eapply Hs).
      split; [|tauto]. intros ?. split; [done|]. intros E. by eapply Hs.
  - unfold purge_tx in H. inv_ok H. by injection H as _ _ <-.
Qed.

(** C22. Mailboxes do not interfere: a call leaves every queue it does not address exactly as it
    was, or as the global expiry sweep leaves it, whatever its outcome. *)
Theorem queues_are_isolated k s q :
  idle s -> command_queue (call_command k) <> Some q ->
  same_queue (as_slice q) (disk (connection s)) (disk (connection (snd (perform k s)))) \/
  same_queue (as_slice q) (sweep (call_now k) (disk (connection s)))
    (disk (connection (snd (perform k s)))).
Proof.
  intros Hi Hq. pose proof (perform_outcome k s Hi) as Ho. destruct (perform k s) as [r s'].
  simpl. destruct Ho as [_ [(v & e & _ & Htx & _) | (_ & _ & [->|(v & e' & Htx)])]];
    [right; by eapply tx_isolated|by left|right; by eapply tx_isolated].
Qed.

End Authorization.
