(* ===== verification/RelayDelivery.v ===== *)
(** * Relay: delivery, acknowledgement and retention

    What a fetch hands out, what removes a message, what a retry gets, and how long rows are
    kept. *)

From S2P Require Import Prelude Core Capability Sqlite RelayDb Relay.
From S2P Require Import RelayFacts RelayTx RelayInv RelayTrace ToyCrypto RelayTheorems.

(** ** Delivery *)

Section Delivery.
Context `{Crypto : CryptoOps}.

(** The envelope a row is handed out as. *)
Definition envelope_of (q : QueueId) (row : MessageRow) (env : StoredEnvelope) : Prop :=
  se_queue_id env = q /\ as_slice (se_message_id env) = mg_message_id row /\
  packet_bytes (se_packet env) = mg_ciphertext row /\ se_expires_at env = mg_expires_at row /\
  as_slice (sig_to_bytes (se_sender_signature env)) = mg_sender_signature row.

(** The receiver of a queue whose mailbox row stores this send key. *)
Definition accepts (mb : MailboxRow) (cap : ReceiveCapability) : Prop :=
  parses_to (mb_send_key mb) (rc_send_verification_key cap).

Lemma parses_to_fun b k k' : parses_to b k -> parses_to b k' -> k = k'.
Proof.
  intros (a & Ha & Hk) (a' & Ha' & Hk'). assert (a = a') as -> by (apply as_slice_inj; congruence).
  congruence.
Qed.

Context `{!CryptoLaws}.

Lemma authentic_row_envelope db row (q : QueueId) :
  authentic db row -> mg_queue_id row = as_slice q -> 0 <= mg_expires_at row ->
  exists env, row_to_envelope q row = Ok env /\ envelope_of q row env /\
    forall mb cap now, mailboxes db !! as_slice q = Some mb -> rc_queue_id cap = q ->
      accepts mb cap -> now < mg_expires_at row ->
      exists v, verify_envelope cap env now = Ok v.
Proof.
  intros (q' & m & mb & k & s & Hq & Hm & Hmb & Hk & Hs & Hv) Eq He.
  rewrite Eq in Hq. apply as_slice_inj in Hq as ->.
  exists (mkStored q m (mkPacket (mg_ciphertext row)) (mg_expires_at row) s).
  split; [|split; [done|]].
  - unfold row_to_envelope, MessageId_from_slice. rewrite <- Hm, array_from_as_slice. simpl.
    rewrite decide_True by done. simpl. rewrite <- Hs, sig_from_to_bytes. done.
  - intros mb' cap now Hmb' Hc Hacc Hnow. rewrite Eq, Hmb' in Hmb. injection Hmb as ->.
    rewrite (parses_to_fun _ _ _ Hk Hacc) in Hv.
    destruct (verify_envelope_spec cap (mkStored q m (mkPacket (mg_ciphertext row))
      (mg_expires_at row) s) now) as [(v & Ev & _)|[_ Hbad]]; [by exists v|].
    simpl in Hbad. destruct Hbad as [|[|]]; [congruence|lia|congruence].
Qed.

Lemma collect_rows_ok db (q : QueueId) rows :
  (forall row, row ∈ rows -> authentic db row /\ mg_queue_id row = as_slice q /\
     0 <= mg_expires_at row) ->
  exists es, collect_rows q rows = Ok es /\ Forall2 (envelope_of q) rows es /\
    forall mb cap now, mailboxes db !! as_slice q = Some mb -> rc_queue_id cap = q ->
      accepts mb cap -> (forall row, row ∈ rows -> now < mg_expires_at row) ->
      Forall (fun env => exists v, verify_envelope cap env now = Ok v) es.
Proof.
  induction rows as [|row rows IH]; intros Hrows.
  - exists []. split; [done|]. split; constructor.
  - destruct (Hrows row) as (Ha & Hq & He); [by left|].
    destruct (authentic_row_envelope db row q Ha Hq He) as (env & E1 & Hof & Hver).
    destruct IH as (es & E2 & Hofs & Hvers); [intros r Hr; apply Hrows; by right|].
    exists (env :: es). simpl. rewrite E1. simpl. rewrite E2.
    split; [done|]. split; [by constructor|].
    intros mb cap now Hmb Hc Hacc Hnow. constructor.
    + eapply Hver; eauto. apply Hnow. by left.
    + eapply Hvers; eauto. intros r Hr. apply Hnow. by right.
Qed.

(** The rows a fetch at [now] hands out. *)
Definition deliverable (q : list byte) (now : Z) (db : RelayDb) : list MessageRow :=
  filter (fun r => mg_queue_id r = q /\ now < mg_expires_at r) (messages db).

Lemma select_queue_sweep q now db : select_queue q now (sweep now db) = deliverable q now db.
Proof.
  unfold select_queue, deliverable. simpl. apply filter_filter_other. intros x [_ ?]. lia.
Qed.

Lemma fetch_total r now db :
  db_wf db -> holds_capability (Fetch r) now db -> now <= I64_MAX -> fr_valid_until r <= I64_MAX ->
  request_nonces db !! (as_slice (fr_queue_id r), "receive"%string, as_slice (fr_nonce r)) = None ->
  exists es db', fetch_tx r now db = Ok (Fetched es, Some "mailbox_fetched"%string, db') /\
    Forall2 (envelope_of (fr_queue_id r)) (deliverable (as_slice (fr_queue_id r)) now db) es /\
    messages db' = filter (fun m => ~ mg_expires_at m <= now) (messages db) /\
    forall mb cap, mailboxes db !! as_slice (fr_queue_id r) = Some mb ->
      rc_queue_id cap = fr_queue_id r -> accepts mb cap ->
      Forall (fun env => exists v, verify_envelope cap env now = Ok v) es.
Proof.
  intros Hwf [(mb & k & Hmb & (a & Ha & Hk) & Hv) Ht] Hnow Hval Hn.
  unfold fetch_tx, validate_request_time.
  rewrite (proj2 (Z.leb_gt _ _)), (proj2 (Z.ltb_ge _ _)) by lia. simpl.
  rewrite (to_i64_le now) by done. simpl. unfold stored_key. simpl. rewrite Hmb. simpl.
  rewrite <- Ha, array_from_as_slice. simpl. rewrite Hk. simpl. rewrite Hv. simpl.
  unfold nonce_tx. rewrite to_i64_le by done. simpl.
  rewrite (bool_decide_true (_ = None)); [|by apply map_lookup_filter_None; left]. simpl.
  rewrite (select_queue_sweep _ now db : select_queue _ _ (set_request_nonces _ _) = _).
  destruct (collect_rows_ok db (fr_queue_id r)
    (deliverable (as_slice (fr_queue_id r)) now db)) as (es & -> & Hof & Hver).
  { intros row [[Hq He] Hr]%list_elem_of_filter. destruct (wf_message _ Hwf row Hr) as (? & ? & _).
    auto with lia. }
  simpl. eexists es, _. split; [done|]. split; [done|]. split; [done|].
  intros mb' cap [= <-] Hc Hacc. apply (Hver mb); [done..|].
  intros row [[_ He] _]%list_elem_of_filter. done.
Qed.

(** A call without failures is the transition. *)
Lemma perform_clean c now s :
  idle s ->
  perform (mkCall c now []) s =
    finish (disk (connection s)) (audit_events s) (tx c now (disk (connection s))).
Proof.
  intros Hi. unfold perform, load. simpl. rewrite <- exec_tx. f_equal.
  destruct s as [[d t fs] ev]. unfold idle in Hi. simpl in *. by rewrite Hi.
Qed.

(** C23. A valid fetch delivers: in a well-formed database, a fetch request signed with the
    receive key, in time, with a nonce not used before, succeeds; it hands out exactly the
    unexpired rows of its queue in insertion order, field by field, without removing any, and
    every envelope passes the recipient's [verify_envelope]. *)
Theorem fetch_delivers r now s :
  idle s -> db_wf (disk (connection s)) ->
  holds_capability (Fetch r) now (disk (connection s)) ->
  now <= I64_MAX -> fr_valid_until r <= I64_MAX ->
  request_nonces (disk (connection s))
    !! (as_slice (fr_queue_id r), "receive"%string, as_slice (fr_nonce r)) = None ->
  exists es s', perform (mkCall (Fetch r) now []) s = (Ok (Fetched es), s') /\
    Forall2 (envelope_of (fr_queue_id r))
      (deliverable (as_slice (fr_queue_id r)) now (disk (connection s))) es /\
    (forall row, row ∈ messages (disk (connection s)) -> now < mg_expires_at row ->
       row ∈ messages (disk (connection s'))) /\
    (forall mb cap, mailboxes (disk (connection s)) !! as_slice (fr_queue_id r) = Some mb ->
       rc_queue_id cap = fr_queue_id r -> accepts mb cap ->
       Forall (fun env => exists v, verify_envelope cap env now = Ok v) es).
Proof.
  intros Hi Hwf Hcap Hnow Hv Hn.
  destruct (fetch_total r now _ Hwf Hcap Hnow Hv Hn) as (es & db' & E & Hof & Hm & Hver).
  rewrite perform_clean by done. simpl. rewrite E. simpl.
  exists es, (at_rest db' (audit_events s ++ ["mailbox_fetched"%string])).
  split; [done|]. split; [done|]. split; [|done].
  intros row Hr He. simpl. rewrite Hm. apply list_elem_of_filter. split; [lia|done].
Qed.

End Delivery.

(** ** What removes a message *)

Section Removal.
Context `{Crypto : CryptoOps}.

(** The command is one that removes the row: an acknowledgement of its packet, or the deletion
    of its mailbox. *)
Definition removes (c : Command) (row : MessageRow) : Prop :=
  match c with
  | Acknowledge r =>
      msg_key row = (as_slice (ar_queue_id r), as_slice (ar_message_id r)) /\
      digest (mg_ciphertext row) = ar_packet_hash r
  | DeleteMailbox r => mg_queue_id row = as_slice (dr_queue_id r)
  | _ => False
  end.

Lemma tx_removes c now db v e db' row :
  NoDup (msg_key <$> messages db) -> tx c now db = Ok (v, e, db') ->
  row ∈ messages db -> now < mg_expires_at row -> row ∈ messages db' \/ removes c row.
Proof.
  intros Hnd H Hr He. pose proof (sweep_message now db row Hr He) as Hs.
  destruct c as [r|r|r|r|r|]; simpl in H.
  - apply register_tx_ok in H as (_ & _ & _ & _ & _ & [(old & _ & _ & _ & _ & n & -> & _)|Hn]);
      [by left|]. destruct Hn as (_ & _ & _ & _ & ->). by left.
  - apply enqueue_tx_ok in H as (_ & _ & _ & _ & _ & _ & [(? & _ & _ & _ & _ & _ & ->)|(_ & _ & _ & ->)]);
      left; [done|]. apply elem_of_app. by left.
  - apply fetch_tx_ok in H as (_ & _ & _ & _ & _ & _ & ->). by left.
  - apply acknowledge_tx_ok in H as (_ & _ & _ & [(row' & _ & _ & Hsel & Hd & _ & ->)|(_ & _ & _ & _ & ->)]);
      [|by left].
    destruct (decide (msg_key row = (as_slice (ar_queue_id r), as_slice (ar_message_id r))))
      as [E|E]; [|left; by apply list_elem_of_filter]. right. split; [done|].
    apply select_message_Some in Hsel as [Hin Hk]. apply list_elem_of_filter in Hin as [_ Hin].
    by rewrite (nodup_key_eq db row row' Hnd Hr Hin) by congruence.
  - apply delete_tx_ok in H as (_ & _ & _ & _ & _ & _ & t & ret & -> & _).
    destruct (decide (mg_queue_id row = as_slice (dr_queue_id r))) as [E|E]; [by right|].
    left. by apply list_elem_of_filter.
  - unfold purge_tx in H. inv_ok H. injection H as _ _ <-. by left.
Qed.

(** C9. A queued message is removed only by its expiry, by an acknowledgement of exactly that
    packet signed with the receive key, or by a deletion of its mailbox signed with the manage
    key; storage failures remove nothing else. *)
Theorem message_removed_only_by k s row :
  idle s -> db_wf (disk (connection s)) -> row ∈ messages (disk (connection s)) ->
  row ∉ messages (disk (connection (snd (perform k s)))) ->
  mg_expires_at row <= call_now k \/
  removes (call_command k) row /\
    holds_capability (call_command k) (call_now k) (disk (connection s)).
Proof.
  intros Hi Hwf Hr Hout. destruct (decide (mg_expires_at row <= call_now k)) as [|He]; [by left|].
  right. pose proof (perform_outcome k s Hi) as Ho. destruct (perform k s) as [r s']. simpl in Hout.
  assert (Htx : forall v e, tx (call_command k) (call_now k) (disk (connection s))
    = Ok (v, e, disk (connection s')) -> removes (call_command k) row /\
      holds_capability (call_command k) (call_now k) (disk (connection s))).
  { intros v e H. split; [|by eapply tx_holds_capability].
    destruct (tx_removes _ _ _ _ _ _ row (wf_nodup _ Hwf) H Hr); [lia|done|done]. }
  destruct Ho as [_ [(v & e & _ & H & _) | (_ & _ & [Hd|(v & e' & H)])]]; eauto.
  by rewrite Hd in Hout.
Qed.

Lemma acknowledge_present r now db row :
  holds_capability (Acknowledge r) now db -> NoDup (msg_key <$> messages db) ->
  now <= I64_MAX -> saturating_add now TOMBSTONE_TTL_SECONDS <= I64_MAX ->
  row ∈ messages db -> now < mg_expires_at row ->
  msg_key row = (as_slice (ar_queue_id r), as_slice (ar_message_id r)) ->
  acknowledge_tx r now db =
    if bool_decide (digest (mg_ciphertext row) = ar_packet_hash r)
    then Ok (Acknowledged Deleted, Some "message_acknowledged_and_deleted"%string,
             set_tombstones (<[msg_key row := saturating_add now TOMBSTONE_TTL_SECONDS]>
                               (tombstones (sweep now db)))
               (set_messages (filter (fun x => msg_key x <> msg_key row)
                                (messages (sweep now db))) (sweep now db)))
    else Err Unauthorized.
Proof.
  intros [(mb & k & Hmb & (a & Ha & Hk) & Hv) Ht] Hnd Hnow Hd Hr He Ek.
  unfold acknowledge_tx, validate_request_time.
  rewrite (proj2 (Z.leb_gt _ _)), (proj2 (Z.ltb_ge _ _)) by lia. simpl.
  rewrite (to_i64_le now) by done. simpl. unfold stored_key. simpl. rewrite Hmb. simpl.
  rewrite <- Ha, array_from_as_slice. simpl. rewrite Hk. simpl. rewrite Hv. simpl.
  rewrite (proj2 (select_message_iff _ _ (sweep now db) row (NoDup_fmap_filter _ _ _ Hnd)))
    by eauto using sweep_message.
  destruct (bool_decide _); [|done]. simpl. rewrite to_i64_le, Ek by done. done.
Qed.

(** Acknowledgement on a queued message: with the digest of the stored packet it removes
    that row and no other unexpired one and leaves a tombstone of seven days; with any other
    digest it is refused and nothing changes. *)
Theorem acknowledge_queued r now s row :
  idle s -> db_wf (disk (connection s)) ->
  holds_capability (Acknowledge r) now (disk (connection s)) ->
  saturating_add now TOMBSTONE_TTL_SECONDS <= I64_MAX -> now <= I64_MAX ->
  row ∈ messages (disk (connection s)) -> now < mg_expires_at row ->
  msg_key row = (as_slice (ar_queue_id r), as_slice (ar_message_id r)) ->
  let '(reply, s') := perform (mkCall (Acknowledge r) now []) s in
  if bool_decide (digest (mg_ciphertext row) = ar_packet_hash r)
  then reply = Ok (Acknowledged Deleted) /\
    (forall x, x ∈ messages (disk (connection s')) <->
       x ∈ messages (disk (connection s)) /\ now < mg_expires_at x /\ x <> row) /\
    tombstones (disk (connection s')) !! msg_key row
      = Some (saturating_add now TOMBSTONE_TTL_SECONDS)
  else reply = Err Unauthorized /\ disk (connection s') = disk (connection s).
Proof.
  intros Hi Hwf Hc Hd Hnow Hr He Ek. rewrite perform_clean by done. simpl.
  rewrite (acknowledge_present r now _ row Hc (wf_nodup _ Hwf)) by done.
  destruct (bool_decide _); [|done]. simpl. split; [done|]. split; [|apply lookup_insert_eq].
  intros x. rewrite !list_elem_of_filter. split.
  - intros (Hk & Hx & Hin). split; [done|]. split; [lia|]. congruence.
  - intros (Hin & Hx & Hne). split; [|split; [lia|done]]. intros Hk.
    by destruct Hne; apply (nodup_key_eq _ _ _ (wf_nodup _ Hwf)).
Qed.

End Removal.
