(* ===== verification/RelayRetry.v ===== *)
(** * Relay: retries after a storage failure, retention bounds, delivery over a run

    A caller that gets [Storage] does not know whether its commit took effect. Repeating the
    same enqueue, acknowledgement or registration converges to the effect of one successful
    call, whichever happened. *)

From S2P Require Import Prelude Core Capability Sqlite RelayDb Relay.
From S2P Require Import RelayFacts RelayTx RelayInv RelayTrace ToyCrypto RelayTheorems.
From S2P Require Import RelayDelivery.

Section Retry.
Context `{Crypto : CryptoOps}.

(** ** Introduction rules for the transitions *)

Lemma validate_request_time_intro t now :
  now < t <= saturating_add now (5 * 60) -> validate_request_time t now = Ok tt.
Proof.
  intros H. unfold validate_request_time.
  by rewrite (proj2 (Z.leb_gt _ _)), (proj2 (Z.ltb_ge _ _)) by lia.
Qed.

Lemma validate_message_expiry_intro t now :
  now < t <= saturating_add now MAX_MESSAGE_TTL_SECONDS -> validate_message_expiry t now = Ok tt.
Proof.
  intros H. unfold validate_message_expiry.
  by rewrite (proj2 (Z.leb_gt _ _)), (proj2 (Z.ltb_ge _ _)) by lia.
Qed.

Lemma stored_key_intro col (q : QueueId) db mb k :
  mailboxes db !! as_slice q = Some mb -> parses_to (col mb) k -> stored_key col q db = Ok k.
Proof.
  intros Hmb (a & Ha & Hk). unfold stored_key. rewrite Hmb. simpl.
  by rewrite <- Ha, array_from_as_slice; simpl; rewrite Hk.
Qed.

(** An enqueue request the relay accepts: everything but the look-up of the message itself. *)
Definition admissible (r : SendRequest) (now : Z) (db : RelayDb) : Prop :=
  0 < Z.of_nat (length (packet_bytes (sr_packet r))) <= MAX_PACKET_BYTES /\
  holds_capability (Enqueue r) now db /\ now <= I64_MAX /\ sr_expires_at r <= I64_MAX /\
  tombstones (sweep now db) !! (as_slice (sr_queue_id r), as_slice (sr_message_id r)) = None.

(** The row a send request is stored as. *)
Definition request_row (r : SendRequest) : MessageRow :=
  mkMessage (as_slice (sr_queue_id r)) (as_slice (sr_message_id r))
    (packet_bytes (sr_packet r)) (sr_expires_at r) (as_slice (sig_to_bytes (sr_signature r))).

Lemma enqueue_admissible r now db :
  admissible r now db ->
  enqueue_tx r now db =
    match select_message (as_slice (sr_queue_id r)) (as_slice (sr_message_id r)) (sweep now db)
    with
    | Some row =>
        if bool_decide (mg_ciphertext row = packet_bytes (sr_packet r)) &&
           (mg_expires_at row =? sr_expires_at r)
        then Ok (Enqueued Duplicate, Some "message_enqueue_duplicate"%string, sweep now db)
        else Err MessageConflict
    | None => Ok (Enqueued Stored, Some "message_enqueued"%string,
                  set_messages (messages (sweep now db) ++ [request_row r]) (sweep now db))
    end.
Proof.
  intros (Hp & [(mb & k & Hmb & Hk & Hv) Hx] & Hnow & Hi & Ht). unfold enqueue_tx.
  rewrite bool_decide_false by (intros E; rewrite E in Hp; simpl in Hp; lia).
  rewrite (proj2 (Z.ltb_ge _ _)) by lia. simpl.
  rewrite validate_message_expiry_intro by done. simpl. rewrite (to_i64_le now) by done. simpl.
  rewrite (stored_key_intro mb_send_key _ (sweep now db) mb k) by done. simpl. rewrite Hv. simpl.
  unfold live_tombstone_exists. rewrite Ht. simpl.
  destruct (select_message _ _ _); rewrite !to_i64_le by done; simpl; [|done].
  destruct (bool_decide _), (_ =? _); done.
Qed.

Lemma enqueue_tx_admissible r now db v e db' :
  enqueue_tx r now db = Ok (v, e, db') -> admissible r now db.
Proof. intros (? & ? & ? & ? & ? & ? & _)%enqueue_tx_ok. repeat split; auto; lia. Qed.

Lemma sweep_sweep t now db : t <= now -> sweep now (sweep t db) = sweep now db.
Proof.
  intros Ht. unfold sweep. simpl.
  assert (Hm : forall (K : Type) `{Countable K} (m : gmap K Z),
    filter (fun kv => ~ kv.2 <= now) (filter (fun kv => ~ kv.2 <= t) m)
      = filter (fun kv => ~ kv.2 <= now) m).
  { intros K ?? m. apply map_eq. intros i. apply option_eq. intros x.
    rewrite !map_lookup_filter_Some. simpl. intuition lia. }
  f_equal; [|by apply Hm..]. apply filter_filter_other. intros x. lia.
Qed.

Lemma admissible_later r t now db :
  admissible r t db -> t <= now < sr_expires_at r -> admissible r now db.
Proof.
  intros (Hp & [Hc Hx] & _ & Hi & Ht) Hnow. unfold admissible.
  pose proof (saturating_add_mono t now MAX_MESSAGE_TTL_SECONDS ltac:(lia)).
  repeat split; try done || lia.
  rewrite <- (sweep_sweep t now) by lia. apply map_lookup_filter_None. by left.
Qed.

(** The rows that carry a given key. *)
Definition rows_of (k : list byte * list byte) (db : RelayDb) : list MessageRow :=
  filter (fun row => msg_key row = k) (messages db).

Lemma rows_of_unique k row db :
  NoDup (msg_key <$> messages db) -> row ∈ messages db -> msg_key row = k ->
  rows_of k db = [row].
Proof.
  unfold rows_of. induction (messages db) as [|x l IH]; [by intros _ ?%not_elem_of_nil|].
  rewrite fmap_cons, NoDup_cons. intros [Hx Hl] [<-|Hin]%elem_of_cons Hk.
  - rewrite filter_cons_True by done. f_equal. apply elem_of_nil_inv.
    intros y [E Hy]%list_elem_of_filter. apply Hx. rewrite Hk, <- E.
    by apply list_elem_of_fmap_2.
  - rewrite filter_cons_False; [by apply IH|]. intros E. apply Hx. rewrite E, <- Hk.
    by apply list_elem_of_fmap_2.
Qed.

Lemma enqueue_nodup r now db v e db' :
  NoDup (msg_key <$> messages db) -> enqueue_tx r now db = Ok (v, e, db') ->
  NoDup (msg_key <$> messages db').
Proof.
  intros Hnd H. apply enqueue_tx_ok in H as (_ & _ & _ & _ & _ & _ & [(? & _ & _ & _ & _ & _ & ->)
    |(_ & _ & Hs & ->)]); [by apply NoDup_fmap_filter|].
  apply select_message_None_keys in Hs. simpl. rewrite fmap_app. apply NoDup_app.
  split; [by apply NoDup_fmap_filter|]. split; [|apply NoDup_singleton].
  by intros k Hk ->%list_elem_of_singleton.
Qed.

Lemma enqueue_ok_rows r now db v e db' :
  NoDup (msg_key <$> messages db) -> enqueue_tx r now db = Ok (v, e, db') ->
  exists row, rows_of (msg_key (request_row r)) db' = [row] /\
    mg_ciphertext row = packet_bytes (sr_packet r) /\ mg_expires_at row = sr_expires_at r.
Proof.
  intros Hnd H.
  apply enqueue_tx_ok in H as (_ & _ & _ & _ & _ & _ & [(row & _ & _ & Hs & Hp & Hx & ->)
    |(_ & _ & Hs & ->)]).
  - exists row. split; [|done]. apply select_message_Some in Hs as [Hr Hk].
    apply rows_of_unique; [by apply NoDup_fmap_filter|done|done].
  - exists (request_row r). split; [|done]. unfold rows_of. simpl. rewrite filter_app.
    rewrite filter_cons_True, filter_nil by done.
    rewrite (elem_of_nil_inv (filter _ (filter _ _))); [done|].
    intros y [E Hy]%list_elem_of_filter. by eapply select_message_None.
Qed.

Lemma enqueue_found r now db row :
  admissible r now db -> NoDup (msg_key <$> messages db) -> row ∈ messages db ->
  msg_key row = msg_key (request_row r) -> mg_ciphertext row = packet_bytes (sr_packet r) ->
  mg_expires_at row = sr_expires_at r ->
  enqueue_tx r now db =
    Ok (Enqueued Duplicate, Some "message_enqueue_duplicate"%string, sweep now db).
Proof.
  intros Ha Hnd Hr Hk Hp Hx. rewrite enqueue_admissible by done.
  destruct Ha as (_ & [_ Hexp] & _).
  rewrite (proj2 (select_message_iff _ _ (sweep now db) row (NoDup_fmap_filter _ _ _ Hnd))).
  - by rewrite bool_decide_true, (proj2 (Z.eqb_eq _ _)) by done.
  - split; [|done]. apply sweep_message; [done|lia].
Qed.

(** Repeating an accepted request on the tables as they were. *)
Lemma enqueue_again r t now db v e db' :
  NoDup (msg_key <$> messages db) -> enqueue_tx r t db = Ok (v, e, db') ->
  t <= now < sr_expires_at r ->
  exists o e2 db2, enqueue_tx r now db = Ok (Enqueued o, e2, db2).
Proof.
  intros Hnd H Hnow. pose proof (enqueue_tx_admissible _ _ _ _ _ _ H) as Ha.
  apply (admissible_later _ _ now) in Ha; [|done].
  apply enqueue_tx_ok in H as (_ & _ & _ & _ & _ & _ & [(row & _ & _ & Hs & Hp & Hx & _)
    |(_ & _ & Hs & _)]).
  - apply select_message_Some in Hs as [Hr Hk]. apply list_elem_of_filter in Hr as [_ Hr].
    rewrite (enqueue_found r now db row) by done. eauto.
  - rewrite enqueue_admissible by done.
    destruct (select_message _ _ (sweep now db)) as [row|] eqn:E; [|by eauto]. exfalso.
    apply select_message_Some in E as [Hr Hk]. apply list_elem_of_filter in Hr as [He Hr].
    eapply (select_message_None _ _ _ row Hs); [|done]. apply sweep_message; [done|lia].
Qed.

(** Repeating it on the tables it left. *)
Lemma enqueue_again_after r t now db v e db' :
  NoDup (msg_key <$> messages db) -> NoDup (msg_key <$> messages db') ->
  enqueue_tx r t db = Ok (v, e, db') -> t <= now < sr_expires_at r ->
  exists e2 db2, enqueue_tx r now db' = Ok (Enqueued Duplicate, e2, db2).
Proof.
  intros Hnd Hnd' H Hnow.
  destruct (enqueue_ok_rows _ _ _ _ _ _ Hnd H) as (row & Hrow & Hp & Hx).
  assert (Hin : row ∈ rows_of (msg_key (request_row r)) db') by (rewrite Hrow; by left).
  apply list_elem_of_filter in Hin as [Hk Hin].
  pose proof (admissible_later _ _ now _ (enqueue_tx_admissible _ _ _ _ _ _ H) Hnow) as Ha.
  eexists _, _. apply (enqueue_found r now db' row); try done.
  destruct Ha as (Ha1 & Ha2 & Ha3 & Ha4 & Ha5).
  assert (mailboxes db' = mailboxes db /\ tombstones db' = tombstones (sweep t db)) as [Em Et].
  { apply enqueue_tx_ok in H as (_ & _ & _ & _ & _ & _ & [(? & _ & _ & _ & _ & _ & ->)
      |(_ & _ & _ & ->)]); done. }
  unfold admissible, holds_capability. rewrite Em. repeat split; try apply Ha2; try done || lia.
  rewrite <- (sweep_sweep t now) in Ha5 by lia. unfold sweep. simpl. by rewrite Et.
Qed.

(** The two durable outcomes of a call that would succeed without failures. *)
Lemma perform_either c now fs s v e db' reply s1 :
  idle s -> tx c now (disk (connection s)) = Ok (v, e, db') ->
  perform (mkCall c now fs) s = (reply, s1) ->
  idle s1 /\ (disk (connection s1) = db' \/
    disk (connection s1) = disk (connection s) /\ is_ok reply = false).
Proof.
  intros Hi E P. pose proof (perform_outcome (mkCall c now fs) s Hi) as Ho. rewrite P in Ho.
  simpl in Ho. rewrite E in Ho. destruct Ho as [Hi1 Ho]. split; [done|].
  destruct Ho as [(? & ? & -> & [= -> -> ->] & _)|([? ->] & _ & [Hd|(? & ? & [= _ _ ->])])]; auto.
Qed.

(** C24. Enqueue can be retried. If the request would be accepted now, then whatever happens to
    the first call (a storage failure, a lost commit, success), repeating it before the message
    expires succeeds and leaves exactly one row for the message, with the requested packet; and
    if the first call succeeded, the second one reports a duplicate. *)
Theorem enqueue_retry_converges r s fs now1 now2 v :
  idle s -> NoDup (msg_key <$> messages (disk (connection s))) ->
  fst (perform (mkCall (Enqueue r) now1 []) s) = Ok v ->
  now1 <= now2 < sr_expires_at r ->
  let '(reply1, s1) := perform (mkCall (Enqueue r) now1 fs) s in
  let '(reply2, s2) := perform (mkCall (Enqueue r) now2 []) s1 in
  (exists o, reply2 = Ok (Enqueued o) /\ (is_ok reply1 = true -> o = Duplicate)) /\
  exists row, rows_of (msg_key (request_row r)) (disk (connection s2)) = [row] /\
    mg_ciphertext row = packet_bytes (sr_packet r) /\ mg_expires_at row = sr_expires_at r.
Proof.
  intros Hi Hnd H1 Hnow. rewrite perform_clean in H1 by done. cbn [tx] in H1.
  destruct (enqueue_tx r now1 (disk (connection s))) as [[[v' e'] db']|] eqn:E1; [|done].
  assert (Hnd' : NoDup (msg_key <$> messages db')) by eauto using enqueue_nodup.
  destruct (perform (mkCall (Enqueue r) now1 fs) s) as [reply1 s1] eqn:P1.
  destruct (perform_either (Enqueue r) _ _ _ _ _ _ _ _ Hi E1 P1) as [Hi1 Hcase].
  rewrite perform_clean by done. cbn [tx].
  destruct Hcase as [->|[-> Hno]].
  - destruct (enqueue_again_after r now1 now2 _ _ _ db' Hnd Hnd' E1 Hnow) as (e2 & db2 & E2).
    rewrite E2. simpl. split; [by eexists|]. by eapply enqueue_ok_rows in E2.
  - destruct (enqueue_again r now1 now2 _ _ _ _ Hnd E1 Hnow) as (o & e2 & db2 & E2).
    rewrite E2. simpl. split; [exists o; by rewrite Hno|]. by eapply enqueue_ok_rows in E2.
Qed.

(** ** Acknowledgement *)

(** An acknowledgement finds a tombstone and no row: it is a duplicate. *)
Lemma acknowledge_buried r now db :
  holds_capability (Acknowledge r) now db -> now <= I64_MAX ->
  (as_slice (ar_queue_id r), as_slice (ar_message_id r)) ∉ msg_key <$> messages db ->
  is_Some (tombstones (sweep now db) !! (as_slice (ar_queue_id r), as_slice (ar_message_id r))) ->
  acknowledge_tx r now db =
    Ok (Acknowledged AlreadyDeleted, Some "message_ack_duplicate"%string, sweep now db).
Proof.
  intros [(mb & k & Hmb & Hk & Hv) Ht] Hnow Hrow Htomb. unfold acknowledge_tx.
  rewrite validate_request_time_intro by done. simpl. rewrite (to_i64_le now) by done. simpl.
  rewrite (stored_key_intro mb_receive_key _ (sweep now db) mb k) by done. simpl. rewrite Hv. simpl.
  rewrite (proj2 (select_message_None_keys _ _ (sweep now db))).
  - unfold tombstone_exists. by rewrite bool_decide_true.
  - intros Hin. by apply fmap_filter_elem in Hin.
Qed.

(** What a completed acknowledgement leaves: no row for the message, a tombstone. *)
Definition buried (r : AckRequest) (t : Z) (db : RelayDb) : Prop :=
  let k := (as_slice (ar_queue_id r), as_slice (ar_message_id r)) in
  (k ∉ msg_key <$> messages db) /\ exists d, tombstones db !! k = Some d /\ t < d.

Lemma acknowledge_tx_buried r now t db v e db' :
  acknowledge_tx r now db = Ok (v, e, db') -> now <= t < ar_valid_until r ->
  (forall d, tombstones (sweep now db) !! (as_slice (ar_queue_id r), as_slice (ar_message_id r))
     = Some d -> t < d) ->
  buried r t db'.
Proof.
  intros (Hv & _ & _ & [(row & _ & _ & _ & _ & _ & ->)|(_ & _ & Hs & [d Htomb] & ->)])%acknowledge_tx_ok
    Ht Hd.
  - split; simpl.
    + intros (x & E & Hx)%list_elem_of_fmap. by apply list_elem_of_filter in Hx as [[] _].
    + eexists. split; [apply lookup_insert_eq|]. unfold saturating_add, TOMBSTONE_TTL_SECONDS in *.
      lia.
  - split; [by apply select_message_None_keys|]. eauto.
Qed.

Lemma acknowledge_tx_now r now db v e db' :
  acknowledge_tx r now db = Ok (v, e, db') -> buried r now db'.
Proof.
  intros H. eapply acknowledge_tx_buried; [done| |].
  - apply acknowledge_tx_ok in H as (? & _). lia.
  - intros d [_ Hd]%map_lookup_filter_Some. simpl in Hd. lia.
Qed.

Lemma buried_acknowledge r now db :
  holds_capability (Acknowledge r) now db -> now <= I64_MAX -> buried r now db ->
  exists e db2, acknowledge_tx r now db = Ok (Acknowledged AlreadyDeleted, e, db2).
Proof.
  intros Hc Hn [Hrow (d & Hd & Hdn)]. rewrite acknowledge_buried; eauto.
  exists d. by apply sweep_tombstone.
Qed.

(** A request that was good at [t] is good at [now], until its deadline. *)
Lemma ack_capability_later r t now db db' :
  holds_capability (Acknowledge r) t db -> mailboxes db' = mailboxes db ->
  t <= now < ar_valid_until r -> holds_capability (Acknowledge r) now db'.
Proof.
  intros [Hc Ht] Em Hnow. unfold holds_capability. rewrite Em. split; [done|].
  pose proof (saturating_add_mono t now (5 * 60) ltac:(lia)). lia.
Qed.

Lemma acknowledge_mailboxes r now db v e db' :
  acknowledge_tx r now db = Ok (v, e, db') -> mailboxes db' = mailboxes db.
Proof.
  by intros (_ & _ & _ & [(row & _ & _ & _ & _ & _ & ->)|(_ & _ & _ & _ & ->)])%acknowledge_tx_ok.
Qed.

(** Repeating a good acknowledgement on the tables as they were. *)
Lemma acknowledge_again r t now db v e db' :
  db_wf db -> acknowledge_tx r t db = Ok (v, e, db') ->
  t <= now < ar_valid_until r -> saturating_add now TOMBSTONE_TTL_SECONDS <= I64_MAX ->
  now <= I64_MAX ->
  (forall d, tombstones db !! (as_slice (ar_queue_id r), as_slice (ar_message_id r)) = Some d ->
     now < d) ->
  (forall row, row ∈ messages db ->
     msg_key row = (as_slice (ar_queue_id r), as_slice (ar_message_id r)) ->
     now < mg_expires_at row) ->
  exists o e2 db2, acknowledge_tx r now db = Ok (Acknowledged o, e2, db2).
Proof.
  intros Hwf H Hnow Hi64 Hn Hd Hrow.
  pose proof (tx_holds_capability (Acknowledge r) _ _ _ _ _ H) as Hcap.
  apply (ack_capability_later _ t now db db) in Hcap; [|done..].
  apply acknowledge_tx_ok in H as (_ & _ & _ & [(row & _ & _ & Hs & Hp & _ & _)
    |(_ & _ & Hs & [d Htomb] & _)]).
  - apply select_message_Some in Hs as [Hr Hk]. apply list_elem_of_filter in Hr as [_ Hr].
    rewrite (acknowledge_present r now db row) by eauto using wf_nodup.
    rewrite bool_decide_true by done. eauto.
  - apply map_lookup_filter_Some in Htomb as [Htomb _].
    destruct (buried_acknowledge r now db) as (e2 & db2 & ->); eauto 6.
    destruct (wf_tombstone _ Hwf _ _ _ Htomb) as (_ & _ & Hno). split; eauto.
Qed.

(** C25. An acknowledgement can be retried. If it would succeed now, then whatever happens to the
    first call, repeating it succeeds as long as neither the request nor, at the retry, the
    message or an earlier tombstone of it has expired, and the message is neither queued nor able
    to come back: its tombstone is in place. If the first call succeeded, the
    second one reports that the message was already deleted. *)
Theorem acknowledge_retry_converges r s fs now1 now2 v :
  idle s -> db_wf (disk (connection s)) ->
  fst (perform (mkCall (Acknowledge r) now1 []) s) = Ok v ->
  now1 <= now2 < ar_valid_until r -> saturating_add now2 TOMBSTONE_TTL_SECONDS <= I64_MAX ->
  (forall d, tombstones (disk (connection s)) !! (as_slice (ar_queue_id r), as_slice (ar_message_id r))
     = Some d -> now2 < d) ->
  (forall row, row ∈ messages (disk (connection s)) ->
     msg_key row = (as_slice (ar_queue_id r), as_slice (ar_message_id r)) ->
     now2 < mg_expires_at row) ->
  let '(reply1, s1) := perform (mkCall (Acknowledge r) now1 fs) s in
  let '(reply2, s2) := perform (mkCall (Acknowledge r) now2 []) s1 in
  (exists o, reply2 = Ok (Acknowledged o) /\ (is_ok reply1 = true -> o = AlreadyDeleted)) /\
  buried r now2 (disk (connection s2)).
Proof.
  intros Hi Hwf H1 Hnow Hi64 Hd Hrow. rewrite perform_clean in H1 by done. cbn [tx] in H1.
  destruct (acknowledge_tx r now1 (disk (connection s))) as [[[v' e'] db']|] eqn:E1; [|done].
  destruct (perform (mkCall (Acknowledge r) now1 fs) s) as [reply1 s1] eqn:P1.
  destruct (perform_either (Acknowledge r) _ _ _ _ _ _ _ _ Hi E1 P1) as [Hi1 Hcase].
  rewrite perform_clean by done. cbn [tx].
  assert (Hn2 : now2 <= I64_MAX) by (unfold saturating_add, TOMBSTONE_TTL_SECONDS, I64_MAX, U64_MAX in *; lia).
  pose proof (tx_holds_capability (Acknowledge r) _ _ _ _ _ E1) as Hcap.
  assert (Hagain : exists o e2 db2,
    acknowledge_tx r now2 (disk (connection s1)) = Ok (Acknowledged o, e2, db2) /\
    (is_ok reply1 = true -> o = AlreadyDeleted)).
  { destruct Hcase as [->|[-> ->]].
    - destruct (buried_acknowledge r now2 db') as (e & db2 & ->); [|done| |by eauto].
      + eapply (ack_capability_later _ now1 now2); [done|by eapply acknowledge_mailboxes|done].
      + eapply acknowledge_tx_buried; [done..|]. intros d [Hd' _]%map_lookup_filter_Some. eauto.
    - destruct (acknowledge_again r now1 now2 _ _ _ _ Hwf E1) as (o & e2 & db2 & ->);
        [done..|]. by exists o, e2, db2. }
  destruct Hagain as (o & e2 & db2 & E2 & Ho). rewrite E2. simpl.
  split; [by eauto|]. by eapply acknowledge_tx_now.
Qed.

End Retry.
