(* ===== verification/RelayRuns.v ===== *)
(** * Relay: theorems over runs

    Atomicity of every operation under storage failures, the invariant of reachable states,
    retention bounds, and delivery of a stored message at any later fetch. *)

From S2P Require Import Prelude Core Capability Sqlite RelayDb Relay.
From S2P Require Import RelayFacts RelayTx RelayInv RelayTrace ToyCrypto RelayTheorems.
From S2P Require Import RelayDelivery RelayRetry.

Section Atomic.
Context `{Crypto : CryptoOps}.

(** C3. Every operation is atomic and refines its transition. Whatever calls into [SQLite] fail
    during it, and even if a commit takes effect although it reports a failure, the operation
    returns what the transition [tx] computes, with exactly that durable effect and audit event,
    or it returns [Storage], records no audit event, and the durable tables are the old ones or
    exactly those of the completed transition. No transaction is left open. *)
Theorem operations_refine_transitions c now s :
  txn (connection s) = None ->
  let '(r, s') := exec c now s in
  txn (connection s') = None /\
  ((match tx c now (disk (connection s)) with
    | Ok (v, e, db') =>
        r = Ok v /\ disk (connection s') = db' /\
        audit_events s' = audit_events s ++ option_list e
    | Err e =>
        r = Err e /\ disk (connection s') = disk (connection s) /\
        audit_events s' = audit_events s
    end)
   \/ r = Err Storage /\ audit_events s' = audit_events s /\
      (disk (connection s') = disk (connection s) \/
       exists v e, tx c now (disk (connection s)) = Ok (v, e, disk (connection s')))).
Proof. apply exec_outcome. Qed.

(** C20. The invariant of the tables holds in every reachable state: after any sequence of calls
    from an empty database, with any storage failures, every mailbox has parseable keys, message
    identifiers are unique per queue, every queued row belongs to a registered mailbox and
    carries a valid signature of its send key over its own fields, no identifier is both queued
    and tombstoned, and tombstones and nonces belong to registered mailboxes. *)
Theorem reachable_tables_well_formed `{!CryptoLaws} ks t :
  0 <= t -> clocked t ks -> db_wf (disk (connection (snd (run ks fresh_relay)))).
Proof. intros Ht Hc. by apply (run_wf ks t fresh_relay Ht eq_refl Hc wf_empty). Qed.

End Atomic.

(** ** Retention *)

Section Retention.
Context `{Crypto : CryptoOps}.

(** Every row with an expiry expires after [lo], and within the bound of its table from [t]. *)
Record retained (lo t : Z) (db : RelayDb) : Prop := {
  ret_message row : row ∈ messages db ->
    lo < mg_expires_at row <= saturating_add t MAX_MESSAGE_TTL_SECONDS;
  ret_tombstone k d : tombstones db !! k = Some d ->
    lo < d <= saturating_add t TOMBSTONE_TTL_SECONDS;
  ret_nonce k d : request_nonces db !! k = Some d -> lo < d <= saturating_add t (5 * 60);
  ret_registration k d : registration_nonces db !! k = Some d ->
    lo < d <= saturating_add t (5 * 60);
}.

Lemma retained_later lo t now db : retained lo t db -> t <= now -> retained lo now db.
Proof.
  intros [H1 H2 H3 H4] Ht. pose proof (saturating_add_mono t now) as Hm.
  split; [intros ? [??]%H1|intros ?? [??]%H2|intros ?? [??]%H3|intros ?? [??]%H4];
    (split; [done|]); (etransitivity; [done|auto]).
Qed.

Lemma retained_sweep lo t now db : retained lo t db -> retained now t (sweep now db).
Proof.
  intros [H1 H2 H3 H4]. split; simpl.
  - intros row [He Hr]%list_elem_of_filter. specialize (H1 _ Hr). lia.
  - intros k d [Hd He]%map_lookup_filter_Some. specialize (H2 _ _ Hd). simpl in He. lia.
  - intros k d [Hd He]%map_lookup_filter_Some. specialize (H3 _ _ Hd). simpl in He. lia.
  - intros k d [Hd He]%map_lookup_filter_Some. specialize (H4 _ _ Hd). simpl in He. lia.
Qed.

Lemma insert_bound `{Countable K} (m : gmap K Z) k x (P : Z -> Prop) :
  P x -> (forall k d, m !! k = Some d -> P d) ->
  forall k' d, <[k := x]> m !! k' = Some d -> P d.
Proof. intros Hx Hm k' d [[_ <-]|[_ Hd]]%lookup_insert_Some; eauto. Qed.

Lemma tx_retained c lo now db v e db' :
  retained lo now db -> tx c now db = Ok (v, e, db') -> retained now now db'.
Proof.
  intros Hr%(retained_sweep _ _ now) H. pose proof Hr as [H1 H2 H3 H4].
  destruct c as [r|r|r|r|r|]; simpl in H.
  - apply register_tx_ok in H as (Hv & _ & _ & _ & _ & [(old & _ & _ & _ & _ & n & -> & Hn)|Hn]).
    + split; try done. simpl. intros k d [Hd| ->]%Hn; [eauto|lia].
    + destruct Hn as (_ & _ & _ & _ & ->). split; try done. apply (insert_bound _ _ _ (fun d => now < d <= _)); [lia|done].
  - apply enqueue_tx_ok in H as (_ & Hx & _ & _ & _ & _ & [(? & _ & _ & _ & _ & _ & ->)|(_ & _ & _ & ->)]);
      [done|]. split; try done. simpl.
    intros row [?| ->%list_elem_of_singleton]%elem_of_app; [eauto|simpl; lia].
  - apply fetch_tx_ok in H as (Hv & _ & _ & _ & _ & _ & ->). split; try done.
    apply (insert_bound _ _ _ (fun d => now < d <= _)); [lia|done].
  - apply acknowledge_tx_ok in H as (_ & Hi & _ & [(? & _ & _ & _ & _ & _ & ->)|(_ & _ & _ & _ & ->)]);
      [|done]. split; try done.
    + simpl. intros row [_ ?]%list_elem_of_filter. eauto.
    + apply (insert_bound _ _ _ (fun d => now < d <= _)); [|done].
      unfold saturating_add, TOMBSTONE_TTL_SECONDS, I64_MAX, U64_MAX in *. lia.
  - apply delete_tx_ok in H as (_ & _ & _ & _ & _ & _ & t & ret & -> & _). split; try done; simpl.
    + intros row [_ ?]%list_elem_of_filter. eauto.
    + intros k d [Hd _]%map_lookup_filter_Some. eauto.
    + intros [[q role] n] d [Hd Hq]%map_lookup_filter_Some. simpl in Hq.
      rewrite lookup_insert_ne in Hd by congruence. eauto.
  - unfold purge_tx in H. inv_ok H. by injection H as _ _ <-.
Qed.

(** C26. Retention is bounded. In every reachable state, after a call that succeeds at [now],
    every message and tombstone left in the tables expires after [now] and at most seven days
    later, and every remembered nonce after [now] and at most five minutes later: nothing
    expired is kept, and nothing is kept longer than its bound. *)
Theorem retention_is_bounded ks t k v :
  clocked t (ks ++ [k]) -> fst (perform k (snd (run ks fresh_relay))) = Ok v ->
  retained (call_now k) (call_now k)
    (disk (connection (snd (perform k (snd (run ks fresh_relay)))))).
Proof.
  intros [Hc [Hk _]]%clocked_app Hok.
  destruct (run_invariant (fun _ => True) (fun t db => exists lo, retained lo t db) ks t fresh_relay)
    as [Hi [lo Hr]]; eauto using Forall_any.
  - intros ??? [lo ?] ?. eauto using retained_later.
  - intros c ? now db ??? _ [lo ?] ? Htx. eauto using tx_retained, retained_later.
  - done.
  - exists 0. split; simpl; try by setoid_rewrite lookup_empty.
    intros row Hr. by apply not_elem_of_nil in Hr.
  - destruct (perform k _) as [r s'] eqn:P. simpl in Hok. subst r.
    apply perform_ok in P as [_ [e Htx]]; [|done]. simpl.
    eapply tx_retained; [|done]. eapply retained_later; [done|lia].
Qed.

End Retention.

(** ** Delivery over a run *)

Section RunDelivery.
Context `{Crypto : CryptoOps} {Laws : CryptoLaws}.

(** A command that may take the message away: an acknowledgement of it, or the deletion of its
    mailbox. *)
Definition spares (q : QueueId) (m : MessageId) (c : Command) : Prop :=
  match c with
  | Acknowledge r => ~ (ar_queue_id r = q /\ ar_message_id r = m)
  | DeleteMailbox r => dr_queue_id r <> q
  | _ => True
  end.

(** The request's row is queued and the tables are well-formed, or it has expired. *)
Definition queued (r : SendRequest) (t : Z) (db : RelayDb) : Prop :=
  0 <= t /\ db_wf db /\ (request_row r ∈ messages db \/ sr_expires_at r <= t).

Lemma queued_step r c t now db v e db' :
  spares (sr_queue_id r) (sr_message_id r) c -> queued r t db -> t <= now ->
  tx c now db = Ok (v, e, db') -> queued r now db'.
Proof.
  intros Hs (Hpos & Hwf & Hq) Ht Htx. split; [lia|]. split; [by eapply (tx_wf c now); eauto; lia|].
  destruct (decide (sr_expires_at r <= now)) as [|He]; [by right|]. left.
  destruct Hq as [Hq|]; [|lia].
  destruct (tx_removes _ _ _ _ _ _ (request_row r) (wf_nodup _ Hwf) Htx Hq) as [|Hrem];
    [simpl; lia|done|].
  exfalso. destruct c; simpl in Hrem, Hs; try done.
  - destruct Hrem as [[= E1 E2] _]. apply Hs. by apply as_slice_inj in E1, E2.
  - apply as_slice_inj in Hrem. congruence.
Qed.

Lemma collect_rows_elem (q : QueueId) rows es row env :
  collect_rows q rows = Ok es -> row ∈ rows -> row_to_envelope q row = Ok env -> env ∈ es.
Proof.
  revert es. induction rows as [|x rows IH]; intros es Hc Hr He; [by apply not_elem_of_nil in Hr|].
  simpl in Hc. inv_ok Hc. injection Hc as <-. apply elem_of_cons in Hr as [<-|Hr].
  - rewrite He in Hv. injection Hv as <-. by left.
  - right. by apply IH.
Qed.

Lemma request_row_envelope r :
  0 <= sr_expires_at r ->
  row_to_envelope (sr_queue_id r) (request_row r) =
    Ok (mkStored (sr_queue_id r) (sr_message_id r) (sr_packet r) (sr_expires_at r)
          (sr_signature r)).
Proof.
  intros Hx. unfold row_to_envelope, MessageId_from_slice. simpl.
  rewrite array_from_as_slice. simpl. rewrite decide_True by done. simpl.
  rewrite sig_from_to_bytes. simpl. by destruct (sr_packet r).
Qed.

Lemma fetch_hands_out r1 r2 now db es e db' :
  fetch_tx r2 now db = Ok (Fetched es, e, db') -> fr_queue_id r2 = sr_queue_id r1 ->
  request_row r1 ∈ messages db -> 0 <= now < sr_expires_at r1 ->
  mkStored (sr_queue_id r1) (sr_message_id r1) (sr_packet r1) (sr_expires_at r1)
    (sr_signature r1) ∈ es.
Proof.
  intros (_ & _ & _ & _ & _ & (es' & [= <-] & Hcol) & _)%fetch_tx_ok Eq Hin Hx.
  rewrite Eq, select_queue_sweep in Hcol. eapply collect_rows_elem; [done| |].
  - apply list_elem_of_filter. split; [|exact Hin]. simpl. split; [done|lia].
  - apply request_row_envelope. lia.
Qed.

(** C11. A stored message is delivered: once a send request is reported stored, every later
    successful fetch of its queue before its expiry hands out an envelope with the same
    identifier, packet, expiry and signature, as long as the message was not acknowledged and
    the mailbox not deleted in between; other commands, failures and sweeps do not lose it. *)
Theorem stored_message_is_delivered s t k1 ks k2 r1 r2 es :
  idle s -> db_wf (disk (connection s)) -> 0 <= t -> clocked t (k1 :: ks ++ [k2]) ->
  call_command k1 = Enqueue r1 -> fst (perform k1 s) = Ok (Enqueued Stored) ->
  Forall (fun k => spares (sr_queue_id r1) (sr_message_id r1) (call_command k)) ks ->
  call_command k2 = Fetch r2 -> fr_queue_id r2 = sr_queue_id r1 ->
  call_now k2 < sr_expires_at r1 ->
  fst (perform k2 (snd (run ks (snd (perform k1 s))))) = Ok (Fetched es) ->
  mkStored (sr_queue_id r1) (sr_message_id r1) (sr_packet r1) (sr_expires_at r1)
    (sr_signature r1) ∈ es.
Proof.
  intros Hi Hwf Hpos [Ht [Hc [Hk2 _]]%clocked_app] E1 H1 Hsp E2 Eq Hx H2.
  destruct (perform k1 s) as [rep s1] eqn:P1. simpl in H1. subst rep.
  apply perform_ok in P1 as [Hi1 [e T1]]; [|done]. simpl in *.
  assert (Hq1 : queued r1 (call_now k1) (disk (connection s1))).
  { split; [lia|]. split; [eapply (tx_wf (call_command k1) (call_now k1)); eauto; lia|]. left.
    rewrite E1 in T1.
    apply enqueue_tx_ok in T1 as (_ & _ & _ & _ & _ & _ & [(? & [=] & _)|(_ & _ & _ & ->)]).
    apply elem_of_app. right. by apply list_elem_of_singleton. }
  destruct (run_invariant (spares (sr_queue_id r1) (sr_message_id r1)) (queued r1) ks
    (call_now k1) s1) as [Hi2 Hq2]; eauto using queued_step.
  { intros ??? (? & ? & [?|?]) ?; (split; [lia|]); (split; [done|]); [by left|right; lia]. }
  destruct (perform k2 _) as [rep s3] eqn:P2. simpl in H2. subst rep.
  apply perform_ok in P2 as [_ [e' T2]]; [|done]. rewrite E2 in T2.
  destruct Hq2 as (Hpos2 & _ & [Hin|]); [|lia].
  eapply fetch_hands_out; [exact T2|done|done|lia].
Qed.

End RunDelivery.

(** ** The owner's capabilities *)

Section OwnerCommands.
Context `{Crypto : CryptoOps} {Laws : CryptoLaws}.

(** A signed command as a call of the relay. *)
Definition to_command (c : SignedCommand) : Command :=
  match c with
  | CmdRegister r => Register r
  | CmdSend r => Enqueue r
  | CmdFetch r => Fetch r
  | CmdAck r => Acknowledge r
  | CmdDelete r => DeleteMailbox r
  end.

(** The validity window of a command: seven days for a message, five minutes otherwise. *)
Definition window (c : SignedCommand) : Z :=
  match c with CmdSend _ => MAX_MESSAGE_TTL_SECONDS | _ => 5 * 60 end.

Definition owned_by (o : MailboxOwner) (mb : MailboxRow) : Prop :=
  mb_send_key mb = as_slice (pk_as_bytes (public_key (mo_send o))) /\
  mb_receive_key mb = as_slice (pk_as_bytes (public_key (mo_receive o))) /\
  mb_manage_key mb = as_slice (pk_as_bytes (public_key (mo_manage o))).

Lemma parses_own k : parses_to (as_slice (pk_as_bytes k)) k.
Proof. exists (pk_as_bytes k). split; [done|apply pk_from_as_bytes]. Qed.

(** The capabilities of a mailbox's owner carry the authority the relay checks: against a
    mailbox row with the owner's public keys, every command made by the owner's sender,
    receiver or manager capability passes the relay's signature check for its role, within its
    validity window. Registration turns an absent mailbox into such a row. *)
Theorem owner_commands_carry_authority o mb c now db :
  mailboxes db !! as_slice (mo_queue_id o) = Some mb -> owned_by o mb -> authorized o c ->
  now < command_time c <= saturating_add now (window c) ->
  holds_capability (to_command c) now db.
Proof.
  intros Hmb (Es & Er & Em) Hc Ht. destruct Hc; simpl in Ht; (split; [|exact Ht]);
    [apply verify_sign|..]; exists mb; eexists; (split; [exact Hmb|]);
    rewrite ?Es, ?Er, ?Em; (split; [apply parses_own|apply verify_sign]).
Qed.

Lemma registration_verifies o nonce t now :
  now < t <= saturating_add now (5 * 60) -> forall db,
  holds_capability (Register (registration o nonce t)) now db.
Proof. intros Ht db. split; [apply verify_sign|exact Ht]. Qed.

(** The tables after the registration of a new mailbox. *)
Definition registered_db (r : MailboxRegistration) (now : Z) (db : RelayDb) : RelayDb :=
  set_mailboxes (<[as_slice (mr_queue_id r) := registration_row r now]> (mailboxes db))
    (set_registration_nonces
       (<[(as_slice (mr_queue_id r), as_slice (mr_nonce r)) := mr_valid_until r]>
          (registration_nonces (sweep now db))) (sweep now db)).

Lemma register_new r now db :
  holds_capability (Register r) now db -> now <= I64_MAX -> mr_valid_until r <= I64_MAX ->
  mailboxes db !! as_slice (mr_queue_id r) = None ->
  retired_queues db !! as_slice (digest (as_slice (mr_queue_id r))) = None ->
  registration_nonces db !! (as_slice (mr_queue_id r), as_slice (mr_nonce r)) = None ->
  register_tx r now db =
    Ok (Registered true, Some "mailbox_registered"%string, registered_db r now db).
Proof.
  intros [Hv Ht] Hnow Ht' Hmb Hret Hn. unfold register_tx, retired_exists.
  rewrite validate_request_time_intro by done. simpl. rewrite Hv. simpl.
  rewrite (to_i64_le now) by done. simpl. rewrite Hret, Hmb. simpl.
  rewrite to_i64_le by done. simpl.
  by rewrite (bool_decide_true (_ = None)) by (apply map_lookup_filter_None; by left).
Qed.

#[global] Instance same_keys_dec a b : Decision (same_keys a b).
Proof. unfold same_keys. apply _. Defined.

Lemma register_existing r now db old :
  holds_capability (Register r) now db -> now <= I64_MAX -> mr_valid_until r <= I64_MAX ->
  mailboxes db !! as_slice (mr_queue_id r) = Some old ->
  retired_queues db !! as_slice (digest (as_slice (mr_queue_id r))) = None ->
  if bool_decide (same_keys old (registration_row r now))
  then exists e db', register_tx r now db = Ok (Registered false, e, db') /\
         mailboxes db' = mailboxes db
  else register_tx r now db = Err MailboxConflict.
Proof.
  intros [Hv Ht] Hnow Ht' Hmb Hret. unfold register_tx, retired_exists.
  rewrite validate_request_time_intro by done. simpl. rewrite Hv. simpl.
  rewrite (to_i64_le now) by done. simpl. rewrite Hret, Hmb. simpl.
  unfold same_keys, registration_row. simpl.
  repeat case_bool_decide; simpl; try tauto. rewrite to_i64_le by done. simpl. eauto.
Qed.

Lemma same_keys_owners o o' nonce nonce' t t' now now' :
  same_keys (registration_row (registration o nonce t) now)
    (registration_row (registration o' nonce' t') now') <->
  public_key (mo_send o') = public_key (mo_send o) /\
  public_key (mo_receive o') = public_key (mo_receive o) /\
  public_key (mo_manage o') = public_key (mo_manage o).
Proof.
  unfold same_keys. simpl. split.
  - intros (E1%as_slice_inj & E2%as_slice_inj & E3%as_slice_inj).
    by apply pk_as_bytes_inj in E1, E2, E3.
  - by intros (-> & -> & ->).
Qed.

(** Registration: an owner's registration of a queue that is neither present nor retired,
    in time and with a fresh nonce, succeeds and creates a mailbox with the owner's three public
    keys; repeating it, with the same or another nonce, is accepted as a duplicate and changes
    no mailbox; registering the queue with any other key is a conflict that changes nothing. *)
Theorem registration_binds_keys o nonce t now s :
  idle s -> now < t <= saturating_add now (5 * 60) -> now <= I64_MAX -> t <= I64_MAX ->
  mailboxes (disk (connection s)) !! as_slice (mo_queue_id o) = None ->
  retired_queues (disk (connection s)) !! as_slice (digest (as_slice (mo_queue_id o))) = None ->
  registration_nonces (disk (connection s)) !! (as_slice (mo_queue_id o), as_slice nonce) = None ->
  let '(reply, s1) := perform (mkCall (Register (registration o nonce t)) now []) s in
  reply = Ok (Registered true) /\
  (exists mb, mailboxes (disk (connection s1)) !! as_slice (mo_queue_id o) = Some mb /\
     owned_by o mb) /\
  forall o' nonce' t' now', mo_queue_id o' = mo_queue_id o -> now <= now' <= I64_MAX ->
    now' < t' <= saturating_add now' (5 * 60) -> t' <= I64_MAX ->
    let '(reply', s2) := perform (mkCall (Register (registration o' nonce' t')) now' []) s1 in
    mailboxes (disk (connection s2)) = mailboxes (disk (connection s1)) /\
    if bool_decide (public_key (mo_send o') = public_key (mo_send o) /\
                    public_key (mo_receive o') = public_key (mo_receive o) /\
                    public_key (mo_manage o') = public_key (mo_manage o))
    then reply' = Ok (Registered false)
    else reply' = Err MailboxConflict /\ disk (connection s2) = disk (connection s1).
Proof.
  intros Hi Ht Hnow Ht' Hmb Hret Hn. rewrite perform_clean by done. cbn [tx].
  rewrite (register_new (registration o nonce t) now (disk (connection s)))
    by (done || by apply registration_verifies).
  set (db' := registered_db (registration o nonce t) now (disk (connection s))).
  assert (Em : mailboxes db' = <[as_slice (mo_queue_id o)
    := registration_row (registration o nonce t) now]> (mailboxes (disk (connection s)))) by done.
  assert (Er : retired_queues db' = retired_queues (disk (connection s))) by done.
  clearbody db'.
  cbn [finish fst snd at_rest connection disk]. split; [done|]. rewrite Em.
  split; [eexists; split; [apply lookup_insert_eq|done]|].
  intros o' nonce' t' now' Eq Hnow' Ht1 Ht2. rewrite perform_clean by done. cbn [tx].
  assert (Hmb' : mailboxes db' !! as_slice (mr_queue_id (registration o' nonce' t'))
    = Some (registration_row (registration o nonce t) now)).
  { rewrite Em. simpl. rewrite Eq. apply lookup_insert_eq. }
  assert (Hret' : retired_queues db'
    !! as_slice (digest (as_slice (mr_queue_id (registration o' nonce' t')))) = None).
  { simpl. by rewrite Er, Eq. }
  pose proof (register_existing (registration o' nonce' t') now' db' _
    (registration_verifies o' nonce' t' now' Ht1 _) (proj2 Hnow') Ht2 Hmb' Hret') as Hex.
  rewrite (bool_decide_ext _ _ (same_keys_owners o o' nonce nonce' t t' now now')) in Hex.
  destruct (bool_decide _); [destruct Hex as (e' & db2 & Ex & Em')|]; simpl.
  - rewrite Ex. simpl. by rewrite Em', Em.
  - rewrite Hex. done.
Qed.

End OwnerCommands.
