(* ===== verification/RelayExchange.v ===== *)
(** * Relay: one message from sender to recipient

    The calls that carry one message through the relay, as [src/main.rs] makes them: the sender
    enqueues, the recipient fetches, verifies the envelope and acknowledges. [transfer] composes
    the transitions of [RelayTx] for a mailbox that is registered and empty. *)

From S2P Require Import Prelude Core Capability Sqlite RelayDb Relay.
From S2P Require Import RelayFacts RelayTx RelayInv RelayTrace ToyCrypto RelayTheorems.
From S2P Require Import RelayDelivery RelayRetry RelayRuns.

Section Exchange.
Context `{Crypto : CryptoOps} {Laws : CryptoLaws}.

(** The mailbox of [o] exists with its keys and holds no message. *)
Definition mailbox_empty (o : MailboxOwner) (db : RelayDb) : Prop :=
  (exists mb, mailboxes db !! as_slice (mo_queue_id o) = Some mb /\ owned_by o mb) /\
  forall row, row ∈ messages db -> mg_queue_id row <> as_slice (mo_queue_id o).

(** An identifier and a fetch nonce the relay has no record of. *)
Definition unused (o : MailboxOwner) (mid : MessageId) (nonce : Nonce) (db : RelayDb) : Prop :=
  tombstones db !! (as_slice (mo_queue_id o), as_slice mid) = None /\
  request_nonces db !! (as_slice (mo_queue_id o), "receive"%string, as_slice nonce) = None.

(** What a transfer through [o] leaves of the tables for everyone else. *)
Record transferred (o : MailboxOwner) (mid : MessageId) (nonce : Nonce) (now : Z)
    (db db' : RelayDb) : Prop := {
  tr_wf : db_wf db';
  tr_mailboxes : mailboxes db' = mailboxes db;
  tr_messages : messages db' = filter (fun r => ~ mg_expires_at r <= now) (messages db);
  tr_tombstones k : k <> (as_slice (mo_queue_id o), as_slice mid) ->
    tombstones db !! k = None -> tombstones db' !! k = None;
  tr_nonces k : k <> (as_slice (mo_queue_id o), "receive"%string, as_slice nonce) ->
    request_nonces db !! k = None -> request_nonces db' !! k = None;
}.

(** The times of the calls of one transfer. *)
Definition in_window (now expires_at fetch_until ack_until : Z) : Prop :=
  0 <= now /\ now + TOMBSTONE_TTL_SECONDS <= I64_MAX /\
  now < expires_at <= now + MAX_MESSAGE_TTL_SECONDS /\
  now < fetch_until <= now + 5 * 60 /\ now < ack_until <= now + 5 * 60.

Lemma filter_all {A} (P : A -> Prop) `{forall x, Decision (P x)} (l : list A) :
  (forall x, x ∈ l -> P x) -> filter P l = l.
Proof.
  induction l as [|x l IH]; intros Hl; [done|].
  rewrite filter_cons_True by (apply Hl; by left). f_equal. apply IH. intros y Hy. apply Hl. by right.
Qed.

Lemma saturating_small a b : a + b <= I64_MAX -> saturating_add a b = a + b.
Proof. unfold saturating_add, I64_MAX, U64_MAX. lia. Qed.

(** A command of the owner on the owner's mailbox. *)
Lemma owner_holds o c now db :
  (exists mb, mailboxes db !! as_slice (mo_queue_id o) = Some mb /\ owned_by o mb) ->
  authorized o c -> now < command_time c <= saturating_add now (window c) ->
  holds_capability (to_command c) now db.
Proof.
  intros (mb & Hmb & Es & Er & Em) Hc Ht. destruct Hc; simpl in Ht; (split; [|exact Ht]);
    [apply verify_sign|..]; exists mb; eexists; (split; [exact Hmb|]);
    rewrite ?Es, ?Er, ?Em; (split; [apply parses_own|apply verify_sign]).
Qed.

(** A fetch with a valid capability and a new nonce, up to the reading of the rows. *)
Lemma fetch_authorized r now db :
  holds_capability (Fetch r) now db -> now <= I64_MAX -> fr_valid_until r <= I64_MAX ->
  request_nonces db !! (as_slice (fr_queue_id r), "receive"%string, as_slice (fr_nonce r)) = None ->
  fetch_tx r now db =
    es ← collect_rows (fr_queue_id r) (deliverable (as_slice (fr_queue_id r)) now db);
    mret (Fetched es, Some "mailbox_fetched"%string,
          set_request_nonces
            (<[(as_slice (fr_queue_id r), "receive"%string, as_slice (fr_nonce r))
               := fr_valid_until r]> (request_nonces (sweep now db))) (sweep now db)).
Proof.
  intros [(mb & k & Hmb & Hk & Hv) Ht] Hnow Hval Hn. unfold fetch_tx.
  rewrite validate_request_time_intro by done. cbn [mbind result_bind].
  rewrite (to_i64_le now) by done. cbn [mbind result_bind].
  rewrite (stored_key_intro mb_receive_key _ (sweep now db) mb k) by done. cbn [mbind result_bind].
  rewrite Hv. cbn [mbind result_bind result_guard].
  unfold nonce_tx. rewrite to_i64_le by done. cbn [mbind result_bind].
  rewrite bool_decide_true by (apply map_lookup_filter_None; by left).
  cbn [mbind result_bind result_guard mret result_ret].
  by rewrite (select_queue_sweep _ now db : select_queue _ _ (set_request_nonces _ _) = _).
Qed.

Section Transfer.
Context (o : MailboxOwner) (mid : MessageId) (pkt : EncryptedPacket) (nonce : Nonce).
Context (now expires_at fetch_until ack_until : Z) (db : RelayDb).
Context (Hwf : db_wf db) (Hbox : mailbox_empty o db) (Hfresh : unused o mid nonce db).
Context (Htime : in_window now expires_at fetch_until ack_until).
Context (Hsize : 0 < Z.of_nat (length (packet_bytes pkt)) <= MAX_PACKET_BYTES).

Abbreviation q := (as_slice (mo_queue_id o)).
Abbreviation request := (authorize (sender_capability o) mid pkt expires_at).
Abbreviation row := (request_row request).
Abbreviation swept := (sweep now db).

Definition stored_db : RelayDb := set_messages (messages swept ++ [row]) swept.

Lemma enqueue_transfer :
  enqueue_tx request now db = Ok (Enqueued Stored, Some "message_enqueued"%string, stored_db).
Proof.
  destruct Htime as (H0 & Hmax & He & _), Hbox as [Hown Hnone], Hfresh as [Ht _].
  unfold TOMBSTONE_TTL_SECONDS, MAX_MESSAGE_TTL_SECONDS in *.
  rewrite enqueue_admissible.
  - destruct (select_message _ _ _) as [r|] eqn:Es; [|done].
    apply select_message_Some in Es as [[_ Hin]%list_elem_of_filter Hk].
    apply (f_equal fst) in Hk. by destruct (Hnone r Hin).
  - split; [done|]. split; [|split; [lia|split; [simpl; lia|]]].
    + apply (owner_holds o (CmdSend request)); [done|constructor|].
      simpl. unfold MAX_MESSAGE_TTL_SECONDS. rewrite saturating_small; lia.
    + apply map_lookup_filter_None. by left.
Qed.

Lemma wf_stored : db_wf stored_db.
Proof. eapply (tx_wf (Enqueue request) now db); [apply Htime|done|apply enqueue_transfer]. Qed.

Definition fetched_db : RelayDb :=
  set_request_nonces (<[(q, "receive"%string, as_slice nonce) := fetch_until]>
                        (request_nonces (sweep now stored_db))) (sweep now stored_db).

Definition delivered : StoredEnvelope :=
  mkStored (mo_queue_id o) mid pkt expires_at (sr_signature request).

(** The message is alone in its queue. *)
Lemma deliverable_stored : deliverable q now stored_db = [row].
Proof.
  unfold deliverable, stored_db. simpl. rewrite filter_app.
  rewrite (elem_of_nil_inv (filter _ (filter _ _))).
  - simpl. rewrite filter_cons_True, filter_nil; [done|]. destruct Htime as (_ & _ & ? & _).
    split; [done|simpl; lia].
  - intros x [[Hq _] [_ Hx]%list_elem_of_filter]%list_elem_of_filter.
    by apply (proj2 Hbox x).
Qed.

Lemma fetch_transfer :
  fetch_tx (authorize_fetch (receiver_capability o) nonce fetch_until) now stored_db =
    Ok (Fetched [delivered], Some "mailbox_fetched"%string, fetched_db).
Proof.
  destruct Htime as (H0 & Hmax & He & Hf & _), Hfresh as [_ Hn].
  unfold TOMBSTONE_TTL_SECONDS in *. rewrite fetch_authorized.
  - simpl (fr_queue_id _). rewrite deliverable_stored. cbn [collect_rows mbind result_bind].
    unfold row_to_envelope, MessageId_from_slice. simpl.
    rewrite array_from_as_slice. cbn [mbind result_bind ok_or]. rewrite decide_True by lia. cbn [mbind result_bind].
    rewrite sig_from_to_bytes. cbn [mbind result_bind ok_or mret result_ret].
    by replace (mkPacket (packet_bytes pkt)) with pkt by by destruct pkt.
  - apply (owner_holds o (CmdFetch (authorize_fetch (receiver_capability o) nonce fetch_until)));
      [apply Hbox|constructor|]. simpl. rewrite saturating_small; lia.
  - lia.
  - simpl. lia.
  - apply map_lookup_filter_None. by left.
Qed.

Lemma verify_transfer :
  verify_envelope (receiver_capability o) delivered now
    = Ok (mkVerified (mo_queue_id o) mid pkt expires_at).
Proof. apply (verify_envelope_authorized o mid pkt expires_at now). apply Htime. Qed.

Lemma wf_fetched : db_wf fetched_db.
Proof.
  eapply (tx_wf (Fetch (authorize_fetch (receiver_capability o) nonce fetch_until)) now stored_db);
    [apply Htime|apply wf_stored|apply fetch_transfer].
Qed.

Lemma messages_fetched :
  messages (sweep now fetched_db) = filter (fun r => ~ mg_expires_at r <= now) (messages db) ++ [row].
Proof.
  simpl. rewrite filter_filter_other, filter_app by done.
  rewrite filter_filter_other, filter_cons_True, filter_nil; [done|..|done].
  simpl. destruct Htime as (_ & _ & ? & _). lia.
Qed.

(** The recipient acknowledges what it opened from the delivered envelope. *)
Lemma acknowledge_transfer opened :
  om_envelope opened = mkVerified (mo_queue_id o) mid pkt expires_at ->
  exists db', acknowledge_tx (authorize_ack (receiver_capability o) opened ack_until) now fetched_db =
      Ok (Acknowledged Deleted, Some "message_acknowledged_and_deleted"%string, db') /\
    transferred o mid nonce now db db'.
Proof.
  intros Eo. pose proof Htime as (H0 & Hmax & He & Hf & Ha). unfold TOMBSTONE_TTL_SECONDS in Hmax.
  set (ack := authorize_ack (receiver_capability o) opened ack_until).
  assert (Hrow : row ∈ messages fetched_db).
  { apply list_elem_of_filter. split; [simpl; lia|]. apply elem_of_app. right. by left. }
  assert (Htx : acknowledge_tx ack now fetched_db = Ok (Acknowledged Deleted,
    Some "message_acknowledged_and_deleted"%string,
    set_tombstones (<[msg_key row := saturating_add now TOMBSTONE_TTL_SECONDS]>
                      (tombstones (sweep now fetched_db)))
      (set_messages (filter (fun x => msg_key x <> msg_key row) (messages (sweep now fetched_db)))
         (sweep now fetched_db)))).
  { rewrite (acknowledge_present ack now fetched_db row).
    - rewrite bool_decide_true; [done|]. simpl. by rewrite Eo.
    - apply (owner_holds o (CmdAck ack)); [apply Hbox|constructor|]. simpl.
      rewrite saturating_small; lia.
    - apply wf_fetched.
    - lia.
    - unfold TOMBSTONE_TTL_SECONDS. rewrite saturating_small; lia.
    - done.
    - simpl. lia.
    - simpl. by rewrite Eo. }
  eexists. split; [exact Htx|]. split.
  - by eapply (tx_wf (Acknowledge ack) now fetched_db); [|apply wf_fetched|exact Htx].
  - done.
  - cbn [messages set_tombstones set_messages]. rewrite messages_fetched, filter_app.
    rewrite filter_cons_False, filter_nil, app_nil_r by auto.
    apply filter_all. intros x [_ Hx]%list_elem_of_filter E. apply (f_equal fst) in E.
    by apply (proj2 Hbox x).
  - intros k Hk Hn. cbn [tombstones set_tombstones]. rewrite lookup_insert_ne by done.
    do 3 (apply map_lookup_filter_None; left). done.
  - intros k Hk Hn. cbn [request_nonces set_tombstones set_messages sweep fetched_db set_request_nonces].
    apply map_lookup_filter_None. left. rewrite lookup_insert_ne by done.
    do 2 (apply map_lookup_filter_None; left). done.
Qed.

End Transfer.

(** A call of the relay whose transition succeeds. *)
Lemma exec_ok {A} (m : RelayM A) (f : A -> Reply) c now db ev v e db' :
  exec c now = (a ← m; mret (f a)) -> tx c now db = Ok (f v, e, db') ->
  (forall a a', f a = f a' -> a = a') ->
  m (at_rest db ev) = (Ok v, at_rest db' (ev ++ option_list e)).
Proof.
  intros Ec Htx Hf. pose proof (exec_tx c now db ev) as H. rewrite Ec, Htx in H. simpl in H.
  unfold mbind, SM_bind in H. destruct (m (at_rest db ev)) as [[a|] s]; [|done].
  injection H as Ea Es. by rewrite (Hf _ _ Ea), Es.
Qed.

Lemma register_run r now db ev b e db' :
  register_tx r now db = Ok (Registered b, e, db') ->
  register r now (at_rest db ev) = (Ok b, at_rest db' (ev ++ option_list e)).
Proof. intros. apply (exec_ok _ Registered (Register r) now); [done..|congruence]. Qed.

Lemma enqueue_run r now db ev o e db' :
  enqueue_tx r now db = Ok (Enqueued o, e, db') ->
  enqueue r now (at_rest db ev) = (Ok o, at_rest db' (ev ++ option_list e)).
Proof. intros. apply (exec_ok _ Enqueued (Enqueue r) now); [done..|congruence]. Qed.

Lemma fetch_run r now db ev es e db' :
  fetch_tx r now db = Ok (Fetched es, e, db') ->
  fetch r now (at_rest db ev) = (Ok es, at_rest db' (ev ++ option_list e)).
Proof. intros. apply (exec_ok _ Fetched (Fetch r) now); [done..|congruence]. Qed.

Lemma acknowledge_run r now db ev o e db' :
  acknowledge_tx r now db = Ok (Acknowledged o, e, db') ->
  acknowledge r now (at_rest db ev) = (Ok o, at_rest db' (ev ++ option_list e)).
Proof. intros. apply (exec_ok _ Acknowledged (Acknowledge r) now); [done..|congruence]. Qed.

(** The four calls of a transfer on a relay at rest. *)
Lemma transfer_run o mid pkt nonce now expires_at fetch_until ack_until db ev :
  db_wf db -> mailbox_empty o db -> unused o mid nonce db ->
  in_window now expires_at fetch_until ack_until ->
  0 < Z.of_nat (length (packet_bytes pkt)) <= MAX_PACKET_BYTES ->
  exists db1 db2 ev1 ev2,
    enqueue (authorize (sender_capability o) mid pkt expires_at) now (at_rest db ev)
      = (Ok Stored, at_rest db1 ev1) /\
    fetch (authorize_fetch (receiver_capability o) nonce fetch_until) now (at_rest db1 ev1)
      = (Ok [delivered o mid pkt expires_at], at_rest db2 ev2) /\
    verify_envelope (receiver_capability o) (delivered o mid pkt expires_at) now
      = Ok (mkVerified (mo_queue_id o) mid pkt expires_at) /\
    forall opened, om_envelope opened = mkVerified (mo_queue_id o) mid pkt expires_at ->
      exists db' ev', acknowledge (authorize_ack (receiver_capability o) opened ack_until) now
          (at_rest db2 ev2) = (Ok Deleted, at_rest db' ev') /\
        transferred o mid nonce now db db'.
Proof.
  intros Hwf Hbox Hfresh Htime Hsize. do 4 eexists.
  split; [by eapply enqueue_run, enqueue_transfer|].
  split; [by eapply fetch_run, fetch_transfer|].
  split; [by eapply verify_transfer|]. intros opened Eo.
  destruct (acknowledge_transfer o mid pkt nonce now expires_at fetch_until ack_until db
    Hwf Hbox Hfresh Htime Hsize opened Eo) as (db' & E & Htr).
  do 2 eexists. split; [by apply acknowledge_run|done].
Qed.

End Exchange.
