(* ===== verification/RelayObserve.v ===== *)
(** * Relay: what a caller and an operator can observe

    Two databases with the same unexpired rows are indistinguishable to every command, under the
    same storage failures: each sweeps before it looks, and from there on the two runs are alike.
    It follows that when the expiry sweep runs, or whether it runs at all, cannot be observed
    through the other commands. The audit trail of the process is a function of the replies alone. *)

From S2P Require Import Prelude Core Capability Sqlite RelayDb Relay.
From S2P Require Import RelayFacts RelayTx RelayInv RelayTrace RelayTheorems RelayDelivery.
From S2P Require Import RelayRetry.

Section Observe.
Context `{Crypto : CryptoOps}.

(** ** The live view *)

(** Equal up to rows that have expired at [now]. *)
Definition live_eq (now : Z) (db1 db2 : RelayDb) : Prop := sweep now db1 = sweep now db2.

#[global] Instance live_eq_equivalence now : Equivalence (live_eq now).
Proof.
  unfold live_eq. split; red.
  - done.
  - intros x y E. by symmetry.
  - intros x y z E1 E2. by transitivity (sweep now y).
Qed.

Lemma live_eq_later t now db1 db2 : t <= now -> live_eq t db1 db2 -> live_eq now db1 db2.
Proof.
  unfold live_eq. intros Ht E. by rewrite <- (sweep_sweep t now db1), E, sweep_sweep.
Qed.

Lemma live_eq_sweep t now db : t <= now -> live_eq now (sweep t db) db.
Proof. intros. unfold live_eq. by apply sweep_sweep. Qed.

Definition is_purge (c : Command) : bool :=
  match c with PurgeExpired => true | _ => false end.

(** Without failures, every command but the purge reads the live view only. *)
#[global] Instance tx_proper c now :
  Proper (live_eq now ==> eq) (fun db => if is_purge c then Err Storage else tx c now db).
Proof.
  intros db1 db2 E. unfold live_eq in E. destruct c; simpl; [..|done];
    unfold register_tx, enqueue_tx, fetch_tx, acknowledge_tx, delete_tx; by rewrite E.
Qed.

(** ** Purging *)

Definition purges (k : Call) : bool := is_purge (call_command k).

(** The run without its purges, and the replies of the others. *)
Definition without_purges (ks : list Call) : list Call := filter (fun k => purges k = false) ks.

Fixpoint other_replies (ks : list Call) (rs : list (Result Reply)) : list (Result Reply) :=
  match ks, rs with
  | k :: ks, r :: rs => if purges k then other_replies ks rs else r :: other_replies ks rs
  | _, _ => []
  end.

Lemma purge_live k s t :
  idle s -> purges k = true -> call_now k <= t ->
  let s' := snd (perform k s) in
  idle s' /\ live_eq t (disk (connection s')) (disk (connection s)).
Proof.
  intros Hi Hk Ht. pose proof (perform_outcome k s Hi) as Ho.
  destruct k as [c now fs]. unfold purges in Hk. simpl in *. destruct c; try done.
  destruct (perform _ s) as [r s']. destruct Ho as [Hi' Ho]. simpl. split; [done|].
  assert (Hs : forall v e, tx PurgeExpired now (disk (connection s)) = Ok (v, e, disk (connection s')) ->
    live_eq t (disk (connection s')) (disk (connection s))).
  { intros v e H. simpl in H. unfold purge_tx in H. inv_ok H. injection H as _ _ <-.
    by apply live_eq_sweep. }
  destruct Ho as [(v & e & _ & H & _)|(_ & _ & [->|(v & e & H)])]; eauto. done.
Qed.

(** ** Two runs side by side *)

(** Connections that behave alike from here on: the same image and the same failures to come,
    and durable tables that are equal, or equal up to expired rows while the image hides them. *)
Definition twin (now : Z) (c1 c2 : Connection RelayDb) : Prop :=
  txn c1 = txn c2 /\ faults c1 = faults c2 /\
  (disk c1 = disk c2 \/ is_Some (txn c1) /\ live_eq now (disk c1) (disk c2)).

(** A computation that keeps twins twins and tells its caller the same about both. *)
Definition alike {A} (now : Z) (m : RelayM A) : Prop := forall s1 s2,
  twin now (connection s1) (connection s2) ->
  fst (m s1) = fst (m s2) /\ twin now (connection (snd (m s1))) (connection (snd (m s2))).

Lemma twin_current now c1 c2 : twin now c1 c2 -> current c1 = current c2.
Proof.
  destruct c1 as [d1 t1 f1], c2 as [d2 t2 f2]. unfold twin, current. simpl.
  intros (-> & -> & [->|[[i ->] _]]); done.
Qed.

Lemma alike_bind {A B} now (m : RelayM A) (f : A -> RelayM B) :
  alike now m -> (forall a, alike now (f a)) -> alike now (m ≫= f).
Proof.
  intros Hm Hf s1 s2 H. rewrite !run_bind. specialize (Hm s1 s2 H).
  destruct (m s1) as [r1 s1'], (m s2) as [r2 s2']. destruct Hm as [Hr Ht]. simpl in *. subst r2.
  destruct r1 as [a|e]; [by apply Hf|done].
Qed.

Lemma alike_execute {A} now (f : RelayDb -> option (A * RelayDb)) : alike now (execute f).
Proof.
  intros [c1 ev1] [c2 ev2] H. pose proof (twin_current _ _ _ H) as Hc.
  destruct c1 as [d1 t1 f1], c2 as [d2 t2 f2]. destruct H as (Et & Ef & Hd). simpl in *. subst t2 f2.
  unfold execute, on_conn, sm_zoom, sql, next_io, pop_io, current, set_current in *. simpl in *.
  rewrite Hc. destruct (default IoOk (head f1)); try done. destruct (f (default d2 t1)) as [[a db]|];
    [|done]. destruct t1; simpl; (split; [done|]); unfold twin; simpl; [|by auto].
  destruct Hd as [->|[_ Hd]]; eauto 6.
Qed.

Lemma alike_query {A} now (f : RelayDb -> A) : alike now (query_row f).
Proof. apply alike_execute. Qed.

Lemma alike_commit now : alike now commit_transaction.
Proof.
  intros [c1 ev1] [c2 ev2] H. pose proof (twin_current _ _ _ H) as Hc.
  destruct c1 as [d1 t1 f1], c2 as [d2 t2 f2]. destruct H as (Et & Ef & Hd). simpl in *. subst t2 f2.
  unfold commit_transaction, on_conn, sm_zoom, commit, next_io, pop_io, current in *. simpl in *.
  rewrite Hc. destruct (default IoOk (head f1)); simpl; (split; [done|]); unfold twin; simpl; auto.
Qed.

Lemma alike_lift {A} now (r : Result A) : alike now (sm_lift r).
Proof. by intros s1 s2. Qed.
Lemma alike_ret {A} now (a : A) : alike now (mret a).
Proof. by intros s1 s2. Qed.
Lemma alike_throw {A} now e : alike now (sm_throw e : RelayM A).
Proof. by intros s1 s2. Qed.
Lemma alike_guard now b e : alike now (sm_guard b e).
Proof. by destruct b; intros s1 s2. Qed.
Lemma alike_push now e : alike now (push_event e).
Proof. by intros s1 s2. Qed.

Create HintDb alike.
#[local] Hint Resolve alike_execute alike_query alike_commit alike_lift alike_ret alike_throw
  alike_guard alike_push : alike.

Ltac alike :=
  repeat first [ solve [auto with alike] | apply alike_bind; [|intros ?] | case_match ].

(** ** The sweep brings two runs together *)

(** Two handles with a transaction each, opened on tables with the same live rows. *)
Definition paired (now : Z) (s1 s2 : Relay) : Prop :=
  live_eq now (disk (connection s1)) (disk (connection s2)) /\
  (exists i1 i2, txn (connection s1) = Some i1 /\ txn (connection s2) = Some i2 /\
     live_eq now i1 i2) /\
  faults (connection s1) = faults (connection s2).

Lemma paired_opened now fs s1 s2 :
  live_eq now (disk (connection s1)) (disk (connection s2)) ->
  paired now (Sqlite.opened fs s1) (Sqlite.opened fs s2).
Proof. intros Hd. split; [done|]. split; [|done]. eexists _, _. by repeat split. Qed.

(** Either the sweep fails alike in both, and both tables stay as they are, or the images are the
    same from then on. The numbers of deleted rows may differ. *)
Lemma purge_pairs now s1 s2 :
  paired now s1 s2 ->
  let '(r1, s1') := purge_expired_in now s1 in
  let '(r2, s2') := purge_expired_in now s2 in
  match r1, r2 with
  | Ok _, Ok _ => twin now (connection s1') (connection s2')
  | Err e1, Err e2 => e1 = e2 /\ disk (connection s1') = disk (connection s1) /\
      disk (connection s2') = disk (connection s2) /\
      faults (connection s1') = faults (connection s2')
  | _, _ => False
  end.
Proof.
  destruct s1 as [[d1 t1 fs] ev1], s2 as [[d2 t2 fs2] ev2].
  intros (Hd & (i1 & i2 & E1 & E2 & Hi) & Ef). simpl in *. subst t1 t2 fs2.
  unfold purge_expired_in. rewrite !run_bind, !run_lift.
  destruct (to_i64 now) as [n|e] eqn:E; [apply to_i64_ok in E as [-> _]|done].
  destruct fs as [|[] [|[] [|[] [|[] fs]]]]; try done;
    (split; [exact (f_equal Some Hi)|split; [done|right; by split]]).
Qed.

Lemma swept_alike {A} now (rest : RelayM A) s1 s2 :
  alike now rest -> paired now s1 s2 ->
  fst ((purge_expired_in now;; rest) s1) = fst ((purge_expired_in now;; rest) s2) /\
  faults (connection (snd ((purge_expired_in now;; rest) s1))) =
    faults (connection (snd ((purge_expired_in now;; rest) s2))) /\
  live_eq now (disk (connection (snd ((purge_expired_in now;; rest) s1))))
    (disk (connection (snd ((purge_expired_in now;; rest) s2)))).
Proof.
  intros Hr Hp. pose proof (purge_pairs now s1 s2 Hp) as H. rewrite !run_bind.
  destruct (purge_expired_in now s1) as [[n1|e1] s1'], (purge_expired_in now s2) as [[n2|e2] s2'];
    try done.
  - destruct (Hr s1' s2' H) as [E (_ & Ef & Ht)]. split; [done|]. split; [done|].
    destruct Ht as [->|[_ Ht]]; done.
  - destruct H as (-> & E1 & E2 & Ef). destruct Hp as [Hd _]. simpl. by rewrite E1, E2.
Qed.

(** The same for a whole transaction that starts with the sweep. *)
Lemma swept_transaction {A} now (rest : RelayM A) s1 s2 :
  alike now rest -> faults (connection s1) = faults (connection s2) ->
  live_eq now (disk (connection s1)) (disk (connection s2)) ->
  let m := with_transaction (purge_expired_in now;; rest) in
  fst (m s1) = fst (m s2) /\ faults (connection (snd (m s1))) = faults (connection (snd (m s2))) /\
  live_eq now (disk (connection (snd (m s1)))) (disk (connection (snd (m s2)))).
Proof.
  intros Hr Hf Hd. unfold with_transaction. rewrite !on_begin. unfold next_io. cbn [conn relay_has_conn].
  rewrite Hf. destruct (default IoOk (head (faults (connection s2)))); [|simpl; by rewrite Hf..].
  destruct (swept_alike now rest (Sqlite.opened (tail (faults (connection s2))) s1)
    (Sqlite.opened (tail (faults (connection s2))) s2) Hr (paired_opened _ _ _ _ Hd)) as (E1 & E2 & E3).
  set (body := purge_expired_in now;; rest) in *.
  by destruct (body (Sqlite.opened _ s1)), (body (Sqlite.opened _ s2)).
Qed.

Lemma swept_reply {A} now (rest : RelayM A) (f : A -> Reply) s1 s2 :
  alike now rest -> faults (connection s1) = faults (connection s2) ->
  live_eq now (disk (connection s1)) (disk (connection s2)) ->
  let m s := match with_transaction (purge_expired_in now;; rest) s with
             | (Ok a, s') => (mret (f a) : RelayM Reply) s'
             | (Err e, s') => (Err e, s')
             end in
  fst (m s1) = fst (m s2) /\
  live_eq now (disk (connection (snd (m s1)))) (disk (connection (snd (m s2)))).
Proof.
  intros Hr Hf Hd m. unfold m. destruct (swept_transaction now rest s1 s2 Hr Hf Hd) as (E & _ & H).
  destruct (with_transaction _ s1) as [r1 s1'], (with_transaction _ s2) as [r2 s2'].
  simpl in *. subst r2. by destruct r1.
Qed.

Lemma alike_mailbox_key now q column : alike now (mailbox_key q column).
Proof. unfold mailbox_key. alike. Qed.

Lemma alike_record_nonce now q role n t : alike now (record_nonce q role n t).
Proof. unfold record_nonce. alike. Qed.

#[local] Hint Resolve alike_mailbox_key alike_record_nonce : alike.

(** Every command but the purge: checks without the tables, then such a transaction. *)
Lemma exec_alike c now s1 s2 :
  is_purge c = false -> faults (connection s1) = faults (connection s2) ->
  live_eq now (disk (connection s1)) (disk (connection s2)) ->
  fst (exec c now s1) = fst (exec c now s2) /\
  live_eq now (disk (connection (snd (exec c now s1)))) (disk (connection (snd (exec c now s2)))).
Proof.
  intros Hp Hf Hd. destruct c as [r|r|r|r|r|]; try done; unfold exec; rewrite !run_bind.
  - unfold register. rewrite !run_bind, !run_lift. destruct (validate_request_time _ _); [|done].
    rewrite !run_bind, !run_guard. destruct (verify _ _ _); [|done].
    apply swept_reply; [alike|done..].
  - unfold enqueue. rewrite !run_bind, !run_guard. destruct (negb _); [|done].
    rewrite !run_bind, !run_lift. destruct (validate_message_expiry _ _); [|done].
    apply swept_reply; [alike|done..].
  - unfold fetch. rewrite !run_bind, !run_lift. destruct (validate_request_time _ _); [|done].
    apply swept_reply; [alike|done..].
  - unfold acknowledge. rewrite !run_bind, !run_lift. destruct (validate_request_time _ _); [|done].
    apply swept_reply; [alike|done..].
  - unfold delete_mailbox. rewrite !run_bind, !run_lift. destruct (validate_request_time _ _); [|done].
    apply swept_reply; [alike|done..].
Qed.

Lemma other_step k s1 s2 :
  idle s1 -> idle s2 -> purges k = false ->
  live_eq (call_now k) (disk (connection s1)) (disk (connection s2)) ->
  fst (perform k s1) = fst (perform k s2) /\
  idle (snd (perform k s1)) /\ idle (snd (perform k s2)) /\
  live_eq (call_now k) (disk (connection (snd (perform k s1))))
    (disk (connection (snd (perform k s2)))).
Proof.
  intros H1 H2 Hp Hl. unfold perform.
  destruct (exec_alike (call_command k) (call_now k) (load (call_faults k) s1)
    (load (call_faults k) s2)) as [Hr Hd]; [done..|].
  split; [done|]. split; [by apply exec_rests|]. split; [by apply exec_rests|]. done.
Qed.

(** ** Counting and purging *)

(** Two purges that start from the same live rows fail alike or end in the same tables. *)
Lemma purge_expired_alike now s1 s2 :
  faults (connection s1) = faults (connection s2) ->
  live_eq now (disk (connection s1)) (disk (connection s2)) ->
  let '(r1, s1') := purge_expired now s1 in
  let '(r2, s2') := purge_expired now s2 in
  match r1, r2 with
  | Ok _, Ok _ => connection s1' = connection s2'
  | Err e1, Err e2 => e1 = e2
  | _, _ => False
  end.
Proof.
  intros Hf Hd. unfold purge_expired, purge_transaction. rewrite !run_bind.
  unfold with_transaction. rewrite !on_begin. unfold next_io. cbn [conn relay_has_conn].
  rewrite Hf. destruct (default IoOk (head (faults (connection s2)))); [|done..].
  pose proof (purge_pairs now (Sqlite.opened (tail (faults (connection s2))) s1)
    (Sqlite.opened (tail (faults (connection s2))) s2) (paired_opened _ _ _ _ Hd)) as H.
  rewrite !run_bind. destruct (purge_expired_in now (Sqlite.opened _ s1)) as [[n1|e1] [c1 ev1]],
    (purge_expired_in now (Sqlite.opened _ s2)) as [[n2|e2] [c2 ev2]]; try done; [|by destruct H].
  rewrite !run_bind. pose proof (twin_current _ _ _ H) as Hc. destruct H as (Et & Ef & _).
  unfold commit_transaction, on_conn, sm_zoom, commit, next_io. cbn [conn connection relay_has_conn].
  simpl in Ef. rewrite Ef. destruct (default IoOk (head (faults c2))); [|done..].
  assert (E : drop_transaction (mkConn (current (pop_io c1)) None (faults (pop_io c1))) =
    drop_transaction (mkConn (current (pop_io c2)) None (faults (pop_io c2)))).
  { unfold drop_transaction. simpl in *. by rewrite Ef, (Hc : current (pop_io c1) = current (pop_io c2)). }
  by destruct (bool_decide (0 < n1)%nat) eqn:E1, (bool_decide (0 < n2)%nat) eqn:E2;
    simpl; rewrite E1, E2.
Qed.

Lemma count_alike now s1 s2 :
  faults (connection s1) = faults (connection s2) ->
  live_eq now (disk (connection s1)) (disk (connection s2)) ->
  fst (queued_message_count_at now s1) = fst (queued_message_count_at now s2).
Proof.
  intros Hf Hd. unfold queued_message_count_at. rewrite !run_bind.
  pose proof (purge_expired_alike now s1 s2 Hf Hd) as H.
  destruct (purge_expired now s1) as [[n1|e1] [c1 ev1]], (purge_expired now s2) as [[n2|e2] [c2 ev2]];
    try done; simpl in H; subst; [|done].
  by apply alike_query with (now := now); split; [|split; [|left]].
Qed.

(** C27. Purging is unobservable. In any run with a clock that does not go back, with any storage
    failures and lost commits, removing every [purge_expired] call changes no reply of any
    other command, leaves the same unexpired rows at every later time, and changes no answer of
    [queued_message_count_at], also when that call itself meets failures: expiry alone, not the
    sweep, decides what the relay answers. Two things do tell whether a purge ran, and are no
    commands: [tombstone_count], which counts expired tombstones too
    ([tombstone_count_sees_purge]), and the purge's own entry in the audit trail. *)
Theorem purging_is_unobservable ks s t :
  idle s -> clocked t ks ->
  let with_purges := run ks s in
  let without := run (without_purges ks) s in
  other_replies ks (fst with_purges) = fst without /\
  forall later, last_clock t ks <= later ->
    live_eq later (disk (connection (snd with_purges))) (disk (connection (snd without))) /\
    forall fs, fst (queued_message_count_at later (load fs (snd with_purges)))
      = fst (queued_message_count_at later (load fs (snd without))).
Proof.
  intros Hi Hc.
  enough (H : forall s', idle s' -> live_eq t (disk (connection s)) (disk (connection s')) ->
    other_replies ks (fst (run ks s)) = fst (run (without_purges ks) s') /\
    forall later, last_clock t ks <= later -> live_eq later (disk (connection (snd (run ks s))))
      (disk (connection (snd (run (without_purges ks) s'))))).
  { destruct (H s Hi ltac:(done)) as [H1 H2]. split; [done|]. intros later Hlater.
    split; [by apply H2|]. intros fs. by apply count_alike; [|apply H2]. }
  revert s t Hi Hc. induction ks as [|k ks IH]; intros s t Hi Hc s' Hi' Hl.
  { split; [done|]. intros later Hlater. by eapply live_eq_later. }
  destruct Hc as [[Ht _] Hc]. unfold without_purges. cbn [run last_clock].
  assert (Hnow := live_eq_later t (call_now k) _ _ Ht Hl). destruct (purges k) eqn:Ep.
  - rewrite filter_cons_False by congruence.
    pose proof (purge_live k s (call_now k) Hi Ep ltac:(lia)) as Hp.
    destruct (perform k s) as [r s1]. destruct Hp as [Hi1 Hl1].
    destruct (IH s1 (call_now k) Hi1 Hc s' Hi') as [IH1 IH2]; [simpl in Hl1; by rewrite Hl1|].
    destruct (run ks s1) as [rs s2]. simpl. by rewrite Ep.
  - rewrite filter_cons_True by done. cbn [run].
    destruct (other_step k s s' Hi Hi' Ep Hnow) as (Er & Hi1 & Hi1' & Hl1).
    destruct (perform k s) as [r s1], (perform k s') as [r' s1']. simpl in *. subst r'.
    destruct (IH s1 (call_now k) Hi1 Hc s1' Hi1' Hl1) as [IH1 IH2].
    destruct (run ks s1) as [rs s2], (run (filter _ ks) s1') as [rs' s2'] eqn:E'. 
    unfold without_purges in *. rewrite E' in *. simpl in *. rewrite Ep. split; [by f_equal|done].
Qed.

(** The exception: [tombstone_count] has no expiry condition. *)
Definition one_expired_tombstone : RelayDb :=
  mkDb ∅ [] {[ ([], []) := 5 ]} ∅ ∅ ∅.

Example tombstone_count_sees_purge :
  fst (tombstone_count (at_rest one_expired_tombstone [])) = Ok 1%nat /\
  fst (tombstone_count (snd (perform (mkCall PurgeExpired 9 []) (at_rest one_expired_tombstone []))))
    = Ok 0%nat.
Proof. by vm_compute. Qed.

(** ** The audit trail *)

Definition event_of (v : Reply) : option string :=
  match v with
  | Registered true => Some "mailbox_registered"
  | Registered false => Some "mailbox_registration_duplicate"
  | Enqueued Stored => Some "message_enqueued"
  | Enqueued Duplicate => Some "message_enqueue_duplicate"
  | Fetched _ => Some "mailbox_fetched"
  | Acknowledged Deleted => Some "message_acknowledged_and_deleted"
  | Acknowledged AlreadyDeleted => Some "message_ack_duplicate"
  | MailboxDeleted _ => Some "mailbox_deleted"
  | Purged 0 => None
  | Purged (S _) => Some "expired_messages_deleted"
  end%string.

Definition reply_events (r : Result Reply) : list string :=
  match r with Ok v => option_list (event_of v) | Err _ => [] end.

Lemma tx_event c now db v e db' : tx c now db = Ok (v, e, db') -> e = event_of v.
Proof.
  destruct c as [r|r|r|r|r|]; simpl; intros H.
  - unfold register_tx in H. inv_ok H. destruct (mailboxes _ !! _); inv_ok H; by injection H as <- <- _.
  - unfold enqueue_tx in H. inv_ok H. destruct (select_message _ _ _); inv_ok H; by injection H as <- <- _.
  - unfold fetch_tx in H. inv_ok H. by injection H as <- <- _.
  - unfold acknowledge_tx in H. inv_ok H. destruct (select_message _ _ _); inv_ok H; by injection H as <- <- _.
  - unfold delete_tx in H. inv_ok H. by injection H as <- <- _.
  - unfold purge_tx in H. inv_ok H. injection H as <- <- _. by destruct (expired_messages now db).
Qed.


End Observe.
