(* ===== verification/RelaySpec.v ===== *)
(** * The relay as independent mailboxes

    What the relay promises, without tables, rows or sweeps. A [Box] is one mailbox: its keys,
    the envelopes waiting in it, the identifiers acknowledged lately, the nonces spent lately,
    and whether it has been retired. [box_step] is the whole service: what one command at one
    time does to the box it addresses. The theorem says that a relay that serves any number of
    mailboxes, in any order of calls, with purges in between and with storage failures, gives
    every mailbox exactly the replies that its own box gives to its own calls. *)

From S2P Require Import Prelude Core Capability Sqlite RelayDb Relay.
From S2P Require Import RelayFacts RelayTx RelayInv RelayTrace ToyCrypto RelayTheorems.
From S2P Require Import RelayDelivery RelayRetry.

#[global] Instance array_countable n : Countable (array n) :=
  inj_countable as_slice (array_from_slice n) array_from_as_slice.

(** The capabilities whose requests carry a nonce. *)
Inductive Role : Type := Receiver | Manager.

#[global] Instance Role_eq_dec : EqDecision Role.
Proof. solve_decision. Defined.
#[global] Instance Role_countable : Countable Role.
Proof.
  apply (inj_countable' (fun r => match r with Receiver => true | Manager => false end)
    (fun b : bool => if b then Receiver else Manager)). by intros [].
Defined.

Section Spec.
Context `{Crypto : CryptoOps}.

(** ** Mailboxes *)

Record Keys : Type := mkKeys {
  k_send : Ed25519PublicKey;
  k_receive : Ed25519PublicKey;
  k_manage : Ed25519PublicKey;
}.

#[global] Instance Keys_eq_dec : EqDecision Keys.
Proof. pose proof pk_eq_dec. solve_decision. Defined.

Record Box : Type := mkBox {
  bx_keys : option Keys;
  bx_retired : bool;
  bx_inbox : list StoredEnvelope;
  bx_buried : gmap MessageId Z;
  bx_spent : gmap (Role * Nonce) Z;
  bx_claims : gmap Nonce Z;
}.

Definition empty_box : Box := mkBox None false [] ∅ ∅ ∅.

(** What is left at [now]. *)
Definition live `{Countable K} (now : Z) (m : gmap K Z) : gmap K Z :=
  filter (fun kv => ~ kv.2 <= now) m.

Definition age (now : Z) (b : Box) : Box :=
  mkBox (bx_keys b) (bx_retired b) (filter (fun e => ~ se_expires_at e <= now) (bx_inbox b))
    (live now (bx_buried b)) (live now (bx_spent b)) (live now (bx_claims b)).

Definition waiting (m : MessageId) (b : Box) : option StoredEnvelope :=
  snd <$> list_find (fun e => se_message_id e = m) (bx_inbox b).

Definition box_key (f : Keys -> Ed25519PublicKey) (b : Box) : Result Ed25519PublicKey :=
  ks ← ok_or MailboxNotFound (bx_keys b); mret (f ks).

(** Times beyond the range of the store are refused. *)
Definition representable (t : Z) : Result unit := result_guard (bool_decide (t <= I64_MAX)) Storage.

(** A nonce can be spent once per role. *)
Definition spend (role : Role) (n : Nonce) (until : Z) (b : Box) : Result Box :=
  representable until;;
  result_guard (bool_decide (bx_spent b !! (role, n) = None)) Unauthorized;;
  mret (mkBox (bx_keys b) (bx_retired b) (bx_inbox b) (bx_buried b)
          (<[(role, n) := until]> (bx_spent b)) (bx_claims b)).

Definition claim (n : Nonce) (until : Z) (ks : option Keys) (b : Box) : Box :=
  mkBox ks (bx_retired b) (bx_inbox b) (bx_buried b) (bx_spent b)
    (match bx_claims b !! n with Some _ => bx_claims b | None => <[n := until]> (bx_claims b) end).

(** ** The service *)

Definition box_register (r : MailboxRegistration) (now : Z) (b : Box) : Result (Reply * Box) :=
  let ks := mkKeys (mr_send_key r) (mr_receive_key r) (mr_manage_key r) in
  validate_request_time (mr_valid_until r) now;;
  result_guard (verify (mr_manage_key r) (registration_signing_bytes r) (mr_signature r))
    Unauthorized;;
  representable now;;
  let b := age now b in
  result_guard (negb (bx_retired b)) MailboxConflict;;
  match bx_keys b with
  | Some old =>
      result_guard (bool_decide (old = ks)) MailboxConflict;;
      representable (mr_valid_until r);;
      mret (Registered false, claim (mr_nonce r) (mr_valid_until r) (Some ks) b)
  | None =>
      representable (mr_valid_until r);;
      result_guard (bool_decide (bx_claims b !! mr_nonce r = None)) Unauthorized;;
      mret (Registered true, claim (mr_nonce r) (mr_valid_until r) (Some ks) b)
  end.

Definition box_enqueue (r : SendRequest) (now : Z) (b : Box) : Result (Reply * Box) :=
  let p := packet_bytes (sr_packet r) in
  result_guard (negb (bool_decide (p = []) || (MAX_PACKET_BYTES <? Z.of_nat (length p))))
    InvalidPayload;;
  validate_message_expiry (sr_expires_at r) now;;
  representable now;;
  let b := age now b in
  key ← box_key k_send b;
  result_guard (verify key (send_request_signing_bytes r) (sr_signature r)) Unauthorized;;
  result_guard (bool_decide (bx_buried b !! sr_message_id r = None)) MessageGone;;
  match waiting (sr_message_id r) b with
  | Some e =>
      result_guard (bool_decide (se_packet e = sr_packet r)) MessageConflict;;
      representable (sr_expires_at r);;
      result_guard (se_expires_at e =? sr_expires_at r) MessageConflict;;
      mret (Enqueued Duplicate, b)
  | None =>
      representable (sr_expires_at r);;
      mret (Enqueued Stored,
        mkBox (bx_keys b) (bx_retired b)
          (bx_inbox b ++ [mkStored (sr_queue_id r) (sr_message_id r) (sr_packet r)
                            (sr_expires_at r) (sr_signature r)])
          (bx_buried b) (bx_spent b) (bx_claims b))
  end.

Definition box_fetch (r : FetchRequest) (now : Z) (b : Box) : Result (Reply * Box) :=
  validate_request_time (fr_valid_until r) now;;
  representable now;;
  let b := age now b in
  key ← box_key k_receive b;
  result_guard (verify key (fetch_signing_bytes r) (fr_signature r)) Unauthorized;;
  b ← spend Receiver (fr_nonce r) (fr_valid_until r) b;
  mret (Fetched (bx_inbox b), b).

Definition box_acknowledge (r : AckRequest) (now : Z) (b : Box) : Result (Reply * Box) :=
  validate_request_time (ar_valid_until r) now;;
  representable now;;
  let b := age now b in
  key ← box_key k_receive b;
  result_guard (verify key (ack_signing_bytes r) (ar_signature r)) Unauthorized;;
  match waiting (ar_message_id r) b with
  | None =>
      result_guard (bool_decide (is_Some (bx_buried b !! ar_message_id r))) MessageNotFound;;
      mret (Acknowledged AlreadyDeleted, b)
  | Some e =>
      result_guard (bool_decide (packet_digest (se_packet e) = ar_packet_hash r)) Unauthorized;;
      let until := saturating_add now TOMBSTONE_TTL_SECONDS in
      representable until;;
      mret (Acknowledged Deleted,
        mkBox (bx_keys b) (bx_retired b)
          (filter (fun e => se_message_id e <> ar_message_id r) (bx_inbox b))
          (<[ar_message_id r := until]> (bx_buried b)) (bx_spent b) (bx_claims b))
  end.

Definition box_delete (r : DeleteMailboxRequest) (now : Z) (b : Box) : Result (Reply * Box) :=
  validate_request_time (dr_valid_until r) now;;
  representable now;;
  let b := age now b in
  key ← box_key k_manage b;
  result_guard (verify key (delete_signing_bytes r) (dr_signature r)) Unauthorized;;
  spend Manager (dr_nonce r) (dr_valid_until r) b;;
  mret (MailboxDeleted true, mkBox None true [] ∅ ∅ (bx_claims b)).

(** What a command does to the box it addresses. *)
Definition box_step (c : Command) (now : Z) (b : Box) : Result (Reply * Box) :=
  match c with
  | Register r => box_register r now b
  | Enqueue r => box_enqueue r now b
  | Fetch r => box_fetch r now b
  | Acknowledge r => box_acknowledge r now b
  | DeleteMailbox r => box_delete r now b
  | PurgeExpired => Err Storage
  end.

(** A mailbox's history: its calls with their replies. A call that met storage failures may
    have been refused for it, with or without its effect. *)
Inductive box_trace : Box -> list (Call * Result Reply) -> Box -> Prop :=
  | box_done b : box_trace b [] b
  | box_served k v b b1 h b2 :
      box_step (call_command k) (call_now k) b = Ok (v, b1) -> box_trace b1 h b2 ->
      box_trace b ((k, Ok v) :: h) b2
  | box_refused k e b h b2 :
      box_step (call_command k) (call_now k) b = Err e -> box_trace b h b2 ->
      box_trace b ((k, Err e) :: h) b2
  | box_failed k b h b2 :
      call_faults k <> [] -> box_trace b h b2 -> box_trace b ((k, Err Storage) :: h) b2
  | box_unsure k v b b1 h b2 :
      call_faults k <> [] -> box_step (call_command k) (call_now k) b = Ok (v, b1) ->
      box_trace b1 h b2 -> box_trace b ((k, Err Storage) :: h) b2.

(** The part of a run that concerns one mailbox. *)
Definition concerns (q : QueueId) (h : list (Call * Result Reply)) : list (Call * Result Reply) :=
  filter (fun kr => command_queue (call_command kr.1) = Some q) h.

End Spec.
