(* ===== verification/RelayBoxes.v ===== *)
(** * The relay implements independent mailboxes

    [agrees q b db]: the tables say about the queue [q] exactly what the box [b] says. Every
    transition on [q] is the box's step, every other transition leaves the agreement, and time
    passes the same way on both sides; the refinement theorem follows by induction on the run. *)

From S2P Require Import Prelude Core Capability Sqlite RelayDb Relay.
From S2P Require Import RelayFacts RelayTx RelayInv RelayTrace ToyCrypto RelayTheorems.
From S2P Require Import RelayDelivery RelayRetry RelayRuns RelaySpec.

Section Boxes.
Context `{Crypto : CryptoOps} {Laws : CryptoLaws}.

(** ** Agreement *)

Definition keys_row (ks : Keys) (created_at : Z) : MailboxRow :=
  mkMailbox (as_slice (pk_as_bytes (k_send ks))) (as_slice (pk_as_bytes (k_receive ks)))
    (as_slice (pk_as_bytes (k_manage ks))) created_at.

Definition envelope_row (e : StoredEnvelope) : MessageRow :=
  mkMessage (as_slice (se_queue_id e)) (as_slice (se_message_id e)) (packet_bytes (se_packet e))
    (se_expires_at e) (as_slice (sig_to_bytes (se_sender_signature e))).

Definition role_name (r : Role) : string :=
  match r with Receiver => "receive" | Manager => "manage" end.

Definition of_queue (q : list byte) (db : RelayDb) : list MessageRow :=
  filter (fun r => mg_queue_id r = q) (messages db).

Record agrees (q : QueueId) (b : Box) (db : RelayDb) : Prop := {
  ag_keys : match bx_keys b with
            | None => mailboxes db !! as_slice q = None
            | Some ks => exists t, mailboxes db !! as_slice q = Some (keys_row ks t)
            end;
  ag_retired : bx_retired b = retired_exists (as_slice (digest (as_slice q))) db;
  ag_inbox : of_queue (as_slice q) db = envelope_row <$> bx_inbox b;
  ag_owned : Forall (fun e => se_queue_id e = q /\ 0 <= se_expires_at e) (bx_inbox b);
  ag_buried (m : MessageId) : tombstones db !! (as_slice q, as_slice m) = bx_buried b !! m;
  ag_spent role (n : Nonce) :
    request_nonces db !! (as_slice q, role_name role, as_slice n) = bx_spent b !! (role, n);
  ag_claims (n : Nonce) : registration_nonces db !! (as_slice q, as_slice n) = bx_claims b !! n;
}.

Lemma agrees_empty q : agrees q empty_box empty_db.
Proof. split; simpl; intros; rewrite ?lookup_empty; done. Qed.

(** ** Time *)

Lemma lookup_live `{Countable K, Countable K'} now (m : gmap K Z) (m' : gmap K' Z) i j :
  m !! i = m' !! j ->
  filter (fun kv => ~ kv.2 <= now) m !! i = filter (fun kv => ~ kv.2 <= now) m' !! j.
Proof.
  intros E. apply option_eq. intros x. rewrite !map_lookup_filter_Some, E. done.
Qed.

Lemma of_queue_sweep q now db :
  of_queue q (sweep now db) = filter (fun r => ~ mg_expires_at r <= now) (of_queue q db).
Proof.
  unfold of_queue. simpl. rewrite !list_filter_filter. apply list_filter_iff. intros x. tauto.
Qed.

Lemma filter_comm {A} (P Q : A -> Prop) `{forall x, Decision (P x)} `{forall x, Decision (Q x)}
    (l : list A) :
  filter P (filter Q l) = filter Q (filter P l).
Proof. rewrite !list_filter_filter. apply list_filter_iff. intros x. tauto. Qed.

Lemma filter_fmap_rows_in {A B} (f : A -> B) (P : B -> Prop) (Q : A -> Prop)
    `{forall x, Decision (P x)} `{forall x, Decision (Q x)} (l : list A) :
  (forall x, x ∈ l -> P (f x) <-> Q x) -> filter P (f <$> l) = f <$> filter Q l.
Proof.
  induction l as [|x l IH]; intros HPQ; [done|].
  rewrite fmap_cons, !filter_cons, IH by (intros y Hy; apply HPQ; by right).
  pose proof (HPQ x (list_elem_of_here _ _)) as Hx.
  destruct (decide (P (f x))) as [Hp|Hp], (decide (Q x)) as [Hq|Hq]; tauto || done.
Qed.

Lemma agrees_age q b db now : agrees q b db -> agrees q (age now b) (sweep now db).
Proof.
  intros [Hk Hr Hi Ho Hb Hs Hc]. split; simpl; try done.
  - rewrite of_queue_sweep, Hi. by apply filter_fmap_rows_in.
  - rewrite Forall_forall in Ho |- *. intros e [_ He]%list_elem_of_filter. by apply Ho.
  - intros m. by apply lookup_live.
  - intros role n. by apply lookup_live.
  - intros n. by apply lookup_live.
Qed.

Lemma live_live `{Countable K} t now (m : gmap K Z) : t <= now -> live now (live t m) = live now m.
Proof.
  intros Ht. apply map_eq. intros i. apply option_eq. intros x. unfold live.
  rewrite !map_lookup_filter_Some. simpl. intuition lia.
Qed.

Lemma age_age t now b : t <= now -> age now (age t b) = age now b.
Proof.
  intros Ht. unfold age. simpl. rewrite !live_live by done. f_equal.
  apply filter_filter_other. intros e. lia.
Qed.

(** The tables and the box agree on what is left at [t]. *)
Definition agrees_at (t : Z) (q : QueueId) (b : Box) (db : RelayDb) : Prop :=
  agrees q (age t b) (sweep t db).

Lemma agrees_at_later t now q b db : t <= now -> agrees_at t q b db -> agrees_at now q b db.
Proof.
  intros Ht H. apply (agrees_age _ _ _ now) in H. unfold agrees_at.
  by rewrite <- (age_age t), <- (sweep_sweep t).
Qed.

(** ** Reading *)

Lemma stored_key_agrees q b db (f : Keys -> Ed25519PublicKey) col :
  agrees q b db -> (forall ks t, col (keys_row ks t) = as_slice (pk_as_bytes (f ks))) ->
  stored_key col q db = box_key f b.
Proof.
  intros Ha Hc. unfold stored_key, box_key. pose proof (ag_keys _ _ _ Ha) as Hk.
  destruct (bx_keys b) as [ks|]; [destruct Hk as [t ->]|by rewrite Hk].
  cbn [ok_or mbind result_bind]. rewrite Hc, array_from_as_slice. cbn [ok_or mbind result_bind].
  by rewrite pk_from_as_bytes.
Qed.

Lemma find_rows (q : QueueId) (m : MessageId) l : forall es,
  filter (fun r => mg_queue_id r = as_slice q) l = envelope_row <$> es ->
  snd <$> list_find (fun r => msg_key r = (as_slice q, as_slice m)) l
    = envelope_row <$> (snd <$> list_find (fun e => se_message_id e = m) es).
Proof.
  induction l as [|r l IH]; intros es; simpl; [by destruct es|].
  rewrite filter_cons. case_decide as Hq.
  - destruct es as [|e es]; [done|]. rewrite fmap_cons. intros [= -> E]. simpl.
    destruct (decide (se_message_id e = m)) as [Hm|Hm].
    + rewrite decide_True; [done|]. unfold msg_key. simpl in *. by rewrite Hq, Hm.
    + rewrite decide_False by (intros [= _ Eq]; by apply Hm, as_slice_inj).
      rewrite <- !option_fmap_compose. specialize (IH es E).
      rewrite <- !option_fmap_compose in IH.
      rewrite !(option_fmap_ext (snd ∘ prod_map S id) snd) by by intros []. exact IH.
  - intros E. rewrite decide_False by (unfold msg_key; congruence).
    rewrite <- option_fmap_compose.
    rewrite (option_fmap_ext (snd ∘ prod_map S id) snd) by by intros []. by apply IH.
Qed.

Lemma select_agrees q b db (m : MessageId) :
  agrees q b db -> select_message (as_slice q) (as_slice m) db = envelope_row <$> waiting m b.
Proof. intros Ha. apply find_rows. apply Ha. Qed.

Lemma collect_agrees q es :
  Forall (fun e => se_queue_id e = q /\ 0 <= se_expires_at e) es ->
  collect_rows q (envelope_row <$> es) = Ok es.
Proof.
  induction 1 as [|e es [Hq He] _ IH]; [done|]. rewrite fmap_cons. cbn [collect_rows].
  unfold row_to_envelope, MessageId_from_slice. destruct e as [q' m p t s]. simpl in *. subst q'.
  rewrite array_from_as_slice. cbn [ok_or mbind result_bind]. rewrite decide_True by done.
  cbn [ok_or mbind result_bind]. rewrite sig_from_to_bytes. cbn [ok_or mbind result_bind mret result_ret].
  rewrite IH. by destruct p.
Qed.

(** ** Steps on the mailbox *)

(** Same reply with agreement afterwards, or same error. *)
Definition corresponds (q : QueueId) (r : Result (Reply * Box)) (o : Result Outcome) : Prop :=
  match r, o with
  | Ok (v, b), Ok (v', _, db) => v = v' /\ agrees q b db
  | Err e, Err e' => e = e'
  | _, _ => False
  end.

Lemma corresponds_bind {A} q (x : Result A) f g :
  (forall a, x = Ok a -> corresponds q (f a) (g a)) -> corresponds q (x ≫= f) (x ≫= g).
Proof. intros H. destruct x as [a|e]; [by apply H|done]. Qed.

Lemma corresponds_i64 q t f g :
  (t <= I64_MAX -> corresponds q (f tt) (g t)) ->
  corresponds q (representable t ≫= f) (to_i64 t ≫= g).
Proof.
  intros H. unfold representable, to_i64. case_decide as E.
  - rewrite bool_decide_true by done. by apply H.
  - by rewrite bool_decide_false.
Qed.

(** Agreement after a change to a nonce or a tombstone of the queue. *)
Lemma agrees_spend q b db role (n : Nonce) t :
  agrees q b db ->
  agrees q (mkBox (bx_keys b) (bx_retired b) (bx_inbox b) (bx_buried b)
              (<[(role, n) := t]> (bx_spent b)) (bx_claims b))
    (set_request_nonces (<[(as_slice q, role_name role, as_slice n) := t]> (request_nonces db)) db).
Proof.
  intros [Hk Hr Hi Ho Hb Hs Hc]. split; try done. intros role' n'. simpl.
  destruct (decide ((role, n) = (role', n'))) as [[= -> ->]|Hne]; [by rewrite !lookup_insert_eq|].
  rewrite (lookup_insert_ne (bx_spent b)), (lookup_insert_ne (request_nonces db)); [apply Hs| |done].
  intros [= Er En%as_slice_inj]. apply Hne. f_equal; [by destruct role, role'|done].
Qed.

Lemma agrees_claim q b db (n : Nonce) until ks t :
  agrees q b db ->
  let nonces := registration_nonces db in
  let nonces' := match nonces !! (as_slice q, as_slice n) with
                 | Some _ => nonces
                 | None => <[(as_slice q, as_slice n) := until]> nonces
                 end in
  forall mbs, mbs !! as_slice q = Some (keys_row ks t) ->
  agrees q (claim n until (Some ks) b) (set_mailboxes mbs (set_registration_nonces nonces' db)).
Proof.
  intros [Hk Hr Hi Ho Hb Hs Hc] nonces nonces' mbs Hm. split; try done.
  - simpl. by exists t.
  - intros n'. simpl. unfold nonces', nonces. rewrite (Hc n). destruct (bx_claims b !! n); [apply Hc|].
    destruct (decide (n = n')) as [<-|Hne]; [by rewrite !lookup_insert_eq|].
    rewrite (lookup_insert_ne (bx_claims b)), (lookup_insert_ne (registration_nonces db)); [apply Hc| |done].
    by intros [= E%as_slice_inj].
Qed.

Lemma register_corresponds q r now b db :
  mr_queue_id r = q -> agrees q (age now b) (sweep now db) ->
  corresponds q (box_register r now b) (register_tx r now db).
Proof.
  intros <- Ha. unfold box_register, register_tx. cbv zeta.
  apply corresponds_bind; intros _ _. apply corresponds_bind; intros _ _.
  apply corresponds_i64; intros _. rewrite (ag_retired _ _ _ Ha).
  apply corresponds_bind; intros _ _. pose proof (ag_keys _ _ _ Ha) as Hk.
  destruct (bx_keys (age now b)) as [old|].
  - destruct Hk as [t Hk]. rewrite Hk.
    assert (Hsame : bool_decide (old = mkKeys (mr_send_key r) (mr_receive_key r) (mr_manage_key r))
      = bool_decide (mb_send_key (keys_row old t) = as_slice (pk_as_bytes (mr_send_key r)))
        && bool_decide (mb_receive_key (keys_row old t) = as_slice (pk_as_bytes (mr_receive_key r)))
        && bool_decide (mb_manage_key (keys_row old t) = as_slice (pk_as_bytes (mr_manage_key r)))).
    { rewrite <- !bool_decide_and. apply bool_decide_ext. destruct old as [a c d]. simpl. split.
      - by intros [= -> -> ->].
      - intros [[E1 E2] E3]. apply as_slice_inj, pk_as_bytes_inj in E1, E2, E3. by subst. }
    cbn [mb_send_key mb_receive_key mb_manage_key] in *. rewrite Hsame.
    apply corresponds_bind; intros u Hs. apply corresponds_i64; intros _. split; [done|].
    rewrite <- Hsame in Hs. apply result_guard_ok, bool_decide_eq_true in Hs. subst old.
    exact (agrees_claim _ _ _ _ _ _ t Ha (mailboxes (sweep now db)) Hk).
  - rewrite Hk. apply corresponds_i64; intros _. rewrite (ag_claims _ _ _ Ha).
    apply corresponds_bind; intros u Hn. apply result_guard_ok, bool_decide_eq_true in Hn.
    split; [done|].
    pose proof (agrees_claim _ _ _ (mr_nonce r) (mr_valid_until r)
      (mkKeys (mr_send_key r) (mr_receive_key r) (mr_manage_key r)) now Ha
      (<[as_slice (mr_queue_id r) := _]> (mailboxes (sweep now db))) (lookup_insert_eq _ _ _)) as H.
    by rewrite (ag_claims _ _ _ Ha), Hn in H.
Qed.

Lemma buried_agrees q b db now (m : MessageId) :
  agrees q (age now b) (sweep now db) ->
  negb (live_tombstone_exists (as_slice q) (as_slice m) now (sweep now db))
    = bool_decide (bx_buried (age now b) !! m = None).
Proof.
  intros Ha. unfold live_tombstone_exists. rewrite (ag_buried _ _ _ Ha).
  destruct (bx_buried (age now b) !! m) as [d|] eqn:E; [|by rewrite bool_decide_true].
  rewrite bool_decide_false by done. simpl in E. unfold live in E.
  apply map_lookup_filter_Some in E as [_ Hd]. simpl in Hd. by rewrite (proj2 (Z.ltb_lt _ _)) by lia.
Qed.

Lemma enqueue_corresponds q r now b db :
  0 <= now -> sr_queue_id r = q -> agrees q (age now b) (sweep now db) ->
  corresponds q (box_enqueue r now b) (enqueue_tx r now db).
Proof.
  intros H0 <- Ha. unfold box_enqueue, enqueue_tx. cbv zeta.
  apply corresponds_bind; intros _ _. apply corresponds_bind; intros u Hx.
  apply validate_message_expiry_ok in Hx. apply corresponds_i64; intros _.
  rewrite (stored_key_agrees _ _ _ k_send mb_send_key Ha) by done.
  apply corresponds_bind; intros key _. apply corresponds_bind; intros _ _.
  rewrite (buried_agrees _ _ _ _ _ Ha), (select_agrees _ _ _ _ Ha).
  apply corresponds_bind; intros _ _.
  destruct (waiting (sr_message_id r) (age now b)) as [e|]; simpl (_ <$> _); cbv beta iota.
  - assert (bool_decide (mg_ciphertext (envelope_row e) = packet_bytes (sr_packet r))
      = bool_decide (se_packet e = sr_packet r)) as ->.
    { apply bool_decide_ext. simpl. destruct (se_packet e), (sr_packet r). simpl. naive_solver. }
    apply corresponds_bind; intros _ _. apply corresponds_i64; intros _.
    apply corresponds_bind; intros _ _. by split.
  - apply corresponds_i64; intros _. split; [done|]. destruct Ha as [Hk Hr Hi Ho Hb Hs Hc].
    split; try done.
    + cbn [bx_inbox]. rewrite fmap_app, <- Hi. unfold of_queue. cbn [messages set_messages].
      by rewrite filter_app, filter_cons_True, filter_nil.
    + cbn [bx_inbox]. apply Forall_app. split; [done|]. repeat constructor. simpl. lia.
Qed.

Lemma spend_corresponds q role (n : Nonce) t b db f g :
  agrees q b db ->
  (forall b' db', agrees q b' db' -> bx_inbox b' = bx_inbox b -> messages db' = messages db ->
     bx_claims b' = bx_claims b -> corresponds q (f b') (g db')) ->
  corresponds q (spend role n t b ≫= f)
    (nonce_tx (as_slice q) (role_name role) (as_slice n) t db ≫= g).
Proof.
  intros Ha H. unfold spend, nonce_tx, representable, to_i64. rewrite (ag_spent _ _ _ Ha).
  case_decide; [rewrite (bool_decide_true (t <= I64_MAX)) by done
               |by rewrite (bool_decide_false (t <= I64_MAX))]. simpl.
  destruct (bx_spent b !! (role, n)) as [x|]; [by rewrite !bool_decide_false|].
  rewrite !bool_decide_true by done. simpl. apply H; [by apply agrees_spend|done..].
Qed.

Lemma fetch_corresponds q r now b db :
  fr_queue_id r = q -> agrees q (age now b) (sweep now db) ->
  corresponds q (box_fetch r now b) (fetch_tx r now db).
Proof.
  intros <- Ha. unfold box_fetch, fetch_tx. cbv zeta.
  apply corresponds_bind; intros _ _. apply corresponds_i64; intros _.
  rewrite (stored_key_agrees _ _ _ k_receive mb_receive_key Ha) by done.
  apply corresponds_bind; intros key _. apply corresponds_bind; intros _ _.
  apply (spend_corresponds _ Receiver); [done|]. intros b' db' Ha' _ Em _.
  assert (select_queue (as_slice (fr_queue_id r)) now db' = envelope_row <$> bx_inbox b') as ->.
  { rewrite <- (ag_inbox _ _ _ Ha'). unfold select_queue, of_queue. rewrite Em. simpl.
    rewrite !list_filter_filter. apply list_filter_iff. intros x. intuition lia. }
  rewrite collect_agrees by apply Ha'. by split.
Qed.

Lemma acknowledge_corresponds q r now b db :
  ar_queue_id r = q -> agrees q (age now b) (sweep now db) ->
  corresponds q (box_acknowledge r now b) (acknowledge_tx r now db).
Proof.
  intros <- Ha. unfold box_acknowledge, acknowledge_tx. cbv zeta.
  apply corresponds_bind; intros _ _. apply corresponds_i64; intros _.
  rewrite (stored_key_agrees _ _ _ k_receive mb_receive_key Ha) by done.
  apply corresponds_bind; intros key _. apply corresponds_bind; intros _ _.
  rewrite (select_agrees _ _ _ _ Ha). unfold tombstone_exists. rewrite (ag_buried _ _ _ Ha).
  destruct (waiting (ar_message_id r) (age now b)) as [e|]; simpl (_ <$> _); cbv beta iota.
  - apply corresponds_bind; intros _ _. apply corresponds_i64; intros _. split; [done|].
    destruct Ha as [Hk Hr Hi Ho Hb Hs Hc]. split; try done.
    + cbn [bx_inbox]. unfold of_queue in *. cbn [messages set_tombstones set_messages].
      rewrite filter_comm, Hi. apply filter_fmap_rows_in. intros x Hx. unfold msg_key. simpl.
      rewrite Forall_forall in Ho. destruct (Ho x Hx) as [-> _]. split; [congruence|].
      intros Hne [= E%as_slice_inj]. done.
    + cbn [bx_inbox]. rewrite Forall_forall in Ho |- *. intros x [_ Hx]%list_elem_of_filter. by apply Ho.
    + intros m. cbn [bx_buried tombstones set_tombstones].
      destruct (decide (ar_message_id r = m)) as [<-|Hne]; [by rewrite !lookup_insert_eq|].
      rewrite (lookup_insert_ne (bx_buried _)), (lookup_insert_ne (tombstones _)); [apply Hb| |done].
      by intros [= E%as_slice_inj].
  - apply corresponds_bind; intros _ _. by split.
Qed.

Lemma delete_corresponds q r now b db :
  dr_queue_id r = q -> agrees q (age now b) (sweep now db) ->
  corresponds q (box_delete r now b) (delete_tx r now db).
Proof.
  intros <- Ha. unfold box_delete, delete_tx. cbv zeta.
  apply corresponds_bind; intros _ _. apply corresponds_i64; intros _.
  rewrite (stored_key_agrees _ _ _ k_manage mb_manage_key Ha) by done.
  apply corresponds_bind; intros key _. apply corresponds_bind; intros _ _.
  apply (spend_corresponds _ Manager); [done|]. intros b' db' Ha' _ _ Ec. split; [done|].
  destruct Ha' as [Hk Hr Hi Ho Hb Hs Hc]. split; simpl.
  - apply lookup_delete_eq.
  - unfold retired_exists. simpl. symmetry. apply bool_decide_eq_true.
    destruct (retired_queues db' !! _) eqn:E; [by rewrite E|by rewrite lookup_insert_eq].
  - unfold of_queue. simpl. apply elem_of_nil_inv.
    intros x [? [? _]%list_elem_of_filter]%list_elem_of_filter. done.
  - constructor.
  - intros m. rewrite lookup_empty. apply map_lookup_filter_None. right. intros x _. simpl. tauto.
  - intros role n. rewrite lookup_empty. apply map_lookup_filter_None. right. intros x _. simpl. tauto.
  - intros n. rewrite Hc. by rewrite Ec.
Qed.

Lemma step_corresponds q c now b db :
  0 <= now -> command_queue c = Some q -> agrees_at now q b db ->
  corresponds q (box_step c now b) (tx c now db).
Proof.
  intros H0 Hq Ha. destruct c; simpl in Hq; simplify_eq; simpl;
    eauto using register_corresponds, enqueue_corresponds, fetch_corresponds,
      acknowledge_corresponds, delete_corresponds.
Qed.

(** ** Steps on other mailboxes *)

Lemma tx_retired c now db v e db' h :
  tx c now db = Ok (v, e, db') ->
  (forall q, command_queue c = Some q -> as_slice (digest (as_slice q)) <> h) ->
  retired_exists h db' = retired_exists h db.
Proof.
  intros H Hh. unfold retired_exists. apply bool_decide_ext.
  destruct c as [r|r|r|r|r|]; simpl in H.
  - unfold register_tx in H. inv_ok H. destruct (mailboxes _ !! _); inv_ok H; by injection H as _ _ <-.
  - unfold enqueue_tx in H. inv_ok H. destruct (select_message _ _ _); inv_ok H; by injection H as _ _ <-.
  - apply fetch_tx_ok in H as (_ & _ & _ & _ & _ & _ & ->). done.
  - unfold acknowledge_tx in H. inv_ok H. destruct (select_message _ _ _); inv_ok H; by injection H as _ _ <-.
  - apply delete_tx_ok in H as (_ & _ & _ & _ & _ & _ & n & ret & -> & _ & Hret). simpl.
    rewrite Hret; [done|]. intros ->. by eapply Hh.
  - unfold purge_tx in H. inv_ok H. by injection H as _ _ <-.
Qed.

(** No other queue of the command has the digest of [q]. *)
Definition digest_apart (q : QueueId) (c : Command) : Prop :=
  forall q', command_queue c = Some q' -> digest (as_slice q') = digest (as_slice q) -> q' = q.

Lemma agrees_other q c now b db v e db' :
  command_queue c <> Some q -> digest_apart q c -> tx c now db = Ok (v, e, db') ->
  agrees q b (sweep now db) -> agrees q b db'.
Proof.
  intros Hq Hd Htx [Hk Hr Hi Ho Hb Hs Hc].
  pose proof (tx_isolated _ _ _ _ _ _ _ Hq Htx) as (E1 & E2 & E3 & E4 & E5).
  split; try done.
  - by rewrite <- E1.
  - rewrite Hr. symmetry. apply (tx_retired c now db v e db'); [done|].
    intros q' Eq E%as_slice_inj. apply Hq. rewrite Eq. f_equal. by apply Hd.
  - unfold of_queue. by rewrite <- E2.
  - intros m. by rewrite <- E3.
  - intros role n. by rewrite <- E4.
  - intros n. by rewrite <- E5.
Qed.

(** ** Runs *)

(** The outcomes of a call; only a call that meets failures can fail otherwise than its
    transition. *)
Lemma perform_cases k s :
  idle s ->
  let '(r, s') := perform k s in
  let o := tx (call_command k) (call_now k) (disk (connection s)) in
  idle s' /\
  ((exists v e, r = Ok v /\ o = Ok (v, e, disk (connection s'))) \/
   (exists e, r = Err e /\ o = Err e /\ disk (connection s') = disk (connection s)) \/
   (call_faults k <> [] /\ r = Err Storage /\
    (disk (connection s') = disk (connection s) \/
     exists v e, o = Ok (v, e, disk (connection s'))))).
Proof.
  intros Hi. destruct k as [c now fs]. destruct (decide (fs = [])) as [->|Hf].
  - rewrite perform_clean by done. cbn [call_command call_now call_faults].
    destruct (tx c now _) as [[[v e] db']|e]; simpl; (split; [done|]); eauto 6.
  - unfold perform. cbn [call_command call_now call_faults].
    pose proof (exec_outcome c now (load fs s) Hi) as Ho.
    destruct (exec c now (load fs s)) as [r s']. destruct Ho as [Hi' Ho]. split; [done|].
    simpl in Ho. destruct (tx c now _) as [[[v e] db']|e]; naive_solver.
Qed.

(** A call on another mailbox, or on none. *)
Lemma perform_apart k s q b t :
  t <= call_now k -> idle s -> command_queue (call_command k) <> Some q ->
  digest_apart q (call_command k) -> agrees_at t q b (disk (connection s)) ->
  idle (snd (perform k s)) /\
  agrees_at (call_now k) q b (disk (connection (snd (perform k s)))).
Proof.
  intros Ht Hi Hq Hd Ha. apply (agrees_at_later _ (call_now k)) in Ha; [|lia].
  pose proof (perform_cases k s Hi) as Ho. destruct (perform k s) as [r s'].
  destruct Ho as [Hi' Ho]. split; [done|]. simpl.
  assert (forall v e, tx (call_command k) (call_now k) (disk (connection s))
    = Ok (v, e, disk (connection s')) -> agrees_at (call_now k) q b (disk (connection s'))) as Hok.
  { intros v e E. pose proof (agrees_other _ _ _ _ _ _ _ _ Hq Hd E Ha) as H.
    apply (agrees_age _ _ _ (call_now k)) in H. by rewrite age_age in H by lia. }
  destruct Ho as [(v & e & _ & E)|[(e & _ & _ & ->)|(_ & _ & [->|(v & e & E)])]]; eauto.
Qed.

(** One call on the relay: a step of the mailbox it addresses, nothing for the others. *)
Lemma perform_agrees k s q b t :
  0 <= t <= call_now k -> idle s -> digest_apart q (call_command k) ->
  agrees_at t q b (disk (connection s)) ->
  let '(r, s') := perform k s in
  exists b', idle s' /\ agrees_at (call_now k) q b' (disk (connection s')) /\
    forall h b2, box_trace b' h b2 ->
      box_trace b (if decide (command_queue (call_command k) = Some q) then (k, r) :: h else h) b2.
Proof.
  intros Ht Hi Hd Ha. apply (agrees_at_later _ (call_now k)) in Ha; [|lia].
  case_decide as Hq.
  - pose proof (perform_cases k s Hi) as Ho. destruct (perform k s) as [r s']. destruct Ho as [Hi' Ho].
    pose proof (step_corresponds q (call_command k) (call_now k) b _ ltac:(lia) Hq Ha) as Hc.
    unfold corresponds in Hc.
    destruct Ho as [(v & e & -> & E)|[(e & -> & E & ->)|(Hf & -> & [->|(v & e & E)])]];
      try rewrite E in Hc; destruct (box_step _ _ _) as [[v' b1]|e'] eqn:Eb; try done.
    + destruct Hc as [-> Hc]. exists b1. split; [done|]. split; [by apply agrees_age|].
      intros. by eapply box_served.
    + subst e'. exists b. split; [done|]. split; [done|]. intros. by eapply box_refused.
    + exists b. split; [done|]. split; [done|]. intros. by eapply box_failed.
    + exists b. split; [done|]. split; [done|]. intros. by eapply box_failed.
    + destruct Hc as [-> Hc]. exists b1. split; [done|]. split; [by apply agrees_age|].
      intros. by eapply box_unsure.
  - destruct (perform_apart k s q b (call_now k) (Z.le_refl _) Hi Hq Hd Ha) as [Hi' Ha'].
    destruct (perform k s) as [r s']. by exists b.
Qed.

Lemma run_agrees ks : forall t s q b,
  0 <= t -> clocked t ks -> idle s -> Forall (fun k => digest_apart q (call_command k)) ks ->
  agrees_at t q b (disk (connection s)) ->
  let '(rs, s') := run ks s in
  exists b', box_trace b (concerns q (zip ks rs)) b' /\
    agrees_at (last_clock t ks) q b' (disk (connection s')).
Proof.
  induction ks as [|k ks IH]; intros t s q b H0 Hc Hi Hd Ha; simpl.
  { exists b. split; [constructor|done]. }
  destruct Hc as [Ht Hc]. apply Forall_cons in Hd as [Hk Hd].
  pose proof (perform_agrees k s q b t ltac:(lia) Hi Hk Ha) as Hp.
  destruct (perform k s) as [r s1]. destruct Hp as (b1 & Hi1 & Ha1 & Htr).
  specialize (IH (call_now k) s1 q b1 ltac:(lia) Hc Hi1 Hd Ha1).
  destruct (run ks s1) as [rs s2]. destruct IH as (b2 & Htr2 & Ha2). exists b2. split; [|done].
  unfold concerns in *. simpl. rewrite filter_cons. simpl. by apply Htr in Htr2.
Qed.

(** C2. The relay is a family of independent mailboxes. In any run from an empty database, with
    purges, with calls on any other mailboxes in between and with any storage failures, the
    calls that address a mailbox get exactly the replies of that mailbox's own abstract state
    machine, run on those calls alone; a call that met storage failures may have been refused
    with or without its effect, every other call is served or refused as the abstract mailbox
    says. What the tables hold for the mailbox at the end is the abstract state's live part. The
    queue's digest must not collide with that of another queue of the run. *)
Theorem relay_implements_mailboxes ks t q :
  0 <= t -> clocked t ks -> Forall (fun k => digest_apart q (call_command k)) ks ->
  let '(rs, s') := run ks fresh_relay in
  exists b, box_trace empty_box (concerns q (zip ks rs)) b /\
    agrees_at (last_clock t ks) q b (disk (connection s')).
Proof.
  intros H0 Hc Hd. apply run_agrees; [done..|]. apply agrees_age, agrees_empty.
Qed.

End Boxes.
