(* ===== verification/RelayDrain.v ===== *)
(** * Emptying a mailbox

    The recipient's loop: fetch, take the first envelope, verify it, acknowledge it, and start
    again until nothing is waiting. Proved against the abstract mailbox of [RelaySpec]: every
    round removes exactly one envelope, so as many rounds as there are live messages are enough. *)

From S2P Require Import Prelude Core Capability Sqlite RelayDb Relay.
From S2P Require Import RelayFacts RelayTx RelayInv RelayTrace ToyCrypto RelayTheorems.
From S2P Require Import RelayDelivery RelayRetry RelayRuns RelayExchange RelaySpec RelayBoxes.

Section Drain.
Context `{Crypto : CryptoOps} {Laws : CryptoLaws}.

Lemma load_idle s : idle s -> load [] s = at_rest (disk (connection s)) (audit_events s).
Proof. destruct s as [[d t fs] ev]. unfold idle. simpl. by intros ->. Qed.

Lemma last_clock_later ks : forall t, clocked t ks -> t <= last_clock t ks.
Proof.
  induction ks as [|k ks IH]; intros t; simpl; [lia|]. intros [Ht Hc].
  specialize (IH _ Hc). unfold last_clock in *. simpl. lia.
Qed.

(** ** Commands through the interface of the mailbox *)

Lemma exec_box q c now b db ev v b' :
  0 <= now -> command_queue c = Some q -> agrees_at now q b db -> box_step c now b = Ok (v, b') ->
  exists db' ev', exec c now (at_rest db ev) = (Ok v, at_rest db' ev') /\ agrees_at now q b' db'.
Proof.
  intros H0 Hq Ha Hb. pose proof (step_corresponds q c now b db H0 Hq Ha) as Hc. rewrite Hb in Hc.
  rewrite exec_tx. destruct (tx c now db) as [[[v' e] db']|]; [|done]. destruct Hc as [-> Hc].
  eexists _, _. split; [done|]. by apply agrees_age.
Qed.

(** The box belongs to the owner; its envelopes are distinct and carry the owner's signature. *)
Record sound (o : MailboxOwner) (now : Z) (b : Box) : Prop := {
  so_keys : bx_keys b = Some (mkKeys (public_key (mo_send o)) (public_key (mo_receive o))
                                (public_key (mo_manage o)));
  so_distinct : NoDup (se_message_id <$> bx_inbox b);
  so_live : Forall (fun e => now < se_expires_at e /\ se_queue_id e = mo_queue_id o /\
    verify (public_key (mo_send o))
      (send_signing_bytes (se_queue_id e) (se_message_id e) (se_packet e) (se_expires_at e))
      (se_sender_signature e) = true) (bx_inbox b);
}.

Lemma sig_to_bytes_inj s s' : sig_to_bytes s = sig_to_bytes s' -> s = s'.
Proof.
  intros E. assert (Some s = Some s') as [= ?]; [|done].
  by rewrite <- !sig_from_to_bytes, E.
Qed.

Lemma sound_agrees o now b db mb :
  db_wf db -> mailboxes db !! as_slice (mo_queue_id o) = Some mb -> owned_by o mb ->
  agrees_at now (mo_queue_id o) b db -> sound o now (age now b).
Proof.
  intros Hwf Hmb (Es & Er & Em) Ha. apply (wf_sweep now) in Hwf.
  pose proof (ag_keys _ _ _ Ha) as Hk. simpl in Hk. rewrite Hmb in Hk.
  pose proof (ag_inbox _ _ _ Ha) as Hi. pose proof (ag_owned _ _ _ Ha) as Ho.
  assert (Hks : bx_keys b = Some (mkKeys (public_key (mo_send o)) (public_key (mo_receive o))
                                    (public_key (mo_manage o)))).
  { destruct (bx_keys b) as [ks|]; [|done]. destruct Hk as [t [= ->]]. simpl in *.
    apply as_slice_inj, pk_as_bytes_inj in Es, Er, Em. destruct ks. simpl in *. by subst. }
  assert (Hin : forall e, e ∈ bx_inbox (age now b) ->
    envelope_row e ∈ messages (sweep now db) /\ se_queue_id e = mo_queue_id o).
  { intros e He. rewrite Forall_forall in Ho. destruct (Ho e He) as [Hq _]. split; [|done].
    assert (envelope_row e ∈ of_queue (as_slice (mo_queue_id o)) (sweep now db)) as Hr.
    { rewrite Hi. by apply list_elem_of_fmap_2. }
    by apply list_elem_of_filter in Hr as [_ ?]. }
  split; [done|..].
  - pose proof (NoDup_fmap_filter msg_key (fun r => mg_queue_id r = as_slice (mo_queue_id o)) _
      (wf_nodup _ Hwf)) as Hnd. fold (of_queue (as_slice (mo_queue_id o)) (sweep now db)) in Hnd.
    rewrite Hi, <- list_fmap_compose in Hnd.
    apply (NoDup_fmap_1 (fun m : MessageId => (as_slice (mo_queue_id o), as_slice m))).
    rewrite <- list_fmap_compose. erewrite list_fmap_ext; [exact Hnd|].
    intros i e He%list_elem_of_lookup_2. simpl. by destruct (Hin e He) as [_ <-].
  - apply Forall_forall. intros e He. destruct (Hin e He) as [Hr Hq]. split.
    + simpl in He. apply list_elem_of_filter in He as [? _]. lia.
    + split; [done|].
      destruct (wf_message _ Hwf _ Hr) as [(q & m & mb' & k & s & Eq & Emid & Emb & Hpk & Esig & Hv) _].
      simpl in *. rewrite Hq in *. rewrite Hmb in Emb. injection Emb as <-.
      apply as_slice_inj in Eq, Emid. apply as_slice_inj, sig_to_bytes_inj in Esig. subst.
      rewrite Es in Hpk. rewrite (parses_to_fun _ _ _ Hpk (parses_own _)) in Hv.
      by destruct (se_packet e).
Qed.

Lemma inbox_deliverable q now b db :
  agrees_at now q b db -> deliverable (as_slice q) now db = envelope_row <$> bx_inbox (age now b).
Proof.
  intros Ha. rewrite <- (ag_inbox _ _ _ Ha). unfold deliverable, of_queue. simpl.
  rewrite list_filter_filter. apply list_filter_iff. intros x. rewrite Z.nle_gt. tauto.
Qed.

Section Loop.
Context (o : MailboxOwner) (now until : Z).
(** How the client opens an envelope is its own business. *)
Context (opens : VerifiedEnvelope -> OpenedMessage).
Context (Hopens : forall v, om_envelope (opens v) = v).
Context (Hnow : 0 <= now) (Hmax : now + TOMBSTONE_TTL_SECONDS <= I64_MAX).
Context (Huntil : now < until <= now + 5 * 60).

Abbreviation cap := (receiver_capability o).
Abbreviation q := (mo_queue_id o).

(** The loop, one drawn nonce per round; it fails when it runs out of them. *)
Fixpoint drain (nonces : list Nonce) : RelayM nat :=
  match nonces with
  | [] => sm_throw Storage
  | nonce :: nonces =>
      fetched ← fetch (authorize_fetch cap nonce until) now;
      match head fetched with
      | None => mret O
      | Some first =>
          verified ← sm_lift (verify_envelope cap first now);
          acknowledge (authorize_ack cap (opens verified) until) now;;
          n ← drain nonces;
          mret (S n)
      end
  end.

Lemma times_fit : now <= I64_MAX /\ until <= I64_MAX /\ until <= saturating_add now (5 * 60).
Proof.
  unfold TOMBSTONE_TTL_SECONDS in *. split; [lia|]. split; [lia|]. rewrite saturating_small; lia.
Qed.

Lemma representable_ok t : t <= I64_MAX -> representable t = Ok tt.
Proof. intros. unfold representable. by rewrite bool_decide_true. Qed.

Definition unspent (nonces : list Nonce) (b : Box) : Prop :=
  NoDup nonces /\ Forall (fun n => bx_spent (age now b) !! (Receiver, n) = None) nonces.

Lemma box_fetch_live nonce nonces b :
  sound o now (age now b) -> unspent (nonce :: nonces) b ->
  exists b', box_step (Fetch (authorize_fetch cap nonce until)) now b
      = Ok (Fetched (bx_inbox (age now b)), b') /\
    sound o now (age now b') /\ bx_inbox (age now b') = bx_inbox (age now b) /\ unspent nonces b'.
Proof.
  intros Hs [Hnd Hu]. apply NoDup_cons in Hnd as [Hn Hnd]. apply Forall_cons in Hu as [Hu1 Hu].
  destruct times_fit as (T1 & T2 & T3). set (r := authorize_fetch cap nonce until).
  assert (Hv : verify (public_key (mo_receive o)) (fetch_signing_bytes r) (fr_signature r) = true)
    by apply verify_sign.
  eexists. split; [|split; [|split]].
  - simpl. unfold box_fetch. rewrite validate_request_time_intro by (simpl; lia).
    cbn [mbind result_bind]. rewrite representable_ok by done. cbn [mbind result_bind].
    unfold box_key. rewrite (so_keys _ _ _ Hs). cbn [mbind result_bind ok_or mret result_ret k_receive].
    rewrite Hv. cbn [mbind result_bind result_guard].
    unfold spend. rewrite representable_ok by (simpl; lia). cbn [mbind result_bind].
    rewrite (bool_decide_true (_ = None)) by exact Hu1. reflexivity.
  - destruct Hs as [Hk Hd Hl]. split; [done|..]; cbn [bx_inbox age] in *; by rewrite filter_filter_other.
  - cbn [bx_inbox age]. by apply filter_filter_other.
  - split; [done|]. rewrite Forall_forall in Hu |- *. intros n Hin. cbn [bx_spent age].
    apply map_lookup_filter_None. left. rewrite lookup_insert_ne by (intros [= ->]; done). by apply Hu.
Qed.

Lemma sound_rest b b' e es :
  sound o now b -> bx_inbox b = e :: es -> bx_keys b' = bx_keys b -> bx_inbox b' = es ->
  sound o now b'.
Proof.
  intros [Hk Hd Hl] Hi Ek Ei. rewrite Hi in Hd, Hl. rewrite fmap_cons, NoDup_cons in Hd.
  apply Forall_cons in Hl as [_ Hl]. destruct Hd as [_ Hd].
  split; [by rewrite Ek|by rewrite Ei|by rewrite Ei].
Qed.

Lemma box_ack_first b e es v nonces :
  sound o now (age now b) -> bx_inbox (age now b) = e :: es -> unspent nonces b ->
  verify_envelope cap e now = Ok v ->
  exists b', box_step (Acknowledge (authorize_ack cap (opens v) until)) now b
      = Ok (Acknowledged Deleted, b') /\
    sound o now (age now b') /\ bx_inbox (age now b') = es /\ unspent nonces b'.
Proof.
  intros Hs Hi Hu Hv. destruct times_fit as (T1 & T2 & T3).
  destruct (verify_envelope_spec cap e now) as [(v' & Ev & _ & _ & _ & Evv)|[Ev _]];
    rewrite Ev in Hv; [injection Hv as <-; subst v'|done].
  set (v := mkVerified _ _ _ _). set (r := authorize_ack cap (opens v) until).
  assert (Hsig : verify (public_key (mo_receive o)) (ack_signing_bytes r) (ar_signature r) = true)
    by apply verify_sign.
  assert (Hid : ar_message_id r = se_message_id e) by (simpl; by rewrite Hopens).
  assert (Hh : ar_packet_hash r = packet_digest (se_packet e)) by (simpl; by rewrite Hopens).
  assert (Hrest : filter (fun x => se_message_id x <> se_message_id e) (e :: es) = es).
  { rewrite filter_cons_False by auto. apply filter_all. intros x Hx Ex.
    pose proof (so_distinct _ _ _ Hs) as Hd. rewrite Hi, fmap_cons, NoDup_cons in Hd.
    destruct Hd as [Hd _]. apply Hd. rewrite <- Ex. by apply list_elem_of_fmap_2. }
  assert (Hlive : filter (fun x => ~ se_expires_at x <= now) es = es).
  { apply filter_all. intros x Hx. pose proof (so_live _ _ _ Hs) as Hl.
    rewrite Hi, Forall_cons, !Forall_forall in Hl. destruct Hl as [_ Hl].
    specialize (Hl x Hx). lia. }
  eexists. split; [|split; [|split]].
  - simpl. unfold box_acknowledge. rewrite validate_request_time_intro by (simpl; lia).
    cbn [mbind result_bind]. rewrite (representable_ok now) by done. cbn [mbind result_bind].
    unfold box_key. rewrite (so_keys _ _ _ Hs). cbn [mbind result_bind ok_or mret result_ret k_receive].
    rewrite Hsig. cbn [mbind result_bind result_guard]. unfold waiting. rewrite Hi, Hid. cbn [list_find].
    rewrite decide_True by done. cbn [fmap option_fmap option_map snd].
    rewrite Hh, (bool_decide_true (_ = _)) by done. cbn [mbind result_bind result_guard].
    rewrite representable_ok by (rewrite saturating_small; lia). cbn [mbind result_bind].
    rewrite Hrest. reflexivity.
  - apply (sound_rest _ _ _ _ Hs Hi); [symmetry; apply Hs|done].
  - done.
  - destruct Hu as [Hnd Hu]. split; [done|]. rewrite Forall_forall in Hu |- *. intros n Hin.
    cbn [bx_spent age]. apply map_lookup_filter_None. left. by apply Hu.
Qed.

Lemma fetch_of_exec r s es s' : exec (Fetch r) now s = (Ok (Fetched es), s') -> fetch r now s = (Ok es, s').
Proof.
  unfold exec, mbind, SM_bind, mret, SM_ret. destruct (fetch r now s) as [[es'|e] s1]; [|done]. by intros [= -> ->].
Qed.

Lemma ack_of_exec r s a s' :
  exec (Acknowledge r) now s = (Ok (Acknowledged a), s') -> acknowledge r now s = (Ok a, s').
Proof.
  unfold exec, mbind, SM_bind, mret, SM_ret. destruct (acknowledge r now s) as [[a'|e] s1]; [|done]. by intros [= -> ->].
Qed.

Lemma sound_verifies b e es :
  sound o now b -> bx_inbox b = e :: es -> exists v, verify_envelope cap e now = Ok v.
Proof.
  intros Hs Hi. pose proof (so_live _ _ _ Hs) as Hl. rewrite Hi, Forall_cons in Hl.
  destruct Hl as [(Ht & Hq & Hv) _].
  destruct (verify_envelope_spec cap e now) as [(v & Ev & _)|[_ [|[|Hbad]]]]; [by exists v|done|lia|].
  simpl in Hbad. congruence.
Qed.

Lemma fetch_queue nonce : command_queue (Fetch (authorize_fetch cap nonce until)) = Some q.
Proof. done. Qed.

(** One round fetches and removes the first envelope; the rest follows by induction. *)
Lemma drain_empties es : forall nonces b db ev,
  sound o now (age now b) -> bx_inbox (age now b) = es -> unspent nonces b ->
  agrees_at now q b db -> (length es < length nonces)%nat ->
  exists b' db' ev', drain nonces (at_rest db ev) = (Ok (length es), at_rest db' ev') /\
    agrees_at now q b' db' /\ bx_inbox (age now b') = [].
Proof.
  induction es as [|e es IH]; intros [|nonce nonces] b db ev Hs Hi Hu Ha Hlen; simpl in Hlen; try lia;
    destruct (box_fetch_live nonce nonces b Hs Hu) as (b1 & E1 & Hs1 & Hi1 & Hu1);
    destruct (exec_box q _ _ _ _ ev _ _ Hnow (fetch_queue nonce) Ha E1) as (db1 & ev1 & X1%fetch_of_exec & Ha1);
    cbn [drain]; unfold mbind, SM_bind; rewrite X1, Hi; cbn [head].
  { exists b1, db1, ev1. by rewrite Hi1. }
  rewrite Hi in Hi1. apply Nat.succ_lt_mono in Hlen. destruct (sound_verifies _ _ _ Hs1 Hi1) as [v Hv].
  assert (Hq : command_queue (Acknowledge (authorize_ack cap (opens v) until)) = Some q) by done.
  destruct (box_ack_first b1 e es v nonces Hs1 Hi1 Hu1 Hv) as (b2 & E2 & Hs2 & Hi2 & Hu2).
  destruct (exec_box q _ _ _ _ ev1 _ _ Hnow Hq Ha1 E2) as (db2 & ev2 & X2%ack_of_exec & Ha2).
  destruct (IH nonces b2 db2 ev2 Hs2 Hi2 Hu2 Ha2 Hlen) as (b3 & db3 & ev3 & X3 & Ha3 & Hi3).
  exists b3, db3, ev3. split; [|done]. rewrite Hv. unfold sm_lift.
  rewrite X2. by rewrite X3.
Qed.

End Loop.

(** C10. Reading a mailbox to the end terminates. On any relay reached by a run, the owner of a
    registered mailbox who keeps fetching, verifying and acknowledging the first envelope needs
    at most one round per live message and a last one that finds nothing: with more drawn nonces
    than there are live messages, the loop returns their number, no step of it fails, and nothing
    is left for that mailbox. The nonces are distinct and not yet spent, the requests are within
    their window, and however the client opens envelopes, it opens the one it verified. *)
Theorem mailbox_drains ks t o mb now until nonces opens :
  let s := snd (run ks fresh_relay) in
  let db := disk (connection s) in
  0 <= t -> clocked t ks ->
  Forall (fun k => digest_apart (mo_queue_id o) (call_command k)) ks ->
  mailboxes db !! as_slice (mo_queue_id o) = Some mb -> owned_by o mb ->
  last_clock t ks <= now -> now + TOMBSTONE_TTL_SECONDS <= I64_MAX ->
  now < until <= now + 5 * 60 ->
  (forall v, om_envelope (opens v) = v) ->
  NoDup nonces ->
  Forall (fun n : Nonce => request_nonces db
    !! (as_slice (mo_queue_id o), "receive"%string, as_slice n) = None) nonces ->
  (length (deliverable (as_slice (mo_queue_id o)) now db) < length nonces)%nat ->
  exists s', drain o now until opens nonces (load [] s)
      = (Ok (length (deliverable (as_slice (mo_queue_id o)) now db)), s') /\
    deliverable (as_slice (mo_queue_id o)) now (disk (connection s')) = [].
Proof.
  intros s db H0 Hc Hd Hmb Hown Hnow Hmax Huntil Hopens Hnd Hfresh Hlen.
  assert (H1 : 0 <= now) by (pose proof (last_clock_later ks t Hc); lia).
  destruct (run_wf ks t fresh_relay) as [Hi Hwf]; [done..|apply wf_empty|].
  pose proof (run_agrees ks t fresh_relay (mo_queue_id o) empty_box H0 Hc eq_refl Hd
    (agrees_age _ _ _ _ (agrees_empty _))) as Hr.
  rewrite (surjective_pairing (run ks fresh_relay)) in Hr. destruct Hr as (b & _ & Ha).
  apply (agrees_at_later _ now) in Ha; [|done]. fold s db in Hi, Hwf, Ha.
  rewrite (inbox_deliverable (mo_queue_id o) now b db Ha), length_fmap in *.
  destruct (drain_empties o now until opens Hopens H1 Hmax Huntil
    (bx_inbox (age now b)) nonces b db (audit_events s)) as (b' & db' & ev' & Hdr & Ha' & Hi'); try done.
  - by apply (sound_agrees o now b db mb).
  - split; [done|]. rewrite Forall_forall in Hfresh |- *. intros n Hn.
    rewrite <- (ag_spent _ _ _ Ha Receiver n). apply map_lookup_filter_None. left. by apply Hfresh.
  - exists (at_rest db' ev'). rewrite <- Hdr. split; [by rewrite load_idle|].
    change (disk (connection (at_rest db' ev'))) with db'.
    by rewrite (inbox_deliverable (mo_queue_id o) now b' db' Ha'), Hi'.
Qed.

End Drain.
