(* ===== verification/RelayPersist.v ===== *)
(** * Retrying calls on an unreliable, busy relay

    A caller that does not give up: it repeats a command until the relay accepts it. Before every
    attempt other callers may have used the relay, on mailboxes of their own, and any call into
    [SQLite] may fail during an attempt, with or without the attempt's effect. Stated on the
    abstract mailboxes of [RelaySpec]: what a send, a fetch and an acknowledgement do to a box
    that holds nothing, or one message, whether or not an earlier attempt took effect. *)

From S2P Require Import Prelude Core Capability Sqlite RelayDb Relay.
From S2P Require Import RelayFacts RelayTx RelayInv RelayTrace ToyCrypto RelayTheorems.
From S2P Require Import RelayDelivery RelayRetry RelayRuns RelayExchange RelaySpec RelayBoxes.
From S2P Require Import RelayDrain.

#[local] Open Scope Z_scope.

Section Persist.
Context `{Crypto : CryptoOps} {Laws : CryptoLaws}.

(** ** Attempts *)

(** What others call first, when the attempt is made, and which calls into [SQLite] fail. *)
Record Attempt : Type := mkAttempt {
  at_others : list Call;
  at_now : Z;
  at_faults : list io;
}.

Fixpoint tries (l : list (Attempt * Command)) : RelayM Reply := fun s =>
  match l with
  | [] => (Err Storage, s)
  | (a, c) :: l =>
      match perform (mkCall c (at_now a) (at_faults a)) (snd (run (at_others a) s)) with
      | (Ok v, s1) => (Ok v, s1)
      | (Err _, s1) => tries l s1
      end
  end.

(** The clock never goes back. *)
Fixpoint timed (t : Z) (l : list Attempt) : Prop :=
  match l with
  | [] => True
  | a :: l => clocked t (at_others a) /\ last_clock t (at_others a) <= at_now a /\ timed (at_now a) l
  end.

Fixpoint ends (t : Z) (l : list Attempt) : Z :=
  match l with
  | [] => t
  | a :: l => ends (at_now a) l
  end.

(** The last attempt meets no failure. *)
Definition reliable (l : list Attempt) : Prop := exists a, last l = Some a /\ at_faults a = [].

(** The calls of the others are on queues whose locators do not collide with [q]. *)
Definition elsewhere (q : QueueId) (k : Call) : Prop := forall q',
  command_queue (call_command k) = Some q' -> digest (as_slice q') <> digest (as_slice q).

Lemma ends_later l : forall t, timed t l -> t <= ends t l.
Proof.
  induction l as [|a l IH]; intros t; simpl; [lia|]. intros (Hc & Ha & Hl).
  apply last_clock_later in Hc. apply IH in Hl. lia.
Qed.

Lemma elsewhere_apart q k :
  elsewhere q k -> command_queue (call_command k) <> Some q /\ digest_apart q (call_command k).
Proof.
  intros He. split.
  - intros E. by apply He in E.
  - intros q' E Ed. by destruct (He q' E).
Qed.

Lemma run_elsewhere ks : forall t s q b,
  clocked t ks -> idle s -> Forall (elsewhere q) ks -> agrees_at t q b (disk (connection s)) ->
  idle (snd (run ks s)) /\ agrees_at (last_clock t ks) q b (disk (connection (snd (run ks s)))).
Proof.
  induction ks as [|k ks IH]; intros t s q b Hc Hi He Ha; [done|].
  destruct Hc as [Ht Hc]. apply Forall_cons in He as [Hk He]. apply elsewhere_apart in Hk as [Hq Hd].
  destruct (perform_apart k s q b t) as [Hi1 Ha1]; [lia|done..|].
  simpl. destruct (perform k s) as [r s1]. simpl in *.
  destruct (IH (call_now k) s1 q b) as [Hi2 Ha2]; [done..|].
  by destruct (run ks s1).
Qed.

(** A command on its mailbox whose step succeeds: the reply with its effect, or [Storage] with
    or without it, and that only if something failed. *)
Lemma perform_step c t fs s q b v b' :
  0 <= t -> idle s -> command_queue c = Some q -> agrees_at t q b (disk (connection s)) ->
  box_step c t b = Ok (v, b') ->
  let '(r, s') := perform (mkCall c t fs) s in
  idle s' /\
  (r = Ok v /\ agrees_at t q b' (disk (connection s')) \/
   fs <> [] /\ r = Err Storage /\ (agrees_at t q b (disk (connection s')) \/
                         agrees_at t q b' (disk (connection s')))).
Proof.
  intros H0 Hi Hq Ha Hb. pose proof (step_corresponds q c t b _ H0 Hq Ha) as Hc. rewrite Hb in Hc.
  pose proof (perform_cases (mkCall c t fs) s Hi) as Ho. destruct (perform _ s) as [r s'].
  destruct Ho as [Hi' Ho]. split; [done|]. simpl in Ho. unfold corresponds in Hc.
  destruct Ho as [(v' & e & -> & E)|[(e & -> & E & _)|(Hf & -> & [->|(v' & e & E)])]];
    try rewrite E in Hc; try done.
  - left. destruct Hc as [-> Hc]. split; [done|]. by apply agrees_age.
  - right. auto.
  - right. destruct Hc as [_ Hc]. split; [done|]. split; [done|]. right. by apply agrees_age.
Qed.

(** ** Retrying until it works *)

Section Tries.
(** The mailbox of the commands and another one. *)
Context (q q2 : QueueId) (Hapart : digest (as_slice q) <> digest (as_slice q2)).
(** What is known of the box before the remaining attempts, and after the one that succeeds. *)
Context (before : Z -> list (Attempt * Command) -> Box -> Prop) (after : Reply -> Z -> Box -> Prop).
Context (limit : Z).
Context (Hstep : forall t a c l b, before t ((a, c) :: l) b -> t <= at_now a <= limit ->
  exists v b', box_step c (at_now a) b = Ok (v, b') /\ after v (at_now a) b' /\
    before (at_now a) l b /\ before (at_now a) l b').

Lemma tries_succeed l : forall t b b2 s,
  before t l b -> 0 <= t -> idle s -> timed t (fst <$> l) -> ends t (fst <$> l) <= limit ->
  reliable (fst <$> l) ->
  Forall (fun x => command_queue (snd x) = Some q /\
    Forall (fun k => elsewhere q k /\ elsewhere q2 k) (at_others (fst x))) l ->
  agrees_at t q b (disk (connection s)) -> agrees_at t q2 b2 (disk (connection s)) ->
  exists v s' t' b', tries l s = (Ok v, s') /\ idle s' /\ t <= t' <= ends t (fst <$> l) /\
    after v t' b' /\ agrees_at t' q b' (disk (connection s')) /\
    agrees_at t' q2 b2 (disk (connection s')).
Proof.
  induction l as [|[a c] l IH]; intros t b b2 s Hbf H0 Hi Ht Hlim Hrel Hall Ha Ha2.
  { by destruct Hrel as (? & [=] & _). }
  rewrite fmap_cons in *. simpl in Ht, Hlim. destruct Ht as (Hc & Hn & Ht).
  apply Forall_cons in Hall as [[Hq Hoth] Hall]. simpl in Hq, Hoth.
  pose proof (last_clock_later _ _ Hc) as Hle. pose proof (ends_later _ _ Ht) as Hend.
  apply Forall_and in Hoth as [Ho1 Ho2].
  destruct (run_elsewhere _ _ _ _ _ Hc Hi Ho1 Ha) as [Hi1 Ha1].
  destruct (run_elsewhere _ _ _ _ _ Hc Hi Ho2 Ha2) as [_ Ha21].
  apply (agrees_at_later _ (at_now a)) in Ha1, Ha21; [|done..].
  destruct (Hstep t a c l b Hbf ltac:(lia)) as (v & b' & Hb & Haf & Hb1 & Hb2).
  pose proof (perform_step c (at_now a) (at_faults a) (snd (run (at_others a) s)) q b v b'
    ltac:(lia) Hi1 Hq Ha1 Hb) as Hp.
  assert (Hne : command_queue c <> Some q2) by (rewrite Hq; intros [= ->]; done).
  assert (Hda : digest_apart q2 c) by (intros q' Eq Ed; rewrite Hq in Eq; by injection Eq as <-).
  destruct (perform_apart (mkCall c (at_now a) (at_faults a)) (snd (run (at_others a) s)) q2 b2
    (at_now a)) as [_ Ha22]; [done..|].
  cbn [tries fst ends]. destruct (perform _ _) as [r s1]. simpl in Ha22.
  destruct Hp as [Hi2 [[-> Hb3]|(Hf & -> & Hcase)]].
  { exists v, s1, (at_now a), b'. split_and!; try done. lia. }
  assert (Hrel' : reliable (fst <$> l)).
  { destruct Hrel as (a' & Hl & Hf'). destruct l as [|x l]; [by injection Hl as ->|].
    exists a'. by rewrite fmap_cons in *. }
  assert (exists b0, before (at_now a) l b0 /\ agrees_at (at_now a) q b0 (disk (connection s1)))
    as (b0 & Hb0 & Hd) by (destruct Hcase; eauto).
  destruct (IH (at_now a) b0 b2 s1) as (v' & s' & t' & b'' & E & Hi' & Ht' & H); try done; [lia|].
  exists v', s', t', b''. split; [done|]. split; [done|]. split; [lia|done].
Qed.

End Tries.

(** ** One message through a box *)

Section Message.
Context (o : MailboxOwner).

Abbreviation cap := (receiver_capability o).
Abbreviation q := (mo_queue_id o).

(** The box is the owner's and holds [content] at [t]; it has not seen the identifiers and the
    fetch nonces. *)
Record ready (ids : list MessageId) (nonces : list Nonce) (t : Z) (content : list StoredEnvelope)
    (b : Box) : Prop := {
  rd_keys : bx_keys b = Some (mkKeys (public_key (mo_send o)) (public_key (mo_receive o))
                                (public_key (mo_manage o)));
  rd_inbox : bx_inbox (age t b) = content;
  rd_ids m : m ∈ ids -> bx_buried (age t b) !! m = None;
  rd_nonces n : n ∈ nonces -> bx_spent (age t b) !! (Receiver, n) = None;
}.

Lemma ready_sub ids nonces ids' nonces' t content b :
  ready ids nonces t content b -> ids' ⊆ ids -> nonces' ⊆ nonces -> ready ids' nonces' t content b.
Proof. intros [Hk Hi Hm Hn] H1 H2. split; eauto. Qed.

Lemma ready_later ids nonces t u content b :
  ready ids nonces t content b -> t <= u -> Forall (fun e => u < se_expires_at e) content ->
  ready ids nonces u content b.
Proof.
  intros [Hk Hi Hm Hn] Htu Hc. rewrite Forall_forall in Hc. split; [done|..]; rewrite <- (age_age t u) by done.
  - cbn [age bx_inbox]. cbn [age bx_inbox] in Hi. rewrite Hi. apply filter_all.
    intros e He. specialize (Hc e He). lia.
  - intros m Hin. apply map_lookup_filter_None. left. by apply Hm.
  - intros n Hin. apply map_lookup_filter_None. left. by apply Hn.
Qed.

Lemma ready_intro ids nonces t content b :
  bx_keys b = Some (mkKeys (public_key (mo_send o)) (public_key (mo_receive o))
                      (public_key (mo_manage o))) ->
  bx_inbox b = content -> Forall (fun e => t < se_expires_at e) content ->
  (forall m, m ∈ ids -> bx_buried b !! m = None) ->
  (forall n, n ∈ nonces -> bx_spent b !! (Receiver, n) = None) ->
  ready ids nonces t content b.
Proof.
  intros Hk Hi Hc Hm Hn. rewrite Forall_forall in Hc. split; [done|..].
  - cbn [age bx_inbox]. rewrite Hi. apply filter_all. intros e He. specialize (Hc e He). lia.
  - intros m Hin. apply map_lookup_filter_None. left. by apply Hm.
  - intros n Hin. apply map_lookup_filter_None. left. by apply Hn.
Qed.

Context (mid : MessageId) (pkt : EncryptedPacket) (expires_at : Z).

Abbreviation request := (authorize (sender_capability o) mid pkt expires_at).
Abbreviation env := (delivered o mid pkt expires_at).

Lemma env_live t : t < expires_at -> Forall (fun e => t < se_expires_at e) [env].
Proof. intros. by constructor. Qed.

(** Sending, whether or not an earlier attempt stored the message. *)
Lemma box_sends ids nonces t content b :
  0 < Z.of_nat (length (packet_bytes pkt)) <= MAX_PACKET_BYTES ->
  ready (mid :: ids) nonces t content b -> content = [] \/ content = [env] ->
  t < expires_at <= t + MAX_MESSAGE_TTL_SECONDS -> t + MAX_MESSAGE_TTL_SECONDS <= I64_MAX ->
  exists v b', box_step (Enqueue request) t b = Ok (Enqueued v, b') /\
    ready (mid :: ids) nonces t [env] b'.
Proof.
  intros Hsize [Hk Hi Hm Hn] Hc He Hmax. unfold MAX_MESSAGE_TTL_SECONDS in *.
  assert (Hv : verify (public_key (mo_send o)) (send_request_signing_bytes request)
    (sr_signature request) = true) by apply verify_sign.
  assert (Hp : packet_bytes pkt <> []) by (intros E; rewrite E in Hsize; simpl in Hsize; lia).
  assert (Hg : negb (bool_decide (packet_bytes pkt = []) ||
    (MAX_PACKET_BYTES <? Z.of_nat (length (packet_bytes pkt)))) = true).
  { rewrite bool_decide_false by done. simpl. apply negb_true_iff, Z.ltb_ge. lia. }
  assert (Hx : validate_message_expiry expires_at t = Ok tt).
  { apply validate_message_expiry_intro. unfold MAX_MESSAGE_TTL_SECONDS.
    rewrite saturating_small; lia. }
  cbn [box_step]. unfold box_enqueue. cbn [sr_packet sr_expires_at sr_message_id authorize].
  rewrite Hg, Hx. cbn [result_guard mbind result_bind mret result_ret].
  rewrite !representable_ok by lia. cbn [mbind result_bind].
  unfold box_key. cbn [bx_keys age]. rewrite Hk. cbn [mbind result_bind ok_or mret result_ret k_send].
  rewrite Hv. cbn [mbind result_bind result_guard].
  rewrite (bool_decide_true (_ = None)) by (apply Hm; by left).
  cbn [mbind result_bind result_guard]. unfold waiting. rewrite Hi. destruct Hc as [-> | ->].
  - eexists _, _. split; [reflexivity|]. apply ready_intro; [done..|apply env_live; lia|done|done].
  - cbn [list_find se_message_id delivered]. rewrite decide_True by done.
    cbn [fmap option_fmap option_map snd se_packet se_expires_at delivered].
    rewrite (bool_decide_true (pkt = pkt)), Z.eqb_refl by done.
    eexists _, _. split; [reflexivity|]. apply ready_intro; [done..|apply env_live; lia|done|done].
Qed.

(** Fetching, with a nonce that is spent afterwards. *)
Lemma box_fetches ids n nonces t content b :
  ready ids (n :: nonces) t content b -> n ∉ nonces -> 0 <= t -> t + 5 * 60 <= I64_MAX ->
  Forall (fun e => t < se_expires_at e) content ->
  exists b', box_step (Fetch (authorize_fetch cap n (t + 60))) t b = Ok (Fetched content, b') /\
    ready ids nonces t content b'.
Proof.
  intros [Hk Hi Hm Hn] Hnin H0 Hmax Hl. set (r := authorize_fetch cap n (t + 60)).
  assert (Hv : verify (public_key (mo_receive o)) (fetch_signing_bytes r) (fr_signature r) = true)
    by apply verify_sign.
  cbn [box_step]. unfold box_fetch.
  rewrite validate_request_time_intro by (simpl; rewrite saturating_small; lia).
  cbn [mbind result_bind]. rewrite representable_ok by lia. cbn [mbind result_bind].
  unfold box_key. cbn [bx_keys age]. rewrite Hk.
  cbn [mbind result_bind ok_or mret result_ret k_receive]. rewrite Hv. cbn [mbind result_bind result_guard].
  unfold spend. rewrite representable_ok by (simpl; lia). cbn [mbind result_bind].
  rewrite (bool_decide_true (_ = None)) by (apply Hn; by left).
  eexists. split; [by rewrite <- Hi|]. apply ready_intro; try done.
  intros n' Hin. cbn [bx_spent]. rewrite lookup_insert_ne by (intros [= ->]; done).
  apply Hn. by right.
Qed.

(** The message has been acknowledged: it is gone, and buried until after [limit]. *)
Definition interred (limit t : Z) (b : Box) : Prop :=
  exists d, bx_buried (age t b) !! mid = Some d /\ limit < d.

Lemma interred_later limit t u b :
  interred limit t b -> t <= u <= limit -> interred limit u b.
Proof.
  intros (d & Hd & Hl) Hu. exists d. split; [|done]. rewrite <- (age_age t u) by lia.
  apply map_lookup_filter_Some. split; [done|]. simpl. lia.
Qed.

(** Acknowledging, whether or not an earlier attempt removed the message. *)
Lemma box_acknowledges ids nonces t limit content b opened :
  om_envelope opened = mkVerified q mid pkt expires_at -> mid ∉ ids ->
  ready ids nonces t content b -> content = [env] \/ content = [] /\ interred limit t b ->
  0 <= t <= limit -> limit < t + TOMBSTONE_TTL_SECONDS -> t + TOMBSTONE_TTL_SECONDS <= I64_MAX ->
  exists v b', box_step (Acknowledge (authorize_ack cap opened (t + 60))) t b
      = Ok (Acknowledged v, b') /\
    ready ids nonces t [] b' /\ interred limit t b'.
Proof.
  intros Eo Hnin [Hk Hi Hm Hn] Hc H0 Hlim Hmax. set (r := authorize_ack cap opened (t + 60)).
  assert (Hv : verify (public_key (mo_receive o)) (ack_signing_bytes r) (ar_signature r) = true)
    by apply verify_sign.
  assert (Hid : ar_message_id r = mid) by (simpl; by rewrite Eo).
  assert (Hh : ar_packet_hash r = packet_digest pkt) by (simpl; by rewrite Eo).
  cbn [box_step]. unfold box_acknowledge. unfold TOMBSTONE_TTL_SECONDS in *.
  rewrite validate_request_time_intro by (simpl; rewrite saturating_small; lia).
  cbn [mbind result_bind]. rewrite !representable_ok by (rewrite ?saturating_small; lia).
  cbn [mbind result_bind]. unfold box_key. cbn [bx_keys age]. rewrite Hk.
  cbn [mbind result_bind ok_or mret result_ret k_receive]. rewrite Hv. cbn [mbind result_bind result_guard].
  unfold waiting. rewrite Hi, Hid, Hh. destruct Hc as [-> |[-> (d & Hd & Hld)]].
  - cbn [list_find se_message_id delivered]. rewrite decide_True by done.
    cbn [fmap option_fmap option_map snd se_packet delivered].
    rewrite (bool_decide_true (_ = _)) by done. eexists _, _. split; [reflexivity|].
    rewrite saturating_small by lia. split.
    + apply ready_intro; try done; [cbn [bx_inbox]; by rewrite filter_cons_False by auto|].
      intros m Hin. cbn [bx_buried]. rewrite lookup_insert_ne by (by intros ->). by apply Hm.
    + exists (t + 7 * 24 * 60 * 60). split; [|lia]. cbn [age bx_buried].
      apply map_lookup_filter_Some. split; [apply lookup_insert_eq|simpl; lia].
  - cbn [list_find fmap option_fmap option_map]. rewrite (bool_decide_true (is_Some _)) by by exists d.
    eexists _, _. split; [reflexivity|]. split; [by apply ready_intro|].
    exists d. split; [|done]. by rewrite (age_age t t).
Qed.

(** *** With retries *)

(** The other mailbox, and the end of the exchange. *)
Context (q2 : QueueId) (Hapart : digest (as_slice q) <> digest (as_slice q2)) (limit : Z).
Context (Hlimit : limit < expires_at) (Hmax : limit + TOMBSTONE_TTL_SECONDS <= I64_MAX).

(** The attempts are in time, the last one works, and the others are elsewhere. *)
Record attempts (t : Z) (l : list Attempt) : Prop := {
  am_timed : timed t l;
  am_ends : ends t l <= limit;
  am_reliable : reliable l;
  am_others : Forall (fun a => Forall (fun k => elsewhere q k /\ elsewhere q2 k) (at_others a)) l;
}.

Definition sending (l : list Attempt) : list (Attempt * Command) :=
  (fun a => (a, Enqueue request)) <$> l.

Definition fetching (l : list (Nonce * Attempt)) : list (Attempt * Command) :=
  (fun x => (snd x, Fetch (authorize_fetch cap (fst x) (at_now (snd x) + 60)))) <$> l.

Definition acknowledging (opened : OpenedMessage) (l : list Attempt) : list (Attempt * Command) :=
  (fun a => (a, Acknowledge (authorize_ack cap opened (at_now a + 60)))) <$> l.

(** All attempts are for this mailbox. *)
Lemma attempts_all {X} (f : X -> Attempt) (g : X -> Command) t (l : list X) :
  attempts t (f <$> l) -> (forall x, command_queue (g x) = Some q) ->
  let l' := (fun x => (f x, g x)) <$> l in
  fst <$> l' = f <$> l /\
  Forall (fun x => command_queue (snd x) = Some q /\
    Forall (fun k => elsewhere q k /\ elsewhere q2 k) (at_others (fst x))) l'.
Proof.
  intros [_ _ _ Ho] Hg l'. unfold l'. split; [by rewrite <- list_fmap_compose|].
  apply Forall_forall. intros x (y & -> & Hy)%list_elem_of_fmap. split; [apply Hg|].
  apply (proj1 (Forall_forall _ _) Ho (f y)). by apply list_elem_of_fmap_2.
Qed.

Lemma send_persists ids nonces t l b b2 s :
  0 < Z.of_nat (length (packet_bytes pkt)) <= MAX_PACKET_BYTES ->
  attempts t l -> 0 <= t -> idle s -> expires_at <= t + MAX_MESSAGE_TTL_SECONDS ->
  ready (mid :: ids) nonces t [] b ->
  agrees_at t q b (disk (connection s)) -> agrees_at t q2 b2 (disk (connection s)) ->
  exists v s' t' b', tries (sending l) s = (Ok (Enqueued v), s') /\ idle s' /\ t <= t' <= ends t l /\
    ready (mid :: ids) nonces t' [env] b' /\ agrees_at t' q b' (disk (connection s')) /\
    agrees_at t' q2 b2 (disk (connection s')).
Proof.
  intros Hsize Hl H0 Hi Hexp Hr Ha Ha2.
  destruct (attempts_all id (fun _ => Enqueue request) t l) as [El Hall];
    [by rewrite list_fmap_id|done|]. rewrite list_fmap_id in El.
  change ((fun x => (id x, Enqueue request)) <$> l) with (sending l) in El, Hall.
  destruct (tries_succeed q q2 Hapart
    (fun u l b => t <= u /\ (exists l0, l = sending l0) /\
       exists content, ready (mid :: ids) nonces u content b /\ (content = [] \/ content = [env]))
    (fun v u b => (exists o, v = Enqueued o) /\ ready (mid :: ids) nonces u [env] b) limit)
    with (l := sending l) (t := t) (b := b) (b2 := b2) (s := s)
    as (v & s' & t' & b' & E & Hi' & Ht' & [[o' ->] Hr'] & H); rewrite ?El; try done; try apply Hl.
  - intros u a c l1 b1 (Hu & ([|a' l0] & [=]) & content & Hr1 & Hc) Hua. subst a' c l1.
    assert (Hlate : ready (mid :: ids) nonces (at_now a) content b1).
    { apply (ready_later _ _ u); [done|lia|]. destruct Hc as [-> | ->]; [done|apply env_live; lia]. }
    unfold MAX_MESSAGE_TTL_SECONDS, TOMBSTONE_TTL_SECONDS in *.
    destruct (box_sends ids nonces (at_now a) content b1 Hsize Hlate Hc) as (o' & b' & E & Hr');
      unfold MAX_MESSAGE_TTL_SECONDS; [lia..|].
    exists (Enqueued o'), b'. split; [done|]. split; [by eauto|].
    split; (split; [lia|]; split; [by exists l0|]); eauto.
  - split; [lia|]. split; [by exists l|]. eauto.
  - rewrite El in Ht'. by exists o', s', t', b'.
Qed.

Lemma fetch_persists ids nonces t l b b2 s :
  attempts t (snd <$> l) -> 0 <= t -> idle s -> NoDup ((fst <$> l) ++ nonces) ->
  ready ids ((fst <$> l) ++ nonces) t [env] b ->
  agrees_at t q b (disk (connection s)) -> agrees_at t q2 b2 (disk (connection s)) ->
  exists s' t' b', tries (fetching l) s = (Ok (Fetched [env]), s') /\ idle s' /\
    t <= t' <= ends t (snd <$> l) /\
    ready ids nonces t' [env] b' /\ agrees_at t' q b' (disk (connection s')) /\
    agrees_at t' q2 b2 (disk (connection s')).
Proof.
  intros Hl H0 Hi Hnd Hr Ha Ha2.
  destruct (attempts_all snd
    (fun x => Fetch (authorize_fetch cap (fst x) (at_now (snd x) + 60))) t l Hl ltac:(done)) as [El Hall].
  fold (fetching l) in El, Hall.
  destruct (tries_succeed q q2 Hapart
    (fun u l b => t <= u /\ exists l0, l = fetching l0 /\ NoDup ((fst <$> l0) ++ nonces) /\
       ready ids ((fst <$> l0) ++ nonces) u [env] b)
    (fun v u b => v = Fetched [env] /\ ready ids nonces u [env] b) limit)
    with (l := fetching l) (t := t) (b := b) (b2 := b2) (s := s)
    as (v & s' & t' & b' & E & Hi' & Ht' & [-> Hr'] & H); rewrite ?El; try done; try apply Hl.
  - intros u a c l1 b1 (Hu & [|[n a'] l0] & [=] & Hnd1 & Hr1) Hua. subst a c l1. simpl in *.
    apply NoDup_cons in Hnd1 as [Hnin Hnd1]. unfold TOMBSTONE_TTL_SECONDS in *.
    assert (Hlate : ready ids (n :: (fst <$> l0) ++ nonces) (at_now a') [env] b1).
    { apply (ready_later _ _ u); [done|lia|apply env_live; lia]. }
    destruct (box_fetches ids n _ (at_now a') [env] b1 Hlate Hnin) as (b' & E & Hr');
      [lia|lia|apply env_live; lia|].
    exists (Fetched [env]), b'. split; [done|].
    split; [split; [done|]; eapply ready_sub; [exact Hr'|done|set_solver]|].
    split; (split; [lia|]; exists l0; split; [done|]; split; [done|]); [|done].
    eapply ready_sub; [exact Hlate|done|set_solver].
  - split; [lia|]. by exists l.
  - rewrite El in Ht'. by exists s', t', b'.
Qed.

Lemma ack_persists ids nonces opened t l b b2 s :
  om_envelope opened = mkVerified q mid pkt expires_at -> mid ∉ ids ->
  attempts t l -> 0 <= t -> idle s -> limit < t + TOMBSTONE_TTL_SECONDS ->
  ready ids nonces t [env] b ->
  agrees_at t q b (disk (connection s)) -> agrees_at t q2 b2 (disk (connection s)) ->
  exists v s' t' b', tries (acknowledging opened l) s = (Ok (Acknowledged v), s') /\ idle s' /\
    t <= t' <= ends t l /\
    ready ids nonces t' [] b' /\ agrees_at t' q b' (disk (connection s')) /\
    agrees_at t' q2 b2 (disk (connection s')).
Proof.
  intros Eo Hnin Hl H0 Hi Hlong Hr Ha Ha2.
  destruct (attempts_all id
    (fun a => Acknowledge (authorize_ack cap opened (at_now a + 60))) t l) as [El Hall];
    [by rewrite list_fmap_id|intros; simpl; by rewrite ?Eo|]. rewrite list_fmap_id in El.
  change ((fun x => (id x, Acknowledge (authorize_ack cap opened (at_now x + 60)))) <$> l)
    with (acknowledging opened l) in El, Hall.
  destruct (tries_succeed q q2 Hapart
    (fun u l b => t <= u /\ (exists l0, l = acknowledging opened l0) /\ exists content,
       ready ids nonces u content b /\ (content = [env] \/ content = [] /\ interred limit u b))
    (fun v u b => (exists o, v = Acknowledged o) /\ ready ids nonces u [] b) limit)
    with (l := acknowledging opened l) (t := t) (b := b) (b2 := b2) (s := s)
    as (v & s' & t' & b' & E & Hi' & Ht' & [[o' ->] Hr'] & H); rewrite ?El; try done; try apply Hl.
  - intros u a c l1 b1 (Hu & ([|a' l0] & [=]) & content & Hr1 & Hc) Hua. subst a' c l1.
    assert (Hc' : content = [env] \/ content = [] /\ interred limit (at_now a) b1).
    { destruct Hc as [?|[? ?]]; [by left|right; split; [done|]; by eapply interred_later]. }
    assert (Hlate : ready ids nonces (at_now a) content b1).
    { apply (ready_later _ _ u); [done|lia|]. destruct Hc as [-> |[-> _]]; [apply env_live; lia|done]. }
    destruct (box_acknowledges ids nonces (at_now a) limit content b1 opened Eo Hnin Hlate Hc')
      as (o' & b' & E & Hr' & Hin); [lia..|].
    exists (Acknowledged o'), b'. split; [done|]. split; [by eauto|].
    split; (split; [lia|]; split; [by exists l0|]); eauto 6.
  - split; [lia|]. split; [by exists l|]. eauto.
  - rewrite El in Ht'. by exists o', s', t', b'.
Qed.

End Message.

End Persist.
