(* ===== verification/RelayConcurrent.v ===== *)
(** * Several relay processes on one database

    Every operation of the relay checks what it can without the database, then opens a write
    transaction with [TransactionBehavior::Immediate] and does everything else inside. Here the
    two phases are separate steps of a system of processes that share one database file: a
    process that opens its transaction takes the file's write lock and an image of the file, its
    statements work on the image, and the end of the transaction writes the image back or
    discards it. A process that finds the lock taken for longer than the busy timeout gets
    [SQLITE_BUSY], that is [Storage]. Processes can die at any moment; an open transaction is
    then rolled back. The theorem is linearizability: whatever the schedule, the calls take
    effect one at a time, each between its invocation and its return. *)

From S2P Require Import Prelude Core Capability Sqlite RelayDb Relay.
From S2P Require Import RelayFacts RelayTx RelayInv RelayTrace ToyCrypto RelayTheorems.
From S2P Require Import RelayDelivery RelayRetry RelayBoxes.

Section Concurrent.
Context `{Crypto : CryptoOps}.

(** ** The phases of a call *)

(** What is checked before the transaction. *)
Definition precheck (c : Command) (now : Z) : Result unit :=
  match c with
  | Register r =>
      validate_request_time (mr_valid_until r) now;;
      result_guard (verify (mr_manage_key r) (registration_signing_bytes r) (mr_signature r))
        Unauthorized
  | Enqueue r =>
      result_guard (negb (bool_decide (packet_bytes (sr_packet r) = [])
                          || (MAX_PACKET_BYTES <? Z.of_nat (length (packet_bytes (sr_packet r))))))
        InvalidPayload;;
      validate_message_expiry (sr_expires_at r) now
  | Fetch r => validate_request_time (fr_valid_until r) now
  | Acknowledge r => validate_request_time (ar_valid_until r) now
  | DeleteMailbox r => validate_request_time (dr_valid_until r) now
  | PurgeExpired => Ok tt
  end.

(** What happens once it is open. *)
Definition transaction (c : Command) (now : Z) : RelayM Reply :=
  match c with
  | Register r => b ← register_transaction r now; mret (Registered b)
  | Enqueue r => o ← enqueue_transaction r now; mret (Enqueued o)
  | Fetch r => es ← fetch_transaction r now; mret (Fetched es)
  | Acknowledge r => o ← acknowledge_transaction r now; mret (Acknowledged o)
  | DeleteMailbox r => b ← delete_mailbox_transaction r now; mret (MailboxDeleted b)
  | PurgeExpired =>
      n ← purge_transaction now;
      (if bool_decide (0 < n)%nat then push_event "expired_messages_deleted" else mret tt);;
      mret (Purged n)
  end.

(** A block that holds a transaction, followed by code that does not touch the database. *)
Lemma with_transaction_bind {A B} (m : RelayM A) (f : A -> RelayM B) s :
  (forall a s, f a (dropped s) = (fst (f a s), dropped (snd (f a s)))) ->
  (with_transaction m ≫= f) s = with_transaction (m ≫= f) s.
Proof.
  intros Hf. rewrite run_bind. unfold with_transaction.
  destruct (on_conn begin_transaction s) as [[[]|e] s1]; [|done].
  rewrite run_bind. destruct (m s1) as [[a|e] s2]; [|done]. rewrite Hf.
  by destruct (f a s2).
Qed.

Lemma guarded_phases {A} (g : Result unit) (m : RelayM A) (f : A -> Reply) s :
  ((sm_lift g;; with_transaction m) ≫= fun a => mret (f a)) s =
    match g with
    | Ok _ => with_transaction (a ← m; mret (f a)) s
    | Err e => (Err e, s)
    end.
Proof.
  rewrite run_bind. unfold mbind at 1, SM_bind at 1, sm_lift. destruct g as [[]|e]; [|done].
  rewrite <- run_bind. by apply with_transaction_bind.
Qed.

Lemma exec_phases c now s :
  exec c now s = match precheck c now with
                 | Ok _ => with_transaction (transaction c now) s
                 | Err e => (Err e, s)
                 end.
Proof.
  destruct c as [r|r|r|r|r|]; unfold exec, precheck, transaction.
  - rewrite <- guarded_phases. unfold register, result_guard, sm_lift, sm_guard, mbind, SM_bind.
    destruct (validate_request_time _ _) as [[]|]; [|done]. by destruct (verify _ _ _).
  - rewrite <- guarded_phases. unfold enqueue, result_guard, sm_lift, sm_guard, mbind, SM_bind.
    by destruct (negb _).
  - by rewrite <- guarded_phases.
  - by rewrite <- guarded_phases.
  - by rewrite <- guarded_phases.
  - unfold purge_expired. rewrite run_bind. rewrite with_transaction_bind.
    + rewrite <- run_bind, with_transaction_bind by done.
      unfold with_transaction, mbind, SM_bind.
      destruct (on_conn begin_transaction s) as [[[]|] s1]; [|done].
      destruct (purge_transaction now s1) as [[n|] s2]; [|done]. by destruct (bool_decide _).
    + intros n s'. by destruct (bool_decide _).
Qed.

(** ** Replies do not depend on the audit trail *)

Definition audit_blind {A} (m : RelayM A) : Prop := forall c ev ev',
  fst (m (mkRelay c ev)) = fst (m (mkRelay c ev')) /\
  connection (snd (m (mkRelay c ev))) = connection (snd (m (mkRelay c ev'))).

Lemma blind_bind {A B} (m : RelayM A) (f : A -> RelayM B) :
  audit_blind m -> (forall a, audit_blind (f a)) -> audit_blind (m ≫= f).
Proof.
  intros Hm Hf c ev ev'. rewrite !run_bind. specialize (Hm c ev ev').
  destruct (m (mkRelay c ev)) as [[a|e] [c1 ev1]], (m (mkRelay c ev')) as [[a'|e'] [c2 ev2]];
    destruct Hm as [Hr Hc]; simpl in *; simplify_eq; [apply Hf|done].
Qed.

Lemma blind_transaction {A} (m : RelayM A) : audit_blind m -> audit_blind (with_transaction m).
Proof.
  intros Hm c ev ev'. unfold with_transaction, on_conn, sm_zoom. simpl.
  destruct (begin_transaction c) as [[[]|e] c']; [|done]. specialize (Hm c' ev ev').
  destruct (m (mkRelay c' ev)) as [r s], (m (mkRelay c' ev')) as [r' s'].
  destruct Hm as [Hr Hc]. simpl in *. by rewrite Hr, Hc.
Qed.

Lemma blind_on_conn {A} (m : SM (Connection RelayDb) LabError A) : audit_blind (on_conn m).
Proof. intros c ev ev'. unfold on_conn, sm_zoom. simpl. by destruct (m c). Qed.

Lemma blind_lift {A} (r : Result A) : audit_blind (sm_lift r).
Proof. done. Qed.
Lemma blind_ret {A} (a : A) : audit_blind (mret a).
Proof. done. Qed.
Lemma blind_throw {A} e : audit_blind (sm_throw e : RelayM A).
Proof. done. Qed.
Lemma blind_guard b e : audit_blind (sm_guard b e).
Proof. by destruct b. Qed.
Lemma blind_push e : audit_blind (push_event e).
Proof. done. Qed.

Create HintDb blind.
#[local] Hint Resolve blind_on_conn blind_lift blind_ret blind_throw blind_guard blind_push : blind.

Ltac blind :=
  repeat first
    [ solve [auto with blind] | apply blind_bind; [|intros ?] | apply blind_on_conn
    | case_match ].

Lemma transaction_blind c now : audit_blind (transaction c now).
Proof.
  destruct c; unfold transaction, register_transaction, enqueue_transaction, fetch_transaction,
    acknowledge_transaction, delete_mailbox_transaction, purge_transaction, purge_expired_in,
    mailbox_key, record_nonce; blind.
Qed.

(** ** Processes on one file *)

Inductive Activity : Type :=
  | Free
  | Called (k : Call)
  | Inside (k : Call) (c : Connection RelayDb)
  | Answered (r : Result Reply).

Record Process : Type := mkProcess {
  doing : Activity;
  trail : list string;
}.

Record System : Type := mkSystem {
  file : RelayDb;
  writer : option nat;
  processes : gmap nat Process;
}.

Inductive Event : Type :=
  | Invoke (i : nat) (k : Call)
  | Refuse (i : nat) (k : Call) (e : LabError)
  | Begin (i : nat)
  | Finish (i : nat) (k : Call) (r : Result Reply)
  | Return (i : nat) (r : Result Reply)
  | Crash (i : nat).

Definition set_process (i : nat) (a : Activity) (ev : list string) (s : System) : System :=
  mkSystem (file s) (writer s) (<[i := mkProcess a ev]> (processes s)).

Inductive sys_step (s : System) : Event -> System -> Prop :=
  | sys_invoke i k ev :
      processes s !! i = Some (mkProcess Free ev) ->
      sys_step s (Invoke i k) (set_process i (Called k) ev s)
  | sys_refuse i k ev e :
      processes s !! i = Some (mkProcess (Called k) ev) ->
      precheck (call_command k) (call_now k) = Err e ->
      sys_step s (Refuse i k e) (set_process i (Answered (Err e)) ev s)
  | sys_busy i k ev j :
      processes s !! i = Some (mkProcess (Called k) ev) ->
      precheck (call_command k) (call_now k) = Ok tt -> writer s = Some j ->
      sys_step s (Refuse i k Storage) (set_process i (Answered (Err Storage)) ev s)
  | sys_begin_fails i k ev e c :
      processes s !! i = Some (mkProcess (Called k) ev) ->
      precheck (call_command k) (call_now k) = Ok tt -> writer s = None ->
      begin_transaction (mkConn (file s) None (call_faults k)) = (Err e, c) ->
      sys_step s (Refuse i k e) (set_process i (Answered (Err e)) ev s)
  | sys_begin i k ev c :
      processes s !! i = Some (mkProcess (Called k) ev) ->
      precheck (call_command k) (call_now k) = Ok tt -> writer s = None ->
      begin_transaction (mkConn (file s) None (call_faults k)) = (Ok tt, c) ->
      sys_step s (Begin i)
        (mkSystem (file s) (Some i) (<[i := mkProcess (Inside k c) ev]> (processes s)))
  | sys_finish i k ev c r h :
      processes s !! i = Some (mkProcess (Inside k c) ev) ->
      transaction (call_command k) (call_now k)
        (mkRelay (mkConn (file s) (txn c) (faults c)) ev) = (r, h) ->
      sys_step s (Finish i k r)
        (mkSystem (disk (connection (dropped h))) None
           (<[i := mkProcess (Answered r) (audit_events h)]> (processes s)))
  | sys_return i r ev :
      processes s !! i = Some (mkProcess (Answered r) ev) ->
      sys_step s (Return i r) (set_process i Free ev s)
  | sys_crash i p :
      processes s !! i = Some p ->
      sys_step s (Crash i)
        (mkSystem (file s) (if decide (writer s = Some i) then None else writer s)
           (delete i (processes s))).

Inductive sys_steps (s : System) : list Event -> System -> Prop :=
  | steps_none : sys_steps s [] s
  | steps_snoc es s1 e s2 :
      sys_steps s es s1 -> sys_step s1 e s2 -> sys_steps s (es ++ [e]) s2.

(** Handles that have just been opened. *)
Definition opened (db : RelayDb) (ps : gmap nat Process) : System := mkSystem db None ps.

(** The calls in the order in which their transactions ended. *)
Definition finished (es : list Event) : list (Call * Result Reply) :=
  omap (fun e => match e with Finish _ k r => Some (k, r) | _ => None end) es.

(** ** A scheduler *)

(** The relation is executable: what happens when a process gets its turn. *)
Inductive Action : Type :=
  | DoCall (i : nat) (k : Call)
  | DoOpen (i : nat)
  | DoWork (i : nat)
  | DoReturn (i : nat)
  | DoDie (i : nat).

Definition act (a : Action) (s : System) : option (Event * System) :=
  match a with
  | DoCall i k =>
      match processes s !! i with
      | Some (mkProcess Free ev) => Some (Invoke i k, set_process i (Called k) ev s)
      | _ => None
      end
  | DoOpen i =>
      match processes s !! i with
      | Some (mkProcess (Called k) ev) =>
          let refuse e := Some (Refuse i k e, set_process i (Answered (Err e)) ev s) in
          match precheck (call_command k) (call_now k), writer s with
          | Err e, _ => refuse e
          | Ok _, Some _ => refuse Storage
          | Ok _, None =>
              match begin_transaction (mkConn (file s) None (call_faults k)) with
              | (Err e, _) => refuse e
              | (Ok _, c) =>
                  Some (Begin i, mkSystem (file s) (Some i)
                                   (<[i := mkProcess (Inside k c) ev]> (processes s)))
              end
          end
      | _ => None
      end
  | DoWork i =>
      match processes s !! i with
      | Some (mkProcess (Inside k c) ev) =>
          let '(r, h) := transaction (call_command k) (call_now k)
                           (mkRelay (mkConn (file s) (txn c) (faults c)) ev) in
          Some (Finish i k r,
                mkSystem (disk (connection (dropped h))) None
                  (<[i := mkProcess (Answered r) (audit_events h)]> (processes s)))
      | _ => None
      end
  | DoReturn i =>
      match processes s !! i with
      | Some (mkProcess (Answered r) ev) => Some (Return i r, set_process i Free ev s)
      | _ => None
      end
  | DoDie i =>
      match processes s !! i with
      | Some _ => Some (Crash i,
          mkSystem (file s) (if decide (writer s = Some i) then None else writer s)
            (delete i (processes s)))
      | None => None
      end
  end.

Lemma act_step a s e s' : act a s = Some (e, s') -> sys_step s e s'.
Proof.
  destruct a as [i k|i|i|i|i]; simpl; destruct (processes s !! i) as [[[|k'|k' c|r] ev]|] eqn:Hi;
    try done; try (intros [= <- <-]; by econstructor).
  - destruct (precheck _ _) as [[]|e'] eqn:He; [|intros [= <- <-]; by econstructor].
    destruct (writer s) as [j|] eqn:Hw; [intros [= <- <-]; by eapply sys_busy|].
    destruct (begin_transaction _) as [[[]|e'] c] eqn:Hb; intros [= <- <-];
      [by eapply sys_begin|by eapply sys_begin_fails].
  - destruct (transaction _ _ _) as [r h] eqn:Ht. intros [= <- <-]. by eapply sys_finish.
Qed.

Definition schedule (actions : list Action) (s : System) : option (list Event * System) :=
  foldl (fun o a => '(es, s) ← o; '(e, s') ← act a s; Some (es ++ [e], s')) (Some ([], s)) actions.

Lemma schedule_steps actions s es s' : schedule actions s = Some (es, s') -> sys_steps s es s'.
Proof.
  unfold schedule. revert es s'. induction actions as [|a actions IH] using rev_ind; intros es s'.
  { intros [= <- <-]. constructor. }
  rewrite foldl_app. simpl. destruct (foldl _ _ _) as [[es1 s1]|]; [|done]. simpl.
  destruct (act a s1) as [[e s2]|] eqn:E; [|done]. intros [= <- <-].
  eapply steps_snoc; [by apply IH|by eapply act_step].
Qed.

(** Only what was scheduled is invoked. *)
Lemma act_invoke a s i k s' : act a s = Some (Invoke i k, s') -> a = DoCall i k.
Proof.
  destruct a; simpl; repeat case_match; intros; simplify_eq; done.
Qed.

Lemma schedule_invokes actions s es s' i k :
  schedule actions s = Some (es, s') -> Invoke i k ∈ es -> DoCall i k ∈ actions.
Proof.
  unfold schedule. revert es s'. induction actions as [|a actions IH] using rev_ind; intros es s'.
  { by intros [= <- <-] ?%not_elem_of_nil. }
  rewrite foldl_app, elem_of_app. simpl. destruct (foldl _ _ _) as [[es1 s1]|]; [|done]. simpl.
  destruct (act a s1) as [[e s2]|] eqn:E; [|done]. intros [= <- <-] [Hin|Hin]%elem_of_app; [eauto|].
  apply list_elem_of_singleton in Hin as <-. apply act_invoke in E as ->. right. by left.
Qed.

(** ** The lock *)

(** The process inside a transaction is the writer, and its image is the file as it is. *)
Definition exclusive (s : System) : Prop := forall i k c ev,
  processes s !! i = Some (mkProcess (Inside k c) ev) ->
  writer s = Some i /\ precheck (call_command k) (call_now k) = Ok tt /\
  begin_transaction (mkConn (file s) None (call_faults k)) = (Ok tt, c).

Lemma sys_step_exclusive s e s' : sys_step s e s' -> exclusive s -> exclusive s'.
Proof.
  intros Hs Hx. destruct Hs as [i k ev Hi|i k ev e Hi He|i k ev j Hi He Hw|i k ev e c Hi He Hw Hb
    |i k ev c Hi He Hw Hb|i k ev c r h Hi Ht|i r ev Hi|i p Hi];
    intros j' k' c' ev' Hj; simpl in *;
    (apply lookup_insert_Some in Hj as [[<- Hj]|[Hne Hj]] || apply lookup_delete_Some in Hj as [Hne Hj]);
    try done; try (destruct (Hx _ _ _ _ Hj) as (Hw' & He' & Hb'));
    simplify_eq; auto.
  - by destruct (Hx _ _ _ _ Hi) as [? _]; simplify_eq.
  - rewrite decide_False by congruence. auto.
Qed.

(** ** Linearization *)

Lemma run_snoc ks k s :
  run (ks ++ [k]) s =
    let '(rs, s1) := run ks s in let '(r, s2) := perform k s1 in (rs ++ [r], s2).
Proof.
  revert s. induction ks as [|k' ks IH]; intros s; simpl.
  { by destruct (perform k s). }
  destruct (perform k' s) as [r s1]. rewrite IH. destruct (run ks s1) as [rs s2].
  by destruct (perform k s2).
Qed.

(** A transaction whose image is the file is a whole call. *)
Lemma finish_performs k c db ev r h s :
  precheck (call_command k) (call_now k) = Ok tt ->
  begin_transaction (mkConn db None (call_faults k)) = (Ok tt, c) ->
  transaction (call_command k) (call_now k) (mkRelay (mkConn db (txn c) (faults c)) ev) = (r, h) ->
  idle s -> disk (connection s) = db ->
  exists s', perform k s = (r, s') /\ idle s' /\
    disk (connection s') = disk (connection (dropped h)).
Proof.
  intros He Hb Ht Hi <-. unfold perform. rewrite exec_phases, He.
  unfold with_transaction, on_conn, sm_zoom, load. unfold idle in Hi. simpl. rewrite Hi, Hb.
  assert (Hc : mkConn (disk (connection s)) (txn c) (faults c) = c).
  { unfold begin_transaction in Hb. simpl in Hb. destruct (next_io _); by simplify_eq. }
  rewrite Hc in Ht.
  destruct (transaction_blind (call_command k) (call_now k) c ev (audit_events s)) as [Hr Hh].
  rewrite Ht in Hr, Hh. destruct (transaction _ _ (mkRelay c (audit_events s))) as [r' h'].
  simpl in *. subst r'. eexists. split; [done|]. simpl. by rewrite Hh.
Qed.

Definition linear (db : RelayDb) (es : list Event) (s : System) : Prop :=
  exists s', run (fst <$> finished es) (at_rest db []) = (snd <$> finished es, s') /\
    idle s' /\ disk (connection s') = file s.

Lemma sys_step_linear db es s e s' :
  sys_step s e s' -> exclusive s -> linear db es s -> linear db (es ++ [e]) s'.
Proof.
  intros Hs Hx (w & Hrun & Hi & Hd). unfold linear, finished in *.
  rewrite omap_app, !fmap_app. destruct Hs; simpl; rewrite ?app_nil_r; eauto.
  destruct (Hx _ _ _ _ H) as (_ & He & Hb).
  destruct (finish_performs k c (file s) ev r h w) as (w' & Hp & Hi' & Hd'); [done..|].
  exists w'. rewrite run_snoc, Hrun, Hp. auto.
Qed.

(** ** Returns *)

(** Events that begin or end a call of a process. *)
Definition boundary (i : nat) (e : Event) : Prop :=
  match e with Invoke j _ | Return j _ => j = i | _ => False end.

(** [l] is what happened since the last invocation of [i]. *)
Definition since (i : nat) (k : Call) (es l : list Event) : Prop :=
  exists es0, es = es0 ++ Invoke i k :: l /\ Forall (fun e => ~ boundary i e) l.

Definition settled_by (i : nat) (k : Call) (r : Result Reply) (l : list Event) : Prop :=
  Finish i k r ∈ l \/ exists e, r = Err e /\ Refuse i k e ∈ l.

(** What the events say about a process. *)
Definition explains (es : list Event) (i : nat) (a : Activity) : Prop :=
  match a with
  | Free => True
  | Called k | Inside k _ => exists l, since i k es l
  | Answered r => exists k l, since i k es l /\ settled_by i k r l
  end.

Definition explained (es : list Event) (s : System) : Prop := forall i p,
  processes s !! i = Some p -> explains es i (doing p).

Lemma since_snoc i k es l e : ~ boundary i e -> since i k es l -> since i k (es ++ [e]) (l ++ [e]).
Proof.
  intros He (es0 & -> & Hl). exists es0. split; [by rewrite <- app_assoc|].
  apply Forall_app. auto.
Qed.

Lemma settled_snoc i k r l e : settled_by i k r l -> settled_by i k r (l ++ [e]).
Proof. unfold settled_by. setoid_rewrite elem_of_app. naive_solver. Qed.

Lemma explains_snoc es i a e : ~ boundary i e -> explains es i a -> explains (es ++ [e]) i a.
Proof.
  intros He. destruct a as [|k|k c|r]; simpl; [done|..].
  - intros [l Hl]. eauto using since_snoc.
  - intros [l Hl]. eauto using since_snoc.
  - intros (k & l & Hl & Hr). exists k, (l ++ [e]). eauto using since_snoc, settled_snoc.
Qed.

Lemma explained_insert es (ps : gmap nat Process) i p e :
  (forall j q, ps !! j = Some q -> explains es j (doing q)) ->
  (forall j, j <> i -> ~ boundary j e) -> explains (es ++ [e]) i (doing p) ->
  forall j q, <[i := p]> ps !! j = Some q -> explains (es ++ [e]) j (doing q).
Proof.
  intros Hx He Hi j q [[<- <-]|[Hne Hj]]%lookup_insert_Some; [done|].
  apply explains_snoc; eauto.
Qed.

Lemma answered es i k l r e :
  ~ boundary i e -> since i k es l -> settled_by i k r [e] -> explains (es ++ [e]) i (Answered r).
Proof.
  intros He Hl Hr. exists k, (l ++ [e]). split; [by apply since_snoc|].
  revert Hr. unfold settled_by. setoid_rewrite elem_of_app. naive_solver.
Qed.

Lemma sys_step_explained es s e s' : sys_step s e s' -> explained es s -> explained (es ++ [e]) s'.
Proof.
  intros Hs Hx. destruct Hs as [i k ev Hi|i k ev e Hi He|i k ev j Hi He Hw|i k ev e c Hi He Hw Hb
    |i k ev c Hi He Hw Hb|i k ev c r h Hi Ht|i r ev Hi|i p Hi]; specialize (Hx i _ Hi) as Hxi;
    simpl in Hxi; unfold explained; simpl; try (apply explained_insert; [done|naive_solver|]).
  - exists [], es. by split.
  - destruct Hxi as [l Hl]. apply (answered _ _ k l); [naive_solver|done|].
    right. exists e. split; [done|by left].
  - destruct Hxi as [l Hl]. apply (answered _ _ k l); [naive_solver|done|].
    right. exists Storage. split; [done|by left].
  - destruct Hxi as [l Hl]. apply (answered _ _ k l); [naive_solver|done|].
    right. exists e. split; [done|by left].
  - destruct Hxi as [l Hl]. exists (l ++ [Begin i]). apply since_snoc; [naive_solver|done].
  - destruct Hxi as [l Hl]. apply (answered _ _ k l); [naive_solver|done|]. left. by left.
  - done.
  - intros j q [Hne Hj]%lookup_delete_Some. apply explains_snoc; [naive_solver|]. by apply (Hx j).
Qed.

(** ** Refusals *)

Definition refusals_justified (es : list Event) : Prop := forall i k e,
  Refuse i k e ∈ es -> e = Storage \/ precheck (call_command k) (call_now k) = Err e.

Lemma sys_step_refusal s e s' : sys_step s e s' -> refusals_justified [e].
Proof.
  intros Hs i k e' <-%list_elem_of_singleton. inversion Hs; subst; auto.
  unfold begin_transaction in *. destruct (next_io _); simplify_eq; auto.
Qed.

Lemma sys_steps_invariant db ps es s :
  (forall i p, ps !! i = Some p -> doing p = Free) -> sys_steps (opened db ps) es s ->
  exclusive s /\ linear db es s /\ explained es s /\ refusals_justified es.
Proof.
  intros Hps. induction 1 as [|es s1 e s2 _ (Hx & Hl & He & Hr) Hs].
  - split; [|split; [|split]].
    + intros i k c ev Hi. by apply Hps in Hi.
    + by eexists.
    + intros i p Hi. by rewrite (Hps i p Hi).
    + intros i k e Hin. by apply not_elem_of_nil in Hin.
  - split; [by eapply sys_step_exclusive|]. split; [by eapply sys_step_linear|].
    split; [by eapply sys_step_explained|]. intros i k e' [Hin|Hin]%elem_of_app; [by apply (Hr i)|].
    by apply (sys_step_refusal _ _ _ Hs i).
Qed.

Lemma sys_steps_prefix s es1 e es2 s' :
  sys_steps s (es1 ++ e :: es2) s' -> exists s1 s2, sys_steps s es1 s1 /\ sys_step s1 e s2.
Proof.
  remember (es1 ++ e :: es2) as es eqn:E. intros H. revert es2 E.
  induction H as [|es s1 e' s2 Hs IH He]; intros es2 E.
  { by destruct es1. }
  destruct es2 as [|x es2 _] using rev_ind.
  - apply app_inj_tail in E as [<- <-]. eauto.
  - rewrite app_comm_cons, app_assoc in E. apply app_inj_tail in E as [-> _]. by apply (IH es2).
Qed.

(** C4. Concurrent calls are linearizable. Any number of processes hold the same database open
    and call the relay, with every interleaving of their steps, storage failures, lock timeouts
    and process deaths. The calls whose transactions ended, taken in the order in which they
    ended, give their own replies and the file's contents when run one after the other by a
    single relay; nothing else has an effect on the file. A reply that is returned is the one its
    call's transaction ended with, between that call's invocation and its return, or the call had
    no effect and was refused: by a check before the transaction, or with [Storage] because the
    lock was taken or the transaction could not be opened. *)
Theorem concurrent_calls_linearize db ps es s :
  (forall i p, ps !! i = Some p -> doing p = Free) ->
  sys_steps (opened db ps) es s ->
  (let '(rs, s') := run (fst <$> finished es) (at_rest db []) in
   rs = snd <$> finished es /\ disk (connection s') = file s) /\
  (forall before i r after, es = before ++ Return i r :: after ->
     exists k l, since i k before l /\
       (Finish i k r ∈ l \/
        exists e, r = Err e /\ Refuse i k e ∈ l /\
          (e = Storage \/ precheck (call_command k) (call_now k) = Err e))).
Proof.
  intros Hps Hs. destruct (sys_steps_invariant db ps es s Hps Hs) as (_ & (w & -> & _ & Hd) & _ & Hr).
  split; [done|]. intros before i r after ->.
  apply sys_steps_prefix in Hs as (s1 & s2 & Hs1 & Hret).
  destruct (sys_steps_invariant _ _ _ _ Hps Hs1) as (_ & _ & He & Hr1).
  inversion Hret as [| | | | | |? ? ? Hi|]; subst.
  destruct (He _ _ Hi) as (k & l & Hl & Hse). exists k, l. split; [done|].
  destruct Hse as [Hf|(e & -> & Hf)]; [by left|]. right. exists e. split; [done|]. split; [done|].
  apply (Hr1 i). destruct Hl as (es0 & -> & _). apply elem_of_app. right. by right.
Qed.

(** ** Competing sends *)

Lemma finished_invoked db ps es s :
  (forall i p, ps !! i = Some p -> doing p = Free) -> sys_steps (opened db ps) es s ->
  forall k r, (k, r) ∈ finished es -> exists i, Invoke i k ∈ es.
Proof.
  intros Hps. induction 1 as [|es s1 e s2 Hs IH He]; intros k r Hin.
  { by apply not_elem_of_nil in Hin. }
  setoid_rewrite elem_of_app. unfold finished in Hin. rewrite omap_app in Hin.
  apply elem_of_app in Hin as [Hin|Hin]; [destruct (IH k r Hin) as [i Hi]; eauto|].
  destruct He as [| | | | |i k' ev c r' h Hi Ht| |]; simpl in Hin;
    try (by apply not_elem_of_nil in Hin).
  apply list_elem_of_singleton in Hin as [= -> ->].
  destruct (sys_steps_invariant _ _ _ _ Hps Hs) as (_ & _ & Hx & _).
  destruct (Hx _ _ Hi) as (l & es0 & -> & _). exists i. left. apply elem_of_app. right. by left.
Qed.

Section Competing.
Context (db : RelayDb) (q : QueueId) (m : MessageId) (lo hi : Z).

(** A send for the message identifier, with its own clock reading in the window and its own
    storage failures, acceptable by itself and not expiring before the window closes. *)
Definition competes (k : Call) (r : SendRequest) : Prop :=
  call_command k = Enqueue r /\ lo <= call_now k <= hi /\ hi < sr_expires_at r /\
  sr_queue_id r = q /\ sr_message_id r = m /\ admissible r (call_now k) db.

(** The answer to a send that comes after [winner]. *)
Definition verdict (winner r : SendRequest) : Result Reply :=
  if bool_decide (packet_bytes (sr_packet winner) = packet_bytes (sr_packet r)) &&
     (sr_expires_at winner =? sr_expires_at r)
  then Ok (Enqueued Duplicate) else Err MessageConflict.

(** A call that met a failure and says so. *)
Definition failed (kr : Call * Result Reply) : Prop :=
  call_faults kr.1 <> [] /\ kr.2 = Err Storage.

Definition answered_against (w : SendRequest) (kr : Call * Result Reply) : Prop :=
  exists r, call_command kr.1 = Enqueue r /\ kr.2 = verdict w r.

(** What no send changes for the others: keys stay, no tombstone is added. *)
Record settled_tables (db' : RelayDb) : Prop := {
  st_mailboxes : mailboxes db' = mailboxes db;
  st_tombstones : tombstones db' ⊆ tombstones db;
  st_nodup : NoDup (msg_key <$> messages db');
}.

(** No row for the identifier that is alive in the window; the winner's row. *)
Definition open_tables (db' : RelayDb) : Prop :=
  settled_tables db' /\
  forall row, row ∈ messages db' -> msg_key row = (as_slice q, as_slice m) -> mg_expires_at row <= lo.

Definition taken (w : SendRequest) (db' : RelayDb) : Prop :=
  settled_tables db' /\ request_row w ∈ messages db' /\ hi < sr_expires_at w /\
  sr_queue_id w = q /\ sr_message_id w = m.

Lemma settled_sweep now db' : settled_tables db' -> settled_tables (sweep now db').
Proof.
  intros [Hm Ht Hn]. split; [done| |by apply NoDup_fmap_filter].
  etrans; [apply map_filter_subseteq|done].
Qed.

Lemma settled_admissible r now db' :
  settled_tables db' -> admissible r now db -> admissible r now db'.
Proof.
  intros [Em Et _] (H1 & [H2 H2'] & H3 & H4 & H5). unfold admissible, holds_capability.
  rewrite Em. do 4 (split; [done|]). apply eq_None_not_Some. intros [t Hk].
  apply map_lookup_filter_Some in Hk as [Hk Hx]. apply (lookup_weaken _ _ _ _ Hk) in Et.
  apply (sweep_tombstone now) in Et; [by rewrite H5 in Et|simpl in Hx; lia].
Qed.

(** On open tables a send is stored. *)
Lemma first_taken k r db' :
  open_tables db' -> competes k r ->
  exists e db'', tx (call_command k) (call_now k) db' = Ok (Enqueued Stored, e, db'') /\ taken r db''.
Proof.
  intros [Hs Hn] (-> & Hnow & Hx & Hq & Hm & Ha).
  pose proof (enqueue_admissible _ _ _ (settled_admissible _ _ _ Hs Ha)) as E.
  assert (En : select_message (as_slice (sr_queue_id r)) (as_slice (sr_message_id r))
    (sweep (call_now k) db') = None).
  { rewrite Hq, Hm. destruct (select_message (as_slice q) _ _) as [row|] eqn:Es; [|done].
    apply select_message_Some in Es as [[Hrow Hin]%list_elem_of_filter Hk]. specialize (Hn row Hin Hk). lia. }
  rewrite En in E. eexists _, _. split; [exact E|]. split; [|split; [|done]].
  - destruct (settled_sweep (call_now k) db' Hs) as [? ? _]. split; [done|done|].
    by apply (enqueue_nodup _ _ _ _ _ _ (st_nodup _ Hs) E).
  - apply elem_of_app. right. by left.
Qed.

Lemma taken_sweep w now db' : now <= hi -> taken w db' -> taken w (sweep now db').
Proof.
  intros Hnow (Hs & Hw & Hx & Hk). split; [by apply settled_sweep|]. split; [|done].
  apply sweep_message; [done|simpl; lia].
Qed.

(** On taken tables it is answered against the winner. *)
Lemma later_taken w k r db' :
  taken w db' -> competes k r ->
  tx (call_command k) (call_now k) db' =
    match verdict w r with
    | Ok v => Ok (v, Some "message_enqueue_duplicate"%string, sweep (call_now k) db')
    | Err e => Err e
    end.
Proof.
  intros Ht (-> & Hnow & _ & Hq & Hm & Ha). cbn [tx].
  destruct (taken_sweep w (call_now k) db' ltac:(lia) Ht) as (Hs' & Hw' & _).
  destruct Ht as (Hs & _ & _ & Hqw & Hmw).
  rewrite enqueue_admissible by by apply settled_admissible. rewrite Hq, Hm.
  rewrite (proj2 (select_message_iff _ _ (sweep (call_now k) db') (request_row w) (st_nodup _ Hs'))).
  - unfold verdict. simpl. by destruct (bool_decide _ && _).
  - split; [done|]. unfold msg_key. simpl. by rewrite Hqw, Hmw.
Qed.

Lemma perform_open k r s reply s1 :
  competes k r -> idle s -> open_tables (disk (connection s)) -> perform k s = (reply, s1) ->
  idle s1 /\
  (failed (k, reply) /\ open_tables (disk (connection s1)) \/
   (reply = Ok (Enqueued Stored) \/ failed (k, reply)) /\ taken r (disk (connection s1))).
Proof.
  intros Hk Hi Ho P. pose proof (perform_cases k s Hi) as H. rewrite P in H.
  destruct (first_taken k r _ Ho Hk) as (e & db' & E & Ht). rewrite E in H. destruct H as [Hi1 H].
  split; [done|]. unfold failed. simpl.
  destruct H as [(v & e' & -> & [= <- <- <-])|[(e' & _ & [=] & _)|(Hf & -> & [->|(v & e' & [= <- <- <-])])]];
    auto 6.
Qed.

Lemma perform_taken w k r s reply s1 :
  competes k r -> idle s -> taken w (disk (connection s)) -> perform k s = (reply, s1) ->
  idle s1 /\ (answered_against w (k, reply) \/ failed (k, reply)) /\ taken w (disk (connection s1)).
Proof.
  intros Hk Hi Ht P. pose proof (perform_cases k s Hi) as H. rewrite P in H.
  rewrite (later_taken w k r) in H by done. destruct H as [Hi1 H]. split; [done|].
  destruct Hk as (Hc & Hnow & _). pose proof (taken_sweep w (call_now k) _ (proj2 Hnow) Ht) as Ht'.
  unfold answered_against, failed. simpl.
  destruct H as [(v & e & -> & E)|[(e & -> & E & ->)|(Hf & -> & H)]].
  - destruct (verdict w r) eqn:Ev; [|done]. injection E as <- <- <-. eauto.
  - destruct (verdict w r) eqn:Ev; [done|]. injection E as <-. eauto.
  - split; [auto|]. destruct H as [->|(v & e & E)]; [done|].
    destruct (verdict w r); [|done]. by injection E as <- <- <-.
Qed.

(** The calls one after the other, with their replies. *)
Definition competing (l : list (Call * Result Reply)) : Prop :=
  Forall (fun kr => exists r, competes kr.1 r) l.

Lemma run_taken w l : forall s s',
  competing l -> idle s -> taken w (disk (connection s)) -> run (fst <$> l) s = (snd <$> l, s') ->
  Forall (fun kr => answered_against w kr \/ failed kr) l /\ taken w (disk (connection s')).
Proof.
  induction l as [|[k reply] l IH]; intros s s' Hl Hi Ht; [by intros [= <-]|].
  apply Forall_cons in Hl as [[r Hk] Hl]. rewrite !fmap_cons. cbn [run fst snd].
  destruct (perform k s) as [reply' s1] eqn:P, (run (fst <$> l) s1) as [rs s2] eqn:R.
  intros [= -> -> <-]. destruct (perform_taken w k r s reply s1 Hk Hi Ht P) as (Hi1 & Hr & Ht1).
  destruct (IH s1 s2 Hl Hi1 Ht1 R) as [H1 H2]. split; [by constructor|done].
Qed.

Lemma run_open l : forall s s',
  competing l -> idle s -> open_tables (disk (connection s)) -> run (fst <$> l) s = (snd <$> l, s') ->
  Forall failed l /\ open_tables (disk (connection s')) \/
  exists before k w reply after,
    l = before ++ (k, reply) :: after /\ competes k w /\ Forall failed before /\
    (reply = Ok (Enqueued Stored) \/ failed (k, reply)) /\
    Forall (fun kr => answered_against w kr \/ failed kr) after /\ taken w (disk (connection s')).
Proof.
  induction l as [|[k reply] l IH]; intros s s' Hl Hi Ho; [intros [= <-]; by left|].
  apply Forall_cons in Hl as [[r Hk] Hl]. rewrite !fmap_cons. cbn [run fst snd].
  destruct (perform k s) as [reply' s1] eqn:P, (run (fst <$> l) s1) as [rs s2] eqn:R.
  intros [= -> -> <-].
  destruct (perform_open k r s reply s1 Hk Hi Ho P) as (Hi1 & [[Hf Ho1]|[Hr Ht1]]).
  - destruct (IH s1 s2 Hl Hi1 Ho1 R) as [[H1 H2]|(before & k' & w & reply' & after & -> & Hw & Hb & H)].
    + left. split; [by constructor|done].
    + right. exists ((k, reply) :: before), k', w, reply', after.
      split; [done|]. split; [done|]. split; [by constructor|done].
  - destruct (run_taken r l s1 s2 Hl Hi1 Ht1 R) as [H1 H2].
    right. by exists [], k, r, reply, l.
Qed.

Lemma open_rows t db' :
  lo <= t -> open_tables db' -> rows_of (as_slice q, as_slice m) (sweep t db') = [].
Proof.
  intros Ht [_ Ho]. apply elem_of_nil_inv. intros row [Hk [Hx Hin]%list_elem_of_filter]%list_elem_of_filter.
  specialize (Ho row Hin Hk). lia.
Qed.

Lemma taken_rows w t db' :
  t <= hi -> taken w db' -> rows_of (as_slice q, as_slice m) (sweep t db') = [request_row w].
Proof.
  intros Ht Hw. destruct (taken_sweep w t db' Ht Hw) as (Hs & Hin & _ & <- & <-).
  by apply rows_of_unique; [apply Hs| |].
Qed.

(** C12. Concurrent sends of one message identifier resolve to one stored message. Any number of
    processes send for an identifier that is neither queued nor buried, each call with its own
    clock reading and its own storage failures, under every schedule, with lock timeouts and
    process deaths. The clock readings lie in a window, in any order, and each message expires
    after it (a message that expired could be followed by another one). Among the calls whose
    transactions ended, in that order: either every one met a storage failure and said so, and
    no row is there, or one of them is the winner. Those before it failed with [Storage]; it was
    answered [Stored], or [Storage] if its commit was lost; each later one is answered against
    the winner's message, as a duplicate if packet and expiry are the same and as a conflict
    otherwise, or failed with [Storage]; and exactly the winner's row is in the queue. A call
    answered [Storage] had a failure in store. *)
Theorem concurrent_sends_store_one ps es s :
  (forall i p, ps !! i = Some p -> doing p = Free) ->
  sys_steps (opened db ps) es s ->
  (forall i k, Invoke i k ∈ es -> exists r, competes k r) ->
  NoDup (msg_key <$> messages db) ->
  select_message (as_slice q) (as_slice m) (sweep lo db) = None ->
  (Forall failed (finished es) /\
   forall t, lo <= t <= hi -> rows_of (as_slice q, as_slice m) (sweep t (file s)) = []) \/
  exists before k w reply after,
    finished es = before ++ (k, reply) :: after /\ call_command k = Enqueue w /\
    Forall failed before /\
    (reply = Ok (Enqueued Stored) \/ failed (k, reply)) /\
    Forall (fun kr => answered_against w kr \/ failed kr) after /\
    forall t, lo <= t <= hi ->
      rows_of (as_slice q, as_slice m) (sweep t (file s)) = [request_row w].
Proof.
  intros Hps Hs Hinv Hnd Hn.
  destruct (sys_steps_invariant db ps es s Hps Hs) as (_ & (s' & Hrun & _ & Hd) & _).
  assert (Hl : competing (finished es)).
  { apply Forall_forall. intros [k r] Hin.
    destruct (finished_invoked _ _ _ _ Hps Hs k r Hin) as [i Hi]. by apply (Hinv i). }
  destruct (run_open (finished es) (at_rest db []) s' Hl eq_refl) as
    [[Hf Ho]|(before & k & w & reply & after & E & Hk & Hb & Hr & Ha & Ht)]; [..|done| |].
  - split; [by split|]. intros row Hin Hk. apply Z.nlt_ge. intros Hlt.
    destruct (select_message_None _ _ _ row Hn); [by apply sweep_message|done].
  - left. split; [done|]. intros t [Ht _]. rewrite <- Hd. by apply open_rows.
  - right. exists before, k, w, reply, after. split; [done|]. split; [apply Hk|].
    do 3 (split; [done|]). intros t [_ Ht']. rewrite <- Hd. by apply taken_rows.
Qed.

End Competing.

End Concurrent.
