(* ===== verification/RelayWitness.v ===== *)
(** * Relay: the theorems at concrete inputs

    One mailbox, its owner's capabilities and a short history of calls, with the concrete
    instance of the cryptographic interface; each theorem with hypotheses is applied at it. *)

From S2P Require Import Prelude Core Capability Sqlite RelayDb Relay.
From S2P Require Import RelayFacts RelayTx RelayInv RelayTrace ToyCrypto RelayTheorems.
From S2P Require Import RelayDelivery RelayRetry RelayRuns.

(** ** The scenario *)

Definition toy_message : MessageId := toy_id 16 "message".

Definition toy_registration : MailboxRegistration :=
  registration toy_owner (toy_id 16 "n0") 1100.
Definition toy_send : SendRequest :=
  authorize (sender_capability toy_owner) toy_message toy_packet 5000.
Definition toy_fetch : FetchRequest :=
  authorize_fetch (receiver_capability toy_owner) (toy_id 16 "n1") 1200.
Definition toy_ack : AckRequest :=
  authorize_ack (receiver_capability toy_owner)
    (mkOpened (mkPlain 1 (toy_id 16 "conversation") toy_message 1000 "hello")
       (mkVerified (mo_queue_id toy_owner) toy_message toy_packet 5000)) 1200.
Definition toy_delete : DeleteMailboxRequest :=
  authorize_delete (manager_capability toy_owner) (toy_id 16 "n2") 1300.

Definition k_register : Call := mkCall (Register toy_registration) 1000 [].
Definition k_send : Call := mkCall (Enqueue toy_send) 1001 [].
Definition k_fetch : Call := mkCall (Fetch toy_fetch) 1002 [].
Definition k_ack : Call := mkCall (Acknowledge toy_ack) 1003 [].
Definition k_delete : Call := mkCall (DeleteMailbox toy_delete) 1004 [].

Definition s_registered : Relay := snd (run [k_register] fresh_relay).
Definition s_stored : Relay := snd (run [k_register; k_send] fresh_relay).

#[global] Instance toy_signature_eq_dec : EqDecision (@Ed25519Signature toy_crypto) :=
  array_eq_dec 64.
#[global] Instance toy_envelope_eq_dec : EqDecision (@StoredEnvelope toy_crypto).
Proof. solve_decision. Defined.
#[global] Instance toy_reply_eq_dec : EqDecision (@Reply toy_crypto).
Proof. solve_decision. Defined.

(** The replies along the scenario. *)
Example toy_replies :
  bool_decide (fst (run [k_register; k_send; k_send; k_fetch; k_fetch; k_ack; k_ack; k_send;
            k_delete; k_register] fresh_relay)
  = [Ok (Registered true); Ok (Enqueued Stored); Ok (Enqueued Duplicate);
     Ok (Fetched [mkStored (mo_queue_id toy_owner) toy_message toy_packet 5000
                    (sr_signature toy_send)]);
     Err Unauthorized; Ok (Acknowledged Deleted); Ok (Acknowledged AlreadyDeleted);
     Err MessageGone; Ok (MailboxDeleted true); Err MailboxConflict]) = true.
Proof. vm_compute. reflexivity. Qed.

(** Evaluation of a decidable statement about the scenario. *)
Ltac evaluate := unfold idle; refine (bool_decide_unpack _ _); vm_compute; exact I.

(** Evaluation of a clock condition. *)
Ltac solve_clock := repeat split; vm_compute; discriminate.

Lemma s_registered_wf : db_wf (disk (connection s_registered)).
Proof. apply (run_wf _ 0); [done|done|solve_clock|apply wf_empty]. Qed.

Lemma s_stored_wf : db_wf (disk (connection s_stored)).
Proof. apply (run_wf _ 0); [done|done|solve_clock|apply wf_empty]. Qed.

(** ** Witnesses *)

Definition k_again : Call := mkCall (Enqueue toy_send) 1010 [].
Definition k_late : Call := mkCall (Enqueue toy_send) 1005 [].
Definition k_refetch : Call := mkCall (Fetch toy_fetch) 1011 [].
Definition k_reregister : Call :=
  mkCall (Register (registration toy_owner (toy_id 16 "n9") 1100)) 1012 [].

Lemma send_stored_at_most_once_witness :
  fst (perform k_send s_registered) = Ok (Enqueued Stored) /\
  fst (perform k_again (snd (run [k_fetch; k_ack] (snd (perform k_send s_registered)))))
    <> Ok (Enqueued Stored).
Proof.
  split; [evaluate|].
  apply (send_stored_at_most_once s_registered 0 k_send [k_fetch; k_ack] k_again toy_send toy_send);
    [evaluate|solve_clock|done|done|done|evaluate].
Defined.

Lemma signed_request_used_once_witness :
  is_ok (fst (perform k_fetch s_stored)) = true /\
  exists err, fst (perform k_refetch (snd (run [k_ack] (snd (perform k_fetch s_stored))))) = Err err.
Proof.
  split; [evaluate|].
  apply (signed_request_used_once s_stored 0 k_fetch [k_ack] k_refetch
    (Fetched (match fst (perform k_fetch s_stored) with Ok (Fetched es) => es | _ => [] end)));
    [evaluate|solve_clock|done|].
  evaluate.
Defined.

Lemma deleted_mailbox_never_returns_witness :
  fst (perform k_delete s_stored) = Ok (MailboxDeleted true) /\
  exists err,
    fst (perform k_reregister (snd (run [k_late] (snd (perform k_delete s_stored))))) = Err err.
Proof.
  split; [evaluate|].
  apply (deleted_mailbox_never_returns s_stored 0 k_delete [k_late]
           k_reregister toy_delete (MailboxDeleted true));
    [evaluate|solve_clock|done|done|evaluate].
Defined.

Lemma effects_require_capability_witness :
  holds_capability (Enqueue toy_send) 1001 (disk (connection s_registered)).
Proof.
  apply (effects_require_capability k_send s_registered); [evaluate|].
  left. evaluate.
Defined.

(** Another mailbox. *)
Definition other_queue : QueueId := toy_id 32 "other".

Lemma queues_are_isolated_witness :
  same_queue (as_slice other_queue) (disk (connection s_registered))
    (disk (connection (snd (perform k_send s_registered)))) \/
  same_queue (as_slice other_queue) (sweep 1001 (disk (connection s_registered)))
    (disk (connection (snd (perform k_send s_registered)))).
Proof.
  apply (queues_are_isolated k_send s_registered other_queue); [evaluate|].
  by intros [= E].
Defined.

Lemma operations_refine_transitions_witness :
  let '(r, s') := exec (Enqueue toy_send) 1001 (load [IoOk; IoOk; IoErr] s_registered) in
  txn (connection s') = None.
Proof.
  pose proof (operations_refine_transitions (Enqueue toy_send) 1001
    (load [IoOk; IoOk; IoErr] s_registered) ltac:(evaluate)) as H.
  destruct (exec _ _ _) as [r s']. apply H.
Defined.

Lemma reachable_tables_well_formed_witness :
  db_wf (disk (connection (snd (run [k_register; k_send; k_fetch; k_ack] fresh_relay)))).
Proof. apply (reachable_tables_well_formed _ 0); [done|solve_clock]. Defined.

Lemma k_fetch_capability : holds_capability (Fetch toy_fetch) 1002 (disk (connection s_stored)).
Proof.
  destruct (perform k_fetch s_stored) as [r s'] eqn:P.
  assert (Hok : is_ok (fst (perform k_fetch s_stored)) = true) by (vm_compute; reflexivity).
  rewrite P in Hok. destruct r as [v|]; [|done].
  apply perform_ok in P as [_ [e H]]; [|evaluate]. exact (tx_holds_capability _ _ _ _ _ _ H).
Qed.

Lemma fetch_delivers_witness :
  exists es s', perform (mkCall (Fetch toy_fetch) 1002 []) s_stored = (Ok (Fetched es), s') /\
    length es = 1%nat.
Proof.
  destruct (fetch_delivers toy_fetch 1002 s_stored) as (es & s' & E & Hof & _);
    [evaluate|apply s_stored_wf|apply k_fetch_capability|done|done|evaluate|].
  exists es, s'. split; [exact E|]. apply Forall2_length in Hof. rewrite <- Hof.
  vm_compute. reflexivity.
Defined.

Lemma request_row_stored : request_row toy_send ∈ messages (disk (connection s_stored)).
Proof. evaluate. Qed.

Lemma message_removed_only_by_witness :
  mg_expires_at (request_row toy_send) <= 1003 \/
  removes (Acknowledge toy_ack) (request_row toy_send) /\
    holds_capability (Acknowledge toy_ack) 1003 (disk (connection s_stored)).
Proof.
  apply (message_removed_only_by k_ack s_stored (request_row toy_send));
    [evaluate|apply s_stored_wf|apply request_row_stored|evaluate].
Defined.

Lemma k_ack_capability :
  holds_capability (Acknowledge toy_ack) 1003 (disk (connection s_stored)).
Proof.
  destruct (perform k_ack s_stored) as [r s'] eqn:P.
  assert (Hok : is_ok (fst (perform k_ack s_stored)) = true) by (vm_compute; reflexivity).
  rewrite P in Hok. destruct r as [v|]; [|done].
  apply perform_ok in P as [_ [e H]]; [|evaluate]. exact (tx_holds_capability _ _ _ _ _ _ H).
Qed.

Lemma acknowledge_queued_witness :
  fst (perform (mkCall (Acknowledge toy_ack) 1003 []) s_stored) = Ok (Acknowledged Deleted).
Proof.
  pose proof (acknowledge_queued toy_ack 1003 s_stored (request_row toy_send)
    ltac:(evaluate) s_stored_wf k_ack_capability ltac:(done) ltac:(done) request_row_stored
    ltac:(done) ltac:(evaluate)) as H.
  destruct (perform _ s_stored) as [reply s'].
  rewrite bool_decide_true in H by evaluate. apply H.
Defined.

Lemma enqueue_retry_converges_witness :
  let '(reply1, s1) := perform (mkCall (Enqueue toy_send) 1001 [IoOk; IoErr]) s_registered in
  let '(reply2, s2) := perform (mkCall (Enqueue toy_send) 1010 []) s1 in
  exists row, rows_of (msg_key (request_row toy_send)) (disk (connection s2)) = [row].
Proof.
  pose proof (enqueue_retry_converges toy_send s_registered [IoOk; IoErr] 1001 1010
    (Enqueued Stored) ltac:(evaluate) (wf_nodup _ s_registered_wf) ltac:(evaluate)
    ltac:(done)) as H.
  destruct (perform (mkCall (Enqueue toy_send) 1001 _) _) as [reply1 s1].
  destruct (perform _ s1) as [reply2 s2]. destruct H as (_ & row & H & _). by exists row.
Defined.

Lemma acknowledge_retry_converges_witness :
  let '(reply1, s1) :=
    perform (mkCall (Acknowledge toy_ack) 1003 (replicate 9 IoOk ++ [IoLost])) s_stored in
  let '(reply2, s2) := perform (mkCall (Acknowledge toy_ack) 1010 []) s1 in
  buried toy_ack 1010 (disk (connection s2)).
Proof.
  pose proof (acknowledge_retry_converges toy_ack s_stored (replicate 9 IoOk ++ [IoLost]) 1003 1010
    (Acknowledged Deleted) ltac:(evaluate) s_stored_wf ltac:(evaluate) ltac:(done) ltac:(done)) as H.
  destruct (perform (mkCall (Acknowledge toy_ack) 1003 _) _) as [reply1 s1].
  destruct (perform _ s1) as [reply2 s2]. apply H.
  - intros d Hd.
    assert (E : tombstones (disk (connection s_stored))
      !! (as_slice (ar_queue_id toy_ack), as_slice (ar_message_id toy_ack)) = None) by evaluate.
    rewrite E in Hd. discriminate Hd.
  - intros row Hrow _.
    assert (E : messages (disk (connection s_stored)) = [request_row toy_send]) by evaluate.
    rewrite E in Hrow. apply list_elem_of_singleton in Hrow as ->. done.
Defined.

Lemma retention_is_bounded_witness :
  retained 1003 1003 (disk (connection (snd (perform k_ack (snd (run [k_register; k_send]
    fresh_relay)))))).
Proof.
  apply (retention_is_bounded [k_register; k_send] 0 k_ack (Acknowledged Deleted));
    [solve_clock|evaluate].
Defined.

Lemma stored_message_is_delivered_witness :
  exists es, fst (perform k_refetch (snd (run [k_late] (snd (perform k_send s_registered)))))
    = Ok (Fetched es) /\
  mkStored (sr_queue_id toy_send) (sr_message_id toy_send) (sr_packet toy_send)
    (sr_expires_at toy_send) (sr_signature toy_send) ∈ es.
Proof.
  set (es := match fst (perform k_refetch (snd (run [k_late] (snd (perform k_send s_registered)))))
             with Ok (Fetched es) => es | _ => [] end).
  assert (E : fst (perform k_refetch (snd (run [k_late] (snd (perform k_send s_registered)))))
    = Ok (Fetched es)) by evaluate.
  exists es. split; [exact E|].
  apply (stored_message_is_delivered s_registered 0 k_send [k_late] k_refetch toy_send toy_fetch);
    [evaluate|apply s_registered_wf|done|solve_clock|done|evaluate|by repeat constructor|done|done
    |done|exact E].
Defined.

Lemma owner_commands_carry_authority_witness :
  holds_capability (Enqueue toy_send) 1001 (disk (connection s_registered)).
Proof.
  apply (owner_commands_carry_authority toy_owner
    (registration_row toy_registration 1000) (CmdSend toy_send));
    [evaluate|done|apply auth_send|done].
Defined.

Lemma registration_binds_keys_witness :
  let '(reply, s1) :=
    perform (mkCall (Register (registration toy_owner (toy_id 16 "n0") 1100)) 1000 []) fresh_relay in
  reply = Ok (Registered true).
Proof.
  pose proof (registration_binds_keys toy_owner (toy_id 16 "n0") 1100 1000 fresh_relay
    ltac:(done) ltac:(done) ltac:(done) ltac:(done) ltac:(evaluate) ltac:(evaluate)
    ltac:(evaluate)) as H.
  destruct (perform _ _) as [reply s1]. apply H.
Defined.

(** ** Signed commands *)

Lemma signing_bytes_injective_witness :
  same_binding (CmdSend toy_send) (CmdSend (mkSend (sr_queue_id toy_send) (sr_message_id toy_send)
    (sr_packet toy_send) 5000 (toy_id 64 "another signature"))).
Proof. apply signing_bytes_injective; [done|done|reflexivity]. Defined.
