(* ===== verification/ServiceWitness.v ===== *)
(** * Mailboxes and processes: the theorems at concrete inputs

    Two mailboxes on one relay, an inbox of two messages read to the end, and two processes that
    send the same message at the same time. *)

From S2P Require Import Prelude Core Capability Sqlite RelayDb Relay.
From S2P Require Import RelayFacts RelayTx RelayInv RelayTrace ToyCrypto RelayTheorems.
From S2P Require Import RelayDelivery RelayRetry RelayRuns RelayExchange RelaySpec RelayBoxes.
From S2P Require Import RelayDrain RelayConcurrent RelayWitness.

#[local] Open Scope Z_scope.

(** ** Two mailboxes *)

Definition other_owner : MailboxOwner :=
  mkOwner (toy_id 32 "other") (toy_id 32 "send'") (toy_id 32 "receive'") (toy_id 32 "manage'").

Definition k_other : Call :=
  mkCall (Register (registration other_owner (toy_id 16 "n8") 1100)) 1000 [].
Definition k_second : Call :=
  mkCall (Enqueue (authorize (sender_capability toy_owner) (toy_id 16 "second")
                     (mkPacket (bstr "more")) 6000)) 1001 [].

Definition two_boxes : list Call := [k_register; k_other; k_send; k_second].

Lemma apart_self q c : command_queue c = Some q -> digest_apart q c.
Proof. intros E q' E' _. rewrite E in E'. by apply (inj Some) in E'. Qed.

Lemma two_boxes_apart : Forall (fun k => digest_apart (mo_queue_id toy_owner) (call_command k)) two_boxes.
Proof.
  repeat apply Forall_cons_2; try apply Forall_nil_2; try (by apply apart_self).
  intros q' E%(inj Some) H. subst q'.
  assert (N : digest (as_slice (mo_queue_id other_owner)) <> digest (as_slice (mo_queue_id toy_owner)))
    by evaluate. by destruct N.
Qed.

Lemma relay_implements_mailboxes_witness :
  exists b, box_trace empty_box
    [(k_register, Ok (Registered true)); (k_send, Ok (Enqueued Stored));
     (k_second, Ok (Enqueued Stored))] b.
Proof.
  pose proof (relay_implements_mailboxes two_boxes 0 (mo_queue_id toy_owner) ltac:(done)
    ltac:(solve_clock) two_boxes_apart) as H.
  rewrite (surjective_pairing (run two_boxes fresh_relay)) in H. destruct H as (b & Hb & _).
  exists b. 
  assert (E : fst (run two_boxes fresh_relay) =
    [Ok (Registered true); Ok (Registered true); Ok (Enqueued Stored); Ok (Enqueued Stored)])
    by evaluate.
  rewrite E in Hb. exact Hb.
Defined.

(** ** Reading to the end *)

Definition toy_opens (v : VerifiedEnvelope) : OpenedMessage :=
  mkOpened (mkPlain 1 (toy_id 16 "conversation") (ve_message_id v) 1000 "hello") v.

Definition drain_nonces : list Nonce := [toy_id 16 "d1"; toy_id 16 "d2"; toy_id 16 "d3"].

Lemma mailbox_drains_witness :
  exists s', drain toy_owner 1002 1200 toy_opens drain_nonces
      (load [] (snd (run two_boxes fresh_relay))) = (Ok 2%nat, s') /\
    deliverable (as_slice (mo_queue_id toy_owner)) 1002 (disk (connection s')) = [].
Proof.
  assert (E : length (deliverable (as_slice (mo_queue_id toy_owner)) 1002
    (disk (connection (snd (run two_boxes fresh_relay))))) = 2%nat) by evaluate.
  destruct (mailbox_drains two_boxes 0 toy_owner (registration_row toy_registration 1000) 1002 1200
    drain_nonces toy_opens) as (s' & H1 & H2).
  - lia.
  - solve_clock.
  - apply two_boxes_apart.
  - evaluate.
  - evaluate.
  - vm_compute. discriminate.
  - vm_compute. discriminate.
  - lia.
  - done.
  - evaluate.
  - evaluate.
  - rewrite E. simpl. lia.
  - exists s'. rewrite E in H1. split; [exact H1|exact H2].
Defined.

(** ** Two processes *)

Definition free_process : Process := mkProcess Free [].
Definition two_processes : gmap nat Process := <[0%nat := free_process]> {[ 1%nat := free_process ]}.

Lemma two_processes_free i p : two_processes !! i = Some p -> doing p = Free.
Proof.
  unfold two_processes. intros [[_ <-]|[_ [_ <-]%lookup_singleton_Some]]%lookup_insert_Some; done.
Qed.

(** The second process times out on the lock once, and tries again after the first is done. *)
Definition race : list Action :=
  [DoCall 0 k_send; DoCall 1 k_send; DoOpen 0; DoOpen 1; DoReturn 1; DoWork 0; DoCall 1 k_send;
   DoOpen 1; DoReturn 0; DoWork 1; DoReturn 1].

Definition race_result : list Event * System :=
  default ([], opened (disk (connection s_registered)) two_processes)
    (schedule race (opened (disk (connection s_registered)) two_processes)).

Lemma race_runs :
  match schedule race (opened (disk (connection s_registered)) two_processes) with
  | Some _ => true
  | None => false
  end = true.
Proof. vm_compute. reflexivity. Qed.

Lemma race_scheduled :
  schedule race (opened (disk (connection s_registered)) two_processes)
    = Some (fst race_result, snd race_result).
Proof.
  unfold race_result. pose proof race_runs as H.
  destruct (schedule race _) as [[es s]|]; [reflexivity|discriminate H].
Qed.

Lemma race_steps :
  sys_steps (opened (disk (connection s_registered)) two_processes) (fst race_result) (snd race_result).
Proof. apply (schedule_steps race), race_scheduled. Qed.

Lemma concurrent_calls_linearize_witness :
  snd <$> finished (fst race_result) = [Ok (Enqueued Stored); Ok (Enqueued Duplicate)] /\
  fst (run (fst <$> finished (fst race_result)) (at_rest (disk (connection s_registered)) []))
    = [Ok (Enqueued Stored); Ok (Enqueued Duplicate)].
Proof.
  assert (E : snd <$> finished (fst race_result) = [Ok (Enqueued Stored); Ok (Enqueued Duplicate)])
    by evaluate.
  destruct (concurrent_calls_linearize _ _ _ _ two_processes_free race_steps) as [H _].
  split; [exact E|]. destruct (run _ _) as [rs s']. destruct H as [-> _]. exact E.
Defined.

(** Three sends for one identifier, with clocks that disagree: the first fails in its sweep, the
    second loses the answer to its commit, the third finds the message there. *)
Definition sends_at (t : Z) (fs : list io) : Call := mkCall (Enqueue toy_send) t fs.

Definition contest : list Action :=
  [DoCall 0 (sends_at 1003 [IoOk; IoOk; IoErr]); DoCall 1 (sends_at 1001 []); DoOpen 0; DoWork 0;
   DoReturn 0; DoCall 0 (sends_at 1002 (repeat IoOk 9 ++ [IoLost])); DoOpen 0; DoWork 0; DoOpen 1;
   DoWork 1; DoReturn 1; DoReturn 0].

Definition contest_result : list Event * System :=
  default ([], opened (disk (connection s_registered)) two_processes)
    (schedule contest (opened (disk (connection s_registered)) two_processes)).

Lemma contest_runs :
  match schedule contest (opened (disk (connection s_registered)) two_processes) with
  | Some _ => true
  | None => false
  end = true.
Proof. vm_compute. reflexivity. Qed.

Lemma contest_scheduled :
  schedule contest (opened (disk (connection s_registered)) two_processes)
    = Some (fst contest_result, snd contest_result).
Proof.
  unfold contest_result. pose proof contest_runs as H.
  destruct (schedule contest _) as [[es s]|]; [reflexivity|discriminate H].
Qed.

(** Each of them is acceptable by itself. *)
Lemma contest_competes t fs :
  1001 <= t <= 1003 ->
  competes (disk (connection s_registered)) (mo_queue_id toy_owner) toy_message 1001 1003
    (sends_at t fs) toy_send.
Proof.
  intros Ht. split; [reflexivity|]. split; [exact Ht|].
  assert (Hx : 1003 < sr_expires_at toy_send) by (vm_compute; reflexivity).
  split; [exact Hx|]. split; [reflexivity|]. split; [reflexivity|].
  apply (admissible_later _ 1001); [|simpl; lia].
  destruct (perform k_send s_registered) as [r s'] eqn:P.
  assert (Hok : is_ok (fst (perform k_send s_registered)) = true) by (vm_compute; reflexivity).
  rewrite P in Hok. destruct r as [v|]; [|done].
  apply perform_ok in P as [_ [e H]]; [|evaluate].
  exact (enqueue_tx_admissible toy_send 1001 (disk (connection s_registered)) v e _ H).
Qed.

Lemma contest_invokes i k :
  Invoke i k ∈ fst contest_result ->
  exists r, competes (disk (connection s_registered)) (mo_queue_id toy_owner) toy_message 1001 1003 k r.
Proof.
  intros H. exists toy_send.
  apply (schedule_invokes _ _ _ _ _ _ contest_scheduled) in H. unfold contest in H.
  repeat (apply elem_of_cons in H as [H|H];
    [first [discriminate H|injection H as _ ->; apply contest_competes; lia]|]).
  by apply not_elem_of_nil in H.
Qed.

Lemma concurrent_sends_store_one_witness :
  snd <$> finished (fst contest_result) = [Err Storage; Err Storage; Ok (Enqueued Duplicate)] /\
  exists w, rows_of (as_slice (mo_queue_id toy_owner), as_slice toy_message)
    (sweep 1002 (file (snd contest_result))) = [request_row w].
Proof.
  assert (E : snd <$> finished (fst contest_result)
    = [Err Storage; Err Storage; Ok (Enqueued Duplicate)]) by evaluate.
  split; [exact E|].
  destruct (concurrent_sends_store_one (disk (connection s_registered)) (mo_queue_id toy_owner)
    toy_message 1001 1003 two_processes (fst contest_result) (snd contest_result))
    as [[H _]|(before & k & w & reply & after & _ & _ & _ & _ & _ & H)].
  - exact two_processes_free.
  - exact (schedule_steps contest _ _ _ contest_scheduled).
  - exact contest_invokes.
  - evaluate.
  - evaluate.
  - exfalso. destruct (finished (fst contest_result)) as [|x [|y [|z l]]]; try discriminate E.
    injection E as _ _ E _. apply Forall_cons in H as [_ H]. apply Forall_cons in H as [_ H].
    apply Forall_cons in H as [[_ H] _]. rewrite H in E. discriminate E.
  - exists w. apply H. lia.
Defined.
