(* ===== verification/Client.v ===== *)
(** * The endpoint: [src/client.rs]

    One device, one peer: a contact bundle and its verification, and the client that seals and
    opens messages over an Olm session. The Olm implementation ([vodozemac]) and the JSON codec
    ([serde_json]) are not part of the repository: they are the operations of the class
    [OlmOps], with the documented behaviour the end-to-end theorems rely on in [OlmLaws]. *)

From S2P Require Import Prelude Core Capability.

Definition PAYLOAD_VERSION : Z := 1.
Definition CONTACT_BUNDLE_MAX_VALIDITY_SECONDS : Z := 5 * 60.

(** [vodozemac::olm] and [serde_json]. Randomness a call draws is an explicit argument. *)
Class OlmOps `{CryptoOps} : Type := {
  Account : Type;
  Session : Type;
  AccountPickle : Type;
  SessionPickle : Type;
  Entropy : Type;
  Curve25519PublicKey : Type;
  PreKeyMessage : Type;
  NormalMessage : Type;
  curve_as_bytes : Curve25519PublicKey -> array 32;
  account_new : Entropy -> Account;
  generate_one_time_keys : Entropy -> Account -> Account;
  (** The values of the map of unpublished one-time keys, in its iteration order. *)
  one_time_keys : Account -> list Curve25519PublicKey;
  mark_keys_as_published : Account -> Account;
  ed25519_key : Account -> Ed25519PublicKey;
  curve25519_key : Account -> Curve25519PublicKey;
  account_sign : Account -> list byte -> Ed25519Signature;
  account_pickle : Account -> AccountPickle;
  account_from_pickle : AccountPickle -> Account;
  session_pickle : Session -> SessionPickle;
  session_from_pickle : SessionPickle -> Session;
  create_outbound_session :
    Entropy -> Account -> Curve25519PublicKey -> Curve25519PublicKey -> option Session;
  (** The account after the call, the new session and the first plaintext. *)
  create_inbound_session :
    Account -> Curve25519PublicKey -> PreKeyMessage -> option (Account * Session * list byte);
  (** A message, or [None], and the session after the call. *)
  session_encrypt : Entropy -> Session -> list byte -> option (NormalMessage + PreKeyMessage) * Session;
  session_decrypt : Session -> NormalMessage + PreKeyMessage -> option (list byte) * Session;
  olm_to_json : NormalMessage + PreKeyMessage -> option (list byte);
  olm_from_json : list byte -> option (NormalMessage + PreKeyMessage);
  plain_to_json : PlainMessage -> option (list byte);
  plain_from_json : list byte -> option PlainMessage;
}.

Section Client.
Context `{Lib : CryptoOps} {Olm : OlmOps}.

(** ** Contact bundles *)

Record PeerPreKey : Type := mkPeer {
  pp_signing_identity : Ed25519PublicKey;
  pp_curve_identity : Curve25519PublicKey;
  pp_one_time_key : Curve25519PublicKey;
  pp_valid_until : Z;
  pp_signature : Ed25519Signature;
}.

Record VerifiedPeerPreKey : Type := mkVerifiedPeer {
  vp_signing_identity : Ed25519PublicKey;
  vp_curve_identity : Curve25519PublicKey;
  vp_one_time_key : Curve25519PublicKey;
  vp_valid_until : Z;
}.

Definition peer_prekey_signing_bytes (signing_identity : Ed25519PublicKey)
    (curve_identity one_time_key : Curve25519PublicKey) (valid_until : Z) : list byte :=
  canonical CONTACT_BUNDLE_ACTION
    [as_slice (pk_as_bytes signing_identity); as_slice (curve_as_bytes curve_identity);
     as_slice (curve_as_bytes one_time_key); u64_be valid_until].

(** [PeerPreKey::signing_bytes] *)
Definition peer_signing_bytes (self : PeerPreKey) : list byte :=
  peer_prekey_signing_bytes (pp_signing_identity self) (pp_curve_identity self)
    (pp_one_time_key self) (pp_valid_until self).

(** [PeerPreKey::verify] *)
Definition peer_verify (self : PeerPreKey) (pinned_signing_identity : Ed25519PublicKey)
    (now : Z) : Result VerifiedPeerPreKey :=
  if negb (bool_decide (pp_signing_identity self = pinned_signing_identity))
     || (pp_valid_until self <=? now)
     || (saturating_add now CONTACT_BUNDLE_MAX_VALIDITY_SECONDS <? pp_valid_until self)
  then Err PeerVerificationFailed
  else
    result_guard (verify pinned_signing_identity (peer_signing_bytes self) (pp_signature self))
      PeerVerificationFailed;;
    mret (mkVerifiedPeer (pp_signing_identity self) (pp_curve_identity self)
            (pp_one_time_key self) (pp_valid_until self)).

(** ** The client *)

Record OlmClient : Type := mkClient {
  account : Account;
  session : option Session;
  conversation_id : ConversationId;
  displayed_messages : gset (list byte);
}.

Abbreviation ClientM := (SM OlmClient LabError).

Definition set_account a c :=
  mkClient a (session c) (conversation_id c) (displayed_messages c).
Definition set_session s c :=
  mkClient (account c) s (conversation_id c) (displayed_messages c).
Definition display (m : MessageId) c :=
  mkClient (account c) (session c) (conversation_id c) ({[ as_slice m ]} ∪ displayed_messages c).

(** [OlmClient::new]; [e] is the randomness of [Account::new()]. *)
Definition new (e : Entropy) (conversation_id : ConversationId) : OlmClient :=
  mkClient (account_new e) None conversation_id ∅.

(** [OlmClient::curve_identity], [OlmClient::signing_identity] *)
Definition curve_identity (c : OlmClient) : Curve25519PublicKey := curve25519_key (account c).
Definition signing_identity (c : OlmClient) : Ed25519PublicKey := ed25519_key (account c).

(** [OlmClient::prekey_bundle] *)
Definition prekey_bundle (e : Entropy) (valid_until : Z) : ClientM PeerPreKey :=
  sm_modify (fun c => set_account (generate_one_time_keys e (account c)) c);;
  c ← sm_get;
  one_time_key ← sm_lift (ok_or Crypto (head (one_time_keys (account c))));
  let signing_identity := ed25519_key (account c) in
  let curve_identity := curve25519_key (account c) in
  let signature :=
    account_sign (account c)
      (peer_prekey_signing_bytes signing_identity curve_identity one_time_key valid_until) in
  let bundle := mkPeer signing_identity curve_identity one_time_key valid_until signature in
  sm_modify (fun c => set_account (mark_keys_as_published (account c)) c);;
  mret bundle.

(** [OlmClient::start_outbound_session] *)
Definition start_outbound_session (e : Entropy) (peer : VerifiedPeerPreKey) (now : Z)
    : ClientM unit :=
  c ← sm_get;
  sm_guard (bool_decide (session c = None)) SessionAlreadyExists;;
  sm_guard (negb (vp_valid_until peer <=? now)) PeerVerificationFailed;;
  s ← sm_lift (ok_or Crypto (create_outbound_session e (account c) (vp_curve_identity peer)
                               (vp_one_time_key peer)));
  sm_modify (set_session (Some s)).

(** [OlmClient::seal]; [message_id] is the value [MessageId::random()] draws. The session is
    borrowed mutably: it keeps what the encryption did to it also when a later step fails. *)
Definition seal (e : Entropy) (message_id : MessageId) (body : string) (sent_at : Z)
    : ClientM (MessageId * EncryptedPacket) :=
  c ← sm_get;
  let plaintext := mkPlain PAYLOAD_VERSION (conversation_id c) message_id sent_at body in
  encoded ← sm_lift (ok_or Encoding (plain_to_json plaintext));
  s ← sm_lift (ok_or MissingSession (session c));
  let '(encrypted, s') := session_encrypt e s encoded in
  sm_modify (set_session (Some s'));;
  encrypted ← sm_lift (ok_or Crypto encrypted);
  packet ← sm_lift (ok_or Encoding (olm_to_json encrypted));
  mret (message_id, mkPacket packet).

(** [OlmClient::validate_plaintext] *)
Definition validate_plaintext (c : OlmClient) (plaintext : list byte)
    (outer_message_id : MessageId) : Result PlainMessage :=
  message ← ok_or InvalidPayload (plain_from_json plaintext);
  result_guard (pm_version message =? PAYLOAD_VERSION) InvalidPayload;;
  result_guard (bool_decide (pm_conversation_id message = conversation_id c))
    WrongConversation;;
  result_guard (bool_decide (pm_message_id message = outer_message_id)) MessageIdMismatch;;
  result_guard (bool_decide (as_slice (pm_message_id message) ∉ displayed_messages c))
    DuplicateMessage;;
  mret message.

(** [OlmClient::open_initial] *)
Definition open_initial (envelope : VerifiedEnvelope) (expected_sender : VerifiedPeerPreKey)
    (now : Z) : ClientM OpenedMessage :=
  c ← sm_get;
  sm_guard (bool_decide (session c = None)) SessionAlreadyExists;;
  sm_guard (negb (ve_expires_at envelope <=? now)) Unauthorized;;
  olm_message ← sm_lift (ok_or Encoding (olm_from_json (packet_bytes (ve_packet envelope))));
  pre_key ← sm_lift (match olm_message with
                     | inr pre_key => Ok pre_key
                     | inl _ => Err ExpectedPreKey
                     end);
  let candidate := account_from_pickle (account_pickle (account c)) in
  inbound ← sm_lift (ok_or Crypto (create_inbound_session candidate
                                     (vp_curve_identity expected_sender) pre_key));
  let '(candidate, s, bytes) := inbound in
  plaintext ← sm_lift (validate_plaintext c bytes (ve_message_id envelope));
  sm_modify (set_account candidate);;
  sm_modify (set_session (Some s));;
  sm_modify (display (pm_message_id plaintext));;
  mret (mkOpened plaintext envelope).

(** [OlmClient::open] *)
Definition open (envelope : VerifiedEnvelope) (now : Z) : ClientM OpenedMessage :=
  c ← sm_get;
  sm_guard (negb (ve_expires_at envelope <=? now)) Unauthorized;;
  olm_message ← sm_lift (ok_or Encoding (olm_from_json (packet_bytes (ve_packet envelope))));
  s ← sm_lift (ok_or MissingSession (session c));
  let '(plaintext, candidate) :=
    session_decrypt (session_from_pickle (session_pickle s)) olm_message in
  plaintext ← sm_lift (ok_or Crypto plaintext);
  message ← sm_lift (validate_plaintext c plaintext (ve_message_id envelope));
  sm_modify (set_session (Some candidate));;
  sm_modify (display (pm_message_id message));;
  mret (mkOpened message envelope).

End Client.

Abbreviation ClientM := (SM OlmClient LabError).
