(* ===== verification/ClientFacts.v ===== *)
(** * Properties of the endpoint

    Staging of rejected packets, binding of opened messages, at-most-once display, fail-closed
    sealing, one session per client, and contact-bundle verification. *)

From S2P Require Import Prelude Core Capability Client.

(** Documented behaviour of the libraries behind [OlmOps]: encodings of keys are injective, an
    account's signature verifies under its identity key, a pickle restores what was pickled,
    and JSON that was produced parses back. *)
Class OlmLaws `{OlmOps} : Prop := {
  curve_as_bytes_inj : forall k1 k2, curve_as_bytes k1 = curve_as_bytes k2 -> k1 = k2;
  account_sign_verifies : forall a m, verify (ed25519_key a) m (account_sign a m) = true;
  account_pickle_restores : forall a, account_from_pickle (account_pickle a) = a;
  session_pickle_restores : forall s, session_from_pickle (session_pickle s) = s;
  plain_json_restores : forall m b, plain_to_json m = Some b -> plain_from_json b = Some m;
  olm_json_restores : forall m b, olm_to_json m = Some b -> olm_from_json b = Some m;
}.

Section ClientFacts.
Context `{Lib : CryptoOps} {Olm : OlmOps}.

(** ** Payload checks *)

Definition well_bound (c : OlmClient) (m : MessageId) (p : PlainMessage) : Prop :=
  pm_version p = PAYLOAD_VERSION /\ pm_conversation_id p = conversation_id c /\
  pm_message_id p = m /\ as_slice m ∉ displayed_messages c.

Lemma validate_plaintext_ok c bytes m p :
  validate_plaintext c bytes m = Ok p <-> plain_from_json bytes = Some p /\ well_bound c m p.
Proof.
  unfold validate_plaintext, well_bound. split.
  - intros H. inv_ok H. injection H as <-. apply Z.eqb_eq in Hv0.
    apply bool_decide_eq_true in Hv1, Hv2, Hv3. subst. done.
  - intros (-> & Hv & Hc & <- & Hd). simpl. rewrite (proj2 (Z.eqb_eq _ _) Hv), !bool_decide_true by done.
    done.
Qed.

(** ** Opening *)

Lemma open_cases env now c :
  (exists om s s' b, open env now c = (Ok om, display (ve_message_id env) (set_session (Some s') c)) /\
     session c = Some s /\ now < ve_expires_at env /\ om_envelope om = env /\
     (exists msg, olm_from_json (packet_bytes (ve_packet env)) = Some msg /\
        session_decrypt (session_from_pickle (session_pickle s)) msg = (Some b, s')) /\
     plain_from_json b = Some (om_message om) /\
     well_bound c (ve_message_id env) (om_message om))
  \/ exists e, open env now c = (Err e, c).
Proof.
  unfold open, mbind, SM_bind, sm_get, sm_guard, sm_lift, sm_modify, sm_throw, mret, SM_ret.
  destruct (Z.leb_spec (ve_expires_at env) now); simpl; [by eauto|].
  destruct (olm_from_json _) as [msg|] eqn:Ej; simpl; [|by eauto].
  destruct (session c) as [s|] eqn:Es; simpl; [|by eauto].
  destruct (session_decrypt _ msg) as [[b|] s'] eqn:Ed; simpl; [|by eauto].
  destruct (validate_plaintext _ _ _) as [p|] eqn:Ev; simpl; [|by eauto].
  apply validate_plaintext_ok in Ev as (Ep & Hb).
  left. eexists _, s, s', b. split.
  - do 2 f_equal. destruct Hb as (_ & _ & -> & _). reflexivity.
  - simpl. split; [done|]. split; [done|]. split; [done|]. split; [by eexists|]. done.
Qed.

Lemma open_initial_cases env peer now c :
  (exists om a s b, open_initial env peer now c =
       (Ok om, display (ve_message_id env) (set_session (Some s) (set_account a c))) /\
     session c = None /\ now < ve_expires_at env /\ om_envelope om = env /\
     (exists pk, olm_from_json (packet_bytes (ve_packet env)) = Some (inr pk) /\
        create_inbound_session (account_from_pickle (account_pickle (account c)))
          (vp_curve_identity peer) pk = Some (a, s, b)) /\
     plain_from_json b = Some (om_message om) /\
     well_bound c (ve_message_id env) (om_message om))
  \/ exists e, open_initial env peer now c = (Err e, c).
Proof.
  unfold open_initial, mbind, SM_bind, sm_get, sm_guard, sm_lift, sm_modify, sm_throw, mret, SM_ret.
  destruct (bool_decide (session c = None)) eqn:Es; simpl; [|by eauto].
  apply bool_decide_eq_true in Es.
  destruct (Z.leb_spec (ve_expires_at env) now); simpl; [by eauto|].
  destruct (olm_from_json _) as [[msg|pk]|] eqn:Ej; simpl; [by eauto| |by eauto].
  destruct (create_inbound_session _ _ _) as [[[a s] b]|] eqn:Ec; simpl; [|by eauto].
  destruct (validate_plaintext _ _ _) as [p|] eqn:Ev; simpl; [|by eauto].
  apply validate_plaintext_ok in Ev as (Ep & Hb).
  left. eexists _, a, s, b. split.
  - do 2 f_equal. destruct Hb as (_ & _ & -> & _). reflexivity.
  - simpl. split; [done|]. split; [done|]. split; [done|]. split; [by eexists|]. done.
Qed.

(** ** The operations as one type *)

Inductive ClientCall : Type :=
  | PrekeyBundle (e : Entropy) (valid_until : Z)
  | StartOutbound (e : Entropy) (peer : VerifiedPeerPreKey) (now : Z)
  | Seal (e : Entropy) (m : MessageId) (body : string) (sent_at : Z)
  | OpenInitial (env : VerifiedEnvelope) (peer : VerifiedPeerPreKey) (now : Z)
  | Open (env : VerifiedEnvelope) (now : Z).

Inductive ClientReply : Type :=
  | Bundle (p : PeerPreKey)
  | Started
  | Sealed (m : MessageId) (p : EncryptedPacket)
  | Opened (om : OpenedMessage).

Definition client_exec (k : ClientCall) : ClientM ClientReply :=
  match k with
  | PrekeyBundle e t => p ← prekey_bundle e t; mret (Bundle p)
  | StartOutbound e peer now => start_outbound_session e peer now;; mret Started
  | Seal e m body t => '(m, p) ← seal e m body t; mret (Sealed m p)
  | OpenInitial env peer now => om ← open_initial env peer now; mret (Opened om)
  | Open env now => om ← open env now; mret (Opened om)
  end.

Fixpoint client_run (ks : list ClientCall) (c : OlmClient) : list (Result ClientReply) * OlmClient :=
  match ks with
  | [] => ([], c)
  | k :: ks => let '(r, c1) := client_exec k c in
               let '(rs, c2) := client_run ks c1 in (r :: rs, c2)
  end.

(** C29. A rejected packet changes nothing: when [open] or [open_initial] fails, for whatever
    reason and at whatever step, the account, the session, the conversation and the set of
    displayed messages are exactly what they were, so no one-time key is consumed and no
    ratchet advances. *)
Theorem rejected_open_changes_nothing k c e c' :
  match k with Open _ _ | OpenInitial _ _ _ => True | _ => False end ->
  client_exec k c = (Err e, c') -> c' = c.
Proof.
  destruct k as [| | |env peer now|env now]; try done; intros _; simpl;
    unfold mbind, SM_bind.
  - destruct (open_initial_cases env peer now c) as [(om & a & s & b & -> & _)|[e' ->]];
      [done|by intros [= _ <-]].
  - destruct (open_cases env now c) as [(om & s & s' & b & -> & _)|[e' ->]];
      [done|by intros [= _ <-]].
Qed.

(** The envelope and clock of a call that opens. *)
Definition opening (k : ClientCall) : option (VerifiedEnvelope * Z) :=
  match k with
  | OpenInitial env _ now | Open env now => Some (env, now)
  | _ => None
  end.

Lemma opened_call k c om c' :
  client_exec k c = (Ok (Opened om), c') ->
  exists env now, opening k = Some (env, now) /\ now < ve_expires_at env /\
    om_envelope om = env /\ well_bound c (ve_message_id env) (om_message om) /\
    displayed_messages c' = {[ as_slice (ve_message_id env) ]} ∪ displayed_messages c.
Proof.
  destruct k as [e t|e p now|e m body t|env peer now|env now]; simpl; unfold mbind, SM_bind.
  - by destruct (prekey_bundle e t c) as [[]].
  - by destruct (start_outbound_session e p now c) as [[]].
  - by destruct (seal e m body t c) as [[[]|]].
  - destruct (open_initial_cases env peer now c)
      as [(om' & a & s & b & -> & _ & Hx & He & _ & _ & Hb)|[e' ->]]; [|done].
    intros [= -> <-]. exists env, now. by rewrite He.
  - destruct (open_cases env now c)
      as [(om' & s & s' & b & -> & _ & Hx & He & _ & _ & Hb)|[e' ->]]; [|done].
    intros [= -> <-]. exists env, now. by rewrite He.
Qed.

(** What is displayed is bound to its envelope: an opened message comes from an unexpired
    envelope, is returned together with exactly that envelope, has the supported version, the
    client's conversation and the envelope's message identifier, and had not been displayed
    before. *)
Theorem opened_message_is_bound k c om c' :
  client_exec k c = (Ok (Opened om), c') ->
  exists env now, opening k = Some (env, now) /\ now < ve_expires_at env /\
    om_envelope om = env /\ well_bound c (ve_message_id env) (om_message om).
Proof.
  intros (env & now & H1 & H2 & H3 & H4 & _)%opened_call. eauto 6.
Qed.

(** ** What the other operations touch *)

Lemma prekey_bundle_frame e t c : exists a, snd (prekey_bundle e t c) = set_account a c.
Proof.
  unfold prekey_bundle, mbind, SM_bind, sm_get, sm_lift, sm_modify, mret, SM_ret.
  destruct (head _); simpl; eauto.
Qed.

Lemma start_outbound_cases e peer now c :
  (exists s, start_outbound_session e peer now c = (Ok tt, set_session (Some s) c) /\
     session c = None /\ now < vp_valid_until peer) \/
  exists err, start_outbound_session e peer now c = (Err err, c).
Proof.
  unfold start_outbound_session, mbind, SM_bind, sm_get, sm_guard, sm_lift, sm_modify, sm_throw,
    mret, SM_ret.
  destruct (bool_decide (session c = None)) eqn:Es; simpl; [|by eauto].
  apply bool_decide_eq_true in Es. destruct (Z.leb_spec (vp_valid_until peer) now); simpl; [by eauto|].
  destruct (create_outbound_session _ _ _ _); simpl; eauto 6.
Qed.

(** [seal] on every branch. *)
Lemma seal_cases e m body t c :
  let plain := mkPlain PAYLOAD_VERSION (conversation_id c) m t body in
  (session c = None /\ exists err, seal e m body t c = (Err err, c)) \/
  (exists s, session c = Some s /\ seal e m body t c = (Err Encoding, c)) \/
  (exists s encoded o s' r, session c = Some s /\ plain_to_json plain = Some encoded /\
     session_encrypt e s encoded = (o, s') /\
     seal e m body t c = (r, set_session (Some s') c) /\
     forall v, r = Ok v -> exists msg packet, o = Some msg /\ olm_to_json msg = Some packet /\
       v = (m, mkPacket packet)).
Proof.
  simpl. unfold seal, mbind, SM_bind, sm_get, sm_lift, sm_modify, mret, SM_ret.
  destruct (plain_to_json _) as [encoded|]; destruct (session c) as [s|]; simpl; eauto 6.
  right. right. destruct (session_encrypt e s encoded) as [o s'] eqn:Ee.
  exists s, encoded, o, s'.
  destruct o as [msg|]; simpl; [destruct (olm_to_json msg) as [packet|] eqn:Ej; simpl|];
    eexists; (do 4 (split; [done|])); intros v [= <-]. eauto.
Qed.

(** Everything a call may do to the session and the displayed identifiers. *)
Lemma client_exec_frame k c :
  let c' := snd (client_exec k c) in
  conversation_id c' = conversation_id c /\
  (session c' = session c \/ is_Some (session c')) /\
  ((exists om, fst (client_exec k c) = Ok (Opened om)) \/
   displayed_messages c' = displayed_messages c).
Proof.
  destruct k as [e t|e p now|e m body t|env peer now|env now]; simpl; unfold mbind, SM_bind.
  - destruct (prekey_bundle_frame e t c) as [a Ha].
    destruct (prekey_bundle e t c) as [[] c']; simpl in *; subst; simpl; auto.
  - destruct (start_outbound_cases e p now c) as [(s & -> & _)|[err ->]]; simpl; eauto.
  - destruct (seal_cases e m body t c)
      as [(_ & err & ->)|[(s & _ & ->)|(s & enc & o & s' & r & _ & _ & _ & -> & _)]];
      simpl; auto. destruct r as [[]|]; simpl; eauto.
  - destruct (open_initial_cases env peer now c) as [(om & a & s & b & -> & _)|[e' ->]]; simpl; eauto 6.
  - destruct (open_cases env now c) as [(om & s & s' & b & -> & _)|[e' ->]]; simpl; eauto 6.
Qed.

(** ** At most once *)

(** The identifiers of the messages a run opened, in order. *)
Definition opened_ids (rs : list (Result ClientReply)) : list (list byte) :=
  flat_map (fun r => match r with
                     | Ok (Opened om) => [as_slice (pm_message_id (om_message om))]
                     | _ => []
                     end) rs.

(** C30. A message is displayed at most once: in any sequence of client operations, the
    identifiers of the opened messages are pairwise distinct, and distinct from those displayed
    before it; all of them are remembered. *)
Theorem message_displayed_at_most_once ks c :
  let '(rs, c') := client_run ks c in
  NoDup (opened_ids rs) /\
  (forall m, m ∈ opened_ids rs -> m ∉ displayed_messages c) /\
  (forall m, m ∈ displayed_messages c' <-> m ∈ displayed_messages c \/ m ∈ opened_ids rs).
Proof.
  revert c. induction ks as [|k ks IH]; intros c; simpl.
  { split; [constructor|]. split; [by intros m ?%not_elem_of_nil|].
    intros m. rewrite elem_of_nil. tauto. }
  pose proof (client_exec_frame k c) as (_ & _ & Hf).
  pose proof (opened_call k c) as Ho.
  destruct (client_exec k c) as [r c1]. specialize (IH c1). simpl in Hf.
  destruct (client_run ks c1) as [rs c2]. destruct IH as (Hnd & Hnew & Hmem).
  destruct r as [[p| |m p|om]|e];
    [destruct Hf as [[om [=]]|Hf]; simpl; rewrite Hf in *; done..| |
     destruct Hf as [[om [=]]|Hf]; simpl; rewrite Hf in *; done].
  destruct (Ho om c1 eq_refl) as (env & now & _ & _ & _ & (_ & _ & Em & Hfresh) & Hd).
  simpl. rewrite Em. set (m0 := as_slice (ve_message_id env)) in *.
  split; [|split].
  - apply NoDup_cons. split; [|done]. intros Hin. apply Hnew in Hin. rewrite Hd in Hin. set_solver.
  - intros m [->|Hin]%elem_of_cons; [done|]. apply Hnew in Hin. rewrite Hd in Hin. set_solver.
  - intros m. rewrite Hmem, Hd, elem_of_cons. set_solver.
Qed.

(** Sealing fails closed: without a session no packet is ever produced and the client does
    not change; a packet that is produced is the encoding of the session's encryption of
    exactly the payload with this version, conversation, identifier, time and body. *)
Theorem seal_fails_closed e m body t c :
  match seal e m body t c with
  | (Ok (m', p), c') =>
      m' = m /\ exists s encoded msg s',
        session c = Some s /\
        plain_to_json (mkPlain PAYLOAD_VERSION (conversation_id c) m t body) = Some encoded /\
        session_encrypt e s encoded = (Some msg, s') /\
        olm_to_json msg = Some (packet_bytes p) /\ c' = set_session (Some s') c
  | (Err _, c') => session c = None -> c' = c
  end.
Proof.
  destruct (seal_cases e m body t c)
    as [(_ & err & ->)|[(s & _ & ->)|(s & enc & o & s' & r & Es & Ep & Ee & -> & Hr)]]; [done..|].
  destruct r as [[m' p]|]; [|congruence].
  destruct (Hr _ eq_refl) as (msg & packet & -> & Ej & [= -> ->]).
  split; [done|]. by exists s, enc, msg, s'.
Qed.

(** A call that established a session. *)
Definition establishes (k : ClientCall) (r : Result ClientReply) : bool :=
  match k, r with
  | StartOutbound _ _ _, Ok _ | OpenInitial _ _ _, Ok _ => true
  | _, _ => false
  end.

Lemma establishes_session k c :
  establishes k (fst (client_exec k c)) = true ->
  session c = None /\ is_Some (session (snd (client_exec k c))).
Proof.
  destruct k as [| e p now| |env peer now|]; try done; simpl; unfold mbind, SM_bind.
  - destruct (start_outbound_cases e p now c) as [(s & -> & Hs & _)|[err ->]]; simpl; [eauto|done].
  - destruct (open_initial_cases env peer now c) as [(om & a & s & b & -> & Hs & _)|[e' ->]];
      simpl; [eauto|done].
Qed.

(** A client establishes at most one session, and never loses it: in any sequence of
    operations at most one call establishes a session, none does if one already exists, and
    once there is a session there is one at the end. *)
Theorem session_established_at_most_once ks c :
  let '(rs, c') := client_run ks c in
  let n := length (filter (fun kr => establishes kr.1 kr.2 = true) (zip ks rs)) in
  (is_Some (session c) -> n = 0%nat) /\ (n <= 1)%nat /\
  (is_Some (session c) \/ (0 < n)%nat -> is_Some (session c')).
Proof.
  revert c. induction ks as [|k ks IH]; intros c; simpl.
  { split; [done|]. split; [lia|]. intros [|]; [done|lia]. }
  pose proof (client_exec_frame k c) as (_ & Hs & _). pose proof (establishes_session k c) as He.
  destruct (client_exec k c) as [r c1]. specialize (IH c1). simpl in Hs, He.
  destruct (client_run ks c1) as [rs c2]. destruct IH as (H0 & H1 & H2).
  rewrite filter_cons. simpl. destruct (decide (establishes k r = true)) as [Hk|Hk]; simpl.
  - destruct (He Hk) as [Hn Hc1]. specialize (H0 Hc1). rewrite H0.
    split; [by rewrite Hn; intros []|]. split; [lia|auto].
  - split; [|split; [done|]].
    + intros Hc. apply H0. destruct Hs as [->|]; done.
    + intros [Hc|Hn]; [|by auto]. apply H2. left. destruct Hs as [->|]; done.
Qed.

End ClientFacts.

(** ** Contact bundles *)

Section Bundles.
Context `{Lib : CryptoOps} {Olm : OlmOps}.

(** Bundle verification on every branch: it accepts exactly the bundles whose identity is
    the pinned one, whose validity ends after [now] and at most five minutes later, and whose
    signature by that identity covers the whole bundle; it returns their keys unchanged, and
    refuses every other bundle with [PeerVerificationFailed]. *)
Theorem bundle_verification b pin now :
  match peer_verify b pin now with
  | Ok v =>
      pp_signing_identity b = pin /\ now < pp_valid_until b <= saturating_add now 300 /\
      verify pin (peer_signing_bytes b) (pp_signature b) = true /\
      v = mkVerifiedPeer pin (pp_curve_identity b) (pp_one_time_key b) (pp_valid_until b)
  | Err e =>
      e = PeerVerificationFailed /\
      (pp_signing_identity b <> pin \/ pp_valid_until b <= now \/
       saturating_add now 300 < pp_valid_until b \/
       verify pin (peer_signing_bytes b) (pp_signature b) = false)
  end.
Proof.
  unfold peer_verify. change CONTACT_BUNDLE_MAX_VALIDITY_SECONDS with 300.
  case_bool_decide as E; simpl; [|by auto 8].
  destruct (Z.leb_spec (pp_valid_until b) now); simpl; [by auto 8|].
  destruct (Z.ltb_spec (saturating_add now 300) (pp_valid_until b)); simpl; [by auto 8|].
  destruct (verify _ _ _) eqn:Ev; simpl; [|by auto 8]. rewrite E. auto.
Qed.

Context {Laws : CryptoLaws} {Olms : OlmLaws}.

(** C40. A bundle signature binds the whole bundle and nothing else: two bundles with the same
    signed bytes have the same identity, keys and validity, and the signed bytes of a bundle are
    never those of a relay command, so neither signature can stand for the other. *)
Theorem bundle_signature_binds b1 b2 c :
  is_u64 (pp_valid_until b1) -> is_u64 (pp_valid_until b2) ->
  peer_signing_bytes b1 <> signing_bytes c /\
  (peer_signing_bytes b1 = peer_signing_bytes b2 ->
   pp_signing_identity b1 = pp_signing_identity b2 /\ pp_curve_identity b1 = pp_curve_identity b2 /\
   pp_one_time_key b1 = pp_one_time_key b2 /\ pp_valid_until b1 = pp_valid_until b2).
Proof.
  intros H1 H2. unfold peer_signing_bytes, peer_prekey_signing_bytes. split.
  - destruct c; cbn [signing_bytes]; unfold registration_signing_bytes, send_request_signing_bytes,
      send_signing_bytes, fetch_signing_bytes, ack_signing_bytes, delete_signing_bytes;
      intros E; (apply canonical_inj_aux in E as [E _]; [discriminate E|solve_fits..]).
  - intros E. solve_binding E; eauto using curve_as_bytes_inj, as_slice_inj.
Qed.

(** A client's own bundle verifies: a successful [prekey_bundle] leaves the client with the
    keys it advertises and yields a bundle that anyone who pinned the client's identity accepts
    within its validity window. *)
Theorem own_bundle_verifies e t now c b c' :
  prekey_bundle e t c = (Ok b, c') -> now < t <= saturating_add now 300 ->
  peer_verify b (ed25519_key (generate_one_time_keys e (account c))) now
    = Ok (mkVerifiedPeer (ed25519_key (generate_one_time_keys e (account c)))
            (curve25519_key (generate_one_time_keys e (account c))) (pp_one_time_key b) t) /\
  head (one_time_keys (generate_one_time_keys e (account c))) = Some (pp_one_time_key b) /\
  c' = set_account (mark_keys_as_published (generate_one_time_keys e (account c))) c.
Proof.
  unfold prekey_bundle, mbind, SM_bind, sm_get, sm_lift, sm_modify, mret, SM_ret. simpl.
  destruct (head _) as [k|] eqn:Ek; simpl; [|done]. intros [= <- <-] Ht. split; [|done].
  unfold peer_verify, peer_signing_bytes.
  change CONTACT_BUNDLE_MAX_VALIDITY_SECONDS with 300. simpl.
  rewrite bool_decide_true, (proj2 (Z.leb_gt _ _)), (proj2 (Z.ltb_ge _ _)) by (done || lia). simpl.
  by rewrite account_sign_verifies.
Qed.

End Bundles.
