(* ===== verification/Envelope.v ===== *)
(** * The client-state envelope: [src/persistence/envelope.rs], [src/persistence/protector.rs]

    One generation of the client's state is sealed with an AEAD whose associated data binds the
    domain, the profile, the generation, the wrapped key and the versions. The AEAD
    ([chacha20poly1305]) is not part of the repository: it is the class [AeadOps], with its
    documented behaviour in [AeadLaws]. The platform's key protector is a trait of the source,
    hence a class here. *)

From S2P Require Import Prelude Core.

(** ** [src/persistence/protector.rs] *)

Record ProfileBinding : Type := mkBinding {
  profile_id : array 16;
  key_ref : array 16;
}.

#[global] Instance ProfileBinding_eq_dec : EqDecision ProfileBinding.
Proof. solve_decision. Defined.

Inductive ProtectionLevel : Type :=
  | StrongBox
  | TrustedEnvironment
  | SoftwareBacked
  | Indeterminate.

(** [trait StateKeyProtector]; the output buffer of [unwrap_dek] is its result. *)
Class StateKeyProtector (P : Type) : Type := {
  expected_binding : P -> Result ProfileBinding;
  protection_level : P -> ProtectionLevel;
  wrap_dek : P -> array 32 -> Result (list byte);
  unwrap_dek : P -> list byte -> Result (array 32);
}.

(** What the documentation of the trait asks of an implementation: a key that was wrapped is
    what unwrapping returns. *)
Class ProtectorLaws (P : Type) `{StateKeyProtector P} : Prop := {
  unwrap_wrap : forall p dek w, wrap_dek p dek = Ok w -> unwrap_dek p w = Ok dek;
}.

(** ** The AEAD *)

Class AeadOps : Type := {
  (** key, nonce, associated data, message *)
  aead_encrypt : array 32 -> array 24 -> list byte -> list byte -> option (list byte);
  aead_decrypt : array 32 -> array 24 -> list byte -> list byte -> option (list byte);
}.

(** Documented behaviour: a ciphertext opens, under the same key, nonce and associated data, to
    what was sealed, and is the message plus a tag of sixteen bytes. *)
Class AeadLaws `{AeadOps} : Prop := {
  aead_opens : forall k n a m c, aead_encrypt k n a m = Some c -> aead_decrypt k n a c = Some m;
  aead_length : forall k n a m c, aead_encrypt k n a m = Some c ->
    length c = (length m + 16)%nat;
}.

(** ** [src/persistence/envelope.rs] *)

Definition ENVELOPE_VERSION : Z := 1.
Definition CRYPTO_SUITE : Z := 1.
Definition STATE_SCHEMA_VERSION : Z := 1.
Definition MAX_CIPHERTEXT_BYTES : Z := 8 * 1024 * 1024.
Definition NONCE_BYTES : nat := 24.
Definition MAX_PLAINTEXT_BYTES : Z := MAX_CIPHERTEXT_BYTES - 16.
Definition MAX_WRAPPED_DEK_BYTES : Z := 8192.
Definition STATE_DOMAIN : list byte := bstr "secure-messenger-lab/client-state".
Definition VODOZEMAC_VERSION : list byte := bstr "0.10.0".

(** [append_part] of this module: a four-byte length, and an error instead of truncation. *)
Definition append_part_u32 (encoded part : list byte) : Result (list byte) :=
  let len := Z.of_nat (length part) in
  if decide (len <= U32_MAX) then Ok (encoded ++ u32_be len ++ part) else Err Storage.

(** The [for] loop of [aad]. *)
Fixpoint append_parts (encoded : list byte) (parts : list (list byte)) : Result (list byte) :=
  match parts with
  | [] => Ok encoded
  | part :: parts => encoded ← append_part_u32 encoded part; append_parts encoded parts
  end.

(** A length as a [usize]. *)
Definition validate_header (generation : Z) (wrapped_dek : list byte) (plaintext_len : Z)
    : Result unit :=
  if (generation =? 0) || (I64_MAX <? generation) || bool_decide (wrapped_dek = [])
     || (MAX_WRAPPED_DEK_BYTES <? Z.of_nat (length wrapped_dek))
     || (MAX_PLAINTEXT_BYTES <? plaintext_len)
  then Err Storage else Ok tt.

Section Envelope.
Context `{Lib : CryptoOps} `{Aead : AeadOps}.

Definition aad_parts (binding : ProfileBinding) (generation : Z) (wrapped_dek : list byte)
    : list (list byte) :=
  [STATE_DOMAIN; u64_be ENVELOPE_VERSION; u64_be CRYPTO_SUITE; as_slice (profile_id binding);
   u64_be generation; as_slice (key_ref binding); as_slice (sha256 wrapped_dek);
   PROTOCOL_DOMAIN; VODOZEMAC_VERSION; u64_be STATE_SCHEMA_VERSION].

Definition aad (binding : ProfileBinding) (generation : Z) (wrapped_dek : list byte)
    : Result (list byte) := append_parts [] (aad_parts binding generation wrapped_dek).

(** [envelope::seal] *)
Definition envelope_seal (binding : ProfileBinding) (generation : Z) (wrapped_dek : list byte)
    (dek : array 32) (nonce : array 24) (plaintext : list byte) : Result (list byte) :=
  validate_header generation wrapped_dek (Z.of_nat (length plaintext));;
  aad ← aad binding generation wrapped_dek;
  ciphertext ← ok_or Storage (aead_encrypt dek nonce aad plaintext);
  result_guard (negb (MAX_CIPHERTEXT_BYTES <? Z.of_nat (length ciphertext))) Storage;;
  mret ciphertext.

(** [envelope::open] *)
Definition envelope_open (binding : ProfileBinding) (generation : Z) (wrapped_dek : list byte)
    (dek : array 32) (nonce : array 24) (ciphertext : list byte) : Result (list byte) :=
  let len := Z.of_nat (length ciphertext) in
  if (len <? 16) || (MAX_CIPHERTEXT_BYTES <? len) then Err Storage
  else
    validate_header generation wrapped_dek (len - 16);;
    aad ← aad binding generation wrapped_dek;
    ok_or Storage (aead_decrypt dek nonce aad ciphertext).

End Envelope.

(** ** Lemmas *)

Lemma append_part_u32_frame encoded part :
  fits 4 part -> append_part_u32 encoded part = Ok (encoded ++ frame 4 part).
Proof.
  unfold fits, append_part_u32, frame, U32_MAX. change (256 ^ Z.of_nat 4) with (2 ^ 32).
  intros H. rewrite decide_True by lia. done.
Qed.

Lemma append_parts_frames encoded parts :
  Forall (fits 4) parts -> append_parts encoded parts = Ok (encoded ++ frames 4 parts).
Proof.
  intros Hp. revert encoded. induction Hp as [|p ps Hp _ IH]; intros encoded; cbn [append_parts].
  - by rewrite app_nil_r.
  - rewrite append_part_u32_frame by done. cbn. rewrite IH, <- app_assoc. done.
Qed.

Section EnvelopeFacts.
Context `{Lib : CryptoOps}.

Lemma fits4_small part : (length part <= 64)%nat -> fits 4 part.
Proof. unfold fits. change (256 ^ Z.of_nat 4) with (2 ^ 32). lia. Qed.

Lemma aad_parts_fit b g w : Forall (fits 4) (aad_parts b g w).
Proof.
  unfold aad_parts. repeat constructor; apply fits4_small; rewrite ?length_as_slice, ?length_u64_be;
    vm_compute; lia.
Qed.

Lemma aad_frames b g w : aad b g w = Ok (frames 4 (aad_parts b g w)).
Proof. unfold aad. by rewrite append_parts_frames by apply aad_parts_fit. Qed.

Lemma aad_inj b1 b2 g1 g2 w1 w2 :
  is_u64 g1 -> is_u64 g2 -> aad b1 g1 w1 = aad b2 g2 w2 ->
  b1 = b2 /\ g1 = g2 /\ sha256 w1 = sha256 w2.
Proof.
  intros H1 H2. rewrite !aad_frames. intros E%Ok_inj.
  apply frames_inj in E; [|lia|apply aad_parts_fit..]. unfold aad_parts in E.
  repeat match type of E with _ :: _ = _ :: _ => apply (inj2 cons) in E as [? E] end.
  destruct b1 as [p1 k1], b2 as [p2 k2]. simpl in *.
  repeat split; [f_equal|..]; eauto using as_slice_inj, u64_be_inj.
Qed.

(** C38. The associated data determines its context: it is always defined, and equal associated
    data means the same profile, the same key reference, the same generation and the same digest
    of the wrapped key. An envelope therefore cannot be opened under another profile, key or
    generation unless the AEAD itself accepts foreign associated data. *)
Theorem associated_data_binds_context b1 b2 g1 g2 w1 w2 :
  is_u64 g1 -> is_u64 g2 ->
  (exists x, aad b1 g1 w1 = Ok x) /\
  (aad b1 g1 w1 = aad b2 g2 w2 -> b1 = b2 /\ g1 = g2 /\ sha256 w1 = sha256 w2).
Proof.
  intros H1 H2. split; [rewrite aad_frames; by eexists|]. by apply aad_inj.
Qed.

Lemma validate_header_ok g w n u :
  validate_header g w n = Ok u ->
  g <> 0 /\ g <= I64_MAX /\ 1 <= Z.of_nat (length w) <= 8192 /\ n <= MAX_PLAINTEXT_BYTES.
Proof.
  unfold validate_header, MAX_WRAPPED_DEK_BYTES.
  destruct (Z.eqb_spec g 0), (Z.ltb_spec I64_MAX g); try done.
  case_bool_decide; [done|]. destruct w as [|x w]; [done|].
  destruct (Z.ltb_spec 8192 (Z.of_nat (length (x :: w)))), (Z.ltb_spec MAX_PLAINTEXT_BYTES n);
    try done. simpl in *. lia.
Qed.

Lemma validate_header_intro g w n :
  g <> 0 -> g <= I64_MAX -> 1 <= Z.of_nat (length w) <= 8192 -> n <= MAX_PLAINTEXT_BYTES ->
  validate_header g w n = Ok tt.
Proof.
  intros. unfold validate_header, MAX_WRAPPED_DEK_BYTES.
  rewrite (proj2 (Z.eqb_neq g 0)), (proj2 (Z.ltb_ge I64_MAX g)) by done.
  rewrite bool_decide_false by (intros ->; simpl in *; lia).
  by rewrite (proj2 (Z.ltb_ge _ _)), (proj2 (Z.ltb_ge _ _)) by lia.
Qed.

Context `{Aead : AeadOps} {Laws : AeadLaws}.

(** What sealing yields. *)
Lemma envelope_seal_ok b g w k n m c :
  envelope_seal b g w k n m = Ok c ->
  g <> 0 /\ g <= I64_MAX /\ 1 <= Z.of_nat (length w) <= 8192 /\
  length c = (length m + 16)%nat /\ Z.of_nat (length c) <= MAX_CIPHERTEXT_BYTES /\
  aead_encrypt k n (frames 4 (aad_parts b g w)) m = Some c.
Proof.
  unfold envelope_seal. rewrite aad_frames. intros H. inv_ok H. injection H as <-.
  apply validate_header_ok in Hv as (? & ? & ? & ?). injection Hv0 as <-.
  apply negb_true_iff, Z.ltb_ge in Hv2.
  repeat split; try done || lia. by eapply aead_length.
Qed.

Lemma envelope_open_sealed b g w k n m c :
  envelope_seal b g w k n m = Ok c -> envelope_open b g w k n c = Ok m.
Proof.
  intros (Hg & Hg' & Hw & Hl & Hc & He)%envelope_seal_ok. unfold envelope_open.
  rewrite (proj2 (Z.ltb_ge _ _)), (proj2 (Z.ltb_ge _ _)) by lia. simpl.
  rewrite validate_header_intro by (unfold MAX_PLAINTEXT_BYTES; done || lia). simpl.
  rewrite aad_frames. simpl. by rewrite (aead_opens _ _ _ _ _ He).
Qed.

(** When sealing succeeds. *)
Lemma envelope_seal_intro b g w k n m :
  g <> 0 -> g <= I64_MAX -> 1 <= Z.of_nat (length w) <= 8192 ->
  Z.of_nat (length m) <= MAX_PLAINTEXT_BYTES ->
  is_Some (aead_encrypt k n (frames 4 (aad_parts b g w)) m) ->
  exists c, envelope_seal b g w k n m = Ok c.
Proof.
  intros ? ? ? Hm [c Hc]. unfold envelope_seal. rewrite validate_header_intro, aad_frames by done.
  cbn [mbind result_bind ok_or]. rewrite Hc. cbn [mbind result_bind ok_or]. pose proof (aead_length _ _ _ _ _ Hc).
  rewrite (proj2 (Z.ltb_ge _ _)) by (unfold MAX_PLAINTEXT_BYTES in Hm; lia). by exists c.
Qed.

(** Sealing fails with [Storage] only. *)
Lemma envelope_seal_storage b g w k n m e : envelope_seal b g w k n m = Err e -> e = Storage.
Proof.
  unfold envelope_seal. rewrite aad_frames.
  unfold validate_header. destruct (_ || _); simpl; [congruence|].
  destruct (aead_encrypt _ _ _ _); simpl; [|congruence].
  unfold result_guard. destruct (negb _); simpl; [by intros [=]|congruence].
Qed.

Lemma envelope_open_storage b g w k n c e : envelope_open b g w k n c = Err e -> e = Storage.
Proof.
  unfold envelope_open. destruct (_ || _); [congruence|]. rewrite aad_frames.
  unfold validate_header. destruct (_ || _); simpl; [congruence|].
  destruct (aead_decrypt _ _ _ _); simpl; congruence.
Qed.

(** C39. The envelope round trip and its bounds: a state that is sealed opens, in the same
    context, to exactly that state; the ciphertext is sixteen bytes longer and between 16 bytes
    and 8 MiB; and sealing refuses generation zero, a generation that does not fit a signed
    64-bit integer, an empty or oversized wrapped key, and an oversized state. Every error, of
    sealing and of opening anything, is [Storage]. *)
Theorem envelope_roundtrip b g w k n m :
  (match envelope_seal b g w k n m with
  | Ok c => envelope_open b g w k n c = Ok m /\ length c = (length m + 16)%nat /\
      16 <= Z.of_nat (length c) <= MAX_CIPHERTEXT_BYTES /\ g <> 0 /\ g <= I64_MAX /\
      1 <= Z.of_nat (length w) <= 8192
  | Err e => e = Storage
  end) /\
  forall c e, envelope_open b g w k n c = Err e -> e = Storage.
Proof.
  split; [|by apply envelope_open_storage].
  destruct (envelope_seal b g w k n m) as [c|e] eqn:E.
  - split; [by apply envelope_open_sealed|].
    apply envelope_seal_ok in E as (? & ? & ? & ? & ? & _). repeat split; done || lia.
  - by eapply envelope_seal_storage.
Qed.

End EnvelopeFacts.
