(* ===== verification/Companion.v ===== *)
(** * Companion files and the preflight of an open: [src/companion.rs], [src/relay.rs]

    Both stores refuse to open a database beside which a non-empty [-wal] file sits while the
    database's own header is not in WAL mode. The file system is a record of what its calls
    return; paths are byte strings. *)

From S2P Require Import Prelude Core.

Definition path : Type := list byte.

(** The outcomes the code tells apart: success, [ErrorKind::NotFound], any other error. *)
Inductive fs_result (A : Type) : Type :=
  | FsOk (a : A)
  | FsNotFound
  | FsError.
Arguments FsOk {A} a.
Arguments FsNotFound {A}.
Arguments FsError {A}.

Record Metadata : Type := mkMetadata { md_is_file : bool; md_len : Z }.

(** An opened file: its bytes, and whether reading it fails. *)
Record File : Type := mkFile { file_bytes : list byte; file_fails : bool }.

Record FileSystem : Type := mkFs {
  fs_canonicalize : path -> option path;
  fs_metadata : path -> fs_result Metadata;
  fs_open : path -> option File;
}.

(** [read_exact] into a buffer of [n] bytes: [FsNotFound] stands for [UnexpectedEof]. *)
Definition read_exact (f : File) (n : nat) : fs_result (list byte) :=
  if file_fails f then FsError
  else if decide (n <= length (file_bytes f))%nat then FsOk (take n (file_bytes f))
  else FsNotFound.

Definition SQLITE_MAGIC : list byte := bstr "SQLite format 3" ++ [x00].

Section Companion.
Context (fs : FileSystem).

Definition nonempty_companion (p : path) (suffix : string) : Result bool :=
  match fs_metadata fs (p ++ bstr suffix) with
  | FsOk metadata => Ok (0 <? md_len metadata)
  | FsNotFound => Ok false
  | FsError => Err Storage
  end.

Definition database_header_uses_wal (p : path) : Result bool :=
  file ← ok_or Storage (fs_open fs p);
  match read_exact file 20 with
  | FsOk header =>
      Ok (bool_decide (take 16 header = SQLITE_MAGIC)
          && bool_decide (header !! 18%nat = Some x02)
          && bool_decide (header !! 19%nat = Some x02))
  | FsNotFound => Ok false
  | FsError => Err Storage
  end.

Definition reject_anomalous_wal (p : path) : Result unit :=
  let resolved := default p (fs_canonicalize fs p) in
  wal ← nonempty_companion resolved "-wal";
  if negb wal then mret tt
  else
    uses_wal ← database_header_uses_wal resolved;
    if uses_wal : bool then mret tt else Err Storage.

(** [has_nonempty_recovery_companion] of [relay.rs] *)
Definition has_nonempty_recovery_companion (p : path) : Result bool :=
  resolved ← ok_or Storage (fs_canonicalize fs p);
  journal ← nonempty_companion resolved "-journal";
  if journal : bool then mret true
  else
    wal ← nonempty_companion resolved "-wal";
    if negb wal then mret false else database_header_uses_wal resolved.

End Companion.

(** ** The read-only URI of the preflight *)

Definition HEX : list byte := bstr "0123456789ABCDEF".

Definition is_ascii_alphanumeric (b : byte) : bool :=
  let v := byte_val b in
  ((48 <=? v) && (v <=? 57)) || ((65 <=? v) && (v <=? 90)) || ((97 <=? v) && (v <=? 122)).

(** The bytes [immutable_uri] copies unescaped. *)
Definition uri_plain (b : byte) : bool :=
  is_ascii_alphanumeric b || bool_decide (b ∈ bstr "/.-_:").

Definition hex_digit (v : Z) : byte := default x00 (HEX !! Z.to_nat v).

Definition uri_escape (b : byte) : list byte :=
  if uri_plain b then [b]
  else [x25; hex_digit (Z.shiftr (byte_val b) 4); hex_digit (Z.land (byte_val b) 15)].

Definition URI_PREFIX : list byte := bstr "file:".
Definition URI_SUFFIX : list byte := bstr "?mode=ro&immutable=1".

(** [immutable_uri]; [utf8] is whether [path.to_str()] succeeds. *)
Definition immutable_uri (utf8 : bool) (p : path) : Result (list byte) :=
  if utf8 then Ok (URI_PREFIX ++ concat (map uri_escape p) ++ URI_SUFFIX) else Err Storage.

(** ** Properties *)

Section CompanionFacts.
Context (fs : FileSystem).

(** The database's header declares WAL mode. *)
Definition wal_header (p : path) : Prop :=
  exists f, fs_open fs p = Some f /\ file_fails f = false /\ (20 <= length (file_bytes f))%nat /\
    take 16 (file_bytes f) = SQLITE_MAGIC /\
    file_bytes f !! 18%nat = Some x02 /\ file_bytes f !! 19%nat = Some x02.

Definition companion_present (p : path) (suffix : string) : Prop :=
  exists md, fs_metadata fs (p ++ bstr suffix) = FsOk md /\ 0 < md_len md.

Lemma nonempty_companion_ok p suffix b :
  nonempty_companion fs p suffix = Ok b ->
  if b then companion_present p suffix else ~ companion_present p suffix.
Proof.
  unfold nonempty_companion, companion_present. destruct (fs_metadata _ _) as [md| |] eqn:E; [| |done].
  - intros [= <-]. destruct (Z.ltb_spec 0 (md_len md)); [by eauto|].
    intros (md' & [= <-] & ?). lia.
  - intros [= <-] (md' & [=] & _).
Qed.

Lemma header_ok p b :
  database_header_uses_wal fs p = Ok b -> if b then wal_header p else ~ wal_header p.
Proof.
  unfold database_header_uses_wal, wal_header, read_exact. destruct (fs_open fs p) as [f|]; [|done].
  cbn [ok_or mbind result_bind]. destruct (file_fails f) eqn:Ef; [done|].
  case_decide as Hl.
  - intros [= <-]. rewrite take_take, !lookup_take_lt by lia. simpl.
    repeat case_bool_decide; simpl; try (intros (f' & [= <-] & _ & _ & ? & ? & ?); done).
    exists f. repeat split; done.
  - intros [= <-] (f' & [= <-] & _ & ? & _). done.
Qed.

(** The WAL guard on every branch: it lets an open proceed only when there is no non-empty
    [-wal] companion of the resolved path or the database header itself declares WAL mode; it
    always refuses a non-empty [-wal] beside any other database, a database too short to have a
    header included; the only error is [Storage]. *)
Theorem wal_guard_is_exact p :
  let resolved := default p (fs_canonicalize fs p) in
  match reject_anomalous_wal fs p with
  | Ok _ => ~ companion_present resolved "-wal" \/ wal_header resolved
  | Err e => e = Storage
  end /\
  (companion_present resolved "-wal" -> ~ wal_header resolved ->
   reject_anomalous_wal fs p = Err Storage).
Proof.
  simpl. unfold reject_anomalous_wal. set (r := default p (fs_canonicalize fs p)).
  pose proof (nonempty_companion_ok r "-wal") as Hc. pose proof (header_ok r) as Hh.
  destruct (nonempty_companion fs r "-wal") as [[]|e] eqn:En; simpl.
  - specialize (Hc true eq_refl). destruct (database_header_uses_wal fs r) as [[]|e'] eqn:Eh; simpl.
    + specialize (Hh true eq_refl). simpl in Hh. tauto.
    + done.
    + unfold database_header_uses_wal in Eh.
      assert (e' = Storage) as -> by (revert Eh; destruct (fs_open fs r); simpl; [|congruence];
        destruct (read_exact _ _); congruence). done.
  - specialize (Hc false eq_refl). simpl in Hc. split; [by left|]. intros ?. done.
  - unfold nonempty_companion in En. destruct (fs_metadata _ _); [done..|]. split; congruence.
Qed.

End CompanionFacts.

(** *** The URI encoding *)

Definition hex_value (b : byte) : Z :=
  match list_find (b =.) HEX with Some (i, _) => Z.of_nat i | None => 0 end.

(** Percent-decoding, the reading [SQLite] gives to the path part of a URI. *)
Fixpoint percent_decode (l : list byte) : list byte :=
  match l with
  | [] => []
  | x25 :: h :: l' :: rest => byte_of_Z (16 * hex_value h + hex_value l') :: percent_decode rest
  | b :: rest => b :: percent_decode rest
  end.

Definition every_byte : list byte := map (fun n => byte_of_Z (Z.of_nat n)) (seq 0 256).

Lemma every_byte_complete b : b ∈ every_byte.
Proof.
  apply list_elem_of_fmap. exists (Z.to_nat (byte_val b)).
  pose proof (byte_val_range b). split.
  - rewrite Z2Nat.id by lia. by rewrite byte_of_Z_val.
  - apply elem_of_seq. lia.
Qed.

(** A check of all bytes by evaluation. *)
Lemma for_every_byte (P : byte -> Prop) `{forall b, Decision (P b)} :
  bool_decide (Forall P every_byte) = true -> forall b, P b.
Proof.
  intros Hf%bool_decide_eq_true b. rewrite Forall_forall in Hf. apply Hf, every_byte_complete.
Qed.

Definition uri_safe (b : byte) : Prop := b <> x3f /\ b <> x23.

#[global] Instance uri_safe_dec b : Decision (uri_safe b).
Proof. unfold uri_safe. apply _. Defined.

Lemma uri_escape_safe b : Forall uri_safe (uri_escape b).
Proof. revert b. refine (for_every_byte _ _). vm_compute. reflexivity. Qed.

Lemma uri_escape_decodes b rest :
  percent_decode (uri_escape b ++ rest) = b :: percent_decode rest.
Proof.
  unfold uri_escape. destruct (uri_plain b) eqn:E.
  - assert (H : forall b, uri_plain b = true -> b <> x25).
    { refine (for_every_byte (fun b => uri_plain b = true -> b <> x25) _). vm_compute. reflexivity. }
    specialize (H b E). by destruct b.
  - simpl. f_equal. revert b E. refine (for_every_byte (fun b => uri_plain b = false ->
      byte_of_Z (16 * hex_value (hex_digit (Z.shiftr (byte_val b) 4))
        + hex_value (hex_digit (Z.land (byte_val b) 15))) = b) _). vm_compute. reflexivity.
Qed.

(** C37. The read-only URI carries exactly the given path: the text between [file:] and the
    parameters contains no [?] or [#] that could start a query or a fragment, and percent-decoding
    it gives back the path, so
    distinct paths have distinct URIs and the parameters [mode=ro&immutable=1] cannot be
    overridden by a path. *)
Theorem immutable_uri_names_path p :
  exists body, immutable_uri true p = Ok (URI_PREFIX ++ body ++ URI_SUFFIX) /\
    Forall uri_safe body /\ percent_decode body = p.
Proof.
  exists (concat (map uri_escape p)). split; [done|]. split.
  - apply Forall_concat, Forall_map, Forall_forall. intros b _. apply uri_escape_safe.
  - induction p as [|b p IH]; [done|]. simpl. rewrite uri_escape_decodes. by f_equal.
Qed.
