(* ===== verification/StateStore.v ===== *)
(** * The client state store: [src/persistence/sqlite.rs]

    One encrypted snapshot in a one-row database. [Shape] is what the introspection queries of
    the code report about a database file; [StateDb] adds the rows of [client_state] by [slot]
    and the journal mode in the file's header.
    [create_with_rng] and [open_store] run on the connection of the file; [commit_with_rng] on
    the store, which also holds the fields of the handle. *)

From S2P Require Import Prelude Core Sqlite Envelope Companion.

#[local] Open Scope string_scope.
#[local] Open Scope Z_scope.

Definition APPLICATION_ID : Z := 0x534D534C.
Definition USER_VERSION : Z := 1.
Definition SLOT : Z := 1.
Definition WRAPPED_DEK_MAX_BYTES : Z := 8192.

Definition CLIENT_STATE_SQL : string :=
  ("CREATE TABLE client_state (" ++
  "slot                 INTEGER PRIMARY KEY NOT NULL CHECK(slot = 1)," ++
  "profile_id           BLOB NOT NULL CHECK(length(profile_id) = 16)," ++
  "generation           INTEGER NOT NULL CHECK(generation >= 1)," ++
  "envelope_version     INTEGER NOT NULL CHECK(envelope_version = 1)," ++
  "state_schema_version INTEGER NOT NULL CHECK(state_schema_version = 1)," ++
  "crypto_suite         INTEGER NOT NULL CHECK(crypto_suite = 1)," ++
  "key_ref              BLOB NOT NULL CHECK(length(key_ref) = 16)," ++
  "wrapped_dek          BLOB NOT NULL CHECK(length(wrapped_dek) BETWEEN 1 AND 8192)," ++
  "nonce                BLOB NOT NULL CHECK(length(nonce) = 24)," ++
  "ciphertext           BLOB NOT NULL CHECK(length(ciphertext) BETWEEN 16 AND 8388608)" ++
  ") STRICT")%string.

(** ** The database as the code sees it *)

(** A row of [PRAGMA table_xinfo]: cid, name, type, notnull, dflt_value, pk, hidden. *)
Definition XInfo : Type := Z * string * string * Z * option string * Z * Z.

Record Shape : Type := mkShape {
  sh_application_id : Z;
  sh_user_version : Z;
  (** [type, name, tbl_name, sql] of [sqlite_schema], by name *)
  sh_objects : list (string * string * string * option string);
  (** [name, type, ncol, wr, strict] of [pragma_table_list] in schema [main], by name *)
  sh_table_list : list (string * string * Z * Z * Z);
  sh_xinfo : list XInfo;
  sh_index_count : Z;
  sh_foreign_key_count : Z;
  sh_integrity : string;
  sh_foreign_key_problem : bool;
}.

Record StateRow : Type := mkStateRow {
  st_profile_id : list byte;
  st_generation : Z;
  st_envelope_version : Z;
  st_state_schema_version : Z;
  st_crypto_suite : Z;
  st_key_ref : list byte;
  st_wrapped_dek : list byte;
  st_nonce : list byte;
  st_ciphertext : list byte;
}.

#[global] Instance StateRow_eq_dec : EqDecision StateRow.
Proof. solve_decision. Defined.

(** The database as [SQLite] presents it once [Connection::open] has done its own recovery. *)
Record StateDb : Type := mkStateDb {
  shape : Shape;
  client_state : gmap Z StateRow;
  (** the header is in WAL mode; otherwise a rollback journal is used *)
  wal_mode : bool;
}.

(** The columns of [client_state] in [CLIENT_STATE_SQL]: name, type, position in the primary
    key. All are [NOT NULL] without default. *)
Definition client_state_columns : list (string * string * Z) :=
  [("slot", "INTEGER", 1); ("profile_id", "BLOB", 0); ("generation", "INTEGER", 0);
   ("envelope_version", "INTEGER", 0); ("state_schema_version", "INTEGER", 0);
   ("crypto_suite", "INTEGER", 0); ("key_ref", "BLOB", 0); ("wrapped_dek", "BLOB", 0);
   ("nonce", "BLOB", 0); ("ciphertext", "BLOB", 0)].

(** What the introspection reports once the table exists in an otherwise empty database: its
    own text, a strict rowid table of ten columns, no index (an [INTEGER PRIMARY KEY] is the
    rowid) and no foreign key. *)
Definition client_state_shape (integrity : string) : Shape :=
  mkShape APPLICATION_ID USER_VERSION
    [("table", "client_state", "client_state", Some CLIENT_STATE_SQL)]
    [("client_state", "table", 10, 0, 1); ("sqlite_schema", "table", 5, 0, 0)]
    (imap (fun i '(name, ty, pk) => (Z.of_nat i, name, ty, 1, None, pk, 0)) client_state_columns)
    0 0 integrity false.

(** The [CHECK] constraints of the table. *)
Definition check_row (slot : Z) (r : StateRow) : bool :=
  (slot =? 1) && bool_decide (length (st_profile_id r) = 16%nat) && (1 <=? st_generation r)
  && (st_envelope_version r =? 1) && (st_state_schema_version r =? 1) && (st_crypto_suite r =? 1)
  && bool_decide (length (st_key_ref r) = 16%nat)
  && (1 <=? Z.of_nat (length (st_wrapped_dek r))) && (Z.of_nat (length (st_wrapped_dek r)) <=? 8192)
  && bool_decide (length (st_nonce r) = 24%nat)
  && (16 <=? Z.of_nat (length (st_ciphertext r)))
  && (Z.of_nat (length (st_ciphertext r)) <=? 8388608).

(** ** Statements *)

(** [PRAGMA application_id = ..; PRAGMA user_version = ..; CREATE TABLE client_state ..] in a
    database without objects. *)
Definition create_table (db : StateDb) : option (unit * StateDb) :=
  if bool_decide (sh_objects (shape db) = [])
  then Some (tt, mkStateDb (client_state_shape (sh_integrity (shape db))) ∅ (wal_mode db))
  else None.

(** [INSERT INTO client_state(slot, ..) VALUES (?1, ..)] *)
Definition insert_state (slot : Z) (r : StateRow) (db : StateDb) : option (unit * StateDb) :=
  if check_row slot r && bool_decide (client_state db !! slot = None)
  then Some (tt, mkStateDb (shape db) (<[slot := r]> (client_state db)) (wal_mode db))
  else None.

(** The snapshot an UPDATE replaces: every column the [WHERE] clause compares. *)
Definition matches (expected : StateRow) (r : StateRow) : bool := bool_decide (r = expected).

(** [UPDATE client_state SET generation = ?1, nonce = ?2, ciphertext = ?3 WHERE slot = ?4 AND ..]:
    the [WHERE] clause compares all nine columns; the count is the number of rows changed. *)
Definition update_state (slot : Z) (expected : StateRow) (generation : Z)
    (nonce ciphertext : list byte) (db : StateDb) : option (nat * StateDb) :=
  match client_state db !! slot with
  | Some r =>
      if matches expected r
      then
        let r' := mkStateRow (st_profile_id r) generation (st_envelope_version r)
                    (st_state_schema_version r) (st_crypto_suite r) (st_key_ref r)
                    (st_wrapped_dek r) nonce ciphertext in
        if check_row slot r'
        then Some (1%nat, mkStateDb (shape db) (<[slot := r']> (client_state db)) (wal_mode db))
        else None
      else Some (0%nat, db)
  | None => Some (0%nat, db)
  end.

(** [PRAGMA journal_mode = DELETE] on the only connection to the database: a WAL-mode database is
    converted back. *)
Definition rollback_journal (db : StateDb) : StateDb :=
  mkStateDb (shape db) (client_state db) false.

(** ** Validation *)

Section Validation.
Context {S : Type} `{HasConn S StateDb}.

Abbreviation M := (SM S LabError).

Definition ask {A} (f : StateDb -> A) : M A := on_conn (query (fun db => Some (f db))).

(** [validate_ciphertext_len] *)
Definition validate_ciphertext_len (len : Z) : Result unit :=
  result_guard ((16 <=? len) && (len <=? MAX_CIPHERTEXT_BYTES)) Storage.

Definition validate_empty_database : M unit :=
  application_id ← ask (fun db => sh_application_id (shape db));
  user_version ← ask (fun db => sh_user_version (shape db));
  object_count ← ask (fun db => Z.of_nat (length (sh_objects (shape db))));
  integrity ← ask (fun db => sh_integrity (shape db));
  sm_guard (negb (negb (application_id =? 0) || negb (user_version =? 0)
                  || negb (object_count =? 0) || negb (bool_decide (integrity = "ok")))) Storage.

Definition validate_no_indexes_or_foreign_keys : M unit :=
  index_count ← ask (fun db => sh_index_count (shape db));
  foreign_key_count ← ask (fun db => sh_foreign_key_count (shape db));
  sm_guard (negb (negb (index_count =? 0) || negb (foreign_key_count =? 0))) Storage.

Definition validate_table_list : M unit :=
  tables ← ask (fun db => sh_table_list (shape db));
  let expected := [("client_state", "table", 10, 0, 1); ("sqlite_schema", "table", 5, 0, 0)] in
  sm_guard (bool_decide (tables = expected)) Storage.

(** The expected columns of [validate_table_xinfo]. *)
Definition xinfo_names : list (string * string * Z) :=
  [("slot", "INTEGER", 1); ("profile_id", "BLOB", 0); ("generation", "INTEGER", 0);
   ("envelope_version", "INTEGER", 0); ("state_schema_version", "INTEGER", 0);
   ("crypto_suite", "INTEGER", 0); ("key_ref", "BLOB", 0); ("wrapped_dek", "BLOB", 0);
   ("nonce", "BLOB", 0); ("ciphertext", "BLOB", 0)].

(** One iteration of its loop. *)
Definition xinfo_row_ok (index : nat) (names : string * string * Z) (row : XInfo) : bool :=
  let '(name, type_name, pk) := names in
  let '(r0, r1, r2, r3, r4, r5, r6) := row in
  negb (negb (r0 =? Z.of_nat index) || negb (bool_decide (r1 = name))
        || negb (bool_decide (r2 = type_name)) || negb (r3 =? 1)
        || negb (bool_decide (r4 = None)) || negb (r5 =? pk) || negb (r6 =? 0)).

Fixpoint xinfo_rows_ok (index : nat) (names : list (string * string * Z)) (rows : list XInfo)
    : bool :=
  match names, rows with
  | [], _ => true
  | n :: names, r :: rows => xinfo_row_ok index n r && xinfo_rows_ok (index + 1) names rows
  | _ :: _, [] => false
  end.

Definition validate_table_xinfo : M unit :=
  actual ← ask (fun db => sh_xinfo (shape db));
  sm_guard (bool_decide (length actual = length xinfo_names)) Storage;;
  sm_guard (xinfo_rows_ok 0 xinfo_names actual) Storage.

Definition validate_schema : M unit :=
  application_id ← ask (fun db => sh_application_id (shape db));
  user_version ← ask (fun db => sh_user_version (shape db));
  sm_guard (negb (negb (application_id =? APPLICATION_ID) || negb (user_version =? USER_VERSION)))
    Storage;;
  objects ← ask (fun db => sh_objects (shape db));
  let expected := [("table", "client_state", "client_state", Some CLIENT_STATE_SQL)] in
  sm_guard (bool_decide (objects = expected)) Storage;;
  validate_table_list;;
  validate_table_xinfo;;
  validate_no_indexes_or_foreign_keys;;
  integrity ← ask (fun db => sh_integrity (shape db));
  sm_guard (bool_decide (integrity = "ok")) Storage;;
  foreign_key_problem ← ask (fun db => sh_foreign_key_problem (shape db));
  sm_guard (negb foreign_key_problem) Storage.

Record StoredRow : Type := mkStoredRow {
  sw_generation : Z;
  sw_wrapped_dek : list byte;
  sw_nonce : array 24;
  sw_ciphertext : list byte;
}.

(** The row checks of [read_row], on the result of its first query. *)
Definition row_header_ok (r : StateRow) : bool :=
  negb (negb (Z.of_nat (length (st_profile_id r)) =? 16) || (st_generation r <? 1)
        || negb (st_envelope_version r =? ENVELOPE_VERSION)
        || negb (st_state_schema_version r =? STATE_SCHEMA_VERSION)
        || negb (st_crypto_suite r =? CRYPTO_SUITE)
        || negb (Z.of_nat (length (st_key_ref r)) =? 16)
        || (Z.of_nat (length (st_wrapped_dek r)) <? 1)
        || (WRAPPED_DEK_MAX_BYTES <? Z.of_nat (length (st_wrapped_dek r)))
        || negb (Z.of_nat (length (st_nonce r)) =? Z.of_nat NONCE_BYTES)
        || (Z.of_nat (length (st_ciphertext r)) <? 16)
        || (MAX_CIPHERTEXT_BYTES <? Z.of_nat (length (st_ciphertext r)))).

Definition read_row (binding : ProfileBinding) : M StoredRow :=
  lengths ← ask (fun db => client_state db !! SLOT);
  lengths ← sm_lift (ok_or Storage lengths);
  sm_guard (row_header_ok lengths) Storage;;
  row ← on_conn (query (fun db => client_state db !! SLOT));
  sm_guard (bool_decide (st_profile_id row = as_slice (profile_id binding))
            && bool_decide (st_key_ref row = as_slice (key_ref binding))) Storage;;
  nonce ← sm_lift (ok_or Storage (array_from_slice 24 (st_nonce row)));
  sm_guard (0 <=? st_generation row) Storage;;
  mret (mkStoredRow (st_generation row) (st_wrapped_dek row) nonce (st_ciphertext row)).

(** [PRAGMA ..] batches that set up the connection and leave the file alone: they can only fail. *)
Definition pragmas : M unit := ask (fun _ => tt).

(** The same batch followed by [PRAGMA journal_mode = DELETE], which rewrites the header of a
    WAL-mode database. *)
Definition activate_storage_settings : M unit :=
  on_conn (autocommit (fun db => Some (tt, rollback_journal db))).

(** [open_connection]: the guard, [Connection::open], the pragmas. *)
Definition open_connection (fs : FileSystem) (p : path) : M unit :=
  sm_lift (reject_anomalous_wal fs p);;
  ask (fun _ => tt);;
  pragmas.

End Validation.

(** ** The handle *)

Section Store.
Context `{Lib : CryptoOps} `{Aead : AeadOps} {P : Type} `{Protector : StateKeyProtector P}.

(** The fields of [ClientStateStore] other than the connection. *)
Record Handle : Type := mkHandle {
  protector : P;
  binding : ProfileBinding;
  dek : array 32;
  wrapped_dek : list byte;
  nonce : array 24;
  ciphertext : list byte;
  generation : Z;
  state : list byte;
  poisoned : bool;
}.

Record ClientStateStore : Type := mkStore {
  store_connection : Connection StateDb;
  handle : Handle;
}.

#[global] Instance store_has_conn : HasConn ClientStateStore StateDb :=
  {| conn := store_connection; set_conn := fun c s => mkStore c (handle s) |}.

#[global] Instance store_has_conn_laws : HasConnLaws ClientStateStore StateDb.
Proof. split; [done | by intros [] | done]. Qed.

Abbreviation FileM := (SM (Connection StateDb) LabError).
Abbreviation StoreM := (SM ClientStateStore LabError).

(** The snapshot row a handle stands for. *)
Definition handle_row (binding : ProfileBinding) (generation : Z) (wrapped_dek : list byte)
    (nonce : array 24) (ciphertext : list byte) : StateRow :=
  mkStateRow (as_slice (profile_id binding)) generation ENVELOPE_VERSION STATE_SCHEMA_VERSION
    CRYPTO_SUITE (as_slice (key_ref binding)) wrapped_dek (as_slice nonce) ciphertext.

(** [create_with_rng]; the two draws of [fill] are arguments, [None] for a failing source. *)
Definition create_with_rng (fs : FileSystem) (p : path) (prot : P) (initial : list byte)
    (rng_dek : option (array 32)) (rng_nonce : option (array 24)) : FileM Handle :=
  binding ← sm_lift (expected_binding prot);
  open_connection fs p;;
  validate_empty_database;;
  dek ← sm_lift (ok_or Storage rng_dek);
  wrapped_dek ← sm_lift (wrap_dek prot dek);
  sm_guard (negb (bool_decide (wrapped_dek = [])
                  || (WRAPPED_DEK_MAX_BYTES <? Z.of_nat (length wrapped_dek)))) Storage;;
  nonce ← sm_lift (ok_or Storage rng_nonce);
  ciphertext ← sm_lift (envelope_seal binding 1 wrapped_dek dek nonce initial);
  sm_lift (validate_ciphertext_len (Z.of_nat (length ciphertext)));;
  activate_storage_settings;;
  with_transaction (
    validate_empty_database;;
    on_conn (sql create_table);;
    on_conn (sql (insert_state SLOT (handle_row binding 1 wrapped_dek nonce ciphertext)));;
    validate_schema;;
    on_conn commit);;
  mret (mkHandle prot binding dek wrapped_dek nonce ciphertext 1 initial false).

(** [ClientStateStore::open] *)
Definition open_store (fs : FileSystem) (p : path) (prot : P) : FileM Handle :=
  binding ← sm_lift (expected_binding prot);
  open_connection fs p;;
  row ← with_transaction (
    validate_schema;;
    row ← read_row binding;
    on_conn commit;;
    mret row);
  dek ← sm_lift (unwrap_dek prot (sw_wrapped_dek row));
  state ← sm_lift (envelope_open binding (sw_generation row) (sw_wrapped_dek row) dek
                     (sw_nonce row) (sw_ciphertext row));
  activate_storage_settings;;
  mret (mkHandle prot binding dek (sw_wrapped_dek row) (sw_nonce row) (sw_ciphertext row)
          (sw_generation row) state false).

(** [ensure_usable], [state], [generation], [binding] *)
Definition ensure_usable (h : Handle) : Result unit := result_guard (negb (poisoned h)) Storage.
Definition get_state (h : Handle) : Result (list byte) := ensure_usable h;; mret (state h).
Definition get_protection_level (h : Handle) : ProtectionLevel := protection_level (protector h).
Definition get_generation (h : Handle) : Result Z := ensure_usable h;; mret (generation h).
Definition get_binding (h : Handle) : Result ProfileBinding :=
  ensure_usable h;; mret (binding h).

Definition update_handle (f : Handle -> Handle) : StoreM unit :=
  sm_modify (fun s => mkStore (store_connection s) (f (handle s))).

(** [commit_inner]; the draw of [fill] is an argument. *)
Definition commit_inner (new_state : list byte) (rng_nonce : option (array 24)) : StoreM unit :=
  h ← (fun s => (Ok (handle s), s));
  next_generation ← sm_lift (ok_or Storage (checked_add (generation h) 1));
  new_nonce ← sm_lift (ok_or Storage rng_nonce);
  new_ciphertext ← sm_lift (envelope_seal (binding h) next_generation (wrapped_dek h) (dek h)
                              new_nonce new_state);
  sm_lift (validate_ciphertext_len (Z.of_nat (length new_ciphertext)));;
  expected ← sm_lift (to_i64 (generation h));
  next ← sm_lift (to_i64 next_generation);
  with_transaction (
    validate_schema;;
    changed ← on_conn (sql (update_state SLOT
                (handle_row (binding h) expected (wrapped_dek h) (nonce h) (ciphertext h))
                next (as_slice new_nonce) new_ciphertext));
    sm_guard (bool_decide (changed = 1%nat)) Storage;;
    on_conn commit);;
  update_handle (fun h => mkHandle (protector h) (binding h) (dek h) (wrapped_dek h) new_nonce
                            new_ciphertext next_generation new_state (poisoned h)).

(** [commit_with_rng]: any failure poisons the handle. *)
Definition commit_with_rng (new_state : list byte) (rng_nonce : option (array 24))
    : StoreM unit := fun s =>
  if poisoned (handle s) then (Err Storage, s)
  else
    match commit_inner new_state rng_nonce s with
    | (Ok u, s') => (Ok u, s')
    | (Err e, s') =>
        let h := handle s' in
        (Err e, mkStore (store_connection s')
                  (mkHandle (protector h) (binding h) (dek h) (wrapped_dek h) (nonce h)
                     (ciphertext h) (generation h) (state h) true))
    end.

End Store.

Arguments Handle P : clear implicits.
Arguments ClientStateStore P : clear implicits.
