(* ===== verification/StateStoreTx.v ===== *)
(** * The client state store as transitions

    Each operation of [StateStore.v] without its plumbing, on the contents of the file, and the
    proof that the operations implement these transitions whatever calls into [SQLite] fail. *)

From S2P Require Import Prelude Core Sqlite Envelope Companion StateStore.

#[local] Open Scope string_scope.
#[local] Open Scope Z_scope.

(** ** Evaluation without failures *)

Section Evaluation.
Context {S : Type} `{HasConnLaws S StateDb}.
Implicit Types (s : S).

Lemma ask_clean {A B} (f : StateDb -> A) (g : A -> SM S LabError B) s :
  faults (conn s) = [] -> (ask f ≫= g) s = g (f (current (conn s))) s.
Proof.
  intros Hf. unfold mbind, SM_bind, ask, on_conn, sm_zoom, query, sql. simpl.
  pose proof (set_conn_id s) as Hid. revert Hid. destruct (conn s) as [d t fs]. simpl in *. subst fs.
  unfold set_current, current. simpl. by destruct t; simpl; intros ->.
Qed.

Lemma guard_bind {B} b e (g : unit -> SM S LabError B) s :
  (sm_guard b e ≫= g) s = if b then g tt s else (Err e, s).
Proof. by destruct b. Qed.

Lemma guard_run b e s : (sm_guard b e : SM S LabError unit) s = (result_guard b e, s).
Proof. by destruct b. Qed.

(** What [validate_empty_database] and [validate_schema] accept. *)
Definition empty_shape (sh : Shape) : bool :=
  (sh_application_id sh =? 0) && (sh_user_version sh =? 0) && bool_decide (sh_objects sh = [])
  && bool_decide (sh_integrity sh = "ok").

Definition valid_shape (sh : Shape) : bool :=
  (sh_application_id sh =? APPLICATION_ID) && (sh_user_version sh =? USER_VERSION)
  && bool_decide (sh_objects sh = [("table", "client_state", "client_state", Some CLIENT_STATE_SQL)])
  && bool_decide (sh_table_list sh
       = [("client_state", "table", 10, 0, 1); ("sqlite_schema", "table", 5, 0, 0)])
  && bool_decide (length (sh_xinfo sh) = length xinfo_names)
  && xinfo_rows_ok 0 xinfo_names (sh_xinfo sh)
  && (sh_index_count sh =? 0) && (sh_foreign_key_count sh =? 0)
  && bool_decide (sh_integrity sh = "ok") && negb (sh_foreign_key_problem sh).

(** One test of a validator: split on it and close the branch in which it fails. *)
Ltac next_test :=
  match goal with |- (if ?b then _ else _) = _ => destruct b eqn:? end;
  [| unfold valid_shape;
     repeat match goal with E : _ = ?b |- _ =>
       lazymatch b with true => rewrite E | false => rewrite E end; clear E end;
     rewrite ?andb_false_r; reflexivity ].

Lemma validate_empty_clean s :
  faults (conn s) = [] ->
  validate_empty_database s = (result_guard (empty_shape (shape (current (conn s)))) Storage, s).
Proof.
  intros Hf. unfold validate_empty_database. rewrite !ask_clean by done. rewrite guard_run.
  unfold empty_shape. do 2 f_equal.
  assert (forall (l : list (string * string * string * option string)),
    (Z.of_nat (length l) =? 0) = bool_decide (l = [])) as ->.
  { intros [|x l]; [done|]. rewrite bool_decide_false by done. apply Z.eqb_neq. simpl. lia. }
  by rewrite !negb_orb, !negb_involutive.
Qed.

Lemma bind_guard_step {B} (m : SM S LabError unit) (g : unit -> SM S LabError B) s b :
  m s = (result_guard b Storage, s) ->
  (m ≫= g) s = if b then g tt s else (Err Storage, s).
Proof. intros E. unfold mbind, SM_bind. rewrite E. by destruct b. Qed.

Lemma guard_and (a b : bool) s :
  (if a then (result_guard b Storage, s) else (Err Storage, s))
    = (result_guard (a && b) Storage : Result unit, s).
Proof. by destruct a. Qed.

Lemma andb_if {A} (a b : bool) (x y : A) :
  (if a then if b then x else y else y) = if a && b then x else y.
Proof. by destruct a, b. Qed.

Lemma validate_schema_clean s :
  faults (conn s) = [] ->
  validate_schema s = (result_guard (valid_shape (shape (current (conn s)))) Storage, s).
Proof.
  intros Hf. unfold validate_schema. rewrite !ask_clean by done.
  rewrite guard_bind, negb_orb, !negb_involutive, <- andb_if.
  next_test. next_test. rewrite ask_clean, guard_bind by done. next_test.
  unfold validate_table_list.
  erewrite bind_guard_step; [|rewrite ask_clean by done; apply guard_run]. next_test.
  unfold validate_table_xinfo.
  erewrite bind_guard_step; [|rewrite ask_clean, guard_bind, guard_run by done; apply guard_and].
  rewrite <- andb_if. next_test. next_test.
  unfold validate_no_indexes_or_foreign_keys.
  erewrite bind_guard_step; [|rewrite !ask_clean by done; apply guard_run].
  rewrite negb_orb, !negb_involutive, <- andb_if. next_test. next_test.
  rewrite ask_clean, guard_bind by done. next_test.
  rewrite ask_clean, guard_run by done. unfold valid_shape.
  repeat match goal with E : _ = true |- _ => rewrite E; clear E end. done.
Qed.

(** ** The validators only read *)

Lemma reader_ask {A} (f : StateDb -> A) : reader (S:=S) (ask f).
Proof. apply reader_on_query. Qed.

Lemma reader_validate_empty : reader (S:=S) validate_empty_database.
Proof. unfold validate_empty_database, ask. contain. Qed.

Lemma reader_validate_schema : reader (S:=S) validate_schema.
Proof.
  unfold validate_schema, validate_table_list, validate_table_xinfo,
    validate_no_indexes_or_foreign_keys, ask. contain.
Qed.

Lemma reader_read_row b : reader (S:=S) (read_row b).
Proof. unfold read_row, ask. contain. Qed.

Lemma reader_open_connection fs p : reader (S:=S) (open_connection fs p).
Proof. unfold open_connection, pragmas, ask. contain. Qed.

Lemma tx_quiet_validate_schema : tx_quiet (S:=S) validate_schema.
Proof.
  unfold validate_schema, validate_table_list, validate_table_xinfo,
    validate_no_indexes_or_foreign_keys, ask. contain.
Qed.

Lemma tx_contained_validate_schema : tx_contained (S:=S) validate_schema.
Proof.
  unfold validate_schema, validate_table_list, validate_table_xinfo,
    validate_no_indexes_or_foreign_keys, ask. contain.
Qed.

Lemma tx_quiet_validate_empty : tx_quiet (S:=S) validate_empty_database.
Proof. unfold validate_empty_database, ask. contain. Qed.

Lemma tx_contained_validate_empty : tx_contained (S:=S) validate_empty_database.
Proof. unfold validate_empty_database, ask. contain. Qed.

End Evaluation.

#[export] Hint Resolve reader_ask reader_validate_empty reader_validate_schema reader_read_row
  reader_open_connection tx_quiet_validate_schema tx_contained_validate_schema
  tx_quiet_validate_empty tx_contained_validate_empty : contain.

(** The shape the store creates is one it accepts. *)
Lemma client_state_shape_valid : valid_shape (client_state_shape "ok") = true.
Proof. vm_compute. reflexivity. Qed.

(** ** Transitions *)

(** One evaluated step of a computation or of its transition. *)
Ltac step_ok := cbn [mbind result_bind ok_or result_guard mret result_ret].

Section Transitions.
Context `{Lib : CryptoOps} `{Aead : AeadOps} {P : Type} `{Protector : StateKeyProtector P}.

(** The row of a handle. *)
Definition row_of (h : Handle P) : StateRow :=
  handle_row (binding h) (generation h) (wrapped_dek h) (nonce h) (ciphertext h).

Definition with_row (r : StateRow) (db : StateDb) : StateDb :=
  mkStateDb (shape db) (<[SLOT := r]> (client_state db)) (wal_mode db).

(** A commit: the handle and the file afterwards. *)
Definition commit_tx (h : Handle P) (new_state : list byte) (rng_nonce : option (array 24))
    (db : StateDb) : Result (Handle P * StateDb) :=
  next ← ok_or Storage (checked_add (generation h) 1);
  new_nonce ← ok_or Storage rng_nonce;
  c ← envelope_seal (binding h) next (wrapped_dek h) (dek h) new_nonce new_state;
  validate_ciphertext_len (Z.of_nat (length c));;
  to_i64 (generation h);;
  to_i64 next;;
  result_guard (valid_shape (shape db)) Storage;;
  r ← ok_or Storage (client_state db !! SLOT);
  result_guard (bool_decide (r = row_of h)) Storage;;
  let h' := mkHandle (protector h) (binding h) (dek h) (wrapped_dek h) new_nonce c next new_state
              (poisoned h) in
  result_guard (check_row SLOT (row_of h')) Storage;;
  mret (h', with_row (row_of h') db).

Definition poison (h : Handle P) : Handle P :=
  mkHandle (protector h) (binding h) (dek h) (wrapped_dek h) (nonce h) (ciphertext h)
    (generation h) (state h) true.

(** The stored row, checked. *)
Definition read_tx (b : ProfileBinding) (db : StateDb) : Result StoredRow :=
  r ← ok_or Storage (client_state db !! SLOT);
  result_guard (row_header_ok r) Storage;;
  result_guard (bool_decide (st_profile_id r = as_slice (profile_id b))
                && bool_decide (st_key_ref r = as_slice (key_ref b))) Storage;;
  n ← ok_or Storage (array_from_slice 24 (st_nonce r));
  result_guard (0 <=? st_generation r) Storage;;
  mret (mkStoredRow (st_generation r) (st_wrapped_dek r) n (st_ciphertext r)).

(** An open: the handle; the file only changes its journal mode. *)
Definition open_tx (fs : FileSystem) (p : path) (prot : P) (db : StateDb) : Result (Handle P) :=
  b ← expected_binding prot;
  reject_anomalous_wal fs p;;
  result_guard (valid_shape (shape db)) Storage;;
  r ← read_tx b db;
  k ← unwrap_dek prot (sw_wrapped_dek r);
  m ← envelope_open b (sw_generation r) (sw_wrapped_dek r) k (sw_nonce r) (sw_ciphertext r);
  mret (mkHandle prot b k (sw_wrapped_dek r) (sw_nonce r) (sw_ciphertext r) (sw_generation r) m
          false).

(** A creation: the handle and the file afterwards. *)
Definition create_tx (fs : FileSystem) (p : path) (prot : P) (initial : list byte)
    (rng_dek : option (array 32)) (rng_nonce : option (array 24)) (db : StateDb)
    : Result (Handle P * StateDb) :=
  b ← expected_binding prot;
  reject_anomalous_wal fs p;;
  result_guard (empty_shape (shape db)) Storage;;
  k ← ok_or Storage rng_dek;
  w ← wrap_dek prot k;
  result_guard (negb (bool_decide (w = []) || (WRAPPED_DEK_MAX_BYTES <? Z.of_nat (length w)))) Storage;;
  n ← ok_or Storage rng_nonce;
  c ← envelope_seal b 1 w k n initial;
  validate_ciphertext_len (Z.of_nat (length c));;
  let h := mkHandle prot b k w n c 1 initial false in
  result_guard (check_row SLOT (row_of h)) Storage;;
  let sh := client_state_shape (sh_integrity (shape db)) in
  result_guard (valid_shape sh) Storage;;
  mret (h, mkStateDb sh {[ SLOT := row_of h ]} false).

(** ** The operations implement the transitions *)

Definition file (db : StateDb) : Connection StateDb := mkConn db None [].
Definition writing (d db : StateDb) : Connection StateDb := mkConn d (Some db) [].

Lemma run_bind_ok {S A B} (m : SM S LabError A) (f : A -> SM S LabError B) s a s' :
  m s = (Ok a, s') -> (m ≫= f) s = f a s'.
Proof. apply sm_bind_ok. Qed.

Lemma run_lift_bind {S A B} (r : Result A) (f : A -> SM S LabError B) s :
  (sm_lift r ≫= f) s = match r with Ok a => f a s | Err e => (Err e, s) end.
Proof. by destruct r. Qed.

Lemma run_tx_file {A B} (body : SM (Connection StateDb) LabError A)
    (g : A -> SM (Connection StateDb) LabError B) db :
  (with_transaction body ≫= g) (file db) =
    match body (writing db db) with
    | (Ok a, c) => g a (drop_transaction c)
    | (Err e, c) => (Err e, drop_transaction c)
    end.
Proof. unfold mbind, SM_bind, with_transaction. simpl. by destruct (body _) as [[]]. Qed.

Lemma run_sql_writing {A B} (f : StateDb -> option (A * StateDb))
    (g : A -> SM (Connection StateDb) LabError B) d db :
  (on_conn (sql f) ≫= g) (writing d db) =
    match f db with
    | Some (a, db') => g a (writing d db')
    | None => (Err Storage, writing d db)
    end.
Proof.
  unfold mbind, SM_bind, on_conn, sm_zoom, sql, writing, current, next_io. simpl.
  by destruct (f db) as [[]|].
Qed.

Lemma run_query_writing {A B} (f : StateDb -> option A)
    (g : A -> SM (Connection StateDb) LabError B) d db :
  (on_conn (query f) ≫= g) (writing d db) =
    match f db with
    | Some a => g a (writing d db)
    | None => (Err Storage, writing d db)
    end.
Proof. unfold query. rewrite run_sql_writing. by destruct (f db). Qed.

Lemma run_schema_writing {B} (g : unit -> SM (Connection StateDb) LabError B) d db :
  (validate_schema ≫= g) (writing d db) =
    if valid_shape (shape db) then g tt (writing d db) else (Err Storage, writing d db).
Proof. apply bind_guard_step. by rewrite validate_schema_clean. Qed.

Lemma run_empty_writing {B} (g : unit -> SM (Connection StateDb) LabError B) d db :
  (validate_empty_database ≫= g) (writing d db) =
    if empty_shape (shape db) then g tt (writing d db) else (Err Storage, writing d db).
Proof. apply bind_guard_step. by rewrite validate_empty_clean. Qed.

Lemma run_empty_file {B} (g : unit -> SM (Connection StateDb) LabError B) db :
  (validate_empty_database ≫= g) (file db) =
    if empty_shape (shape db) then g tt (file db) else (Err Storage, file db).
Proof. apply bind_guard_step. by rewrite validate_empty_clean. Qed.

Lemma run_open_connection {B} fs p (g : unit -> SM (Connection StateDb) LabError B) db :
  (open_connection fs p ≫= g) (file db) =
    match reject_anomalous_wal fs p with
    | Ok _ => g tt (file db)
    | Err e => (Err e, file db)
    end.
Proof.
  unfold open_connection, mbind, SM_bind, sm_lift. by destruct (reject_anomalous_wal fs p).
Qed.

Lemma run_read_row {B} b (g : StoredRow -> SM (Connection StateDb) LabError B) d db :
  (read_row b ≫= g) (writing d db) =
    match read_tx b db with
    | Ok r => g r (writing d db)
    | Err e => (Err e, writing d db)
    end.
Proof.
  enough (read_row b (writing d db) = (read_tx b db, writing d db)) as E
    by (unfold mbind, SM_bind; rewrite E; by destruct (read_tx b db)).
  unfold read_row, read_tx. rewrite ask_clean, run_lift_bind by done.
  change (current (conn (writing d db))) with db.
  destruct (client_state db !! SLOT) as [r|] eqn:Er; simpl; [|done].
  rewrite guard_bind. destruct (row_header_ok r); simpl; [|done].
  rewrite run_query_writing, Er, guard_bind. destruct (_ && _); simpl; [|done].
  rewrite run_lift_bind. destruct (array_from_slice 24 _); simpl; [|done].
  rewrite guard_bind. by destruct (_ <=? _).
Qed.

Lemma open_clean fs p prot db :
  open_store fs p prot (file db) =
    match open_tx fs p prot db with
    | Ok h => (Ok h, file (rollback_journal db))
    | Err e => (Err e, file db)
    end.
Proof.
  unfold open_store, open_tx. rewrite run_lift_bind.
  destruct (expected_binding prot) as [b|]; simpl; [|done].
  rewrite run_open_connection. destruct (reject_anomalous_wal fs p); simpl; [|done].
  rewrite run_tx_file, run_schema_writing.
  destruct (valid_shape (shape db)); simpl; [|done]. rewrite run_read_row.
  destruct (read_tx b db) as [r|]; simpl; [|done]. rewrite run_lift_bind.
  destruct (unwrap_dek prot (sw_wrapped_dek r)); simpl; [|done]. rewrite run_lift_bind.
  by destruct (envelope_open _ _ _ _ _ _).
Qed.

Lemma open_clean_reply fs p prot db : fst (open_store fs p prot (file db)) = open_tx fs p prot db.
Proof. rewrite open_clean. by destruct (open_tx fs p prot db). Qed.

(** A row built from material that passed the checks satisfies the constraints of the table. *)
Lemma check_row_intro (h : Handle P) :
  1 <= generation h -> 1 <= Z.of_nat (length (wrapped_dek h)) <= 8192 ->
  16 <= Z.of_nat (length (ciphertext h)) <= MAX_CIPHERTEXT_BYTES ->
  check_row SLOT (row_of h) = true.
Proof.
  intros ? ? Hc. unfold MAX_CIPHERTEXT_BYTES in Hc. unfold check_row, row_of, handle_row. simpl.
  rewrite !length_as_slice, !bool_decide_true by done.
  by rewrite !(proj2 (Z.leb_le _ _)) by lia.
Qed.

(** *** Creation *)

(** What is computed between the first look at the file and the first write. *)
Definition material (prot : P) (b : ProfileBinding) (initial : list byte)
    (rng_dek : option (array 32)) (rng_nonce : option (array 24)) : Result (Handle P) :=
  k ← ok_or Storage rng_dek;
  w ← wrap_dek prot k;
  result_guard (negb (bool_decide (w = []) || (WRAPPED_DEK_MAX_BYTES <? Z.of_nat (length w)))) Storage;;
  n ← ok_or Storage rng_nonce;
  c ← envelope_seal b 1 w k n initial;
  validate_ciphertext_len (Z.of_nat (length c));;
  mret (mkHandle prot b k w n c 1 initial false).

Lemma material_row prot b initial rk rn h :
  material prot b initial rk rn = Ok h -> check_row SLOT (row_of h) = true.
Proof.
  unfold material, validate_ciphertext_len. intros H. inv_ok H. injection H as <-.
  apply check_row_intro; simpl; [lia| |].
  - rewrite negb_true_iff, orb_false_iff, Z.ltb_ge in Hv1. destruct Hv1 as [Hw%bool_decide_eq_false Hl].
    unfold WRAPPED_DEK_MAX_BYTES in Hl. destruct v0; [done|]. simpl. simpl in Hl. lia.
  - apply andb_true_iff in Hv4 as [?%Z.leb_le ?%Z.leb_le]. lia.
Qed.

(** The reading half of a creation. *)
Definition create_check (fs : FileSystem) (p : path) : SM (Connection StateDb) LabError unit :=
  open_connection fs p;; validate_empty_database.

Definition create_body (h : Handle P) : SM (Connection StateDb) LabError unit :=
  validate_empty_database;;
  on_conn (sql create_table);;
  on_conn (sql (insert_state SLOT (row_of h)));;
  validate_schema;;
  on_conn commit.

(** The writing half of a creation. *)
Definition create_write (h : Handle P) : SM (Connection StateDb) LabError (Handle P) :=
  activate_storage_settings;; with_transaction (create_body h);; mret h.

Lemma create_split fs p prot initial rk rn c :
  create_with_rng fs p prot initial rk rn c =
    match expected_binding prot with
    | Ok b =>
        match create_check fs p c with
        | (Ok _, c1) =>
            match material prot b initial rk rn with
            | Ok h => create_write h c1
            | Err e => (Err e, c1)
            end
        | (Err e, c1) => (Err e, c1)
        end
    | Err e => (Err e, c)
    end.
Proof.
  unfold create_with_rng. rewrite run_lift_bind.
  destruct (expected_binding prot) as [b|]; [|done].
  unfold create_check, mbind at 1, SM_bind at 1. symmetry. unfold mbind at 1, SM_bind at 1. symmetry.
  destruct (open_connection fs p c) as [[[]|e] c1]; [|done].
  unfold mbind at 1, SM_bind at 1. destruct (validate_empty_database c1) as [[[]|e] c2]; [|done].
  unfold material. rewrite run_lift_bind. destruct rk as [k|]; step_ok; [|reflexivity].
  rewrite run_lift_bind. destruct (wrap_dek prot k) as [w|]; step_ok; [|reflexivity].
  rewrite guard_bind. destruct (negb _); step_ok; [|reflexivity].
  rewrite run_lift_bind. destruct rn as [n|]; step_ok; [|reflexivity].
  rewrite run_lift_bind. destruct (envelope_seal _ _ _ _ _ _) as [x|]; step_ok; [|reflexivity].
  rewrite run_lift_bind. by destruct (validate_ciphertext_len _).
Qed.

(** The file a creation leaves. *)
Definition created (h : Handle P) : StateDb :=
  mkStateDb (client_state_shape "ok") {[ SLOT := row_of h ]} false.

(** Nothing is left to check once the material is there. *)
Lemma create_tx_material fs p prot initial rk rn db :
  create_tx fs p prot initial rk rn db =
    (b ← expected_binding prot;
     reject_anomalous_wal fs p;;
     result_guard (empty_shape (shape db)) Storage;;
     h ← material prot b initial rk rn;
     mret (h, created h)).
Proof.
  unfold create_tx, created. destruct (expected_binding prot) as [b|]; [|done].
  destruct (reject_anomalous_wal fs p); [|done].
  destruct (empty_shape (shape db)) eqn:Es; [|done]. step_ok.
  unfold empty_shape in Es. apply andb_true_iff in Es as [_ Ei%bool_decide_eq_true]. rewrite Ei.
  pose proof (material_row prot b initial rk rn) as Hrow. unfold material in *.
  destruct rk as [k|]; [|reflexivity]. cbn [ok_or mbind result_bind] in *.
  destruct (wrap_dek prot k) as [w|]; [|reflexivity].
  cbn [mbind result_bind] in *. destruct (result_guard _ _) as [[]|]; [|reflexivity].
  destruct rn as [n|]; [|reflexivity]. cbn [mbind result_bind ok_or] in *.
  destruct (envelope_seal _ _ _ _ _ _) as [x|]; [|reflexivity]. cbn [mbind result_bind] in *.
  destruct (validate_ciphertext_len _) as [[]|]; [|reflexivity]. cbn [mbind result_bind] in *.
  by rewrite (Hrow _ eq_refl), client_state_shape_valid.
Qed.

Lemma create_body_clean h db :
  empty_shape (shape db) = true -> check_row SLOT (row_of h) = true ->
  with_transaction (create_body h) (file db) =
    (Ok tt, file (mkStateDb (client_state_shape "ok") {[ SLOT := row_of h ]} (wal_mode db))).
Proof.
  intros Es Hrow.
  change (with_transaction (create_body h) (file db)) with
    (let '(r, c) := create_body h (writing db db) in (r, drop_transaction c)).
  unfold create_body. rewrite run_empty_writing, Es, run_sql_writing.
  unfold create_table. unfold empty_shape in Es. rewrite !andb_true_iff in Es.
  destruct Es as [[_ ->] ->%bool_decide_eq_true]. rewrite run_sql_writing. unfold insert_state.
  cbn [client_state shape]. rewrite Hrow, lookup_empty, bool_decide_true by done. cbn [andb].
  rewrite run_schema_writing. cbn [shape]. by rewrite client_state_shape_valid.
Qed.

Lemma create_body_contained h : contained (with_transaction (create_body h)).
Proof. unfold create_body. contain. Qed.

Lemma create_write_clean h db :
  empty_shape (shape db) = true -> check_row SLOT (row_of h) = true ->
  create_write h (file db) = (Ok h, file (created h)).
Proof.
  intros Es Hrow. unfold create_write.
  rewrite (run_bind_ok _ _ (file db) tt (file (rollback_journal db))) by done.
  by rewrite (run_bind_ok _ _ _ _ _ (create_body_clean h (rollback_journal db) Es Hrow)).
Qed.

Lemma create_write_outcome h c :
  txn c = None -> empty_shape (shape (disk c)) = true -> check_row SLOT (row_of h) = true ->
  let '(r, c') := create_write h c in
  r = Ok h /\ disk c' = created h \/
  r = Err Storage /\
    (disk c' = disk c \/ disk c' = rollback_journal (disk c) \/ disk c' = created h).
Proof.
  destruct c as [d t fs]. simpl. intros -> Es Hrow. unfold create_write.
  assert (Hact : forall (g : unit -> SM (Connection StateDb) LabError (Handle P)),
    (activate_storage_settings ≫= g) (mkConn d None fs) =
    match default IoOk (head fs) with
    | IoOk => g tt (mkConn (rollback_journal d) None (tail fs))
    | IoErr => (Err Storage, mkConn d None (tail fs))
    | IoLost => (Err Storage, mkConn (rollback_journal d) None (tail fs))
    end) by (intros g; by destruct fs as [|[] fs]).
  rewrite Hact. destruct (default IoOk (head fs)); [|by auto..].
  pose proof (create_body_contained h (mkConn (rollback_journal d) None (tail fs))) as Hc.
  unfold contained_at, clean, settle, with_disk in Hc. simpl in Hc.
  change (clear_faults (mkConn _ None (tail fs))) with (file (rollback_journal d)) in Hc.
  rewrite create_body_clean in Hc by done. unfold mbind, SM_bind.
  destruct (with_transaction (create_body h) _) as [r c']. simpl in Hc.
  destruct Hc as [_ [[-> E]|[-> [E|E]]]]; apply (f_equal disk) in E; simpl in E; simpl; rewrite E; auto.
Qed.

Lemma create_check_clean fs p db :
  create_check fs p (file db) =
    (reject_anomalous_wal fs p;; result_guard (empty_shape (shape db)) Storage, file db).
Proof.
  unfold create_check. rewrite run_open_connection.
  destruct (reject_anomalous_wal fs p); [|done]. by rewrite validate_empty_clean.
Qed.

(** The reading half with any failures. *)
Lemma create_check_outcome fs p c :
  txn c = None ->
  let '(r, c1) := create_check fs p c in
  txn c1 = None /\ disk c1 = disk c /\
  (r = (reject_anomalous_wal fs p;; result_guard (empty_shape (shape (disk c))) Storage) \/
   r = Err Storage).
Proof.
  intros Hi. assert (Hr : reader (create_check fs p)) by (unfold create_check; contain).
  assert (Ht : rests (create_check fs p))
    by (unfold create_check, open_connection, pragmas, validate_empty_database, ask; contain).
  specialize (Ht c Hi). destruct (Hr c (or_introl Hi)) as (_ & Hs & Hc). unfold contained_at in Hc.
  assert (clean c = file (disk c)) as Ecl by (destruct c; simpl in *; by subst).
  rewrite Ecl, create_check_clean in Hc. destruct (create_check fs p c) as [r c1]. simpl in Ht, Hs.
  apply (f_equal disk) in Hs. simpl in Hs. split; [done|]. split; [done|].
  destruct Hc as [_ [[-> _]|[-> _]]]; auto.
Qed.

Lemma create_clean fs p prot initial rk rn db :
  create_with_rng fs p prot initial rk rn (file db) =
    match create_tx fs p prot initial rk rn db with
    | Ok (h, db') => (Ok h, file db')
    | Err e => (Err e, file db)
    end.
Proof.
  rewrite create_split, create_tx_material. destruct (expected_binding prot) as [b|]; [|done].
  rewrite create_check_clean. step_ok. destruct (reject_anomalous_wal fs p); step_ok; [|done].
  destruct (empty_shape (shape db)) eqn:Es; step_ok; [|done].
  destruct (material prot b initial rk rn) as [h|] eqn:Em; step_ok; [|done].
  apply create_write_clean; [done|by eapply material_row].
Qed.

(** A creation whose reading half is refused or fails stops there. *)
Lemma create_unchecked fs p prot initial rk rn c :
  txn c = None -> is_ok (fst (create_check fs p c)) = false ->
  let '(r, c') := create_with_rng fs p prot initial rk rn c in is_ok r = false /\ disk c' = disk c.
Proof.
  intros Hi Hc. rewrite create_split. destruct (expected_binding prot); [|done].
  pose proof (create_check_outcome fs p c Hi) as Hp.
  destruct (create_check fs p c) as [[]]; [done|]. by destruct Hp as (_ & ? & _).
Qed.

(** A creation with any failures: a file that is not an empty database is not touched; an empty
    one may have its journal mode changed before the transaction. *)
Lemma create_outcome fs p prot initial rk rn c :
  txn c = None ->
  let '(r, c') := create_with_rng fs p prot initial rk rn c in
  (exists h, r = Ok h /\ create_tx fs p prot initial rk rn (disk c) = Ok (h, disk c')) \/
  (exists e, r = Err e) /\
    (disk c' = disk c \/
     empty_shape (shape (disk c)) = true /\ disk c' = rollback_journal (disk c) \/
     exists h, create_tx fs p prot initial rk rn (disk c) = Ok (h, disk c')).
Proof.
  intros Hi. rewrite create_split, create_tx_material.
  destruct (expected_binding prot) as [b|e]; [|simpl; eauto].
  pose proof (create_check_outcome fs p c Hi) as Hp. destruct (create_check fs p c) as [r c1].
  destruct Hp as (Ht & Hd & Hr). destruct r as [[]|e]; [|eauto].
  destruct Hr as [Hr|[=]]. symmetry in Hr. inv_ok Hr. rewrite Hv. step_ok.
  destruct (empty_shape (shape (disk c))) eqn:Es; [|done]. step_ok.
  destruct (material prot b initial rk rn) as [h|e] eqn:Em; step_ok; [|eauto].
  pose proof (create_write_outcome h c1 Ht) as Hw. rewrite Hd in Hw.
  specialize (Hw Es (material_row _ _ _ _ _ _ Em)). destruct (create_write h c1) as [r c'].
  destruct Hw as [[-> ->]|[-> [Hw|[Hw|Hw]]]]; rewrite ?Hw; eauto 10.
Qed.

(** *** Commit *)

Definition store_at (db : StateDb) (h : Handle P) : ClientStateStore P := mkStore (file db) h.

(** A transaction of the store is one of its connection. *)
Lemma run_tx_store {B} (body : SM (ClientStateStore P) LabError unit)
    (g : unit -> SM (ClientStateStore P) LabError B) db h :
  (with_transaction body ≫= g) (store_at db h) =
    match body (mkStore (writing db db) h) with
    | (Ok a, s) => g a (dropped s)
    | (Err e, s) => (Err e, dropped s)
    end.
Proof. unfold mbind, SM_bind, with_transaction. simpl. by destruct (body _) as [[]]. Qed.

Lemma run_schema_store {B} (g : unit -> SM (ClientStateStore P) LabError B) d db h :
  (validate_schema ≫= g) (mkStore (writing d db) h) =
    if valid_shape (shape db) then g tt (mkStore (writing d db) h)
    else (Err Storage, mkStore (writing d db) h).
Proof. apply bind_guard_step. by rewrite validate_schema_clean. Qed.

Lemma run_sql_store {A B} (f : StateDb -> option (A * StateDb))
    (g : A -> SM (ClientStateStore P) LabError B) d db h :
  (on_conn (sql f) ≫= g) (mkStore (writing d db) h) =
    match f db with
    | Some (a, db') => g a (mkStore (writing d db') h)
    | None => (Err Storage, mkStore (writing d db) h)
    end.
Proof.
  unfold mbind, SM_bind, on_conn, sm_zoom, sql, writing, current, next_io. simpl.
  by destruct (f db) as [[]|].
Qed.

(** [commit_inner] after it has read the handle. *)
Definition commit_body (h : Handle P) (new_state : list byte) (rng_nonce : option (array 24))
    : SM (ClientStateStore P) LabError unit :=
  next_generation ← sm_lift (ok_or Storage (checked_add (generation h) 1));
  new_nonce ← sm_lift (ok_or Storage rng_nonce);
  new_ciphertext ← sm_lift (envelope_seal (binding h) next_generation (wrapped_dek h) (dek h)
                              new_nonce new_state);
  sm_lift (validate_ciphertext_len (Z.of_nat (length new_ciphertext)));;
  expected ← sm_lift (to_i64 (generation h));
  next ← sm_lift (to_i64 next_generation);
  with_transaction (
    validate_schema;;
    changed ← on_conn (sql (update_state SLOT
                (handle_row (binding h) expected (wrapped_dek h) (nonce h) (ciphertext h))
                next (as_slice new_nonce) new_ciphertext));
    sm_guard (bool_decide (changed = 1%nat)) Storage;;
    on_conn commit);;
  update_handle (fun h => mkHandle (protector h) (binding h) (dek h) (wrapped_dek h) new_nonce
                            new_ciphertext next_generation new_state (poisoned h)).

Lemma commit_inner_body new_state rn s :
  commit_inner new_state rn s = commit_body (handle s) new_state rn s.
Proof. done. Qed.

Lemma commit_body_clean h new_state rn db :
  commit_body h new_state rn (store_at db h) =
    match commit_tx h new_state rn db with
    | Ok (h', db') => (Ok tt, store_at db' h')
    | Err e => (Err e, store_at db h)
    end.
Proof.
  unfold commit_body, commit_tx. rewrite run_lift_bind.
  destruct (checked_add (generation h) 1) as [next|]; step_ok; [|reflexivity].
  rewrite run_lift_bind. destruct rn as [n|]; step_ok; [|reflexivity].
  rewrite run_lift_bind. destruct (envelope_seal _ _ _ _ _ _) as [c|]; step_ok; [|reflexivity].
  rewrite run_lift_bind. destruct (validate_ciphertext_len _); step_ok; [|reflexivity].
  rewrite run_lift_bind. destruct (to_i64 (generation h)) as [g|] eqn:Eg; step_ok; [|reflexivity].
  apply to_i64_ok in Eg as [-> _].
  rewrite run_lift_bind. destruct (to_i64 next) as [g|] eqn:Eg; step_ok; [|reflexivity].
  apply to_i64_ok in Eg as [-> _].
  rewrite run_tx_store, run_schema_store. destruct (valid_shape (shape db)); step_ok; [|reflexivity].
  rewrite run_sql_store. unfold update_state, matches.
  destruct (client_state db !! SLOT) as [r|] eqn:Er; step_ok; [|reflexivity].
  fold (row_of h). case_bool_decide as E; step_ok; [|reflexivity]. subst r.
  set (h' := mkHandle (protector h) (binding h) (dek h) (wrapped_dek h) n c next new_state
               (poisoned h)).
  change (mkStateRow (st_profile_id (row_of h)) next (st_envelope_version (row_of h))
            (st_state_schema_version (row_of h)) (st_crypto_suite (row_of h))
            (st_key_ref (row_of h)) (st_wrapped_dek (row_of h)) (as_slice n) c) with (row_of h').
  destruct (check_row SLOT (row_of h')); step_ok; [|reflexivity].
  unfold with_row. reflexivity.
Qed.

Lemma steady_update_handle (f : Handle P -> Handle P) : steady (update_handle f).
Proof. by exists tt, (fun s => mkStore (store_connection s) (f (handle s))). Qed.

Lemma commit_body_contained h new_state rn : contained (commit_body h new_state rn).
Proof.
  unfold commit_body. repeat (apply contained_lift_bind; intros ? _).
  apply contained_bind_steady; [|intros; apply steady_update_handle].
  contain.
Qed.

Lemma commit_body_rests h new_state rn : rests (commit_body h new_state rn).
Proof. unfold commit_body. contain. apply rests_steady, steady_update_handle. Qed.

Definition store_idle (s : ClientStateStore P) : Prop := txn (store_connection s) = None.

(** A commit on a usable handle, with any failures. *)
Lemma commit_outcome new_state rn s :
  store_idle s -> poisoned (handle s) = false ->
  let '(r, s') := commit_with_rng new_state rn s in
  store_idle s' /\
  ((exists h', r = Ok tt /\ handle s' = h' /\
      commit_tx (handle s) new_state rn (disk (store_connection s))
        = Ok (h', disk (store_connection s')))
   \/ (exists e, r = Err e) /\ handle s' = poison (handle s) /\
      (disk (store_connection s') = disk (store_connection s) \/
       exists h', commit_tx (handle s) new_state rn (disk (store_connection s))
         = Ok (h', disk (store_connection s')))).
Proof.
  intros Hi Hp. unfold commit_with_rng. rewrite Hp, commit_inner_body.
  pose proof (commit_body_contained (handle s) new_state rn s) as Hc.
  pose proof (commit_body_rests (handle s) new_state rn s Hi) as Hr.
  unfold contained_at in Hc.
  assert (clean s = store_at (disk (store_connection s)) (handle s)) as Ecl.
  { destruct s as [[d t fs] h]. unfold store_idle in Hi. simpl in *. by subst t. }
  rewrite Ecl, commit_body_clean in Hc.
  destruct (commit_body (handle s) new_state rn s) as [r s']. simpl in Hr.
  destruct s' as [[d' t' fs'] h']. simpl in Hr. subst t'.
  unfold settle, with_disk, clean in Hc. simpl in Hc.
  destruct (commit_tx _ _ _ _) as [[h2 db2]|e]; simpl in Hc;
    destruct Hc as [_ [[-> E]|[-> [E|E]]]]; injection E as E1 E2; simpl;
    (split; [done|]); subst; eauto 8.
Qed.

(** *** Open *)

Lemma open_contained fs p prot : calm_contained (open_store fs p prot).
Proof.
  unfold open_store. repeat first [apply calm_contained_bind; [solve [contain]|intros]].
  apply contained_calm, contained_bind_steady; [|intros; apply steady_ret].
  intros s. apply contained_at_on_conn, autocommit_contained.
Qed.

(** An open with any failures: the reply, and what becomes of the file. *)
Lemma open_outcome fs p prot c :
  txn c = None ->
  let '(r, c') := open_store fs p prot c in
  (exists h, r = Ok h /\ open_tx fs p prot (disk c) = Ok h /\ disk c' = rollback_journal (disk c)) \/
  (exists e, r = Err e /\ (e = Storage \/ open_tx fs p prot (disk c) = Err e)) /\
    (disk c' = disk c \/
     is_ok (open_tx fs p prot (disk c)) = true /\ disk c' = rollback_journal (disk c)).
Proof.
  intros Hi. pose proof (open_contained fs p prot c (or_introl Hi)) as Hc. unfold contained_at in Hc.
  assert (clean c = file (disk c)) as Ecl by (destruct c; simpl in *; by subst).
  rewrite Ecl, open_clean in Hc. destruct (open_store fs p prot c) as [r c'].
  unfold settle, with_disk, clean in Hc. simpl in Hc.
  destruct (open_tx fs p prot (disk c)) as [h|e]; simpl in Hc;
    destruct Hc as [_ [[-> E]|[-> [E|E]]]]; apply (f_equal disk) in E; simpl in E; simpl; eauto 8.
Qed.

End Transitions.
