(* ===== verification/StateStoreTheorems.v ===== *)
(** * Theorems about the client state store

    Durability and round trips of snapshots, atomic replacement, compare-and-swap, poisoning,
    and creation that never overwrites. *)

From S2P Require Import Prelude Core Sqlite Envelope Companion StateStore StateStoreTx.

#[local] Open Scope string_scope.
#[local] Open Scope Z_scope.

Section StoreTheorems.
Context `{Lib : CryptoOps} `{Aead : AeadOps} {P : Type} `{Protector : StateKeyProtector P}.

(** The file holds exactly the snapshot of the handle, and the handle's protector can open it. *)
Record synced (h : Handle P) (db : StateDb) : Prop := {
  sy_shape : valid_shape (shape db) = true;
  sy_row : client_state db !! SLOT = Some (row_of h);
  sy_binding : expected_binding (protector h) = Ok (binding h);
  sy_dek : unwrap_dek (protector h) (wrapped_dek h) = Ok (dek h);
  sy_state : envelope_open (binding h) (generation h) (wrapped_dek h) (dek h) (nonce h)
               (ciphertext h) = Ok (state h);
  sy_generation : 1 <= generation h <= I64_MAX;
  sy_wrapped : 1 <= Z.of_nat (length (wrapped_dek h)) <= 8192;
  sy_ciphertext : 16 <= Z.of_nat (length (ciphertext h)) <= MAX_CIPHERTEXT_BYTES;
}.

(** The same handle, usable. *)
Definition usable (h : Handle P) : Handle P :=
  mkHandle (protector h) (binding h) (dek h) (wrapped_dek h) (nonce h) (ciphertext h)
    (generation h) (state h) false.

Lemma row_header_ok_row (h : Handle P) :
  1 <= generation h -> 1 <= Z.of_nat (length (wrapped_dek h)) <= 8192 ->
  16 <= Z.of_nat (length (ciphertext h)) <= MAX_CIPHERTEXT_BYTES ->
  row_header_ok (row_of h) = true.
Proof.
  intros Hg Hw Hc. unfold row_header_ok, row_of, handle_row, WRAPPED_DEK_MAX_BYTES. simpl.
  rewrite !length_as_slice. rewrite (proj2 (Z.ltb_ge (generation h) 1)) by lia.
  rewrite (proj2 (Z.ltb_ge _ 1)), (proj2 (Z.ltb_ge 8192 _)) by lia.
  rewrite (proj2 (Z.ltb_ge _ 16)), (proj2 (Z.ltb_ge MAX_CIPHERTEXT_BYTES _)) by lia. done.
Qed.

(** The journal mode is no part of the contents. *)
Lemma synced_rollback h db : synced h (rollback_journal db) <-> synced h db.
Proof. split; intros []; by split. Qed.

(** A synced snapshot opens to the handle it stands for. *)
Lemma open_synced fs p h db :
  synced h db -> reject_anomalous_wal fs p = Ok tt -> open_tx fs p (protector h) db = Ok (usable h).
Proof.
  intros [Hs Hr Hb Hk Hm Hg Hw Hc] Hwal. unfold open_tx, read_tx.
  rewrite Hb, Hwal. cbn [mbind result_bind]. rewrite Hs, Hr. cbn [result_guard ok_or mbind result_bind].
  rewrite row_header_ok_row by done || lia. cbn [result_guard mbind result_bind].
  unfold row_of at 1 2, handle_row at 1 2. cbn [st_profile_id st_key_ref].
  rewrite !bool_decide_true by done. cbn [andb result_guard mbind result_bind].
  unfold row_of, handle_row. cbn [st_nonce]. rewrite array_from_as_slice. cbn.
  rewrite (proj2 (Z.leb_le _ _)) by lia. cbn. by rewrite Hk; cbn; rewrite Hm.
Qed.

(** What opens is synced. *)
Lemma open_tx_ok fs p prot db h :
  open_tx fs p prot db = Ok h ->
  synced h db /\ protector h = prot /\ poisoned h = false /\ reject_anomalous_wal fs p = Ok tt.
Proof.
  unfold open_tx, read_tx. intros H. inv_ok H. injection H as <-. inv_ok Hv2. injection Hv2 as <-.
  cbn [sw_generation sw_wrapped_dek sw_nonce sw_ciphertext] in *.
  apply andb_true_iff in Hv7 as [Hp%bool_decide_eq_true Hk%bool_decide_eq_true].
  apply array_from_slice_Some in Hv8. apply Z.leb_le in Hv9.
  unfold row_header_ok in Hv6.
  rewrite negb_true_iff, !orb_false_iff, !negb_false_iff, !Z.ltb_ge, !Z.eqb_eq in Hv6.
  destruct Hv6 as [[[[[[[[[[? ?] Hev] Hsv] Hcs] ?] ?] ?] ?] ?] ?].
  split; [|by destruct v0]. destruct v5 as [f1 f2 f3 f4 f5 f6 f7 f8 f9]; simpl in *.
  assert (Hopen : f2 <= I64_MAX).
  { unfold envelope_open in Hv4. destruct (_ || _) in Hv4; [done|]. inv_ok Hv4.
    match goal with E : validate_header _ _ _ = _ |- _ => by apply validate_header_ok in E as (_ & ? & _) end. }
  split; simpl; try done || lia.
  unfold row_of, handle_row. simpl. by rewrite Hv5, <- Hp, <- Hk, Hv8, <- Hev, <- Hsv, <- Hcs.
Qed.

Context {Ciphers : AeadLaws}.

Lemma commit_tx_synced h new_state rn db h' db' :
  synced h db -> commit_tx h new_state rn db = Ok (h', db') ->
  synced h' db' /\ generation h' = generation h + 1 /\ state h' = new_state /\
  protector h' = protector h /\ poisoned h' = poisoned h.
Proof.
  intros [Hs Hr Hb Hk Hm Hg Hw Hc] H. unfold commit_tx in H. inv_ok H. injection H as <- <-.
  unfold checked_add in Hv. case_decide; [|done]. injection Hv as <-.
  apply to_i64_ok in Hv4 as [_ Hi].
  pose proof (envelope_open_sealed _ _ _ _ _ _ _ Hv1) as Hopen.
  apply envelope_seal_ok in Hv1 as (_ & _ & _ & Hlen & Hmax & _).
  split; [|done]. split; simpl; try done || lia. apply lookup_insert_eq.
Qed.

Lemma create_tx_synced `{!ProtectorLaws P} fs p prot initial rk rn db h db' :
  create_tx fs p prot initial rk rn db = Ok (h, db') ->
  synced h db' /\ generation h = 1 /\ state h = initial /\ protector h = prot /\
  poisoned h = false /\ reject_anomalous_wal fs p = Ok tt /\ empty_shape (shape db) = true /\
  dom (client_state db') = {[ SLOT ]}.
Proof.
  unfold create_tx. intros H. inv_ok H. injection H as <- <-.
  pose proof (envelope_open_sealed _ _ _ _ _ _ _ Hv6) as Hopen.
  apply envelope_seal_ok in Hv6 as (_ & _ & Hw & Hlen & Hmax & _).
  apply unwrap_wrap in Hv3. destruct v0.
  split; [|split; [done|split; [done|split; [done|split; [done|split; [done|split; [done|]]]]]]].
  - split; simpl; try done || lia.
  - simpl. by rewrite dom_singleton_L.
Qed.

(** A usable store in sync with its file. *)
Definition current_store (s : ClientStateStore P) : Prop :=
  store_idle s /\ poisoned (handle s) = false /\ synced (handle s) (disk (store_connection s)).

(** Reopening the file of a store with its own protector, without failures. *)
Definition reopen (fs : FileSystem) (p : path) (s : ClientStateStore P) : Result (Handle P) :=
  fst (open_store fs p (protector (handle s)) (file (disk (store_connection s)))).

Lemma reopen_synced fs p s h :
  synced h (disk (store_connection s)) -> protector h = protector (handle s) ->
  reject_anomalous_wal fs p = Ok tt -> reopen fs p s = Ok (usable h).
Proof.
  intros Hs Ep Hw. unfold reopen. rewrite open_clean_reply, <- Ep. by apply open_synced.
Qed.

(** C16. A commit is atomic and recoverable. Whatever calls into [SQLite] fail during it, and even
    if the commit took effect although it reported a failure, reopening the file yields either
    the old state at its generation or exactly the new state at the next generation. After
    success it is the new one, and the handle shows it; after a failure the handle is poisoned. *)
Theorem commit_is_old_or_new fs p s new_state rn :
  current_store s -> reject_anomalous_wal fs p = Ok tt ->
  let '(r, s') := commit_with_rng new_state rn s in
  exists h, reopen fs p s' = Ok h /\
    ((generation h = generation (handle s) /\ state h = state (handle s) /\ is_ok r = false) \/
     (generation h = generation (handle s) + 1 /\ state h = new_state)) /\
    match r with
    | Ok _ => get_state (handle s') = Ok new_state /\
              get_generation (handle s') = Ok (generation (handle s) + 1)
    | Err _ => poisoned (handle s') = true
    end.
Proof.
  intros (Hi & Hp & Hs) Hw. pose proof (commit_outcome new_state rn s Hi Hp) as Ho.
  destruct (commit_with_rng new_state rn s) as [r s'].
  destruct Ho as [_ [(h' & -> & Eh & Htx)|((e & ->) & Eh & Hd)]].
  - destruct (commit_tx_synced _ _ _ _ _ _ Hs Htx) as (Hs' & Hg & Hst & Ep & Epo).
    exists (usable h'). split; [apply reopen_synced; congruence|].
    split; [right; done|]. rewrite Eh. unfold get_state, get_generation, ensure_usable.
    rewrite Epo, Hp, Hst, Hg. done.
  - destruct Hd as [Hd|(h' & Htx)].
    + exists (usable (handle s)). split; [|rewrite Eh; auto].
      apply reopen_synced; [by rewrite Hd|by rewrite Eh|done].
    + destruct (commit_tx_synced _ _ _ _ _ _ Hs Htx) as (Hs' & Hg & Hst & Ep & _).
      exists (usable h'). split; [|rewrite Eh; auto].
      apply reopen_synced; [done|by rewrite Eh, Ep|done].
Qed.

(** No lost update: a handle whose snapshot is not exactly the stored row (another writer
    committed, or the file was rolled back or replaced) cannot write. Its commit fails, changes
    nothing in the file, and poisons the handle. *)
Theorem stale_handle_cannot_write (s : ClientStateStore P) new_state rn :
  store_idle s -> poisoned (handle s) = false ->
  client_state (disk (store_connection s)) !! SLOT <> Some (row_of (handle s)) ->
  let '(r, s') := commit_with_rng new_state rn s in
  (exists e, r = Err e) /\ disk (store_connection s') = disk (store_connection s) /\
  poisoned (handle s') = true.
Proof.
  intros Hi Hp Hrow.
  assert (Hno : forall h' db', commit_tx (handle s) new_state rn (disk (store_connection s))
    <> Ok (h', db')).
  { intros h' db' H. unfold commit_tx in H. inv_ok H. apply bool_decide_eq_true in Hv7. congruence. }
  pose proof (commit_outcome new_state rn s Hi Hp) as Ho.
  destruct (commit_with_rng new_state rn s) as [r s'].
  destruct Ho as [_ [(h' & _ & _ & Htx)|(He & -> & [Hd|(h' & Htx)])]];
    [by destruct (Hno _ _ Htx)|by auto|by destruct (Hno _ _ Htx)].
Qed.

(** A poisoned handle is dead: every accessor and every commit is refused, and nothing
    changes. *)
Theorem poisoned_handle_refuses (s : ClientStateStore P) new_state rn :
  poisoned (handle s) = true ->
  commit_with_rng new_state rn s = (Err Storage, s) /\ get_state (handle s) = Err Storage /\
  get_generation (handle s) = Err Storage /\ get_binding (handle s) = Err Storage.
Proof.
  intros Hp. unfold commit_with_rng, get_state, get_generation, get_binding, ensure_usable.
  by rewrite Hp.
Qed.

(** C31. Creation never overwrites. On a file that is not an empty database it fails and leaves
    the file as it is; when it reports success, the file holds exactly one row, generation one,
    and reopening it yields the initial state; and if it fails on an empty database, the file is
    either still that empty database, at most switched to rollback-journal mode, or holds that
    complete first snapshot. *)
Theorem create_never_overwrites `{!ProtectorLaws P} fs p prot initial rk rn c :
  txn c = None ->
  let '(r, c') := create_with_rng fs p prot initial rk rn c in
  (empty_shape (shape (disk c)) = false -> is_ok r = false /\ disk c' = disk c) /\
  match r with
  | Ok h => dom (client_state (disk c')) = {[ SLOT ]} /\ generation h = 1 /\
      fst (open_store fs p prot (file (disk c'))) = Ok h /\ state h = initial
  | Err _ => disk c' = disk c \/ disk c' = rollback_journal (disk c) \/
      exists h, fst (open_store fs p prot (file (disk c'))) = Ok h /\ generation h = 1 /\
        state h = initial
  end.
Proof.
  intros Hi. pose proof (create_outcome fs p prot initial rk rn c Hi) as Ho.
  destruct (create_with_rng _ _ _ _ _ _ c) as [r c'].
  assert (Hcreated : forall h, create_tx fs p prot initial rk rn (disk c) = Ok (h, disk c') ->
    empty_shape (shape (disk c)) = true /\ dom (client_state (disk c')) = {[ SLOT ]} /\
    generation h = 1 /\ fst (open_store fs p prot (file (disk c'))) = Ok h /\ state h = initial).
  { intros h (Hs & Hg & Hst & Ep & Hpo & Hw & Hem & Hdom)%create_tx_synced.
    repeat split; try done. rewrite open_clean_reply, <- Ep, (open_synced fs p h) by done.
    destruct h; simpl in *; by subst. }
  destruct Ho as [(h & -> & Htx)|((e & ->) & [Hd|[[Hem Hd]|(h & Htx)]])].
  - destruct (Hcreated h Htx) as (Hem & ? & ? & ? & ?). split; [congruence|]. done.
  - rewrite Hd. auto.
  - rewrite Hd, Hem. split; [done|auto].
  - destruct (Hcreated h Htx) as (Hem & ? & ? & ? & ?). split; [congruence|]. eauto 6.
Qed.

(** ** Sequences of commits *)

(** One commit: the new state, the nonce drawn, the failures that await it. *)
Record CommitCall : Type := mkCommit {
  cm_state : list byte;
  cm_nonce : option (array 24);
  cm_faults : list io;
}.

Definition store_load (fs : list io) (s : ClientStateStore P) : ClientStateStore P :=
  mkStore (mkConn (disk (store_connection s)) (txn (store_connection s)) fs) (handle s).

Definition commit_call (k : CommitCall) (s : ClientStateStore P)
    : Result unit * ClientStateStore P :=
  commit_with_rng (cm_state k) (cm_nonce k) (store_load (cm_faults k) s).

Fixpoint commit_run (ks : list CommitCall) (s : ClientStateStore P)
    : list (Result unit) * ClientStateStore P :=
  match ks with
  | [] => ([], s)
  | k :: ks => let '(r, s1) := commit_call k s in
               let '(rs, s2) := commit_run ks s1 in (r :: rs, s2)
  end.

Lemma commit_run_poisoned ks s :
  poisoned (handle s) = true ->
  let '(rs, s') := commit_run ks s in
  Forall (fun r => is_ok r = false) rs /\ handle s' = handle s /\
  disk (store_connection s') = disk (store_connection s).
Proof.
  revert s. induction ks as [|k ks IH]; intros s Hp; simpl; [done|].
  unfold commit_call, commit_with_rng. simpl. rewrite Hp.
  specialize (IH (store_load (cm_faults k) s) Hp).
  destruct (commit_run ks _) as [rs s2]. simpl in IH. naive_solver.
Qed.

(** One commit of a store in sync. *)
Lemma commit_call_current k s :
  current_store s ->
  let '(r, s') := commit_call k s in
  (r = Ok tt /\ current_store s' /\ generation (handle s') = generation (handle s) + 1 /\
     state (handle s') = cm_state k /\ protector (handle s') = protector (handle s)) \/
  (is_ok r = false /\ handle s' = poison (handle s) /\
     exists h, synced h (disk (store_connection s')) /\ protector h = protector (handle s) /\
       (generation h = generation (handle s) /\ state h = state (handle s) \/
        generation h = generation (handle s) + 1 /\ state h = cm_state k)).
Proof.
  intros (Hi & Hp & Hs). unfold commit_call.
  pose proof (commit_outcome (cm_state k) (cm_nonce k) (store_load (cm_faults k) s) Hi Hp) as Ho.
  destruct (commit_with_rng _ _ _) as [r s']. simpl in Ho.
  destruct Ho as [Hi' [(h' & -> & Eh & Htx)|((e & ->) & Eh & Hd)]].
  - left. destruct (commit_tx_synced _ _ _ _ _ _ Hs Htx) as (Hs' & Hg & Hst & Ep & Epo).
    subst h'. repeat split; try done; [by rewrite Epo|apply Hs'..].
  - right. split; [done|]. split; [done|]. destruct Hd as [Hd|(h' & Htx)].
    + exists (handle s). rewrite Hd. auto.
    + destruct (commit_tx_synced _ _ _ _ _ _ Hs Htx) as (Hs' & Hg & Hst & Ep & _). eauto 6.
Qed.

(** The successful commits of a handle form a prefix: in any sequence of commits, each with
    any failures, some first [n] succeed and every later one fails. The handle ends at its
    initial generation plus [n] with the state of the last success, and reopening the file
    yields that snapshot or, only if some commit failed, possibly the complete snapshot of the
    first one that failed. *)
Theorem successful_commits_form_prefix fs p ks s :
  current_store s -> reject_anomalous_wal fs p = Ok tt ->
  let '(rs, s') := commit_run ks s in
  exists n errs, rs = (replicate n (Ok tt) ++ errs)%list /\ Forall (fun r => is_ok r = false) errs /\
    generation (handle s') = generation (handle s) + Z.of_nat n /\
    state (handle s') = default (state (handle s)) (last (cm_state <$> take n ks)) /\
    exists h, reopen fs p s' = Ok h /\
      (generation h = generation (handle s') /\ state h = state (handle s') \/
       errs <> [] /\ generation h = generation (handle s') + 1 /\
         Some (state h) = cm_state <$> ks !! n).
Proof.
  intros Hs Hw. revert s Hs. induction ks as [|k ks IH]; intros s Hs; cbn [commit_run].
  { exists 0%nat, []. split; [done|]. split; [done|]. split; [simpl; lia|]. split; [done|].
    exists (usable (handle s)). split; [by apply reopen_synced; [apply Hs|..]|by left]. }
  pose proof (commit_call_current k s Hs) as Hc. destruct (commit_call k s) as [r s1].
  destruct Hc as [(-> & Hs1 & Hg & Hst & Ep)|(Hr & Eh & h & Hsy & Ep & Hor)].
  - specialize (IH s1 Hs1). destruct (commit_run ks s1) as [rs s2].
    destruct IH as (n & errs & -> & He & Hgn & Hsn & h & Hre & Hor).
    exists (S n), errs. split; [done|]. split; [done|]. split; [lia|]. split; [|by eauto].
    rewrite Hsn, Hst. cbn [take]. rewrite fmap_cons, last_cons.
    by destruct (last (cm_state <$> take n ks)).
  - assert (Hp : poisoned (handle s1) = true) by (by rewrite Eh).
    pose proof (commit_run_poisoned ks s1 Hp) as Hrun.
    destruct (commit_run ks s1) as [rs s2]. destruct Hrun as (Hrs & Eh2 & Hd).
    exists 0%nat, (r :: rs). split; [done|]. split; [by constructor|].
    rewrite Eh2, Eh. split; [simpl; lia|]. split; [done|]. exists (usable h).
    split; [apply reopen_synced; [by rewrite Hd|by rewrite Eh2, Eh|done]|].
    destruct Hor as [[Hg Hst]|[Hg Hst]]; [by left|]. right. simpl. by rewrite Hg, Hst.
Qed.

End StoreTheorems.

Section OpenTheorems.
Context `{Lib : CryptoOps} `{Aead : AeadOps} {P : Type} `{Protector : StateKeyProtector P}.


End OpenTheorems.
