(* ===== verification/StateStoreShared.v ===== *)
(** * Several handles on one client-state file

    Handles of one profile that are opened, used and dropped in any order, in any number, by one
    process after another or side by side. Each call of the code runs in one [SQLite]
    transaction, so calls are the units of interleaving; each call meets its own failures.

    [Register] is the abstract store: the list of all snapshots ever made current, in order, and
    for each handle the position it has seen, or nothing once it is poisoned. Its steps say what
    the store promises: the list only grows, by at most one snapshot per call and only on behalf
    of a handle that has seen all of it; a caller that got an error may or may not have been
    recorded. *)

From S2P Require Import Prelude Core Sqlite Envelope Companion StateStore StateStoreTx.
From S2P Require Import StateStoreTheorems.

#[local] Open Scope Z_scope.

(** ** Calls *)

Inductive StoreEvent : Type :=
  | EvCreate (i : nat) (initial : list byte) (rk : option (array 32)) (rn : option (array 24))
      (fs : list io)
  | EvOpen (i : nat) (fs : list io)
  | EvRead (i : nat)
  | EvCommit (i : nat) (new_state : list byte) (rn : option (array 24)) (fs : list io)
  | EvDrop (i : nat).

Inductive StoreReply : Type :=
  | Created
  | Snapshot (generation : Z) (state : list byte)
  | Committed
  | Dropped.

(** ** The abstract store *)

Record Register : Type := mkRegister {
  history : list (list byte);
  views : gmap nat (option nat);
}.

(** The snapshot at a generation; generations count from one. *)
Definition snapshot_at (g : nat) (reg : Register) : option (list byte) :=
  match g with O => None | S n => history reg !! n end.

Definition record_snapshot (s : list byte) (reg : Register) : Register :=
  mkRegister (history reg ++ [s]) (views reg).

Definition set_view (i : nat) (v : option nat) (reg : Register) : Register :=
  mkRegister (history reg) (<[i := v]> (views reg)).

Definition drop_view (i : nat) (reg : Register) : Register :=
  mkRegister (history reg) (delete i (views reg)).

Definition newest (reg : Register) : nat := length (history reg).

Inductive reg_step (reg : Register) : StoreEvent -> Result StoreReply -> Register -> Prop :=
  | reg_create_ok i s rk rn fs :
      history reg = [] ->
      reg_step reg (EvCreate i s rk rn fs) (Ok Created) (set_view i (Some 1%nat) (record_snapshot s reg))
  | reg_create_err i s rk rn fs e :
      reg_step reg (EvCreate i s rk rn fs) (Err e) reg
  | reg_create_unsure i s rk rn fs e :
      history reg = [] ->
      reg_step reg (EvCreate i s rk rn fs) (Err e) (record_snapshot s reg)
  | reg_open_ok i fs s :
      snapshot_at (newest reg) reg = Some s ->
      reg_step reg (EvOpen i fs) (Ok (Snapshot (Z.of_nat (newest reg)) s))
        (set_view i (Some (newest reg)) reg)
  | reg_open_err i fs e : reg_step reg (EvOpen i fs) (Err e) reg
  | reg_read_ok i g s :
      views reg !! i = Some (Some g) -> snapshot_at g reg = Some s ->
      reg_step reg (EvRead i) (Ok (Snapshot (Z.of_nat g) s)) reg
  | reg_read_err i :
      views reg !! i = None \/ views reg !! i = Some None ->
      reg_step reg (EvRead i) (Err Storage) reg
  | reg_commit_ok i s rn fs :
      views reg !! i = Some (Some (newest reg)) ->
      reg_step reg (EvCommit i s rn fs) (Ok Committed)
        (set_view i (Some (S (newest reg))) (record_snapshot s reg))
  | reg_commit_err i s rn fs e :
      is_Some (views reg !! i) ->
      reg_step reg (EvCommit i s rn fs) (Err e) (set_view i None reg)
  | reg_commit_unsure i s rn fs e :
      views reg !! i = Some (Some (newest reg)) ->
      reg_step reg (EvCommit i s rn fs) (Err e) (set_view i None (record_snapshot s reg))
  | reg_commit_none i s rn fs :
      views reg !! i = None -> reg_step reg (EvCommit i s rn fs) (Err Storage) reg
  | reg_drop i : reg_step reg (EvDrop i) (Ok Dropped) (drop_view i reg).

Inductive reg_steps (reg : Register) : list StoreEvent -> list (Result StoreReply) -> Register -> Prop :=
  | reg_done : reg_steps reg [] [] reg
  | reg_more ev r reg1 evs rs reg2 :
      reg_step reg ev r reg1 -> reg_steps reg1 evs rs reg2 ->
      reg_steps reg (ev :: evs) (r :: rs) reg2.

(** ** What the abstract store guarantees *)

(** The snapshots a sequence of calls was told were recorded, in order. *)
Definition recorded (ev : StoreEvent) (r : Result StoreReply) : list (list byte) :=
  match ev, r with
  | EvCreate _ s _ _ _, Ok Created => [s]
  | EvCommit _ s _ _, Ok Committed => [s]
  | _, _ => []
  end.

Fixpoint all_recorded (evs : list StoreEvent) (rs : list (Result StoreReply)) : list (list byte) :=
  match evs, rs with
  | ev :: evs, r :: rs => recorded ev r ++ all_recorded evs rs
  | _, _ => []
  end.

(** Every step appends what it reported, or something it did not report, or nothing. *)
Lemma reg_step_history reg ev r reg' :
  reg_step reg ev r reg' ->
  exists l, history reg' = history reg ++ l /\ recorded ev r `sublist_of` l.
Proof.
  destruct 1; simpl; try (exists []; by rewrite app_nil_r; split; [|constructor]);
    eexists [_]; (split; [done|]); repeat constructor.
Qed.

Lemma reg_steps_history reg evs rs reg' :
  reg_steps reg evs rs reg' ->
  exists l, history reg' = history reg ++ l /\ all_recorded evs rs `sublist_of` l.
Proof.
  induction 1 as [|reg ev r reg1 evs rs reg2 Hs _ (l2 & E2 & H2)].
  - exists []. by rewrite app_nil_r.
  - apply reg_step_history in Hs as (l1 & E1 & H1). exists (l1 ++ l2).
    rewrite E2, E1, app_assoc. split; [done|]. simpl. by apply sublist_app.
Qed.

(** ** The concrete system *)

Section Shared.
Context `{Lib : CryptoOps} `{Aead : AeadOps} {P : Type} `{Protector : StateKeyProtector P}.

Section System.
(** The path, the files beside it, and the protector of the profile. *)
Context (fs : FileSystem) (p : path) (prot : P).

(** The contents of the file, and the handles that are alive. *)
Record SharedStore : Type := mkShared {
  file_db : StateDb;
  handles : gmap nat (Handle P);
}.

(** A connection of its own to the file, with the failures that await the call. *)
Definition connect (faults : list io) (s : SharedStore) : Connection StateDb :=
  mkConn (file_db s) None faults.

Definition store_event (ev : StoreEvent) (s : SharedStore) : Result StoreReply * SharedStore :=
  match ev with
  | EvCreate i initial rk rn faults =>
      match create_with_rng fs p prot initial rk rn (connect faults s) with
      | (Ok h, c) => (Ok Created, mkShared (disk c) (<[i := h]> (handles s)))
      | (Err e, c) => (Err e, mkShared (disk c) (handles s))
      end
  | EvOpen i faults =>
      match open_store fs p prot (connect faults s) with
      | (Ok h, c) => (Ok (Snapshot (generation h) (state h)),
                      mkShared (disk c) (<[i := h]> (handles s)))
      | (Err e, c) => (Err e, mkShared (disk c) (handles s))
      end
  | EvRead i =>
      (h ← ok_or Storage (handles s !! i);
       g ← get_generation h; st ← get_state h; mret (Snapshot g st), s)
  | EvCommit i new_state rn faults =>
      match handles s !! i with
      | None => (Err Storage, s)
      | Some h =>
          let '(r, st) := commit_with_rng new_state rn (mkStore (connect faults s) h) in
          (r;; mret Committed,
           mkShared (disk (store_connection st)) (<[i := handle st]> (handles s)))
      end
  | EvDrop i => (Ok Dropped, mkShared (file_db s) (delete i (handles s)))
  end.

Fixpoint store_run (evs : list StoreEvent) (s : SharedStore)
    : list (Result StoreReply) * SharedStore :=
  match evs with
  | [] => ([], s)
  | ev :: evs => let '(r, s1) := store_event ev s in
                 let '(rs, s2) := store_run evs s1 in (r :: rs, s2)
  end.

(** ** The simulation relation *)

(** The handle whose snapshot the file holds, if the store exists. *)
Definition file_holds (reg : Register) (db : StateDb) : Prop :=
  match history reg with
  | [] => empty_shape (shape db) = true
  | _ => exists h, synced h db /\ protector h = prot /\
           generation h = Z.of_nat (newest reg) /\ snapshot_at (newest reg) reg = Some (state h)
  end.

(** A usable handle shows the snapshot it has seen; if that is the newest, it is in sync. *)
Definition handle_sees (reg : Register) (db : StateDb) (h : Handle P) (v : option nat) : Prop :=
  protector h = prot /\
  match v with
  | None => poisoned h = true
  | Some g => poisoned h = false /\ generation h = Z.of_nat g /\
      snapshot_at g reg = Some (state h) /\ (g <= newest reg)%nat /\
      (g = newest reg -> synced h db)
  end.

Definition represents (reg : Register) (s : SharedStore) : Prop :=
  file_holds reg (file_db s) /\
  forall i, option_Forall2 (handle_sees reg (file_db s)) (handles s !! i) (views reg !! i).

(** ** Every call is a step of the abstract store *)

Lemma snapshot_at_record g x reg y :
  snapshot_at g reg = Some y -> snapshot_at g (record_snapshot x reg) = Some y.
Proof. destruct g; [done|]. simpl. intros. by apply lookup_app_l_Some. Qed.

Lemma snapshot_at_newest x reg : snapshot_at (S (newest reg)) (record_snapshot x reg) = Some x.
Proof. simpl. unfold newest. by rewrite lookup_app_r, Nat.sub_diag. Qed.

Lemma newest_record x reg : newest (record_snapshot x reg) = S (newest reg).
Proof. unfold newest. simpl. rewrite length_app. simpl. lia. Qed.

(** Handles that exist keep what they show when a snapshot is recorded. *)
Lemma sees_record reg db db' h v x :
  handle_sees reg db h v -> handle_sees (record_snapshot x reg) db' h v.
Proof.
  intros [Hp Hv]. split; [done|]. destruct v as [g|]; [|done].
  destruct Hv as (? & ? & ? & ? & ?). rewrite newest_record.
  split; [done|]. split; [done|]. split; [by apply snapshot_at_record|]. split; lia.
Qed.

Lemma sees_current reg db h :
  synced h db -> protector h = prot -> poisoned h = false ->
  generation h = Z.of_nat (newest reg) -> snapshot_at (newest reg) reg = Some (state h) ->
  handle_sees reg db h (Some (newest reg)).
Proof. intros. split; [done|]. auto 6. Qed.

Lemma holds_current reg db h :
  synced h db -> protector h = prot -> generation h = Z.of_nat (newest reg) ->
  snapshot_at (newest reg) reg = Some (state h) -> file_holds reg db.
Proof.
  intros. unfold file_holds. destruct (history reg) eqn:E; [|by exists h].
  unfold newest in *. by rewrite E in *.
Qed.

(** A new snapshot becomes current; handles keep their views. *)
Lemma represents_record reg s h x db' :
  represents reg s -> synced h db' -> protector h = prot ->
  generation h = Z.of_nat (S (newest reg)) -> state h = x ->
  represents (record_snapshot x reg) (mkShared db' (handles s)).
Proof.
  intros [_ Hv] Hs Hp Hg Hx. split; simpl.
  - apply (holds_current _ _ h); rewrite ?newest_record; [done..|].
    rewrite snapshot_at_newest. congruence.
  - intros i. destruct (Hv i); constructor. by eapply sees_record.
Qed.

(** A handle is added, replaced or poisoned. *)
Lemma represents_insert reg s i h v :
  represents reg s -> handle_sees reg (file_db s) h v ->
  represents (set_view i v reg) (mkShared (file_db s) (<[i := h]> (handles s))).
Proof.
  intros [Hf Hv] Hs. split; [done|]. intros j. simpl.
  destruct (decide (i = j)) as [<-|]; [by rewrite !lookup_insert_eq; constructor|].
  rewrite !lookup_insert_ne by done. apply Hv.
Qed.

Context {Ciphers : AeadLaws}.

Lemma shapes_exclusive sh : valid_shape sh = true -> empty_shape sh = true -> False.
Proof.
  unfold valid_shape, empty_shape. rewrite !andb_true_iff, !Z.eqb_eq.
  intros [[[[[[[[[E _] _] _] _] _] _] _] _] _] [[[E' _] _] _]. by rewrite E in E'.
Qed.

(** A handle that is not in sync, or has not seen the newest snapshot, cannot commit. *)
Lemma commit_tx_view reg s h g new_state rn h' db' :
  represents reg s -> handle_sees reg (file_db s) h (Some g) ->
  commit_tx h new_state rn (file_db s) = Ok (h', db') ->
  g = newest reg /\ synced h' db' /\ protector h' = prot /\ poisoned h' = false /\
  generation h' = Z.of_nat (S (newest reg)) /\ state h' = new_state.
Proof.
  intros [Hf _] (Hp & Hpo & Hg & Hst & Hle & Hsync) Htx.
  assert (g = newest reg) as ->.
  { pose proof Htx as H. unfold commit_tx in H. inv_ok H. apply bool_decide_eq_true in Hv7.
    unfold file_holds in Hf. destruct (history reg) eqn:E.
    - unfold snapshot_at in Hst. destruct g; [done|]. by rewrite E in Hst.
    - destruct Hf as (h0 & Hs0 & _ & Hg0 & _). rewrite (sy_row _ _ Hs0) in Hv6.
      injection Hv6 as <-. apply (f_equal st_generation) in Hv7. cbn in Hv7. lia. }
  destruct (commit_tx_synced _ _ _ _ _ _ (Hsync eq_refl) Htx) as (? & ? & ? & ? & ?).
  do 2 (split; [done|]). do 2 (split; [congruence|]). split; [lia|done].
Qed.

Lemma commit_step reg s i new_state rn faults :
  represents reg s ->
  let '(r, s') := store_event (EvCommit i new_state rn faults) s in
  exists reg', reg_step reg (EvCommit i new_state rn faults) r reg' /\ represents reg' s'.
Proof.
  intros Hr. simpl. pose proof (proj2 Hr i) as Hi.
  destruct (handles s !! i) as [h|] eqn:Eh; inversion Hi as [? v Hsee Ev Ev'|Ev Ev']; subst;
    [|exists reg; split; [by apply reg_commit_none|done]].
  destruct v as [g|].
  - pose proof (commit_outcome new_state rn (mkStore (connect faults s) h) eq_refl
      (proj1 (proj2 Hsee))) as Ho.
    destruct (commit_with_rng _ _ _) as [r [[d t fl] h']]. simpl in Ho.
    destruct Ho as [_ [(h2 & -> & <- & Htx)|((e & ->) & -> & [->|(h3 & Htx)])]].
    + destruct (commit_tx_view _ _ _ _ _ _ _ _ Hr Hsee Htx) as (-> & Hs & Hp & Hpo & Hg & Hst).
      eexists. split; [by apply reg_commit_ok|]. simpl.
      apply (represents_insert _ (mkShared d (handles s)));
        [by apply (represents_record _ _ h')|].
      rewrite <- (newest_record new_state). apply sees_current; rewrite ?newest_record; try done.
      rewrite snapshot_at_newest. congruence.
    + eexists. split; [by apply reg_commit_err; rewrite <- Ev'|]. simpl.
      apply (represents_insert _ (mkShared (file_db s) (handles s))); [by destruct s|].
      split; [apply Hsee|done].
    + destruct (commit_tx_view _ _ _ _ _ _ _ _ Hr Hsee Htx) as (-> & Hs & Hp & Hpo & Hg & Hst).
      eexists. split; [by apply reg_commit_unsure|]. simpl.
      apply (represents_insert _ (mkShared d (handles s)));
        [by apply (represents_record _ _ h3)|]. split; [apply Hsee|done].
  - destruct Hsee as [Hp Hpo]. unfold commit_with_rng. simpl. rewrite Hpo. simpl.
    eexists. split; [by apply reg_commit_err; rewrite <- Ev'|].
    apply (represents_insert _ s); [done|]. by split.
Qed.

(** A change of the journal mode is invisible. *)
Lemma represents_rollback reg s :
  represents reg s -> represents reg (mkShared (rollback_journal (file_db s)) (handles s)).
Proof.
  intros [Hf Hv]. split; simpl.
  - unfold file_holds in *. destruct (history reg); [done|]. destruct Hf as (h & Hs & ?).
    exists h. split; [by apply synced_rollback|done].
  - intros i. destruct (Hv i) as [h v [Hp Hsee]|]; constructor. split; [done|].
    destruct v; [|done]. rewrite synced_rollback. done.
Qed.

Lemma create_step `{!ProtectorLaws P} reg s i initial rk rn faults :
  represents reg s ->
  let '(r, s') := store_event (EvCreate i initial rk rn faults) s in
  exists reg', reg_step reg (EvCreate i initial rk rn faults) r reg' /\ represents reg' s'.
Proof.
  intros Hr. simpl. pose proof (create_outcome fs p prot initial rk rn (connect faults s) eq_refl) as Ho.
  destruct (create_with_rng _ _ _ _ _ _ _) as [r [d t fl]]. simpl in Ho.
  assert (Hnew : forall h, create_tx fs p prot initial rk rn (file_db s) = Ok (h, d) ->
    history reg = [] /\ synced h d /\ protector h = prot /\ poisoned h = false /\
    generation h = Z.of_nat (S (newest reg)) /\ state h = initial).
  { intros h (Hs & Hg & Hst & Hp & Hpo & _ & Hem & _)%create_tx_synced.
    assert (history reg = []) as E.
    { destruct Hr as [Hf _]. unfold file_holds in Hf. destruct (history reg); [done|].
      destruct Hf as (h0 & Hs0 & _).
      by destruct (shapes_exclusive _ (sy_shape _ _ Hs0)). }
    unfold newest. rewrite E. by split_and!. }
  destruct Ho as [(h & -> & Htx)|((e & ->) & [->|[[_ ->]|(h & Htx)]])].
  - destruct (Hnew h Htx) as (E & Hs & Hp & Hpo & Hg & Hst).
    eexists. split; [by apply reg_create_ok|].
    apply (represents_insert _ (mkShared d (handles s))); [by apply (represents_record _ _ h)|].
    replace 1%nat with (newest (record_snapshot initial reg)) by (rewrite newest_record; unfold newest; by rewrite E).
    apply sees_current; rewrite ?newest_record; try done. rewrite snapshot_at_newest. congruence.
  - exists reg. split; [apply reg_create_err|]. by destruct s.
  - exists reg. split; [apply reg_create_err|by apply represents_rollback].
  - destruct (Hnew h Htx) as (E & Hs & Hp & Hpo & Hg & Hst).
    eexists. split; [by apply reg_create_unsure|]. by apply (represents_record _ _ h).
Qed.

Lemma open_step reg s i faults :
  represents reg s ->
  let '(r, s') := store_event (EvOpen i faults) s in
  exists reg', reg_step reg (EvOpen i faults) r reg' /\ represents reg' s'.
Proof.
  intros Hr. simpl. pose proof (open_outcome fs p prot (connect faults s) eq_refl) as Ho.
  destruct (open_store _ _ _ _) as [r [d t fl]]. simpl in Ho.
  destruct Ho as [(h & -> & Ho & ->)|((e & -> & _) & [->|[_ ->]])];
    [|exists reg; split; [apply reg_open_err|by destruct s]
     |exists reg; split; [apply reg_open_err|by apply represents_rollback]].
  pose proof Ho as (Hs & Hp & Hpo & Hw)%open_tx_ok.
  destruct Hr as [Hf Hv]. pose proof Hf as Hf'. unfold file_holds in Hf.
  assert (exists h0, synced h0 (file_db s) /\ protector h0 = prot /\
    generation h0 = Z.of_nat (newest reg) /\ snapshot_at (newest reg) reg = Some (state h0))
    as (h0 & Hs0 & Hp0 & Hg0 & Hst0).
  { destruct (history reg); [|done]. by destruct (shapes_exclusive _ (sy_shape _ _ Hs)). }
  assert (h = usable h0) as Eh.
  { pose proof (open_synced fs p h0 (file_db s) Hs0 Hw) as H. rewrite Hp0 in H. congruence. }
  assert (generation h = Z.of_nat (newest reg) /\ state h = state h0) as [Hg Hst] by by subst h.
  eexists. split.
  - rewrite Hg, Hst. by apply reg_open_ok.
  - apply (represents_insert _ (mkShared (rollback_journal (file_db s)) (handles s)));
      [by apply represents_rollback|].
    apply sees_current; [by apply synced_rollback|done..|congruence].
Qed.

Lemma event_step `{!ProtectorLaws P} reg s ev :
  represents reg s ->
  let '(r, s') := store_event ev s in
  exists reg', reg_step reg ev r reg' /\ represents reg' s'.
Proof.
  intros Hr. destruct ev as [i initial rk rn faults|i faults|i|i new_state rn faults|i].
  - by apply create_step.
  - by apply open_step.
  - exists reg. split; [|done]. pose proof (proj2 Hr i) as Hi.
    destruct (handles s !! i) as [h|] eqn:Eh; inversion Hi as [? v Hsee Ev Ev'|Ev Ev']; subst;
      [|apply reg_read_err; by left].
    destruct v as [g|]; destruct Hsee as [_ Hsee].
    + destruct Hsee as (Hpo & Hg & Hst & _). cbn.
      unfold get_generation, get_state, ensure_usable. rewrite Hpo. cbn.
      rewrite Hg. by apply reg_read_ok.
    + cbn. unfold get_generation, ensure_usable. rewrite Hsee. apply reg_read_err. by right.
  - by apply commit_step.
  - simpl. eexists. split; [apply reg_drop|]. destruct Hr as [Hf Hv]. split; [done|].
    intros j. simpl. destruct (decide (i = j)) as [<-|]; [by rewrite !lookup_delete_eq; constructor|].
    rewrite !lookup_delete_ne by done. apply Hv.
Qed.

Lemma run_steps `{!ProtectorLaws P} evs : forall reg s,
  represents reg s ->
  let '(rs, s') := store_run evs s in
  exists reg', reg_steps reg evs rs reg' /\ represents reg' s'.
Proof.
  induction evs as [|ev evs IH]; intros reg s Hr; simpl.
  { exists reg. by split; [constructor|]. }
  pose proof (event_step reg s ev Hr) as H. destruct (store_event ev s) as [r s1].
  destruct H as (reg1 & H1 & Hr1). specialize (IH _ _ Hr1).
  destruct (store_run evs s1) as [rs s2]. destruct IH as (reg2 & H2 & Hr2).
  exists reg2. split; [by econstructor|done].
Qed.

Lemma represents_init db0 :
  empty_shape (shape db0) = true -> represents (mkRegister [] ∅) (mkShared db0 ∅).
Proof. intros. split; [done|]. intros i. simpl. rewrite !lookup_empty. constructor. Qed.

(** What a fresh process finds. *)
Lemma represents_reopen reg s st :
  represents reg s -> reject_anomalous_wal fs p = Ok tt ->
  snapshot_at (newest reg) reg = Some st ->
  exists h, fst (open_store fs p prot (file (file_db s))) = Ok h /\
    generation h = Z.of_nat (newest reg) /\ state h = st.
Proof.
  intros [Hf _] Hw Hst. unfold file_holds in Hf.
  destruct (history reg) eqn:E; [unfold newest in Hst; by rewrite E in Hst|].
  destruct Hf as (h & Hs & Hp & Hg & Hst'). exists (usable h). rewrite open_clean_reply.
  rewrite <- Hp, (open_synced fs p h) by done. by simplify_eq.
Qed.

End System.

(** C7. Any number of handles on one file refine a single append-only register. Whatever calls
    are made through whatever handles in whatever order, and whatever storage failures each call
    meets, the replies are those of the abstract register: a commit succeeds only for a handle
    that has seen the newest snapshot, opening and reading show recorded snapshots at their
    generations, and a failed call has recorded its snapshot completely or not at all. The
    register's newest snapshot is what a fresh process opens afterwards. *)
Theorem shared_store_refines_register {Ciphers : AeadLaws} `{!ProtectorLaws P} fs p prot evs db0 :
  empty_shape (shape db0) = true -> reject_anomalous_wal fs p = Ok tt ->
  let '(rs, s') := store_run fs p prot evs (mkShared db0 ∅) in
  exists reg, reg_steps (mkRegister [] ∅) evs rs reg /\
    forall st, snapshot_at (newest reg) reg = Some st ->
      exists h, fst (open_store fs p prot (file (file_db s'))) = Ok h /\
        generation h = Z.of_nat (newest reg) /\ state h = st.
Proof.
  intros He Hw. pose proof (run_steps fs p prot evs _ _ (represents_init prot db0 He)) as H.
  destruct (store_run fs p prot evs _) as [rs s']. destruct H as (reg & Hst & Hr).
  exists reg. split; [done|]. intros st. by apply represents_reopen.
Qed.

(** The snapshots a sequence of calls submitted, in order. *)
Definition submitted (ev : StoreEvent) : list (list byte) :=
  match ev with
  | EvCreate _ s _ _ _ | EvCommit _ s _ _ => [s]
  | _ => []
  end.

Lemma reg_steps_submitted reg evs rs reg' :
  reg_steps reg evs rs reg' ->
  exists l, history reg' = history reg ++ l /\ l `sublist_of` (evs ≫= submitted).
Proof.
  induction 1 as [|reg ev r reg1 evs rs reg2 Hs _ (l2 & E2 & H2)].
  - exists []. by rewrite app_nil_r.
  - assert (exists l1, history reg1 = history reg ++ l1 /\ l1 `sublist_of` submitted ev)
      as (l1 & E1 & H1).
    { destruct Hs; simpl; try (exists []; by rewrite app_nil_r; split; [|apply sublist_nil_l]);
        by eexists [_]. }
    exists (l1 ++ l2). rewrite E2, E1, app_assoc. split; [done|].
    cbn [mbind list_bind]. by apply sublist_app.
Qed.

(** C17. No acknowledged snapshot is lost, none is invented, none is applied twice or out of
    order. After any interleaving of calls through any number of handles, with any failures,
    there is a single list of snapshots that contains the acknowledged ones in order, is itself
    a selection in order of the submitted ones, and whose last element, at the generation that
    is its length, is what a fresh process opens. *)
Theorem acknowledged_snapshots_survive {Ciphers : AeadLaws} `{!ProtectorLaws P} fs p prot evs db0 :
  empty_shape (shape db0) = true -> reject_anomalous_wal fs p = Ok tt ->
  let '(rs, s') := store_run fs p prot evs (mkShared db0 ∅) in
  exists hist, all_recorded evs rs `sublist_of` hist /\ hist `sublist_of` (evs ≫= submitted) /\
    forall st, last hist = Some st ->
      exists h, fst (open_store fs p prot (file (file_db s'))) = Ok h /\
        generation h = Z.of_nat (length hist) /\ state h = st.
Proof.
  intros He Hw. pose proof (run_steps fs p prot evs _ _ (represents_init prot db0 He)) as H.
  destruct (store_run fs p prot evs _) as [rs s']. destruct H as (reg & Hst & Hr).
  pose proof (reg_steps_history _ _ _ _ Hst) as (l & E & Hl).
  apply reg_steps_submitted in Hst as (l' & E' & Hl'). simpl in *. subst l l'.
  exists (history reg). split; [done|]. split; [done|]. intros st Hlast.
  apply (represents_reopen fs p prot _ _ st Hr Hw).
  rewrite last_lookup in Hlast. unfold snapshot_at, newest. by destruct (history reg).
Qed.

(** ** Recovery *)

(** The cipher accepts every message the envelope may hand it. *)
Definition seals_all : Prop :=
  forall k n a m, Z.of_nat (length m) <= MAX_PLAINTEXT_BYTES -> is_Some (aead_encrypt k n a m).

Lemma commit_tx_current {Ciphers : AeadLaws} h db new_state n :
  seals_all -> synced h db -> generation h < I64_MAX ->
  Z.of_nat (length new_state) <= MAX_PLAINTEXT_BYTES ->
  exists h' db', commit_tx h new_state (Some n) db = Ok (h', db').
Proof.
  intros Hseal [Hs Hr Hb Hk Hm Hg Hw Hc] Hmax Hlen. unfold commit_tx, checked_add.
  rewrite decide_True by (unfold I64_MAX, U64_MAX in *; lia). cbn.
  destruct (envelope_seal_intro (binding h) (generation h + 1) (wrapped_dek h) (dek h) n new_state)
    as [c Ec]; [lia..|done|by apply Hseal|].
  rewrite Ec. cbn. apply envelope_seal_ok in Ec as (_ & _ & _ & Hl & Hcmax & _).
  unfold validate_ciphertext_len.
  rewrite !(proj2 (Z.leb_le _ _)) by lia. cbn. rewrite !to_i64_le by lia. cbn.
  rewrite Hs, Hr. cbn. rewrite bool_decide_true by done. cbn.
  rewrite check_row_intro by (simpl; lia). cbn. by eexists _, _.
Qed.

(** C18. Recovery is always possible. After any interleaving of calls with any failures in which
    a snapshot was acknowledged (fewer than two to the 63rd, so that the generation fits), a
    caller that opens the file and commits a state within the size limit, without further
    failures and with a cipher that seals every such state, succeeds: the commit becomes the next
    generation and the next open shows it.
    Poisoned and stale handles, uncertain commits and half-done calls cannot prevent it. *)
Theorem recovery_always_possible {Ciphers : AeadLaws} `{!ProtectorLaws P} fs p prot evs db0 i j
    new_state n :
  empty_shape (shape db0) = true -> reject_anomalous_wal fs p = Ok tt -> seals_all ->
  Z.of_nat (length new_state) <= MAX_PLAINTEXT_BYTES -> Z.of_nat (length evs) < I64_MAX ->
  let '(rs, s') := store_run fs p prot evs (mkShared db0 ∅) in
  all_recorded evs rs <> [] ->
  exists g old, fst (store_run fs p prot [EvOpen i []; EvCommit i new_state (Some n) []; EvOpen j []] s')
    = [Ok (Snapshot g old); Ok Committed; Ok (Snapshot (g + 1) new_state)].
Proof.
  intros He Hw Hseal Hlen Hev.
  pose proof (run_steps fs p prot evs _ _ (represents_init prot db0 He)) as H.
  destruct (store_run fs p prot evs _) as [rs s']. destruct H as (reg & Hst & [Hf _]).
  intros Hrec. pose proof (reg_steps_history _ _ _ _ Hst) as (l & E & Hl).
  apply reg_steps_submitted in Hst as (l' & E' & Hl'). simpl in E, E'. subst l l'.
  assert (newest reg <= length evs)%nat as Hn.
  { apply sublist_length in Hl'. unfold newest. etrans; [exact Hl'|]. clear.
    induction evs as [|[] evs IH]; cbn [mbind list_bind submitted app length]; lia. }
  unfold file_holds in Hf. destruct (history reg) as [|x l] eqn:Eh.
  { by apply sublist_nil_r in Hl. }
  destruct Hf as (h & Hs & Hp & Hg & _). cbn [store_run].
  set (db := rollback_journal (file_db s')).
  assert (Eo : open_store fs p prot (connect [] s') = (Ok (usable h), file db)).
  { unfold connect. fold (file (file_db s')). rewrite open_clean, <- Hp.
    by rewrite (open_synced fs p h). }
  unfold store_event at 1. rewrite Eo. cbn [fst snd].
  assert (Hsu : synced (usable h) db) by by destruct Hs; split.
  destruct (commit_tx_current (usable h) db new_state n) as (h' & db' & Htx);
    [done|done|simpl; lia|done|].
  destruct (commit_tx_synced _ _ _ _ _ _ Hsu Htx) as (Hs' & Hg' & Hst' & Hp' & Hpo').
  simpl in Hp', Hpo', Hg'.
  unfold store_event at 1. cbn [handles]. rewrite lookup_insert_eq.
  unfold commit_with_rng. simpl (poisoned _). cbn [handle]. rewrite commit_inner_body. cbn [handle].
  change (mkStore (connect [] (mkShared (disk (file db)) (<[i:=usable h]> (handles s')))) (usable h))
    with (store_at db (usable h)).
  rewrite commit_body_clean, Htx. cbn [handle store_at disk store_connection file].
  assert (Eo' : open_store fs p prot (file db') = (Ok (usable h'), file (rollback_journal db'))).
  { rewrite open_clean, <- Hp, <- Hp'. by rewrite (open_synced fs p h'). }
  unfold store_event, connect. cbn [file_db disk file]. fold (file db'). rewrite Eo'.
  simpl. rewrite Hg', Hst'. eauto.
Qed.

(** ** Every reachable file is well typed *)

(** The file is an empty database, or has exactly the expected schema and exactly one row, in
    slot one, that satisfies every [CHECK] constraint and whose generation fits the column. *)
Definition file_typed (db : StateDb) : Prop :=
  empty_shape (shape db) = true /\ client_state db = ∅ \/
  valid_shape (shape db) = true /\
    exists r, client_state db = {[ SLOT := r ]} /\ check_row SLOT r = true /\
      st_generation r <= I64_MAX.

Lemma create_tx_typed fs p prot initial rk rn db h db' :
  create_tx fs p prot initial rk rn db = Ok (h, db') -> file_typed db'.
Proof.
  unfold create_tx. intros H. inv_ok H. injection H as <- <-. right. split; [done|].
  eexists. split; [done|]. split; [done|]. simpl. unfold I64_MAX. lia.
Qed.

Lemma commit_tx_typed (h : Handle P) new_state rn db h' db' :
  file_typed db -> commit_tx h new_state rn db = Ok (h', db') -> file_typed db'.
Proof.
  intros Ht H. unfold commit_tx in H. inv_ok H. injection H as <- <-.
  right. split; [done|]. eexists. split; [|split; [done|]].
  - simpl. destruct Ht as [[_ E]|(_ & r & E & _)]; rewrite E in *.
    + by rewrite lookup_empty in Hv6.
    + apply insert_singleton_eq.
  - by apply to_i64_ok in Hv4 as [_ ?].
Qed.

Lemma event_typed fs p prot ev s :
  file_typed (file_db s) -> file_typed (file_db (snd (store_event fs p prot ev s))).
Proof.
  intros Ht. destruct ev as [i initial rk rn faults|i faults|i|i new_state rn faults|i]; simpl; try done.
  - pose proof (create_outcome fs p prot initial rk rn (connect faults s) eq_refl) as Ho.
    destruct (create_with_rng _ _ _ _ _ _ _) as [[h|e] c]; simpl in *;
      destruct Ho as [(? & _ & Htx)|(_ & [->|[[_ ->]|(? & Htx)]])]; by eauto using create_tx_typed.
  - pose proof (open_outcome fs p prot (connect faults s) eq_refl) as Ho.
    destruct (open_store _ _ _ _) as [[h|e] c]; simpl in *;
      destruct Ho as [(? & _ & _ & ->)|(_ & [->|[_ ->]])]; done.
  - destruct (handles s !! i) as [h|]; [|done].
    destruct (poisoned h) eqn:Hp; [unfold commit_with_rng; simpl; by rewrite Hp|].
    pose proof (commit_outcome new_state rn (mkStore (connect faults s) h) eq_refl Hp) as Ho.
    destruct (commit_with_rng _ _ _) as [r st]. simpl in *.
    destruct Ho as [_ [(? & _ & _ & Htx)|(_ & _ & [->|(? & Htx)])]]; by eauto using commit_tx_typed.
Qed.

(** C19. The file is well typed in every reachable state: after any sequence of calls through
    any handles, with any failures, it is still an empty database or holds exactly the expected
    schema and exactly one row, in slot one, satisfying every constraint of the table, with a
    generation that fits a signed 64-bit integer. No call leaves a half-created store. *)
Theorem reachable_file_well_typed fs p prot evs s :
  file_typed (file_db s) ->
  file_typed (file_db (snd (store_run fs p prot evs s))).
Proof.
  revert s. induction evs as [|ev evs IH]; intros s Ht; simpl; [done|].
  pose proof (event_typed fs p prot ev s Ht) as H. destruct (store_event fs p prot ev s) as [r s1].
  specialize (IH s1 H). by destruct (store_run fs p prot evs s1).
Qed.

End Shared.
