(* ===== verification/StateStoreTamper.v ===== *)
(** * A client-state file in the hands of an attacker

    The calls of [StateStoreShared], through any number of handles, with an attacker who replaces
    the file's contents between them. What the attacker cannot do is what the AEAD and the
    protector are there for: produce a ciphertext that opens under a key the protector unwraps,
    other than the ones the store has sealed. [Sealing] records one encryption the store asked
    for; [unforged] is the assumption about a replacement. It is stated about keys, nonces,
    associated data and ciphertexts; that generations, profiles and states follow is the
    business of the code, and the theorem. *)

From S2P Require Import Prelude Core Sqlite Envelope Companion StateStore StateStoreTx.
From S2P Require Import StateStoreTheorems StateStoreShared.

#[local] Open Scope Z_scope.

Section Tamper.
Context `{Lib : CryptoOps} `{Aead : AeadOps} {Ciphers : AeadLaws}.
Context {P : Type} `{Protector : StateKeyProtector P} {Keys : ProtectorLaws P}.
Context (fs : FileSystem) (p : path) (prot : P).

(** ** What was encrypted *)

Record Sealing : Type := mkSealing {
  sl_generation : Z;
  sl_state : list byte;
  sl_key : array 32;
  sl_nonce : array 24;
  sl_ad : list byte;
  sl_ciphertext : list byte;
}.

#[global] Instance Sealing_eq_dec : EqDecision Sealing.
Proof. solve_decision. Defined.

Definition sealing (b : ProfileBinding) (g : Z) (w : list byte) (k : array 32)
    (rn : option (array 24)) (st : list byte) : Result Sealing :=
  n ← ok_or Storage rn;
  c ← envelope_seal b g w k n st;
  ad ← aad b g w;
  mret (mkSealing g st k n ad c).

(** The encryption a call asks for: a creation gets that far when its first look at the file is
    good and the wrapped key has a valid size, a commit when its handle is usable. *)
Definition sealings (ev : StoreEvent) (s : SharedStore (P := P)) : list Sealing :=
  let r :=
    match ev with
    | EvCreate _ initial rk rn faults =>
        b ← expected_binding prot;
        fst (create_check fs p (connect faults s));;
        k ← ok_or Storage rk;
        w ← wrap_dek prot k;
        result_guard (negb (bool_decide (w = []) || (WRAPPED_DEK_MAX_BYTES <? Z.of_nat (length w))))
          Storage;;
        sealing b 1 w k rn initial
    | EvCommit i new_state rn _ =>
        h ← ok_or Storage (handles s !! i);
        ensure_usable h;;
        next ← ok_or Storage (checked_add (generation h) 1);
        sealing (binding h) next (wrapped_dek h) (dek h) rn new_state
    | _ => Err Storage
    end in
  match r with Ok l => [l] | Err _ => [] end.

(** The replacement is no forgery: if its row's ciphertext opens, under the key the protector
    unwraps from it and the associated data it would be opened with, then this ciphertext was
    sealed under this key, nonce and associated data, and opens to what was sealed. *)
Definition unforged (log : list Sealing) (db : StateDb) : Prop := forall row b k n ad m,
  client_state db !! SLOT = Some row -> unwrap_dek prot (st_wrapped_dek row) = Ok k ->
  st_nonce row = as_slice n -> expected_binding prot = Ok b ->
  aad b (st_generation row) (st_wrapped_dek row) = Ok ad ->
  aead_decrypt k n ad (st_ciphertext row) = Some m ->
  exists l, l ∈ log /\ sl_key l = k /\ sl_nonce l = n /\ sl_ad l = ad /\
    sl_ciphertext l = st_ciphertext row /\ sl_state l = m.

(** ** Calls and replacements in any order *)

Inductive attacked : list Sealing -> SharedStore (P := P) -> Prop :=
  | attacked_start db : unforged [] db -> attacked [] (mkShared db ∅)
  | attacked_call log s ev r s' :
      attacked log s -> store_event fs p prot ev s = (r, s') ->
      attacked (log ++ sealings ev s) s'
  | attacked_replace log s db :
      attacked log s -> unforged log db -> attacked log (mkShared db (handles s)).

(** ** The invariant *)

Definition shows (log : list Sealing) (g : Z) (st : list byte) : Prop :=
  exists l, l ∈ log /\ sl_generation l = g /\ sl_state l = st.

(** A handle that can only have come from this protector and from sealed snapshots. *)
Record honest (log : list Sealing) (h : Handle P) : Prop := {
  ho_protector : protector h = prot;
  ho_binding : expected_binding prot = Ok (binding h);
  ho_dek : unwrap_dek prot (wrapped_dek h) = Ok (dek h);
  ho_generation : 1 <= generation h <= I64_MAX;
  ho_shows : shows log (generation h) (state h);
}.

Record guarded (log : list Sealing) (s : SharedStore (P := P)) : Prop := {
  gu_file h : synced h (file_db s) -> protector h = prot -> shows log (generation h) (state h);
  gu_handles i h : handles s !! i = Some h -> honest log h;
  gu_log l : l ∈ log -> is_u64 (sl_generation l) /\
    exists b w, aad b (sl_generation l) w = Ok (sl_ad l);
}.

Lemma shows_app log l g st : shows log g st -> shows (log ++ l) g st.
Proof. intros (x & Hx & ?). exists x. split; [by apply elem_of_app; left|done]. Qed.

Lemma honest_app log l h : honest log h -> honest (log ++ l) h.
Proof. intros [? ? ? ? ?]. split; auto using shows_app. Qed.

(** The file determines the snapshot it opens to. *)
Lemma synced_unique (h h' : Handle P) db :
  synced h db -> synced h' db -> protector h = protector h' ->
  generation h = generation h' /\ state h = state h'.
Proof.
  intros [? Hr Hb Hk Hs _ _ _] [? Hr' Hb' Hk' Hs' _ _ _] Hp.
  rewrite Hr in Hr'. unfold row_of, handle_row in Hr'. injection Hr' as _ Eg _ Ew En Ec. apply as_slice_inj in En.
  rewrite Hp, Hb' in Hb. injection Hb as Eb. rewrite Hp, Ew, Hk' in Hk. injection Hk as Ek.
  split; [done|]. rewrite Eg, Ew, En, Ec, <- Eb, <- Ek, Hs' in Hs. by injection Hs.
Qed.

(** What opens was decrypted. *)
Lemma envelope_open_decrypts b g w k n c m :
  envelope_open b g w k n c = Ok m ->
  exists ad, aad b g w = Ok ad /\ aead_decrypt k n ad c = Some m.
Proof.
  unfold envelope_open. destruct (_ || _); [done|]. intros H. inv_ok H.
  eexists. split; [done|]. by destruct (aead_decrypt _ _ _ _); simplify_eq/=.
Qed.

Lemma unforged_shows log (s : SharedStore (P := P)) db h :
  guarded log s -> unforged log db -> synced h db -> protector h = prot ->
  shows log (generation h) (state h).
Proof.
  intros Hg Hu [_ Hr Hb Hk Hs Hgen _ _] Hp. rewrite Hp in Hb, Hk.
  destruct (envelope_open_decrypts _ _ _ _ _ _ _ Hs) as (ad & Had & Hd).
  destruct (Hu _ _ _ _ _ _ Hr Hk eq_refl Hb Had Hd) as (l & Hl & _ & _ & Ead & _ & Est).
  exists l. split; [done|]. split; [|done].
  destruct (gu_log _ _ Hg l Hl) as (Hu64 & b & w & Hb'). rewrite Ead, <- Had in Hb'.
  apply aad_inj in Hb' as (_ & E & _); [done|done|]. unfold is_u64, U64_MAX, I64_MAX in *. lia.
Qed.

Lemma guarded_start db : unforged [] db -> guarded [] (mkShared db ∅).
Proof.
  intros Hu. assert (Hn : guarded [] (mkShared (P := P) (mkStateDb (shape db) ∅ false) ∅)).
  { split; simpl; [intros h [_ Hr _ _ _ _ _ _]; simpl in Hr; by rewrite lookup_empty in Hr|done|].
    by intros l ?%not_elem_of_nil. }
  split; simpl; [|done|apply Hn]. intros h Hs Hp. by apply (unforged_shows [] _ db h Hn).
Qed.

Lemma guarded_replace log s db : guarded log s -> unforged log db -> guarded log (mkShared db (handles s)).
Proof.
  intros Hg Hu. split; simpl; [|apply Hg|apply Hg]. intros h. by apply (unforged_shows log s).
Qed.

(** *** What a call seals *)

Lemma sealing_ok b g w k rn st l :
  0 <= g -> sealing b g w k rn st = Ok l ->
  sl_generation l = g /\ sl_state l = st /\ is_u64 g /\ aad b g w = Ok (sl_ad l).
Proof.
  intros H0 H. unfold sealing in H. inv_ok H. injection H as <-. simpl.
  apply envelope_seal_ok in Hv0 as (_ & Hg & _). unfold is_u64, U64_MAX, I64_MAX in *.
  repeat split; done || lia.
Qed.

Lemma sealing_some b g w k n st c :
  envelope_seal b g w k n st = Ok c -> exists l, sealing b g w k (Some n) st = Ok l.
Proof. intros H. unfold sealing. simpl. rewrite H. simpl. rewrite aad_frames. by eexists. Qed.

Lemma sealings_log ev s log l :
  guarded log s -> l ∈ sealings ev s ->
  is_u64 (sl_generation l) /\ exists b w, aad b (sl_generation l) w = Ok (sl_ad l).
Proof.
  intros Hg. unfold sealings. destruct ev as [i initial rk rn faults|i faults|i|i new_state rn faults|i];
    simpl; try by intros ?%not_elem_of_nil.
  - destruct (x ← _; _) as [l'|] eqn:E; [|by intros ?%not_elem_of_nil].
    intros ->%list_elem_of_singleton. inv_ok E. apply sealing_ok in E as (-> & _ & ? & ?); eauto. lia.
  - destruct (x ← _; _) as [l'|] eqn:E; [|by intros ?%not_elem_of_nil].
    intros ->%list_elem_of_singleton. inv_ok E.
    pose proof (ho_generation _ _ (gu_handles _ _ Hg i _ Hv)) as H1.
    unfold checked_add in Hv1. case_decide; [|done]. injection Hv1 as <-.
    apply sealing_ok in E as (-> & _ & ? & ?); eauto. lia.
Qed.

Lemma create_seals i initial rk rn faults s h db' :
  is_ok (fst (create_check fs p (connect faults s))) = true ->
  create_tx fs p prot initial rk rn (file_db s) = Ok (h, db') ->
  shows (sealings (EvCreate i initial rk rn faults) s) 1 initial.
Proof.
  unfold create_tx. intros Hc H. inv_ok H. unfold sealings. rewrite Hv. cbn [mbind result_bind].
  destruct (fst (create_check _ _ _)); [|done].
  rewrite Hv2. cbn [ok_or mbind result_bind]. rewrite Hv3. cbn [mbind result_bind].
  rewrite Hv4, Hv5. cbn [result_guard mbind result_bind].
  destruct (sealing_some _ _ _ _ _ _ _ Hv6) as [l El]. rewrite El.
  apply sealing_ok in El as (? & ? & _); [|lia]. exists l. split; [by left|done].
Qed.

Lemma commit_seals i new_state rn faults s h h' db' :
  0 <= generation h -> handles s !! i = Some h -> poisoned h = false ->
  commit_tx h new_state rn (file_db s) = Ok (h', db') ->
  shows (sealings (EvCommit i new_state rn faults) s) (generation h') new_state.
Proof.
  intros H0 Hi Hp H. unfold commit_tx in H. inv_ok H. injection H as <- <-. unfold sealings, ensure_usable.
  rewrite Hi. cbn [ok_or mbind result_bind]. rewrite Hp. cbn [negb result_guard mbind result_bind].
  rewrite Hv. cbn [ok_or mbind result_bind]. rewrite Hv0.
  destruct (sealing_some _ _ _ _ _ _ _ Hv1) as [l El]. rewrite El.
  unfold checked_add in Hv. case_decide; [|done]. injection Hv as <-.
  apply sealing_ok in El as (? & ? & _); [|lia]. exists l. split; [by left|done].
Qed.

Lemma commit_tx_honest log h new_state rn db h' db' :
  honest log h -> commit_tx h new_state rn db = Ok (h', db') ->
  synced h' db' /\ state h' = new_state /\ protector h' = prot.
Proof.
  intros [Hp Hb Hk Hg Hs] H. unfold commit_tx in H. inv_ok H. injection H as <- <-.
  unfold checked_add in Hv. case_decide; [|done]. injection Hv as <-.
  apply to_i64_ok in Hv4 as [_ Hi].
  pose proof (envelope_open_sealed _ _ _ _ _ _ _ Hv1) as Hopen.
  apply envelope_seal_ok in Hv1 as (_ & _ & Hw & Hlen & Hmax & _).
  split; [|done]. split; simpl; rewrite ?Hp; try done || lia. apply lookup_insert_eq.
Qed.

(** A copy of what the store once sealed is no forgery: going back is always possible. *)
Lemma unforged_sealed log db b g w k n st l :
  expected_binding prot = Ok b -> unwrap_dek prot w = Ok k ->
  sealing b g w k (Some n) st = Ok l -> l ∈ log ->
  client_state db !! SLOT = Some (handle_row b g w n (sl_ciphertext l)) -> unforged log db.
Proof.
  intros Hb Hk Hl Hin Hr row b' k' n' ad m Hrow Hk' Hn Hb' Had Hd.
  rewrite Hr in Hrow. injection Hrow as <-. simpl in *. apply as_slice_inj in Hn as <-.
  unfold sealing in Hl. inv_ok Hl. injection Hl as <-. injection Hv as <-. simpl in *.
  apply envelope_seal_ok in Hv0 as (_ & _ & _ & _ & _ & He).
  rewrite Hb in Hb'. injection Hb' as <-. rewrite Hk in Hk'. injection Hk' as <-.
  rewrite Had in Hv1. injection Hv1 as <-. rewrite aad_frames in Had. injection Had as <-.
  apply aead_opens in He. rewrite He in Hd. injection Hd as <-. by eexists.
Qed.

(** *** Calls keep the invariant *)

Lemma guarded_extend log s new db hs :
  guarded log s ->
  (forall l, l ∈ new -> is_u64 (sl_generation l) /\ exists b w, aad b (sl_generation l) w = Ok (sl_ad l)) ->
  ((forall h, synced h db -> synced h (file_db s)) \/ exists h, synced h db /\ protector h = prot /\ shows new (generation h) (state h)) ->
  (forall i h, hs !! i = Some h -> honest (log ++ new) h) ->
  guarded (log ++ new) (mkShared db hs).
Proof.
  intros Hg Hn Hdb Hhs. split; simpl.
  - intros h Hs Hp. destruct Hdb as [Hsame|(h' & Hs' & Hp' & l & Hl & E1 & E2)].
    + apply shows_app. by apply (gu_file _ _ Hg); [apply Hsame|].
    + destruct (synced_unique h h' db) as [-> ->]; [done|done|congruence|].
      exists l. split; [by apply elem_of_app; right|done].
  - done.
  - intros l [Hl|Hl]%elem_of_app; [by apply (gu_log _ _ Hg)|by apply Hn].
Qed.

Lemma synced_honest log h db :
  synced h db -> protector h = prot -> shows log (generation h) (state h) -> honest log h.
Proof. intros [? ? Hb Hk ? ? ? ?] Hp Hs. rewrite Hp in Hb, Hk. by split. Qed.

Lemma honest_poison log h : honest log h -> honest log (poison h).
Proof. intros [? ? ? ? ?]. by split. Qed.

Lemma insert_honest log (hs : gmap nat (Handle P)) i h :
  honest log h -> (forall j h, hs !! j = Some h -> honest log h) ->
  forall j h', <[i := h]> hs !! j = Some h' -> honest log h'.
Proof. intros Hh Hhs j h' [[<- <-]|[_ Hj]]%lookup_insert_Some; eauto. Qed.

Lemma create_guarded i initial rk rn faults log s r s' :
  guarded log s -> store_event fs p prot (EvCreate i initial rk rn faults) s = (r, s') ->
  guarded (log ++ sealings (EvCreate i initial rk rn faults) s) s'.
Proof.
  intros Hg E. simpl in E.
  pose proof (create_outcome fs p prot initial rk rn (connect faults s) eq_refl) as Ho.
  pose proof (create_unchecked fs p prot initial rk rn (connect faults s) eq_refl) as Hstop.
  assert (Hold : forall j h, handles s !! j = Some h ->
    honest (log ++ sealings (EvCreate i initial rk rn faults) s) h).
  { intros j h Hj. by eapply honest_app, (gu_handles _ _ Hg j). }
  destruct (is_ok (fst (create_check fs p (connect faults s)))) eqn:Hck.
  2:{ destruct (create_with_rng _ _ _ _ _ _ _) as [[h|e] c]; destruct (Hstop eq_refl) as [[=] Hd].
      injection E as <- <-. apply (guarded_extend log s); eauto using sealings_log. left. by rewrite Hd. }
  assert (Hnew : forall h db', create_tx fs p prot initial rk rn (file_db s) = Ok (h, db') ->
    synced h db' /\ protector h = prot /\
    shows (sealings (EvCreate i initial rk rn faults) s) (generation h) (state h)).
  { intros h db' Htx. pose proof (create_seals i _ _ _ faults _ _ _ Hck Htx).
    by apply create_tx_synced in Htx as (? & -> & -> & ? & _). }
  destruct (create_with_rng _ _ _ _ _ _ _) as [[h|e] c]; injection E as <- <-;
    apply (guarded_extend log s); eauto using sealings_log; cbn [disk connect] in Ho.
  - destruct Ho as [(? & [= <-] & Htx)|([? [=]] & _)]. right. by exists h; apply Hnew.
  - destruct Ho as [(? & [= <-] & Htx)|([? [=]] & _)]. apply insert_honest; [|done].
    destruct (Hnew _ _ Htx) as (Hs & Hp & l & Hl & ?). apply (synced_honest _ _ _ Hs Hp).
    exists l. split; [by apply elem_of_app; right|done].
  - destruct Ho as [(? & [=] & _)|(_ & [->|[[_ ->]|(h & Htx)]])]; [by left|left|right].
    + intros h. apply synced_rollback.
    + by exists h; apply Hnew.
Qed.

Lemma commit_guarded i new_state rn faults log s r s' :
  guarded log s -> store_event fs p prot (EvCommit i new_state rn faults) s = (r, s') ->
  guarded (log ++ sealings (EvCommit i new_state rn faults) s) s'.
Proof.
  intros Hg E. set (new := sealings (EvCommit i new_state rn faults) s).
  assert (Hold : forall j h, handles s !! j = Some h -> honest (log ++ new) h).
  { intros j h Hj. by eapply honest_app, (gu_handles _ _ Hg j). }
  simpl in E. destruct (handles s !! i) as [h|] eqn:Hi.
  2:{ injection E as <- <-. destruct s as [db hs].
      apply (guarded_extend log (mkShared db hs)); eauto using sealings_log. }
  pose proof (gu_handles _ _ Hg i h Hi) as Hh.
  assert (H0 : 0 <= generation h) by (destruct Hh; lia).
  destruct (poisoned h) eqn:Hp.
  { unfold commit_with_rng in E. simpl in E. rewrite Hp in E. injection E as <- <-.
    apply (guarded_extend log s); eauto using sealings_log. apply insert_honest; eauto. }
  pose proof (commit_outcome new_state rn (mkStore (connect faults s) h) eq_refl Hp) as Ho.
  assert (Hnew : forall h' db', commit_tx h new_state rn (file_db s) = Ok (h', db') ->
    synced h' db' /\ protector h' = prot /\ shows new (generation h') (state h')).
  { intros h' db' Htx. pose proof (commit_seals i _ _ faults _ _ _ _ H0 Hi Hp Htx).
    by apply (commit_tx_honest log) in Htx as (? & -> & ?). }
  destruct (commit_with_rng _ _ _) as [r' st]. injection E as <- <-.
  cbn [store_connection handle connect disk] in Ho.
  apply (guarded_extend log s); eauto using sealings_log.
  - destruct Ho as [_ [(h' & _ & _ & Htx)|(_ & _ & [->|(h' & Htx)])]];
      [right; exists h'; by apply Hnew|by left|right; exists h'; by apply Hnew].
  - apply insert_honest; [|done].
    destruct Ho as [_ [(h' & _ & -> & Htx)|(_ & -> & _)]]; [|apply honest_poison; eauto].
    destruct (Hnew _ _ Htx) as (Hs & Hp' & l & Hl & ?). apply (synced_honest _ _ _ Hs Hp').
    exists l. split; [by apply elem_of_app; right|done].
Qed.

Lemma open_event i faults s :
  match store_event fs p prot (EvOpen i faults) s with
  | (Ok r, s') => exists h, synced h (file_db s) /\ protector h = prot /\
      r = Snapshot (generation h) (state h) /\
      s' = mkShared (rollback_journal (file_db s)) (<[i := h]> (handles s))
  | (Err _, s') => s' = s \/ s' = mkShared (rollback_journal (file_db s)) (handles s)
  end.
Proof.
  simpl. pose proof (open_outcome fs p prot (connect faults s) eq_refl) as Ho.
  destruct (open_store _ _ _ _) as [[h|e] c];
    destruct Ho as [(? & [= <-] & Ho & ->)|((? & [=] & _) & [->|[_ ->]])].
  - apply open_tx_ok in Ho as (Hs & Hp & _). by exists h.
  - left. by destruct s.
  - by right.
Qed.

Lemma guarded_rollback log s :
  guarded log s -> guarded log (mkShared (rollback_journal (file_db s)) (handles s)).
Proof.
  intros Hg. split; simpl; [|apply Hg|apply Hg].
  intros h Hs Hp. rewrite synced_rollback in Hs. by apply (gu_file _ _ Hg).
Qed.

Lemma event_guarded ev log s r s' :
  guarded log s -> store_event fs p prot ev s = (r, s') -> guarded (log ++ sealings ev s) s'.
Proof.
  intros Hg E. destruct ev as [i initial rk rn faults|i faults|i|i new_state rn faults|i];
    eauto using create_guarded, commit_guarded; unfold sealings; rewrite app_nil_r.
  - pose proof (open_event i faults s) as Ho. rewrite E in Ho.
    destruct r as [v|]; [|destruct Ho as [->| ->]; [done|by apply guarded_rollback]].
    destruct Ho as (h & Hs & Hp & _ & ->).
    split; simpl; [intros h'; rewrite synced_rollback; apply Hg| |apply Hg].
    apply insert_honest; [|apply Hg]. apply (synced_honest _ _ _ Hs Hp). by apply (gu_file _ _ Hg).
  - simpl in E. by injection E as _ <-.
  - simpl in E. injection E as _ <-. split; simpl; [apply Hg| |apply Hg].
    intros j h [_ Hj]%lookup_delete_Some. by apply (gu_handles _ _ Hg j).
Qed.

Lemma attacked_guarded log s : attacked log s -> guarded log s.
Proof.
  induction 1; eauto using guarded_start, guarded_replace, event_guarded.
Qed.

(** C8. Replacing the file can at most take a client back. Any number of handles are created,
    opened, read, committed and dropped in any order and with any storage failures, and between
    the calls an attacker replaces the file's contents as often as it likes with anything that
    is no forgery in the sense of the AEAD. Still, every snapshot that opening or reading shows,
    generation and state together, is one that an earlier create or commit of this profile
    really encrypted as that generation (also if that call then failed):
    no snapshot is altered, relabelled with another generation or
    taken from another profile. *)
Theorem tampering_only_rolls_back log s ev g st s' :
  attacked log s -> store_event fs p prot ev s = (Ok (Snapshot g st), s') ->
  exists l, l ∈ log /\ sl_generation l = g /\ sl_state l = st.
Proof.
  intros Ha%attacked_guarded E.
  destruct ev as [i initial rk rn faults|i faults|i|i new_state rn faults|i].
  - simpl in E. by destruct (create_with_rng _ _ _ _ _ _ _) as [[]].
  - pose proof (open_event i faults s) as Ho. rewrite E in Ho.
    destruct Ho as (h & Hs & Hp & [= -> ->] & _). by apply (gu_file _ _ Ha).
  - simpl in E. destruct (handles s !! i) as [h|] eqn:Hi; [|done]. simpl in E.
    pose proof (ho_shows _ _ (gu_handles _ _ Ha i h Hi)) as Hs.
    unfold get_generation, get_state, ensure_usable in E. destruct (poisoned h); [done|].
    injection E as <- <- _. exact Hs.
  - simpl in E. destruct (handles s !! i) as [h|]; [|done].
    by destruct (commit_with_rng _ _ _) as [[u|e] st']; simplify_eq/=.
  - done.
Qed.

End Tamper.
