(* ===== verification/StateStoreBounds.v ===== *)
(** * The limits of the client state store

    Exactly which states can be stored: the size limit of a snapshot is met to the byte, by
    creation and by every commit, and generations run up to the largest signed 64-bit integer.
    Rows that exceed the limits are refused by their lengths. *)

From S2P Require Import Prelude Core Sqlite Envelope Companion StateStore StateStoreTx.
From S2P Require Import StateStoreTheorems StateStoreShared.

#[local] Open Scope Z_scope.

Section Bounds.
Context `{Lib : CryptoOps} `{Aead : AeadOps} {Ciphers : AeadLaws}.
Context {P : Type} `{Protector : StateKeyProtector P}.

(** ** Errors *)

(** A computation whose only error is [Storage]. *)
Definition storage_only {A} (r : Result A) : Prop := forall e, r = Err e -> e = Storage.

Lemma storage_only_ok {A} (a : A) : storage_only (mret a).
Proof. by intros e [=]. Qed.

Lemma storage_only_bind {A B} (r : Result A) (f : A -> Result B) :
  storage_only r -> (forall a, storage_only (f a)) -> storage_only (r ≫= f).
Proof. intros Hr Hf e. destruct r; simpl; [apply Hf|]. intros [= <-]. by apply Hr. Qed.

Lemma storage_only_guard b : storage_only (result_guard b Storage).
Proof. by destruct b; intros e [=]. Qed.

Lemma storage_only_option {A} (o : option A) : storage_only (ok_or Storage o).
Proof. by destruct o; intros e [=]. Qed.

Lemma storage_only_i64 z : storage_only (to_i64 z).
Proof. unfold to_i64. case_decide; by intros e [=]. Qed.

Lemma storage_only_seal b g w k n m : storage_only (envelope_seal b g w k n m).
Proof. intros e. apply envelope_seal_storage. Qed.

Create HintDb errors.
#[local] Hint Resolve storage_only_ok storage_only_bind storage_only_guard storage_only_option
  storage_only_i64 storage_only_seal : errors.

(** ** Creation *)

(** What creation needs besides a state of admissible size. *)
Record creatable (fs : FileSystem) (p : path) (prot : P) (k : array 32) (db : StateDb) : Prop := {
  cr_binding : exists b, expected_binding prot = Ok b;
  cr_wrapped : exists w, wrap_dek prot k = Ok w /\ 1 <= Z.of_nat (length w) <= 8192;
  cr_wal : reject_anomalous_wal fs p = Ok tt;
  cr_empty : empty_shape (shape db) = true;
  cr_intact : sh_integrity (shape db) = "ok"%string;
}.

Lemma valid_client_state : valid_shape (client_state_shape "ok") = true.
Proof. vm_compute. reflexivity. Qed.

Lemma create_tx_admissible fs p prot k n initial db :
  creatable fs p prot k db -> seals_all -> Z.of_nat (length initial) <= MAX_PLAINTEXT_BYTES ->
  exists h db', create_tx fs p prot initial (Some k) (Some n) db = Ok (h, db').
Proof.
  intros [[b Eb] (w & Ew & Hw) Hwal Hem Hin] Hseal Hlen. unfold create_tx.
  rewrite Eb. cbn [mbind result_bind]. rewrite Hwal. cbn [mbind result_bind]. rewrite Hem. cbn [mbind result_bind result_guard ok_or].
  rewrite Ew. cbn [mbind result_bind].
  rewrite bool_decide_false by (intros ->; simpl in Hw; lia).
  unfold WRAPPED_DEK_MAX_BYTES. rewrite (proj2 (Z.ltb_ge _ _)) by lia.
  cbn [mbind result_bind result_guard ok_or negb orb].
  destruct (envelope_seal_intro b 1 w k n initial) as [c Ec];
    [lia|unfold I64_MAX; lia|done|done|by apply Hseal|].
  rewrite Ec. cbn [mbind result_bind]. apply envelope_seal_ok in Ec as (_ & _ & _ & Hl & Hmax & _).
  unfold validate_ciphertext_len. rewrite !(proj2 (Z.leb_le _ _)) by lia. cbn [andb mbind result_bind].
  rewrite check_row_intro by (simpl; lia). cbn [mbind result_bind result_guard].
  rewrite Hin, valid_client_state. cbn [mbind result_bind result_guard]. by eexists _, _.
Qed.

Lemma create_tx_size fs p prot k n initial db h db' :
  create_tx fs p prot initial (Some k) (Some n) db = Ok (h, db') ->
  Z.of_nat (length initial) <= MAX_PLAINTEXT_BYTES.
Proof.
  unfold create_tx. intros H. inv_ok H.
  match goal with E : envelope_seal _ _ _ _ _ _ = Ok _ |- _ =>
    apply envelope_seal_ok in E as (_ & _ & _ & Hl & Hmax & _) end.
  unfold MAX_PLAINTEXT_BYTES. lia.
Qed.

(** ** Commits *)

Lemma commit_tx_limits (h : Handle P) new_state n db h' db' :
  commit_tx h new_state (Some n) db = Ok (h', db') ->
  Z.of_nat (length new_state) <= MAX_PLAINTEXT_BYTES /\ generation h + 1 <= I64_MAX.
Proof.
  unfold commit_tx. intros H. inv_ok H.
  match goal with E : envelope_seal _ _ _ _ _ _ = Ok _ |- _ =>
    apply envelope_seal_ok in E as (_ & Hg & _ & Hl & Hmax & _) end.
  match goal with E : checked_add _ _ = Some _ |- _ => unfold checked_add in E end.
  case_decide; simplify_eq/=. unfold MAX_PLAINTEXT_BYTES. split; [lia|done].
Qed.

Lemma commit_tx_storage (h : Handle P) new_state rn db : storage_only (commit_tx h new_state rn db).
Proof. unfold commit_tx, validate_ciphertext_len. auto 40 with errors. Qed.

(** A state over the limit stops creation. *)
Lemma create_tx_oversized fs p prot k n initial db :
  creatable fs p prot k db -> MAX_PLAINTEXT_BYTES < Z.of_nat (length initial) ->
  create_tx fs p prot initial (Some k) (Some n) db = Err Storage.
Proof.
  intros [[b Eb] (w & Ew & _) Hwal _ _] Hlen.
  destruct (create_tx _ _ _ _ _ _ _) as [[h db']|e] eqn:E; [apply create_tx_size in E; lia|].
  f_equal. revert e E.
  change (storage_only (create_tx fs p prot initial (Some k) (Some n) db)).
  unfold create_tx, validate_ciphertext_len. rewrite Eb. cbn [mbind result_bind]. rewrite Hwal. cbn [mbind result_bind].
  apply storage_only_bind; [auto with errors|]. intros _. cbn [ok_or mbind result_bind].
  rewrite Ew. cbn [mbind result_bind]. auto 40 with errors.
Qed.

(** C33. The size limit is exact. On an empty database creation succeeds if and only if the
    state has at most 8 MiB less the sixteen bytes of the tag, and otherwise leaves the database
    as it was; a commit through a current handle succeeds if and only if the new state obeys the
    same limit and the generation is below the largest signed 64-bit integer, and otherwise
    leaves the file as it was and the handle poisoned. *)
Theorem state_size_bound_exact fs p prot k n initial db :
  creatable fs p prot k db -> seals_all ->
  (if decide (Z.of_nat (length initial) <= MAX_PLAINTEXT_BYTES)
   then exists h db', create_with_rng fs p prot initial (Some k) (Some n) (file db) = (Ok h, file db')
          /\ generation h = 1 /\ state h = initial
   else create_with_rng fs p prot initial (Some k) (Some n) (file db) = (Err Storage, file db)) /\
  (forall h fdb new_state n', synced h fdb -> poisoned h = false ->
   if decide (Z.of_nat (length new_state) <= MAX_PLAINTEXT_BYTES /\ generation h < I64_MAX)
   then exists h' fdb', commit_with_rng new_state (Some n') (store_at fdb h) = (Ok tt, store_at fdb' h')
          /\ generation h' = generation h + 1 /\ state h' = new_state
   else commit_with_rng new_state (Some n') (store_at fdb h)
          = (Err Storage, store_at fdb (poison h))).
Proof.
  intros Hc Hseal. split.
  - rewrite create_clean. case_decide as Hlen.
    + destruct (create_tx_admissible fs p prot k n initial db Hc Hseal Hlen) as (h & db' & E).
      rewrite E. exists h, db'. split; [done|]. unfold create_tx in E. inv_ok E. by injection E as <- _.
    + by rewrite create_tx_oversized by (done || lia).
  - intros h fdb new_state n' Hs Hp. unfold commit_with_rng. cbn [handle store_at]. rewrite Hp.
    rewrite commit_inner_body. cbn [handle store_at]. rewrite commit_body_clean.
    case_decide as Hok.
    + destruct Hok. destruct (commit_tx_current h fdb new_state n') as (h' & db' & Htx); [done..|].
      rewrite Htx. destruct (commit_tx_synced _ _ _ _ _ _ Hs Htx) as (_ & ? & ? & _ & _).
      by exists h', db'.
    + destruct (commit_tx _ _ _ _) as [[h' db']|e] eqn:E.
      * apply commit_tx_limits in E. lia.
      * by rewrite (commit_tx_storage _ _ _ _ e E).
Qed.

(** ** Stored rows over the limits *)

(** A row whose wrapped key or ciphertext exceeds its limit is refused by its length, whatever
    it contains, and the file is not written. *)
Lemma oversized_row_refused b db r :
  client_state db !! SLOT = Some r ->
  WRAPPED_DEK_MAX_BYTES < Z.of_nat (length (st_wrapped_dek r)) \/
  MAX_CIPHERTEXT_BYTES < Z.of_nat (length (st_ciphertext r)) ->
  read_row b (file db) = (Err Storage, file db).
Proof.
  intros Er Hlen. unfold read_row. rewrite ask_clean, run_lift_bind by done.
  change (current (conn (file db))) with db. rewrite Er. step_ok. rewrite guard_bind.
  assert (row_header_ok r = false) as ->; [|done].
  unfold row_header_ok. apply negb_false_iff.
  destruct Hlen as [H|H]; apply Z.ltb_lt in H; rewrite H, ?orb_true_r; done.
Qed.

(** An envelope over the limit is not handed to the cipher, and no envelope has a generation
    above the signed range. *)
Lemma oversized_envelope_refused b g w k n c :
  MAX_CIPHERTEXT_BYTES < Z.of_nat (length c) -> envelope_open b g w k n c = Err Storage.
Proof. intros H%Z.ltb_lt. unfold envelope_open. by rewrite H, orb_true_r. Qed.

End Bounds.
