(* ===== verification/Redaction.v ===== *)
(** * What logs can show: the [Debug] and [Display] implementations

    The crate writes the [Debug] implementations of its sensitive types by hand. They are
    translated here over the builders of [std::fmt] in their compact form ([{:?}]), with the
    messages of [LabError]; the theorems say which parts of a value the output depends on. *)

From stdpp Require Import pretty.
From S2P Require Import Prelude Core Capability Envelope StateStore.

#[local] Open Scope string_scope.

(** ** [std::fmt] *)

Definition quote : string := String (Ascii.ascii_of_nat 34) EmptyString.

(** [Debug] of a string literal without characters that need an escape. *)
Definition debug_str (s : string) : string := quote +:+ s +:+ quote.

Definition debug_bool (b : bool) : string := if b then "true" else "false".

(** [Debug] of an unsigned integer. *)
Definition debug_uint (n : Z) : string := pretty n.

(** [name: value], separated by commas. *)
Fixpoint debug_fields (fields : list (string * string)) : string :=
  match fields with
  | [] => EmptyString
  | [(name, value)] => name +:+ ": " +:+ value
  | (name, value) :: fields => name +:+ ": " +:+ value +:+ ", " +:+ debug_fields fields
  end.

(** [debug_struct(name).field(..)..finish()] *)
Definition debug_struct (name : string) (fields : list (string * string)) : string :=
  name +:+ " { " +:+ debug_fields fields +:+ " }".

(** [debug_struct(name).field(..)..finish_non_exhaustive()] *)
Definition debug_struct_non_exhaustive (name : string) (fields : list (string * string)) : string :=
  name +:+ " { " +:+ debug_fields fields +:+ ", .. }".

(** [debug_tuple(name).field(value).finish()] *)
Definition debug_tuple (name value : string) : string := name +:+ "(" +:+ value +:+ ")".

(** ** [Debug] of the crate's types *)

(** [impl Debug] of [opaque_id!] *)
Definition debug_opaque_id {n} (name : string) (id : array n) : string :=
  debug_tuple name (debug_str "opaque").

Definition debug_packet (p : EncryptedPacket) : string :=
  debug_struct "EncryptedPacket"
    [("bytes", debug_str "redacted"); ("length", debug_uint (Z.of_nat (length (packet_bytes p))))].

Definition debug_binding (b : ProfileBinding) : string :=
  debug_struct "ProfileBinding" [("profile_id", debug_str "opaque"); ("key_ref", debug_str "opaque")].

Section Debug.
Context `{Lib : CryptoOps} {P : Type} `{Protector : StateKeyProtector P}.

Definition debug_envelope (e : StoredEnvelope) : string :=
  debug_struct "StoredEnvelope"
    [("queue_id", debug_opaque_id "QueueId" (se_queue_id e));
     ("message_id", debug_opaque_id "MessageId" (se_message_id e));
     ("packet", debug_packet (se_packet e));
     ("expires_at", debug_uint (se_expires_at e));
     ("sender_signature", debug_str "redacted")].

Definition debug_store (h : Handle P) : string :=
  debug_struct_non_exhaustive "ClientStateStore"
    [("generation", debug_uint (generation h)); ("state", debug_str "redacted");
     ("state_length", debug_uint (Z.of_nat (length (state h))));
     ("binding", debug_binding (binding h)); ("poisoned", debug_bool (poisoned h))].

(** ** [Display] of errors *)

Definition display (e : LabError) : string :=
  match e with
  | MissingSession => "no encrypted session is available; sending stopped"
  | SessionAlreadyExists => "an encrypted session already exists"
  | ExpectedPreKey => "the packet did not contain the required pre-key message"
  | PeerVerificationFailed => "the peer key bundle could not be authenticated"
  | Crypto => "cryptographic operation failed"
  | Encoding => "encrypted packet encoding failed"
  | InvalidPayload => "message payload was invalid"
  | WrongConversation => "the message belongs to another conversation"
  | MessageIdMismatch => "the message identifier did not match its encrypted payload"
  | DuplicateMessage => "this logical message was already displayed"
  | Unauthorized => "relay authorization failed"
  | RequestExpired => "relay request expired"
  | InvalidExpiry => "message expiry is invalid"
  | MailboxNotFound => "mailbox does not exist"
  | MailboxConflict => "mailbox registration conflicts with an existing mailbox"
  | MessageConflict => "message identifier conflicts with a different envelope"
  | MessageGone => "message has already been acknowledged or expired"
  | MessageNotFound => "message does not exist"
  | Storage => "relay storage failed"
  end.

(** Messages identify errors. *)
Lemma display_inj e1 e2 : display e1 = display e2 -> e1 = e2.
Proof. destruct e1, e2; done. Qed.

(** ** What the output depends on *)

Lemma append_inj_r s t u : s +:+ u = t +:+ u -> s = t.
Proof.
  intros E. apply (f_equal String.list_ascii_of_string) in E.
  assert (Happ : forall a b, String.list_ascii_of_string (a +:+ b)
    = (String.list_ascii_of_string a ++ String.list_ascii_of_string b)%list).
  { intros a b. induction a as [|c a IH]; simpl; [done|]. by f_equal. }
  rewrite !Happ in E. apply app_inv_tail in E.
  by rewrite <- (String.string_of_list_ascii_of_string s), E, String.string_of_list_ascii_of_string.
Qed.

(** The output for a packet shows its length and nothing else. *)
Lemma debug_packet_shows_length p1 p2 :
  debug_packet p1 = debug_packet p2 <-> length (packet_bytes p1) = length (packet_bytes p2).
Proof.
  unfold debug_packet. split; [|by intros ->]. unfold debug_struct, debug_fields, debug_uint.
  intros E. do 2 apply (inj (String.append _)) in E.
  apply append_inj_r in E. do 6 apply (inj (String.append _)) in E. apply (inj pretty) in E. lia.
Qed.

(** No output depends on an identifier, a packet's bytes, a signature, a key, a wrapped key, a
    nonce, a ciphertext, a profile or a state beyond its length: values that agree on expiry,
    packet length, generation, state length and poisoning have the same output. *)
Theorem debug_output_is_redacted :
  (forall n name (i j : array n), debug_opaque_id name i = debug_opaque_id name j) /\
  (forall e1 e2, length (packet_bytes (se_packet e1)) = length (packet_bytes (se_packet e2)) ->
     se_expires_at e1 = se_expires_at e2 -> debug_envelope e1 = debug_envelope e2) /\
  (forall h1 h2, generation h1 = generation h2 -> length (state h1) = length (state h2) ->
     poisoned h1 = poisoned h2 -> debug_store h1 = debug_store h2).
Proof.
  split; [done|]. split.
  - intros e1 e2 Hl He. unfold debug_envelope.
    by rewrite (proj2 (debug_packet_shows_length _ _) Hl), He.
  - intros h1 h2 Hg Hl Hp. unfold debug_store. by rewrite Hg, Hl, Hp.
Qed.

End Debug.

(** ** Examples *)

Example debug_packet_text :
  debug_packet (mkPacket [x01; x02; x03])
    = "EncryptedPacket { bytes: " +:+ quote +:+ "redacted" +:+ quote +:+ ", length: 3 }".
Proof. reflexivity. Qed.
