(* ===== verification/Schema.v ===== *)
(** * The relay's schema, migration and opening: [src/relay.rs]

    What a database file looks like to the code is the record [View] of its introspection
    queries, from which [schema_manifest] computes the manifest that is compared with the
    manifests of two reference schemas. What [SQLite] reports after executing a piece of DDL is
    not part of the repository: it is the operation of the class [DdlOps], with the facts the
    migration relies on in [DdlLaws]. *)

From S2P Require Import Prelude Core Capability Sqlite RelayDb Relay.
From S2P Require Import RelayFacts RelayTx RelayInv RelayTrace RelayTheorems Companion.
From stdpp Require Import sorting.

#[local] Open Scope string_scope.
#[local] Open Scope Z_scope.

Definition CURRENT_SCHEMA_VERSION : Z := 2.

Definition CURRENT_SCHEMA_DDL : string := "
        CREATE TABLE mailboxes (
            queue_id BLOB PRIMARY KEY NOT NULL CHECK(length(queue_id) = 32),
            send_key BLOB NOT NULL CHECK(length(send_key) = 32),
            receive_key BLOB NOT NULL CHECK(length(receive_key) = 32),
            manage_key BLOB NOT NULL CHECK(length(manage_key) = 32),
            created_at INTEGER NOT NULL
        ) STRICT;

        CREATE TABLE messages (
            queue_id BLOB NOT NULL,
            message_id BLOB NOT NULL CHECK(length(message_id) = 16),
            ciphertext BLOB NOT NULL,
            expires_at INTEGER NOT NULL,
            sender_signature BLOB NOT NULL CHECK(length(sender_signature) = 64),
            PRIMARY KEY (queue_id, message_id),
            FOREIGN KEY (queue_id) REFERENCES mailboxes(queue_id) ON DELETE CASCADE
        ) STRICT;

        CREATE TABLE tombstones (
            queue_id BLOB NOT NULL,
            message_id BLOB NOT NULL CHECK(length(message_id) = 16),
            delete_after INTEGER NOT NULL,
            PRIMARY KEY (queue_id, message_id),
            FOREIGN KEY (queue_id) REFERENCES mailboxes(queue_id) ON DELETE CASCADE
        ) STRICT;

        CREATE TABLE request_nonces (
            queue_id BLOB NOT NULL,
            role TEXT NOT NULL,
            nonce BLOB NOT NULL CHECK(length(nonce) = 16),
            delete_after INTEGER NOT NULL,
            PRIMARY KEY (queue_id, role, nonce),
            FOREIGN KEY (queue_id) REFERENCES mailboxes(queue_id) ON DELETE CASCADE
        ) STRICT;

        CREATE TABLE registration_nonces (
            queue_id BLOB NOT NULL CHECK(length(queue_id) = 32),
            nonce BLOB NOT NULL CHECK(length(nonce) = 16),
            delete_after INTEGER NOT NULL,
            PRIMARY KEY (queue_id, nonce)
        ) STRICT;

        CREATE TABLE retired_queues (
            queue_hash BLOB PRIMARY KEY NOT NULL CHECK(length(queue_hash) = 32),
            retired_at INTEGER NOT NULL
        ) STRICT;
        ".

Definition CURRENT_MESSAGES_DDL : string := "
        CREATE TABLE messages (
            queue_id BLOB NOT NULL,
            message_id BLOB NOT NULL CHECK(length(message_id) = 16),
            ciphertext BLOB NOT NULL,
            expires_at INTEGER NOT NULL,
            sender_signature BLOB NOT NULL CHECK(length(sender_signature) = 64),
            PRIMARY KEY (queue_id, message_id),
            FOREIGN KEY (queue_id) REFERENCES mailboxes(queue_id) ON DELETE CASCADE
        ) STRICT;
        ".

Definition LEGACY_SCHEMA_DDL : string := "
        CREATE TABLE mailboxes (
            queue_id BLOB PRIMARY KEY NOT NULL CHECK(length(queue_id) = 32),
            send_key BLOB NOT NULL CHECK(length(send_key) = 32),
            receive_key BLOB NOT NULL CHECK(length(receive_key) = 32),
            manage_key BLOB NOT NULL CHECK(length(manage_key) = 32),
            created_at INTEGER NOT NULL
        ) STRICT;

        CREATE TABLE messages (
            queue_id BLOB NOT NULL,
            message_id BLOB NOT NULL CHECK(length(message_id) = 16),
            ciphertext BLOB NOT NULL,
            expires_at INTEGER NOT NULL,
            PRIMARY KEY (queue_id, message_id),
            FOREIGN KEY (queue_id) REFERENCES mailboxes(queue_id) ON DELETE CASCADE
        ) STRICT;

        CREATE TABLE tombstones (
            queue_id BLOB NOT NULL,
            message_id BLOB NOT NULL CHECK(length(message_id) = 16),
            delete_after INTEGER NOT NULL,
            PRIMARY KEY (queue_id, message_id),
            FOREIGN KEY (queue_id) REFERENCES mailboxes(queue_id) ON DELETE CASCADE
        ) STRICT;

        CREATE TABLE request_nonces (
            queue_id BLOB NOT NULL,
            role TEXT NOT NULL,
            nonce BLOB NOT NULL CHECK(length(nonce) = 16),
            delete_after INTEGER NOT NULL,
            PRIMARY KEY (queue_id, role, nonce),
            FOREIGN KEY (queue_id) REFERENCES mailboxes(queue_id) ON DELETE CASCADE
        ) STRICT;

        CREATE TABLE registration_nonces (
            queue_id BLOB NOT NULL CHECK(length(queue_id) = 32),
            nonce BLOB NOT NULL CHECK(length(nonce) = 16),
            delete_after INTEGER NOT NULL,
            PRIMARY KEY (queue_id, nonce)
        ) STRICT;

        CREATE TABLE retired_queues (
            queue_hash BLOB PRIMARY KEY NOT NULL CHECK(length(queue_hash) = 32),
            retired_at INTEGER NOT NULL
        ) STRICT;
        ".

(** ** Manifests *)

Definition SchemaObject : Type := string * string * string * option string.

(** [schema, name, type, ncol, wr, strict] *)
Definition TableList : Type := string * string * string * Z * Z * Z.
(** [cid, name, type, notnull, dflt_value, pk, hidden] *)
Definition ColumnInfo : Type := Z * string * string * Z * option string * Z * Z.
(** [seq, name, unique, origin, partial] *)
Definition IndexList : Type := Z * string * Z * string * Z.
(** [seqno, cid, name, desc, coll, key] *)
Definition IndexColumn : Type := Z * Z * option string * Z * string * Z.
(** [id, seq, table, from, to, on_update, on_delete, match] *)
Definition ForeignKey : Type := Z * Z * string * string * string * string * string * string.

Record IndexShape : Type := mkIndex {
  ix_list : IndexList;
  ix_columns : list IndexColumn;
}.

Record TableShape : Type := mkTable {
  tb_table_list : TableList;
  tb_columns : list ColumnInfo;
  tb_indexes : list IndexShape;
  tb_foreign_keys : list ForeignKey;
}.

Record SchemaManifest : Type := mkManifest {
  objects : list SchemaObject;
  tables : gmap string TableShape;
}.

Inductive SchemaKind : Type := Empty | Legacy | Current | Unknown.

#[global] Instance IndexShape_eq_dec : EqDecision IndexShape.
Proof. solve_decision. Defined.
#[global] Instance TableShape_eq_dec : EqDecision TableShape.
Proof. solve_decision. Defined.
#[global] Instance SchemaManifest_eq_dec : EqDecision SchemaManifest.
Proof. solve_decision. Defined.

(** What the introspection queries of a database return. *)
Record View : Type := mkView {
  vw_objects : list SchemaObject;
  vw_table_list : string -> option TableList;
  vw_columns : string -> list ColumnInfo;
  vw_index_list : string -> list IndexList;
  vw_index_columns : string -> list IndexColumn;
  vw_foreign_keys : string -> list ForeignKey;
}.

Definition empty_view : View :=
  mkView [] (fun _ => None) (fun _ => []) (fun _ => []) (fun _ => []) (fun _ => []).

(** The derived order of [SchemaObject]: the fields in turn, [None] first. *)
Definition string_le (a b : string) : bool := String.leb a b.

Definition object_le (a b : SchemaObject) : bool :=
  let '(a1, a2, a3, a4) := a in
  let '(b1, b2, b3, b4) := b in
  if bool_decide (a1 = b1) then
    if bool_decide (a2 = b2) then
      if bool_decide (a3 = b3) then
        match a4, b4 with
        | None, _ => true
        | Some _, None => false
        | Some x, Some y => string_le x y
        end
      else string_le a3 b3
    else string_le a2 b2
  else string_le a1 b1.

Definition object_order (a b : SchemaObject) : Prop := object_le a b = true.

#[global] Instance object_order_dec a b : Decision (object_order a b).
Proof. unfold object_order. apply _. Defined.

(** [SchemaManifest::default()] *)
Definition default_manifest : SchemaManifest := mkManifest [] ∅.

Definition classify_schema (actual empty legacy current : SchemaManifest) : SchemaKind :=
  if bool_decide (actual = empty) then Empty
  else if bool_decide (actual = legacy) then Legacy
  else if bool_decide (actual = current) then Current
  else Unknown.

(** Executing DDL: the view of a database afterwards, or an error. *)
Class DdlOps : Type := {
  execute_ddl : string -> View -> option View;
}.

(** ** The database file *)

(** Its [user_version], what the introspection and integrity queries report, the rows, and the
    journal mode in its header. A row of a legacy [messages] table has no signature. *)
Record RelayFile : Type := mkRelayFile {
  rf_version : Z;
  rf_view : View;
  rf_foreign_key_problem : bool;
  rf_integrity : list string;
  rf_rows : RelayDb;
  (** in WAL mode; otherwise a rollback journal is used *)
  rf_wal : bool;
}.

(** [PRAGMA journal_mode = DELETE] on the only connection to the file *)
Definition rollback_file (d : RelayFile) : RelayFile :=
  mkRelayFile (rf_version d) (rf_view d) (rf_foreign_key_problem d) (rf_integrity d) (rf_rows d) false.

Section Schema.
Context `{Ddl : DdlOps}.

Abbreviation FileM := (SM (Connection RelayFile) LabError).

Definition file_query {A} (f : RelayFile -> A) : FileM A := query (fun d => Some (f d)).

(** A query of the schema: of the file, or of an in-memory database that looks like [image]. Each
    is a call that can fail. *)
Definition introspect {A} (image : option View) (f : View -> option A) : FileM A :=
  query (fun d => f (default (rf_view d) image)).

(** The loop of [table_shape] over the rows of [pragma_index_list] *)
Fixpoint index_shapes (image : option View) (index_rows : list IndexList)
    (indexes : list IndexShape) : FileM (list IndexShape) :=
  match index_rows with
  | [] => mret indexes
  | list :: index_rows =>
      columns ← introspect image (fun v => Some (vw_index_columns v list.1.1.1.2));
      index_shapes image index_rows (indexes ++ [mkIndex list columns])
  end.

(** A table without an entry in [pragma_table_list] is an error of [query_row]. *)
Definition table_shape (image : option View) (table : string) : FileM TableShape :=
  table_list ← introspect image (fun v => vw_table_list v table);
  columns ← introspect image (fun v => Some (vw_columns v table));
  index_rows ← introspect image (fun v => Some (vw_index_list v table));
  indexes ← index_shapes image index_rows [];
  foreign_keys ← introspect image (fun v => Some (vw_foreign_keys v table));
  mret (mkTable table_list columns indexes foreign_keys).

(** The loop of [schema_manifest] over the table names *)
Fixpoint table_shapes (image : option View) (table_names : list string)
    (tables : gmap string TableShape) : FileM (gmap string TableShape) :=
  match table_names with
  | [] => mret tables
  | table :: table_names =>
      shape ← table_shape image table;
      table_shapes image table_names (<[table := shape]> tables)
  end.

Definition schema_manifest (image : option View) : FileM SchemaManifest :=
  rows ← introspect image (fun v => Some (vw_objects v));
  let objects := merge_sort object_order rows in
  let table_names := (fun o : SchemaObject => o.1.1.2) <$>
                       filter (fun o : SchemaObject => o.1.1.1 = "table") objects in
  tables ← table_shapes image table_names ∅;
  mret (mkManifest objects tables).

(** On a fresh in-memory database, which never shares anything with the file. *)
Definition reference_manifest (ddl : string) : FileM SchemaManifest :=
  file_query (fun _ => tt);;                     (* Connection::open_in_memory *)
  file_query (fun _ => tt);;                     (* the PRAGMA batch *)
  v ← introspect (Some empty_view) (execute_ddl ddl);
  schema_manifest (Some v).

Definition validate_database_integrity : FileM unit :=
  foreign_key_problem ← file_query rf_foreign_key_problem;
  sm_guard (negb foreign_key_problem) Storage;;
  integrity ← file_query rf_integrity;
  sm_guard (bool_decide (integrity = ["ok"])) Storage.

Definition validate_schema_for_open : FileM unit :=
  version ← file_query rf_version;
  sm_guard ((0 <=? version) && (version <=? CURRENT_SCHEMA_VERSION)) Storage;;
  current ← schema_manifest None;
  expected_legacy ← reference_manifest LEGACY_SCHEMA_DDL;
  expected_current ← reference_manifest CURRENT_SCHEMA_DDL;
  match classify_schema current default_manifest expected_legacy expected_current with
  | Current => if version =? CURRENT_SCHEMA_VERSION then validate_database_integrity
               else sm_throw Storage
  | Empty | Legacy =>
      if (version =? 0) || (version =? 1) then validate_database_integrity else sm_throw Storage
  | Unknown => sm_throw Storage
  end.

Definition validate_current_schema (expected : SchemaManifest) : FileM unit :=
  current ← schema_manifest None;
  sm_guard (bool_decide (current = expected)) Storage;;
  validate_database_integrity.

(** [execute_batch(ddl)] *)
Definition execute_batch (ddl : string) : FileM unit :=
  sql (fun d => (fun v => (tt, mkRelayFile (rf_version d) v (rf_foreign_key_problem d)
                                 (rf_integrity d) (rf_rows d) (rf_wal d)))
                <$> execute_ddl ddl (rf_view d)).

Definition pragma_user_version (n : Z) : FileM unit :=
  sql (fun d => Some (tt, mkRelayFile n (rf_view d) (rf_foreign_key_problem d) (rf_integrity d)
                            (rf_rows d) (rf_wal d))).

(** [DELETE FROM messages] *)
Definition delete_all_messages : FileM unit :=
  sql (fun d => Some (tt, mkRelayFile (rf_version d) (rf_view d) (rf_foreign_key_problem d)
                            (rf_integrity d) (set_messages [] (rf_rows d)) (rf_wal d))).

Definition create_current_schema : FileM unit := execute_batch CURRENT_SCHEMA_DDL.

Definition migrate_schema : FileM unit :=
  validate_schema_for_open;;
  version ← file_query rf_version;
  current ← schema_manifest None;
  expected_legacy ← reference_manifest LEGACY_SCHEMA_DDL;
  expected_current ← reference_manifest CURRENT_SCHEMA_DDL;
  match classify_schema current default_manifest expected_legacy expected_current with
  | Current => if version =? CURRENT_SCHEMA_VERSION then mret tt else sm_throw Storage
  | Empty =>
      if (version =? 0) || (version =? 1) then
        create_current_schema;;
        pragma_user_version CURRENT_SCHEMA_VERSION;;
        validate_current_schema expected_current
      else sm_throw Storage
  | Legacy =>
      if (version =? 0) || (version =? 1) then
        delete_all_messages;;
        execute_batch "DROP TABLE messages;";;
        execute_batch CURRENT_MESSAGES_DDL;;
        pragma_user_version CURRENT_SCHEMA_VERSION;;
        validate_current_schema expected_current
      else sm_throw Storage
  | Unknown => sm_throw Storage
  end.

(** A statement on the rows of the file. *)
Definition rows_sql {A} (f : RelayDb -> option (A * RelayDb)) : FileM A :=
  sql (fun d => (fun x => (x.1, mkRelayFile (rf_version d) (rf_view d)
                                  (rf_foreign_key_problem d) (rf_integrity d) x.2
                                  (rf_wal d)))
                <$> f (rf_rows d)).

(** [purge_expired_in], on the connection of the file. *)
Definition purge_file (now : Z) : FileM nat :=
  now ← sm_lift (to_i64 now);
  deleted ← rows_sql (delete_expired_messages now);
  rows_sql (delete_expired_tombstones now);;
  rows_sql (delete_expired_request_nonces now);;
  rows_sql (delete_expired_registration_nonces now);;
  mret deleted.

(** The transaction of [Relay::initialize] *)
Definition open_transaction (now : Z) : FileM unit :=
  migrate_schema;;
  purge_file now;;
  commit.

(** The PRAGMA batch of [Relay::initialize]: settings of the connection, and the journal mode,
    which a WAL-mode file keeps in its header until then. *)
Definition storage_settings : FileM unit := autocommit (fun d => Some (tt, rollback_file d)).

(** [Relay::initialize]: the handle it returns is the connection and an empty audit trail. *)
Definition initialize (now : Z) : FileM (list string) :=
  file_query (fun _ => tt);;                     (* busy_timeout *)
  validate_schema_for_open;;
  storage_settings;;
  with_transaction (open_transaction now);;
  mret [].

(** [preflight_existing_database]; [readonly] is what opening the immutable URI yields. *)
Definition preflight_existing_database (fs : FileSystem) (utf8 : bool) (p : path)
    (readonly : list byte -> option (Connection RelayFile)) : Result unit :=
  match fs_metadata fs p with
  | FsNotFound => mret tt
  | FsError => Err Storage
  | FsOk metadata =>
      if negb (md_is_file metadata) then Err Storage
      else if md_len metadata =? 0 then reject_anomalous_wal fs p
      else
        reject_anomalous_wal fs p;;
        recovery ← has_nonempty_recovery_companion fs p;
        if recovery : bool then mret tt
        else
          uri ← immutable_uri utf8 p;
          c ← ok_or Storage (readonly uri);
          fst (validate_schema_for_open c)
  end.

(** [Relay::open_at]. [recover] is what [SQLite]'s own recovery makes of the file when a connection
    opens it: a hot rollback journal or a WAL is played back, and with nothing to recover the file
    is as it was. It is durable whatever the code then decides. *)
Definition open_at (fs : FileSystem) (utf8 : bool) (p : path)
    (readonly : list byte -> option (Connection RelayFile)) (recover : RelayFile -> RelayFile)
    (now : Z) : FileM (list string) :=
  sm_lift (preflight_existing_database fs utf8 p readonly);;
  autocommit (fun d => Some (tt, recover d));;   (* Connection::open *)
  initialize now.

(** [Relay::open] *)
Definition relay_open (fs : FileSystem) (utf8 : bool) (p : path)
    (readonly : list byte -> option (Connection RelayFile)) (recover : RelayFile -> RelayFile)
    (clock : option Z) : FileM (list string) :=
  now ← sm_lift (unix_now clock); open_at fs utf8 p readonly recover now.

(** [Relay::open_in_memory], on the new database *)
Definition open_in_memory (clock : option Z) : FileM (list string) :=
  file_query (fun _ => tt);;                     (* Connection::open_in_memory *)
  now ← sm_lift (unix_now clock); initialize now.

End Schema.

(** ** Properties *)

(** The manifest a view denotes, computed in one go: what [schema_manifest] returns when none of
    its queries fails. *)
Definition shape_of_view (v : View) (table : string) : option TableShape :=
  table_list ← vw_table_list v table;
  let index_shape list := mkIndex list (vw_index_columns v list.1.1.1.2) in
  Some (mkTable table_list (vw_columns v table) (map index_shape (vw_index_list v table))
          (vw_foreign_keys v table)).

Definition manifest_of_view (v : View) : option SchemaManifest :=
  let objects := merge_sort object_order (vw_objects v) in
  let table_names := (fun o : SchemaObject => o.1.1.2) <$>
                       filter (fun o : SchemaObject => o.1.1.1 = "table") objects in
  shapes ← mapM (shape_of_view v) table_names;
  Some (mkManifest objects
          (foldl (fun tables x => <[x.1 := x.2]> tables) ∅ (zip table_names shapes))).

Definition manifest_of_ddl `{DdlOps} (ddl : string) : option SchemaManifest :=
  execute_ddl ddl empty_view ≫= manifest_of_view.

(** What the reference schemas look like, and that the DDL of the code leads to the current one:
    from an empty database, and from a legacy one once its [messages] table is replaced. *)
Class DdlLaws `{DdlOps} : Type := {
  legacy_manifest : SchemaManifest;
  current_manifest : SchemaManifest;
  reference_legacy : manifest_of_ddl LEGACY_SCHEMA_DDL = Some legacy_manifest;
  reference_current : manifest_of_ddl CURRENT_SCHEMA_DDL = Some current_manifest;
  legacy_not_empty : legacy_manifest <> default_manifest;
  current_not_empty : current_manifest <> default_manifest;
  current_not_legacy : current_manifest <> legacy_manifest;
  creating_gives_current : forall v, manifest_of_view v = Some default_manifest ->
    exists v', execute_ddl CURRENT_SCHEMA_DDL v = Some v' /\
      manifest_of_view v' = Some current_manifest;
  migrating_gives_current : forall v, manifest_of_view v = Some legacy_manifest ->
    exists v1 v2, execute_ddl "DROP TABLE messages;" v = Some v1 /\
      execute_ddl CURRENT_MESSAGES_DDL v1 = Some v2 /\ manifest_of_view v2 = Some current_manifest;
}.

Section SchemaFacts.
Context `{Ddl : DdlOps} {Laws : DdlLaws}.

Abbreviation FileM := (SM (Connection RelayFile) LabError).

Definition kind_of (v : View) : option SchemaKind :=
  mf ← manifest_of_view v;
  Some (classify_schema mf default_manifest legacy_manifest current_manifest).

(** The databases an open accepts. *)
Definition acceptable (d : RelayFile) : bool :=
  match kind_of (rf_view d) with
  | Some Current => rf_version d =? 2
  | Some Empty | Some Legacy => (rf_version d =? 0) || (rf_version d =? 1)
  | _ => false
  end && negb (rf_foreign_key_problem d) && bool_decide (rf_integrity d = ["ok"]).

Definition at_file (d : RelayFile) : Connection RelayFile := mkConn d None [].
Definition in_file (d0 d : RelayFile) : Connection RelayFile := mkConn d0 (Some d) [].

Lemma run_file_query {A B} (f : RelayFile -> A) (g : A -> SM _ _ B) c :
  faults c = [] -> (file_query f ≫= g) c = g (f (current c)) c.
Proof.
  intros Hf. destruct c as [d t fs]. simpl in Hf. subst fs. by destruct t.
Qed.

Lemma run_integrity c :
  faults c = [] ->
  validate_database_integrity c =
    (result_guard (negb (rf_foreign_key_problem (current c))
                   && bool_decide (rf_integrity (current c) = ["ok"])) Storage, c).
Proof.
  intros Hf. unfold validate_database_integrity. rewrite run_file_query by done.
  destruct (rf_foreign_key_problem _); [done|]. cbn [negb andb].
  unfold sm_guard at 1. rewrite (sm_bind_ok _ _ _ tt c), run_file_query by done.
  by destruct (bool_decide _).
Qed.

(** *** The introspection queries, when none fails *)

Lemma run_introspect {A B} image (f : View -> option A) (g : A -> SM _ _ B) c :
  faults c = [] ->
  (introspect image f ≫= g) c =
    match f (default (rf_view (current c)) image) with
    | Some a => g a c
    | None => (Err Storage, c)
    end.
Proof.
  intros Hf. destruct c as [d t fs]. simpl in Hf. subst fs.
  unfold introspect, query, sql, mbind, SM_bind, next_io, pop_io. cbn [head tail faults default].
  destruct t; cbn; by destruct (f _).
Qed.

Lemma run_index_shapes {B} image rows acc (g : _ -> SM _ _ B) c :
  faults c = [] ->
  (index_shapes image rows acc ≫= g) c =
    g (acc ++ map (fun list => mkIndex list
         (vw_index_columns (default (rf_view (current c)) image) list.1.1.1.2)) rows)%list c.
Proof.
  intros Hf. revert acc. induction rows as [|row rows IH]; intros acc; simpl index_shapes.
  - by rewrite app_nil_r.
  - rewrite sm_bind_assoc, run_introspect, IH by done. by rewrite <- app_assoc.
Qed.

Lemma run_table_shape {B} image table (g : TableShape -> SM _ _ B) c :
  faults c = [] ->
  (table_shape image table ≫= g) c =
    match shape_of_view (default (rf_view (current c)) image) table with
    | Some shape => g shape c
    | None => (Err Storage, c)
    end.
Proof.
  intros Hf. unfold table_shape, shape_of_view. rewrite sm_bind_assoc, run_introspect by done.
  destruct (vw_table_list _ _) as [tl|]; [|done].
  do 2 (rewrite sm_bind_assoc, run_introspect by done).
  rewrite sm_bind_assoc, run_index_shapes by done. by rewrite sm_bind_assoc, run_introspect by done.
Qed.

Lemma run_table_shapes {B} image names acc (g : _ -> SM _ _ B) c :
  faults c = [] ->
  (table_shapes image names acc ≫= g) c =
    match mapM (shape_of_view (default (rf_view (current c)) image)) names with
    | Some shapes => g (foldl (fun tables x => <[x.1 := x.2]> tables) acc (zip names shapes)) c
    | None => (Err Storage, c)
    end.
Proof.
  intros Hf. revert acc. induction names as [|name names IH]; intros acc; simpl table_shapes; [done|].
  rewrite sm_bind_assoc, run_table_shape by done. simpl mapM.
  destruct (shape_of_view _ name) as [shape|]; simpl; [|done]. rewrite IH.
  by destruct (mapM _ names).
Qed.

Lemma run_image_manifest {B} image (g : SchemaManifest -> SM _ _ B) c :
  faults c = [] ->
  (schema_manifest image ≫= g) c =
    match manifest_of_view (default (rf_view (current c)) image) with
    | Some mf => g mf c
    | None => (Err Storage, c)
    end.
Proof.
  intros Hf. unfold schema_manifest, manifest_of_view.
  rewrite sm_bind_assoc, run_introspect, sm_bind_assoc, run_table_shapes by done.
  by destruct (mapM _ _).
Qed.

Lemma run_manifest {B} (g : SchemaManifest -> SM _ _ B) c :
  faults c = [] ->
  (schema_manifest None ≫= g) c =
    match manifest_of_view (rf_view (current c)) with
    | Some mf => g mf c
    | None => (Err Storage, c)
    end.
Proof. apply run_image_manifest. Qed.

Lemma run_reference {B} ddl mf (g : SchemaManifest -> SM _ _ B) c :
  faults c = [] -> manifest_of_ddl ddl = Some mf -> (reference_manifest ddl ≫= g) c = g mf c.
Proof.
  intros Hf E. unfold reference_manifest, manifest_of_ddl in *.
  rewrite !sm_bind_assoc, run_file_query, sm_bind_assoc, run_file_query by done.
  destruct (execute_ddl ddl empty_view) as [v|] eqn:Ed; [|done]. simpl in E.
  rewrite sm_bind_assoc, run_introspect by done. simpl default. rewrite Ed.
  rewrite run_image_manifest by done. simpl. by rewrite E.
Qed.

Lemma run_validate_open c :
  faults c = [] ->
  validate_schema_for_open c = (result_guard (acceptable (current c)) Storage, c).
Proof.
  intros Hf. unfold validate_schema_for_open, acceptable, kind_of.
  rewrite run_file_query by done. unfold CURRENT_SCHEMA_VERSION.
  destruct ((0 <=? rf_version (current c)) && (rf_version (current c) <=? 2)) eqn:Ev.
  - unfold sm_guard at 1. rewrite (sm_bind_ok _ _ _ tt c), run_manifest by done.
    destruct (manifest_of_view _) as [mf|]; [|done]. simpl.
    rewrite (run_reference _ _ _ _ Hf reference_legacy), (run_reference _ _ _ _ Hf reference_current).
    destruct (classify_schema _ _ _ _); try done;
      [destruct (_ || _)|destruct (_ || _)|destruct (_ =? 2)]; try done; by rewrite run_integrity.
  - unfold sm_guard at 1. cbn.
    assert (Hno : rf_version (current c) <> 0 /\ rf_version (current c) <> 1 /\
      rf_version (current c) <> 2).
    { apply andb_false_iff in Ev as [Ev|Ev]; apply Z.leb_gt in Ev; lia. }
    destruct Hno as (H0 & H1 & H2).
    rewrite (proj2 (Z.eqb_neq _ 0) H0), (proj2 (Z.eqb_neq _ 1) H1), (proj2 (Z.eqb_neq _ 2) H2).
    by destruct (manifest_of_view _) as [mf|]; [simpl; destruct (classify_schema _ _ _ _)|].
Qed.

Lemma run_file_sql {A B} (f : RelayFile -> option (A * RelayFile)) (g : A -> SM _ _ B) d0 d :
  (sql f ≫= g) (in_file d0 d) =
    match f d with
    | Some (a, d') => g a (in_file d0 d')
    | None => (Err Storage, in_file d0 d)
    end.
Proof.
  unfold mbind, SM_bind, sql, in_file, current, next_io. simpl. by destruct (f d) as [[]|].
Qed.

(** The rows a migration keeps: everything but the messages of a legacy database, which carry no
    sender signature. *)
Definition kept_rows (d : RelayFile) : RelayDb :=
  match kind_of (rf_view d) with
  | Some Legacy => set_messages [] (rf_rows d)
  | _ => rf_rows d
  end.

Record migrated (d d' : RelayFile) : Prop := {
  mi_version : rf_version d' = 2;
  mi_view : manifest_of_view (rf_view d') = Some current_manifest;
  mi_integrity : rf_foreign_key_problem d' = false /\ rf_integrity d' = ["ok"];
  mi_rows : rf_rows d' = kept_rows d;
  mi_journal : rf_wal d' = rf_wal d;
}.

Lemma classify_cases mf :
  match classify_schema mf default_manifest legacy_manifest current_manifest with
  | Empty => mf = default_manifest
  | Legacy => mf = legacy_manifest
  | Current => mf = current_manifest
  | Unknown => mf <> current_manifest
  end.
Proof. unfold classify_schema. repeat case_bool_decide; done. Qed.

Lemma kind_current v : manifest_of_view v = Some current_manifest -> kind_of v = Some Current.
Proof.
  intros Hm. unfold kind_of. rewrite Hm. simpl. unfold classify_schema.
  rewrite !bool_decide_false, bool_decide_true
    by (done || apply current_not_empty || apply current_not_legacy). done.
Qed.

Lemma run_validate_current c :
  faults c = [] -> manifest_of_view (rf_view (current c)) = Some current_manifest ->
  rf_foreign_key_problem (current c) = false -> rf_integrity (current c) = ["ok"] ->
  validate_current_schema current_manifest c = (Ok tt, c).
Proof.
  intros Hf Hm Hk Hi. unfold validate_current_schema. rewrite run_manifest, Hm by done.
  rewrite bool_decide_true by done. unfold sm_guard.
  rewrite (sm_bind_ok _ _ _ tt c), run_integrity, Hk, Hi by done. done.
Qed.

Lemma run_migrate d0 d :
  acceptable d = true ->
  exists d', migrate_schema (in_file d0 d) = (Ok tt, in_file d0 d') /\ migrated d d'.
Proof.
  intros Ha. unfold migrate_schema.
  rewrite (sm_bind_ok _ _ _ tt (in_file d0 d))
    by (rewrite run_validate_open by done; change (current (in_file d0 d)) with d; by rewrite Ha).
  rewrite run_file_query, run_manifest by done. change (current (in_file d0 d)) with d.
  unfold acceptable, kind_of in Ha. apply andb_true_iff in Ha as [[Hk Hf]%andb_true_iff Hi].
  apply negb_true_iff in Hf. apply bool_decide_eq_true in Hi.
  destruct (manifest_of_view (rf_view d)) as [mf|] eqn:Em; [|done].
  rewrite (run_reference _ _ _ (in_file d0 d) eq_refl reference_legacy),
    (run_reference _ _ _ (in_file d0 d) eq_refl reference_current).
  pose proof (classify_cases mf) as Hmf. simpl in Hk.
  destruct (classify_schema mf _ _ _) eqn:Ec; try done.
  - subst mf. rewrite Hk. destruct (creating_gives_current _ Em) as (v' & Ev & Emv).
    unfold create_current_schema, execute_batch, pragma_user_version. rewrite run_file_sql, Ev. simpl. rewrite run_file_sql.
    rewrite run_validate_current by done. eexists. split; [done|].
    split; try done. unfold kept_rows, kind_of. rewrite Em. simpl. by rewrite Ec.
  - subst mf. rewrite Hk. destruct (migrating_gives_current _ Em) as (v1 & v2 & Ev1 & Ev2 & Emv).
    unfold execute_batch, pragma_user_version, delete_all_messages.
    rewrite run_file_sql. cbn -[execute_ddl]. rewrite run_file_sql. cbn -[execute_ddl]. rewrite Ev1. cbn -[execute_ddl].
    rewrite run_file_sql. cbn -[execute_ddl]. rewrite Ev2. cbn -[execute_ddl]. rewrite run_file_sql.
    rewrite run_validate_current by done. eexists. split; [done|].
    split; try done. unfold kept_rows, kind_of. rewrite Em. simpl. by rewrite Ec.
  - unfold CURRENT_SCHEMA_VERSION. rewrite Hk. exists d. split; [done|].
    split; [by apply Z.eqb_eq|congruence|done| |done]. unfold kept_rows, kind_of. rewrite Em. simpl. by rewrite Ec.
Qed.

(** The file after opening: migrated, then swept. *)
Definition swept_file (now : Z) (d : RelayFile) : RelayFile :=
  mkRelayFile (rf_version d) (rf_view d) (rf_foreign_key_problem d) (rf_integrity d)
    (sweep now (rf_rows d)) (rf_wal d).

Lemma run_purge_file {B} now (g : nat -> SM _ _ B) d0 d :
  (purge_file now ≫= g) (in_file d0 d) =
    match to_i64 now with
    | Ok _ => g (expired_messages now (rf_rows d)) (in_file d0 (swept_file now d))
    | Err e => (Err e, in_file d0 d)
    end.
Proof.
  unfold purge_file. unfold mbind at 1 2, SM_bind at 1 2. unfold sm_lift.
  destruct (to_i64 now) as [n|e] eqn:E; [|done]. apply to_i64_ok in E as [-> _].
  unfold rows_sql. rewrite !run_file_sql. done.
Qed.

(** The failure-free result of the transaction. *)
Definition init_tx (now : Z) (d d' : RelayFile) : Prop :=
  acceptable d = true /\ now <= I64_MAX /\ exists d1, migrated d d1 /\ d' = swept_file now d1.

Lemma run_file_tx {A} (body : SM (Connection RelayFile) LabError A) d :
  with_transaction body (at_file d) =
    let '(r, c) := body (in_file d d) in (r, drop_transaction c).
Proof. done. Qed.

Lemma open_transaction_clean now d :
  acceptable d = true ->
  (exists d', with_transaction (open_transaction now) (at_file d) = (Ok tt, at_file d') /\
     init_tx now d d') \/
  (with_transaction (open_transaction now) (at_file d) = (Err Storage, at_file d) /\ I64_MAX < now).
Proof.
  intros Ha. rewrite run_file_tx. unfold open_transaction.
  destruct (run_migrate d d Ha) as (d1 & Em & Hm).
  rewrite (sm_bind_ok _ _ _ tt (in_file d d1)), run_purge_file by done.
  unfold to_i64. case_decide as Hn; [|right; split; [done|lia]].
  left. exists (swept_file now d1). split; [done|]. split; [done|]. split; [done|]. eauto.
Qed.

Lemma open_transaction_refuses now d :
  acceptable d = false ->
  with_transaction (open_transaction now) (at_file d) = (Err Storage, at_file d).
Proof.
  intros Ha. rewrite run_file_tx. unfold open_transaction, migrate_schema.
  rewrite (sm_bind_err _ _ _ Storage (in_file d d)); [done|]. apply sm_bind_err.
  rewrite run_validate_open by done. change (current (in_file d d)) with d. by rewrite Ha.
Qed.

(** [initialize] without failures. *)
Lemma initialize_clean now d :
  (exists d', initialize now (at_file d) = (Ok [], at_file d') /\ init_tx now (rollback_file d) d') \/
  (exists d', initialize now (at_file d) = (Err Storage, at_file d') /\
   (acceptable d = false \/ I64_MAX < now)).
Proof.
  unfold initialize. rewrite run_file_query by done.
  destruct (acceptable d) eqn:Ha.
  - rewrite (sm_bind_ok _ _ _ tt (at_file d))
      by (rewrite run_validate_open by done; change (current (at_file d)) with d; by rewrite Ha).
    rewrite (sm_bind_ok _ _ _ tt (at_file (rollback_file d))) by done.
    destruct (open_transaction_clean now (rollback_file d) Ha) as [(d' & E & Ht)|[E Hn]].
    + left. exists d'. by rewrite (sm_bind_ok _ _ _ _ _ E).
    + right. eexists. rewrite (sm_bind_err _ _ _ _ _ E). auto.
  - right. exists d. rewrite (sm_bind_err _ _ _ Storage (at_file d)); [by auto|].
    rewrite run_validate_open by done. change (current (at_file d)) with d. by rewrite Ha.
Qed.

(** *** Introspection and validation only read *)

Lemma observes_file_query {A} (f : RelayFile -> A) : observes (file_query f).
Proof. apply observes_query. Qed.

Lemma observes_introspect {A} image (f : View -> option A) : observes (introspect image f).
Proof. apply observes_query. Qed.

#[local] Hint Resolve observes_file_query observes_introspect : contain.

Lemma observes_index_shapes image rows acc : observes (index_shapes image rows acc).
Proof. revert acc. induction rows; simpl; contain. Qed.

#[local] Hint Resolve observes_index_shapes : contain.

Lemma observes_table_shapes image names acc : observes (table_shapes image names acc).
Proof. revert acc. induction names; simpl; unfold table_shape; contain. Qed.

#[local] Hint Resolve observes_table_shapes : contain.

Lemma observes_manifest image : observes (schema_manifest image).
Proof. unfold schema_manifest. contain. Qed.

#[local] Hint Resolve observes_manifest : contain.

Lemma observes_reference ddl : observes (reference_manifest ddl).
Proof. unfold reference_manifest. contain. Qed.

#[local] Hint Resolve observes_reference : contain.

Lemma observes_integrity : observes validate_database_integrity.
Proof. unfold validate_database_integrity. contain. Qed.

#[local] Hint Resolve observes_integrity : contain.

Lemma observes_validate_open : observes validate_schema_for_open.
Proof. unfold validate_schema_for_open. contain. Qed.

Lemma observes_validate_current mf : observes (validate_current_schema mf).
Proof. unfold validate_current_schema. contain. Qed.

#[local] Hint Resolve observes_validate_open observes_validate_current observes_reader
  observes_tx_quiet observes_tx_contained tx_quiet_sql tx_contained_sql tx_contained_commit : contain.

Lemma migrate_quiet : tx_quiet migrate_schema.
Proof.
  unfold migrate_schema, create_current_schema, execute_batch, pragma_user_version,
    delete_all_messages. contain.
Qed.

Lemma migrate_contained : tx_contained migrate_schema.
Proof.
  unfold migrate_schema, create_current_schema, execute_batch, pragma_user_version,
    delete_all_messages. contain.
Qed.

#[local] Hint Resolve migrate_quiet migrate_contained : contain.

Lemma open_transaction_contained now : contained (with_transaction (open_transaction now)).
Proof. unfold open_transaction, purge_file, rows_sql. contain. Qed.

(** A transaction of [open_at] with any failures. *)
Lemma open_transaction_outcome now d fs :
  acceptable d = true ->
  let '(r, c') := with_transaction (open_transaction now) (mkConn d None fs) in
  r = Ok tt /\ init_tx now d (disk c') \/
  r = Err Storage /\ (disk c' = d \/ init_tx now d (disk c')).
Proof.
  intros Ha. pose proof (open_transaction_contained now (mkConn d None fs)) as Hc.
  unfold contained_at in Hc. change (clean (mkConn d None fs)) with (at_file d) in Hc.
  destruct (with_transaction _ (mkConn d None fs)) as [r c'].
  unfold settle, with_disk, clean in Hc. simpl in Hc.
  destruct (open_transaction_clean now d Ha) as [(d' & E & Ht)|[E _]]; rewrite E in Hc; simpl in Hc;
    destruct Hc as [_ [[-> E1]|[-> [E1|E1]]]]; apply (f_equal disk) in E1; simpl in E1; subst; auto.
Qed.

(** The checks of [initialize] before it touches the file, with any failures. *)
Definition opening_checks : FileM unit := file_query (fun _ => tt);; validate_schema_for_open.

Lemma opening_checks_outcome c :
  txn c = None ->
  let '(r, c') := opening_checks c in
  disk c' = disk c /\ txn c' = None /\
  (r = result_guard (acceptable (disk c)) Storage \/ r = Err Storage).
Proof.
  intros Hi. assert (Ho : observes opening_checks) by (unfold opening_checks; contain).
  destruct (Ho c) as (Hd & Ht & Hc). unfold contained_at in Hc.
  assert (clean c = at_file (disk c)) as Ecl by (destruct c; simpl in *; by subst).
  assert (Erun : opening_checks (at_file (disk c)) =
    (result_guard (acceptable (disk c)) Storage, at_file (disk c))).
  { unfold opening_checks. rewrite run_file_query by done. by rewrite run_validate_open. }
  rewrite Ecl, Erun in Hc. destruct (opening_checks c) as [r c']. simpl in Hd, Ht.
  split; [done|]. split; [congruence|]. destruct Hc as [_ [[-> _]|[-> _]]]; auto.
Qed.

(** Its second half: the journal mode, then the transaction. *)
Definition opening_writes (now : Z) : FileM (list string) :=
  storage_settings;; with_transaction (open_transaction now);; mret [].

Lemma opening_writes_outcome now d fs :
  acceptable d = true ->
  let '(r, c') := opening_writes now (mkConn d None fs) in
  r = Ok [] /\ init_tx now (rollback_file d) (disk c') \/
  r = Err Storage /\
    (disk c' = d \/ disk c' = rollback_file d \/ init_tx now (rollback_file d) (disk c')).
Proof.
  intros Ha. unfold opening_writes.
  assert (Hs : forall g : unit -> FileM (list string), (storage_settings ≫= g) (mkConn d None fs) =
    match default IoOk (head fs) with
    | IoOk => g tt (mkConn (rollback_file d) None (tail fs))
    | IoErr => (Err Storage, mkConn d None (tail fs))
    | IoLost => (Err Storage, mkConn (rollback_file d) None (tail fs))
    end) by (intros g; by destruct fs as [|[] fs]).
  rewrite Hs. destruct (default IoOk (head fs)); [|by auto..].
  pose proof (open_transaction_outcome now (rollback_file d) (tail fs) Ha) as Ho.
  unfold mbind, SM_bind. destruct (with_transaction _ _) as [r c'].
  destruct Ho as [[-> H]|[-> [H|H]]]; simpl; auto.
Qed.

(** [initialize] with any failures. *)
Lemma initialize_outcome now c :
  txn c = None ->
  let '(r, c') := initialize now c in
  r = Ok [] /\ init_tx now (rollback_file (disk c)) (disk c') \/
  r = Err Storage /\
    (disk c' = disk c \/ acceptable (disk c) = true /\
       (disk c' = rollback_file (disk c) \/ init_tx now (rollback_file (disk c)) (disk c'))).
Proof.
  intros Hi. pose proof (opening_checks_outcome c Hi) as Hc.
  assert (E : initialize now c = match opening_checks c with
    | (Ok _, c1) => opening_writes now c1
    | (Err e, c1) => (Err e, c1)
    end).
  { unfold initialize, opening_checks. unfold mbind at 1, SM_bind at 1. symmetry.
    unfold mbind at 1, SM_bind at 1. symmetry.
    by destruct (file_query (fun _ => tt) c) as [[[]|e] c1]. }
  rewrite E. destruct (opening_checks c) as [r c1]. destruct Hc as (Hd & Ht & Hr).
  destruct r as [[]|e]; [|right; split; [|by left]].
  - destruct Hr as [Hr|[=]]. destruct (acceptable (disk c)) eqn:Ha; [|done].
    destruct c1 as [d t fs]. simpl in Hd, Ht. subst d t.
    pose proof (opening_writes_outcome now (disk c) fs Ha) as Ho.
    destruct (opening_writes now _) as [r c']. naive_solver.
  - by destruct (acceptable (disk c)), Hr as [[= ->]|[= ->]].
Qed.

(** [open_at] past its preflight, with any failures: what [SQLite] recovers first, then
    [initialize]. *)
Lemma open_at_outcome fs utf8 p readonly recover now c :
  txn c = None -> preflight_existing_database fs utf8 p readonly = Ok tt ->
  let '(r, c') := open_at fs utf8 p readonly recover now c in
  let d := recover (disk c) in
  r = Ok [] /\ init_tx now (rollback_file d) (disk c') \/
  r = Err Storage /\
    (disk c' = disk c \/ disk c' = d \/ acceptable d = true /\
       (disk c' = rollback_file d \/ init_tx now (rollback_file d) (disk c'))).
Proof.
  intros Hi Hp. destruct c as [d t fl]. simpl in Hi. subst t. unfold open_at. rewrite Hp.
  assert (Hs : forall g : unit -> FileM (list string),
    (sm_lift (Ok tt) ≫= fun _ => autocommit (fun d => Some (tt, recover d)) ≫= g) (mkConn d None fl) =
    match default IoOk (head fl) with
    | IoOk => g tt (mkConn (recover d) None (tail fl))
    | IoErr => (Err Storage, mkConn d None (tail fl))
    | IoLost => (Err Storage, mkConn (recover d) None (tail fl))
    end) by (intros g; by destruct fl as [|[] fl]).
  rewrite Hs. destruct (default IoOk (head fl)); [|by auto..].
  pose proof (initialize_outcome now (mkConn (recover d) None (tail fl)) eq_refl) as Ho.
  destruct (initialize now _) as [r c']. simpl in Ho. naive_solver.
Qed.

Lemma open_at_clean fs utf8 p readonly recover now d :
  preflight_existing_database fs utf8 p readonly = Ok tt ->
  open_at fs utf8 p readonly recover now (at_file d) = initialize now (at_file (recover d)).
Proof. intros Hp. unfold open_at. by rewrite Hp. Qed.

(** C34. Opening a relay database accepts exactly the acceptable ones and migrates them
    atomically. What the code sees is the file [SQLite] presents after its own recovery, which
    can rewrite it before any check. That file is acceptable when it has an empty, legacy or
    current schema at a matching version and is intact. Without failures, [open_at] succeeds
    once the preflight has passed, the file is acceptable and the clock fits; and whatever
    calls into [SQLite] fail, on success the file was acceptable and is now at version two with
    exactly the current schema, in rollback-journal mode, with the previous rows swept at [now],
    except that the messages of a legacy database are dropped. On failure it is as it was, or as
    recovery left it, possibly in rollback-journal mode, or exactly that result. A file that is
    not acceptable is always refused, and then nothing but recovery has touched it. *)
Theorem open_migrates_atomically fs utf8 p readonly recover now c :
  txn c = None -> preflight_existing_database fs utf8 p readonly = Ok tt ->
  let '(r, c') := open_at fs utf8 p readonly recover now c in
  let d := recover (disk c) in
  (match r with
   | Ok ev => ev = [] /\ acceptable d = true /\ init_tx now (rollback_file d) (disk c')
   | Err e => e = Storage /\
       (disk c' = disk c \/ disk c' = d \/ disk c' = rollback_file d \/
        init_tx now (rollback_file d) (disk c'))
   end) /\
  (acceptable d = false -> r = Err Storage /\ (disk c' = disk c \/ disk c' = d)) /\
  (faults c = [] -> acceptable d = true -> now <= I64_MAX -> r = Ok []).
Proof.
  intros Hi Hp. pose proof (open_at_outcome fs utf8 p readonly recover now c Hi Hp) as Ho.
  assert (Hall : faults c = [] -> acceptable (recover (disk c)) = true -> now <= I64_MAX ->
    fst (open_at fs utf8 p readonly recover now c) = Ok []).
  { intros Hf Ha Hn. replace c with (at_file (disk c)) by (destruct c; simpl in *; by subst).
    rewrite open_at_clean by done. simpl (disk (at_file _)).
    destruct (initialize_clean now (recover (disk c))) as [(d' & -> & _)|(d' & _ & [?|?])];
      [done|congruence|lia]. }
  destruct (open_at fs utf8 p readonly recover now c) as [r c']. simpl in Hall.
  destruct Ho as [[-> Ht]|[-> Hd]].
  - split; [|split]; [|intros Ha; destruct Ht as [Ha' _]|done].
    + split; [done|]. split; [apply Ht|done].
    + exfalso. rewrite (Ha : acceptable (rollback_file (recover (disk c))) = false) in Ha'. done.
  - split; [|split; [|done]].
    + split; [done|]. naive_solver.
    + intros Ha. split; [done|]. naive_solver congruence.
Qed.

(** Opening again only sweeps: a file a successful open left is acceptable at once, and a
    second open without failures keeps its schema, version and rows, up to rows that expired in
    between. *)
Theorem reopening_only_sweeps now now' d d' :
  init_tx now d d' -> now <= now' <= I64_MAX ->
  exists d'', initialize now' (at_file d') = (Ok [], at_file d'') /\
    rf_version d'' = rf_version d' /\ manifest_of_view (rf_view d'') = manifest_of_view (rf_view d') /\
    rf_rows d'' = sweep now' (rf_rows d').
Proof.
  intros (Ha & Hn & d1 & [Hv Hm [Hf Hk] Hr _] & ->) Hnow.
  pose proof (kind_current _ Hm) as Hkind.
  assert (Hacc : acceptable (swept_file now d1) = true).
  { unfold acceptable. simpl. by rewrite Hkind, Hv, Hf, Hk. }
  destruct (initialize_clean now' (swept_file now d1)) as [(d2 & E & _ & _ & d3 & Hmi & ->)|(d2 & _ & [?|?])];
    [|congruence|lia].
  exists (swept_file now' d3). split; [done|]. destruct Hmi as [Hv3 Hm3 _ Hr3 _]. simpl.
  split; [congruence|]. split; [congruence|]. rewrite Hr3. unfold kept_rows. simpl.
  by rewrite Hkind.
Qed.

(** A validation that succeeds, failures or not, has seen an acceptable database. *)
Lemma validate_open_ok c u :
  txn c = None -> fst (validate_schema_for_open c) = Ok u -> acceptable (disk c) = true.
Proof.
  intros Hi Hok. destruct (observes_validate_open c) as (_ & _ & Hc).
  unfold contained_at in Hc.
  assert (clean c = at_file (disk c)) as Ecl by (destruct c; simpl in *; by subst).
  rewrite Ecl, (run_validate_open (at_file (disk c))) in Hc by done.
  change (current (at_file (disk c))) with (disk c) in Hc.
  destruct (validate_schema_for_open c) as [r c']. simpl in Hok. subst r.
  destruct (acceptable (disk c)); [done|]. by destruct Hc as [_ [[[=] _]|[[=] _]]].
Qed.

(** A validation without failures accepts exactly the acceptable databases. *)
Lemma validate_open_exact c :
  txn c = None -> faults c = [] ->
  fst (validate_schema_for_open c) = result_guard (acceptable (disk c)) Storage.
Proof.
  intros Hi Hf. rewrite run_validate_open by done. simpl. unfold current. by rewrite Hi.
Qed.

(** What the preflight lets through: a path without a database (whatever lies beside it), or a
    regular file without an anomalous WAL that is empty, has a recovery companion, or whose
    read-only image, opened at exactly this path, is acceptable. *)
Definition admitted (fs : FileSystem) (utf8 : bool) (p : path)
    (readonly : list byte -> option (Connection RelayFile)) : Prop :=
  match fs_metadata fs p with
  | FsNotFound => True
  | FsError => False
  | FsOk md => md_is_file md = true /\ reject_anomalous_wal fs p = Ok tt /\
      (md_len md = 0 \/
       has_nonempty_recovery_companion fs p = Ok true \/
       has_nonempty_recovery_companion fs p = Ok false /\
       exists uri image, immutable_uri utf8 p = Ok uri /\ readonly uri = Some image /\
         acceptable (disk image) = true)
  end.

(** C36. The preflight decides before the database is opened for writing, and decides exactly.
    If it refuses, [open_at] fails and the file is untouched, by [SQLite]'s recovery too. What it
    lets through is [admitted]: a path at which there is no database, with no check of any
    companion; or a regular file beside which there is no anomalous WAL, and which is of length
    zero, or has a non-empty recovery companion (then the image is checked only after recovery),
    or has a read-only image at exactly this path that is acceptable. When reading the image
    meets no failure, everything admitted is let through. *)
Theorem preflight_guards_open fs utf8 p readonly :
  (forall uri image, readonly uri = Some image -> txn image = None) ->
  (preflight_existing_database fs utf8 p readonly = Ok tt -> admitted fs utf8 p readonly) /\
  ((forall uri image, readonly uri = Some image -> faults image = []) ->
   admitted fs utf8 p readonly -> preflight_existing_database fs utf8 p readonly = Ok tt) /\
  forall e, preflight_existing_database fs utf8 p readonly = Err e ->
    forall recover now c, open_at fs utf8 p readonly recover now c = (Err e, c).
Proof.
  intros Hro. unfold admitted. split; [|split].
  - unfold preflight_existing_database. destruct (fs_metadata fs p) as [md| |]; [|done|done].
    destruct (md_is_file md); [|done]. simpl. destruct (Z.eqb_spec (md_len md) 0) as [Hz|Hz]; [auto|].
    intros E. inv_ok E. destruct v. split; [done|]. split; [done|]. right.
    destruct v0; [by left|]. right. split; [done|]. inv_ok E.
    apply validate_open_ok in E; eauto 6.
  - intros Hf. unfold preflight_existing_database. destruct (fs_metadata fs p) as [md| |]; [|done|done].
    intros (-> & Hw & H). simpl. destruct (Z.eqb_spec (md_len md) 0) as [Hz|Hz]; [done|].
    rewrite Hw. cbn [mbind result_bind]. destruct H as [?|[->|(-> & uri & image & Hu & Hi & Ha)]]; [done|done|].
    cbn [mbind result_bind]. rewrite Hu. cbn [mbind result_bind]. rewrite Hi. cbn [mbind result_bind ok_or].
    by rewrite validate_open_exact, Ha by eauto.
  - intros e E recover now c. unfold open_at, mbind, SM_bind, sm_lift. by rewrite E.
Qed.

End SchemaFacts.
