(* ===== verification/RelayOpening.v ===== *)
(** * Several processes open one database

    [Relay::initialize] validates the schema when it has just connected, and again inside the
    transaction that migrates it: between the two another process may have migrated the file and
    served requests on it. Here any number of processes open the same file, use their handles and
    die. What the checks outside the transaction answer is left open, so that every interleaving
    of their queries with the commits of other processes is covered. A process that has passed
    them sets the journal mode, which converts a WAL-mode file unless another connection is in the
    way ([converts]); a write transaction is one
    step, because it holds the file's lock from [BEGIN IMMEDIATE] to its end ([RelayConcurrent]
    has the lock as a step of its own). A process death inside a transaction is a connection whose
    calls fail from there on. *)

From S2P Require Import Prelude Core Capability Sqlite RelayDb Relay.
From S2P Require Import RelayFacts RelayTx RelayInv RelayTrace ToyCrypto RelayTheorems.
From S2P Require Import RelayDelivery RelayRetry RelayConcurrent Companion Schema.

#[local] Open Scope Z_scope.

Section Opening.
Context `{Crypto : CryptoOps} `{Ddl : DdlOps} {Laws : DdlLaws}.

(** ** Processes *)

Inductive Stage : Type :=
  | Closed
  | Checked (now : Z) (fs : list io)   (** about to begin the transaction of [initialize] *)
  | Serving (events : list string).    (** holds a [Relay] *)

Record Host : Type := mkHost {
  host_file : RelayFile;
  stages : gmap nat Stage;
}.

Inductive HostEvent : Type :=
  | Validated (i : nat)
  | Refused (i : nat)
  | Initialized (i : nat) (now : Z) (r : Result unit)
  | Served (i : nat) (k : Call) (r : Result Reply)
  | Ended (i : nat).

Inductive HostAction : Type :=
  | DoValidate (i : nat) (now : Z) (converts : bool) (fs : list io)
  | DoRefuse (i : nat)
  | DoInitialize (i : nat)
  | DoServe (i : nat) (k : Call)
  | DoEnd (i : nat).

Definition with_rows (db : RelayDb) (d : RelayFile) : RelayFile :=
  mkRelayFile (rf_version d) (rf_view d) (rf_foreign_key_problem d) (rf_integrity d) db
    (rf_wal d).

Definition set_stage (i : nat) (st : Stage) (h : Host) : Host :=
  mkHost (host_file h) (<[i := st]> (stages h)).

(** What happens when a process gets its turn. A process whose open is refused, by a check or
    because the lock is taken, has no handle; neither has one whose transaction failed. *)
Definition host_act (a : HostAction) (h : Host) : option (HostEvent * Host) :=
  match a with
  | DoValidate i now converts fs =>
      match stages h !! i with
      | Some Closed =>
          let d := if converts : bool then rollback_file (host_file h) else host_file h in
          Some (Validated i, mkHost d (<[i := Checked now fs]> (stages h)))
      | _ => None
      end
  | DoRefuse i =>
      match stages h !! i with
      | Some Closed | Some (Checked _ _) => Some (Refused i, set_stage i Closed h)
      | _ => None
      end
  | DoInitialize i =>
      match stages h !! i with
      | Some (Checked now fs) =>
          let '(r, c) := with_transaction (open_transaction now) (mkConn (host_file h) None fs) in
          let st := match r with Ok _ => Serving [] | Err _ => Closed end in
          Some (Initialized i now r, mkHost (disk c) (<[i := st]> (stages h)))
      | _ => None
      end
  | DoServe i k =>
      match stages h !! i with
      | Some (Serving ev) =>
          let '(r, s) := perform k (at_rest (rf_rows (host_file h)) ev) in
          Some (Served i k r,
                mkHost (with_rows (disk (connection s)) (host_file h))
                  (<[i := Serving (audit_events s)]> (stages h)))
      | _ => None
      end
  | DoEnd i =>
      match stages h !! i with
      | Some _ => Some (Ended i, set_stage i Closed h)
      | None => None
      end
  end.

Fixpoint host_run (acts : list HostAction) (h : Host) : option (list HostEvent * Host) :=
  match acts with
  | [] => Some ([], h)
  | a :: acts =>
      '(e, h1) ← host_act a h;
      '(es, h2) ← host_run acts h1;
      Some (e :: es, h2)
  end.

(** ** What took effect *)

(** The served calls with their replies, an [initialize] counting as a sweep. One that failed
    counts too when its commit took effect all the same. *)
Inductive effects : list HostEvent -> list (Call * Result Reply) -> Prop :=
  | eff_nil : effects [] []
  | eff_initialized i now r n es krs :
      effects es krs ->
      effects (Initialized i now r :: es) ((mkCall PurgeExpired now [], Ok (Purged n)) :: krs)
  | eff_failed i now e es krs :
      effects es krs -> effects (Initialized i now (Err e) :: es) krs
  | eff_served i k r es krs :
      effects es krs -> effects (Served i k r :: es) ((k, r) :: krs)
  | eff_validated i es krs : effects es krs -> effects (Validated i :: es) krs
  | eff_refused i es krs : effects es krs -> effects (Refused i :: es) krs
  | eff_ended i es krs : effects es krs -> effects (Ended i :: es) krs.

(** No handle was obtained and nothing was served. *)
Definition unopened (e : HostEvent) : Prop :=
  match e with
  | Initialized _ _ (Ok _) | Served _ _ _ => False
  | _ => True
  end.

(** A file of the current version and schema, intact. *)
Record up_to_date (d : RelayFile) : Prop := {
  ud_version : rf_version d = 2;
  ud_view : manifest_of_view (rf_view d) = Some current_manifest;
  ud_intact : rf_foreign_key_problem d = false /\ rf_integrity d = ["ok"%string];
}.

Lemma init_tx_up_to_date now d d' :
  init_tx now d d' -> up_to_date d' /\ rf_rows d' = sweep now (kept_rows d) /\ now <= I64_MAX.
Proof. intros (_ & Hn & d1 & [Hv Hm Hi <- _] & ->). by repeat split; try apply Hi. Qed.

Lemma up_to_date_keeps d : up_to_date d -> kept_rows d = rf_rows d.
Proof. intros [_ Hm _]. unfold kept_rows. by rewrite (kind_current _ Hm). Qed.

(** The transaction of [initialize], whatever fails. *)
Lemma open_transaction_effect now d fs r c :
  with_transaction (open_transaction now) (mkConn d None fs) = (r, c) ->
  init_tx now d (disk c) \/ (exists e, r = Err e) /\ disk c = d.
Proof.
  intros E. pose proof (open_transaction_contained now (mkConn d None fs)) as Hc.
  unfold contained_at in Hc. rewrite E in Hc. change (clean (mkConn d None fs)) with (at_file d) in Hc.
  destruct (acceptable d) eqn:Ha; [destruct (open_transaction_clean now d Ha) as [(d' & E' & Ht)|[E' _]]|
    pose proof (open_transaction_refuses now d Ha) as E']; rewrite E' in Hc;
    destruct Hc as [_ [[-> E1]|[-> [E1|E1]]]]; apply (f_equal disk) in E1; simpl in E1; subst; eauto.
Qed.

(** A sweep of the rows is a call of [purge_expired]. *)
Lemma sweep_performs now d w :
  now <= I64_MAX -> idle w -> disk (connection w) = d ->
  exists n w', perform (mkCall PurgeExpired now []) w = (Ok (Purged n), w') /\ idle w' /\
    disk (connection w') = sweep now d.
Proof.
  intros Hn Hi <-. rewrite perform_clean by done. cbn [tx]. unfold purge_tx, to_i64.
  rewrite decide_True by done. simpl. by eexists _, _.
Qed.

(** Replies and effect do not depend on the audit trail of the handle. *)
Lemma perform_blind k db ev w r s :
  perform k (at_rest db ev) = (r, s) -> idle w -> disk (connection w) = db ->
  exists w', perform k w = (r, w') /\ idle w' /\ disk (connection w') = disk (connection s).
Proof.
  intros E Hi <-. destruct w as [[d t fs] ev']. unfold idle in Hi. simpl in Hi. subst t.
  unfold perform, load in *. simpl in *. set (c := mkConn d None (call_faults k)) in *.
  change (exec (call_command k) (call_now k) (mkRelay c ev) = (r, s)) in E.
  change (set_conn c _) with (mkRelay c ev').
  pose proof (exec_rests (call_command k) (call_now k) (mkRelay c ev') eq_refl) as Hr.
  assert (Hb : audit_blind (exec (call_command k) (call_now k))).
  { intros c0 e1 e2. rewrite !exec_phases. destruct (precheck _ _); [|done].
    apply blind_transaction, transaction_blind. }
  destruct (Hb c ev ev') as [Hf Hc]. rewrite E in Hf, Hc.
  destruct (exec _ _ (mkRelay c ev')) as [r' w']. simpl in *. subst r'.
  exists w'. split; [done|]. split; [apply Hr|]. by rewrite Hc.
Qed.

(** ** From a file that is up to date *)

Lemma host_act_up_to_date a h e h' w :
  up_to_date (host_file h) -> host_act a h = Some (e, h') ->
  idle w -> disk (connection w) = rf_rows (host_file h) ->
  exists krs w', (forall es l, effects es l -> effects (e :: es) (krs ++ l)) /\
    run (fst <$> krs) w = (snd <$> krs, w') /\ idle w' /\
    disk (connection w') = rf_rows (host_file h') /\ up_to_date (host_file h').
Proof.
  intros Hu Ha Hi Hw. destruct a as [i now converts fs|i|i|i k|i]; simpl in Ha;
    destruct (stages h !! i) as [[|now' fs'|ev]|]; simplify_eq;
    try (exists [], w; split; [by constructor|done]).
  - exists [], w. split; [by constructor|]. destruct converts; [|done].
    repeat split; try done; apply Hu.
  - destruct (with_transaction _ _) as [r c] eqn:E. injection Ha as <- <-.
    destruct (open_transaction_effect _ _ _ _ _ E) as [Ht|[[e ->] Hd]].
    + destruct (init_tx_up_to_date _ _ _ Ht) as (Hu' & Hr & Hn). rewrite up_to_date_keeps in Hr by done.
      destruct (sweep_performs now' _ w Hn Hi Hw) as (n & w' & Hp & Hi' & Hd').
      exists [(mkCall PurgeExpired now' [], Ok (Purged n))], w'. split; [by constructor|].
      cbn [fmap list_fmap fst snd run]. rewrite Hp. split; [done|]. split; [done|].
      split; [|done]. simpl. congruence.
    + exists [], w. split; [by constructor|]. simpl. by rewrite Hd.
  - destruct (perform k _) as [r s] eqn:E. injection Ha as <- <-.
    destruct (perform_blind _ _ _ w _ _ E Hi Hw) as (w' & Hp & Hi' & Hd').
    exists [(k, r)], w'. split; [by constructor|]. cbn [fmap list_fmap fst snd run]. rewrite Hp.
    split; [done|]. split; [done|]. split; [done|]. by destruct Hu.
Qed.

Lemma run_app_replies ks1 ks2 s :
  run (ks1 ++ ks2) s =
    let '(rs1, s1) := run ks1 s in let '(rs2, s2) := run ks2 s1 in (rs1 ++ rs2, s2).
Proof.
  revert s. induction ks1 as [|k ks1 IH]; intros s; simpl; [by destruct (run ks2 s)|].
  destruct (perform k s) as [r s1]. rewrite IH. destruct (run ks1 s1) as [rs s2].
  by destruct (run ks2 s2).
Qed.

Lemma host_run_up_to_date acts : forall h es h' w,
  up_to_date (host_file h) -> host_run acts h = Some (es, h') ->
  idle w -> disk (connection w) = rf_rows (host_file h) ->
  exists krs w', effects es krs /\ run (fst <$> krs) w = (snd <$> krs, w') /\
    disk (connection w') = rf_rows (host_file h') /\ up_to_date (host_file h').
Proof.
  induction acts as [|a acts IH]; intros h es h' w Hu Hr Hi Hw; simpl in Hr.
  { injection Hr as <- <-. exists [], w. split; [constructor|done]. }
  destruct (host_act a h) as [[e h1]|] eqn:Ea; [|done]. simpl in Hr.
  destruct (host_run acts h1) as [[es1 h2]|] eqn:Er; [|done]. injection Hr as <- <-.
  destruct (host_act_up_to_date _ _ _ _ w Hu Ea Hi Hw) as (l1 & w1 & He & R1 & Hi1 & Hw1 & Hu1).
  destruct (IH h1 es1 h2 w1) as (l2 & w2 & He2 & R2 & Hw2 & Hu2); [done..|].
  exists (l1 ++ l2), w2. rewrite !fmap_app, run_app_replies, R1, R2. auto.
Qed.

(** ** From any file *)

Definition nobody_serves (h : Host) : Prop := forall i ev, stages h !! i <> Some (Serving ev).

Lemma nobody_serves_insert i st h d :
  nobody_serves h -> (forall ev, st <> Serving ev) -> nobody_serves (mkHost d (<[i := st]> (stages h))).
Proof.
  intros Hn Hst j ev H. simpl in H. apply lookup_insert_Some in H as [[_ H]|[_ H]];
    [by eapply Hst|by eapply Hn].
Qed.

(** The same contents, possibly in rollback-journal mode. *)
Definition same_contents (d d' : RelayFile) : Prop := d' = d \/ d' = rollback_file d.

Lemma same_contents_trans d1 d2 d3 : same_contents d1 d2 -> same_contents d2 d3 -> same_contents d1 d3.
Proof. unfold same_contents. intros [->| ->] [->| ->]; auto. Qed.

Lemma same_contents_view d d' :
  same_contents d d' -> acceptable d' = acceptable d /\ kept_rows d' = kept_rows d.
Proof. by intros [->| ->]. Qed.

(** Until the first transaction takes effect nothing does. *)
Lemma host_act_unopened a h e h' :
  nobody_serves h -> host_act a h = Some (e, h') ->
  unopened e /\ same_contents (host_file h) (host_file h') /\ nobody_serves h' \/
  exists i now r, e = Initialized i now r /\ init_tx now (host_file h) (host_file h').
Proof.
  intros Hn Ha. destruct a as [i now converts fs|i|i|i k|i]; simpl in Ha;
    destruct (stages h !! i) as [[|now' fs'|ev]|] eqn:Ei; simplify_eq;
    try (by eapply Hn in Ei);
    try (left; split; [done|]; split; [by left|]; by apply nobody_serves_insert).
  { left. split; [done|]. split; [by destruct converts; [right|left]|by apply nobody_serves_insert]. }
  destruct (with_transaction _ _) as [r c] eqn:E. injection Ha as <- <-.
  destruct (open_transaction_effect _ _ _ _ _ E) as [Ht|[[e ->] Hd]]; [right; eauto|].
  left. split; [done|]. split; [by left|]. by apply nobody_serves_insert.
Qed.

(** C35. Processes that open one database at the same time migrate it once. Any number of them
    validate, open, serve calls and die in any order, with lock timeouts and storage failures.
    Until the first opening transaction takes effect the file's contents are as they were (a
    WAL-mode file may have been converted to a rollback journal), no process has a handle and
    nothing is served. That transaction migrates the file: it is at version two with
    exactly the current schema from then on, and its rows are the previous ones swept at that
    moment, without the messages of a legacy database. Everything later acts as a sequence of
    calls of one relay on those rows, where opening again, even by a process that validated the
    schema before the migration, is a sweep of expired rows and nothing else: no message stored
    by a process that was faster is lost. *)
Theorem concurrent_opens_migrate_once acts h es h' :
  (forall i ev, stages h !! i <> Some (Serving ev)) ->
  host_run acts h = Some (es, h') ->
  Forall unopened es /\ same_contents (host_file h) (host_file h') \/
  exists before i now r after krs,
    es = before ++ Initialized i now r :: after /\ Forall unopened before /\
    acceptable (host_file h) = true /\ up_to_date (host_file h') /\ effects after krs /\
    let '(rs, s) := run (fst <$> krs) (at_rest (sweep now (kept_rows (host_file h))) []) in
    rs = snd <$> krs /\ disk (connection s) = rf_rows (host_file h').
Proof.
  revert h es. induction acts as [|a acts IH]; intros h es Hn Hr; simpl in Hr.
  { injection Hr as <- <-. left. split; [constructor|by left]. }
  destruct (host_act a h) as [[e h1]|] eqn:Ea; [|done]. simpl in Hr.
  destruct (host_run acts h1) as [[es1 h2]|] eqn:Er; [|done]. injection Hr as <- <-.
  destruct (host_act_unopened _ _ _ _ Hn Ea) as [(He & Hf & Hn1)|(i & now & r & -> & Ht)].
  - destruct (IH h1 es1 Hn1 Er) as [[Hu Hd]|(before & i & now & r & after & krs & -> & Hb & H)].
    + left. split; [by constructor|by eapply same_contents_trans].
    + right. exists (e :: before), i, now, r, after, krs.
      destruct (same_contents_view _ _ Hf) as [<- <-]. split; [done|].
      split; [by constructor|done].
  - right. destruct (init_tx_up_to_date _ _ _ Ht) as (Hu & Hrows & _).
    destruct (host_run_up_to_date acts h1 es1 h2
      (at_rest (sweep now (kept_rows (host_file h))) [])) as (krs & w & Hk & R & Hw & Hu2); [done..|].
    exists [], i, now, r, es1, krs. rewrite R. destruct Ht as [Ha _]. by repeat split; try apply Hu2.
Qed.

End Opening.
