(* ===== verification/SchemaTests.v ===== *)
(** * The schema upgrade tests: [tests/relay_schema_upgrade.rs]

    What the tests assert of opening a database file, for every [SQLite] that meets [DdlLaws]: the
    fixtures are parameterized by what its introspection reports of the tables they create. A
    directory is a list of files; the database is opened with nothing else going on, so that its
    read-only image is the database itself. [SQLite]'s own recovery is a parameter: the tests with
    hot journals and live WAL files are stated for every recovery with the outcome their fixtures
    produce. Left out are the assertions on raw bytes and on the fate of the companion files. *)

From S2P Require Import Prelude Core Capability Sqlite RelayDb Relay.
From S2P Require Import RelayFacts RelayTx RelayInv RelayTrace RelayTheorems Companion Schema.

#[local] Open Scope string_scope.
#[local] Open Scope Z_scope.

Definition NOW : Z := 1800000000.

(** ** Directories *)

Definition lookup_file (files : list (path * list byte)) (p : path) : option (list byte) :=
  snd <$> (snd <$> list_find (fun f => f.1 = p) files).

Definition directory (files : list (path * list byte)) : FileSystem :=
  mkFs (fun p => Some p)
    (fun p => match lookup_file files p with
              | Some bytes => FsOk (mkMetadata true (Z.of_nat (length bytes)))
              | None => FsNotFound
              end)
    (fun p => (fun bytes => mkFile bytes false) <$> lookup_file files p).

(** The bytes of a database in rollback-journal mode: bytes 18 and 19 of the header are one. *)
Definition rollback_database (rest : list byte) : list byte :=
  SQLITE_MAGIC ++ [x10; x00; x01; x01] ++ rest.

Section SchemaTests.
Context `{Crypto : CryptoOps} `{Ddl : DdlOps} {Laws : DdlLaws}.
Context (p : path) (rest : list byte).

Definition alone : FileSystem := directory [(p, rollback_database rest)].
Definition beside_wal (wal : list byte) : FileSystem :=
  directory [(p, rollback_database rest); (p ++ bstr "-wal", wal)]%list.

(** [Relay::open_at(&database, NOW)], and the file afterwards; [recover] is [SQLite]'s recovery. *)
Definition recover_and_open (recover : RelayFile -> RelayFile) (fs : FileSystem) (d : RelayFile) :
    Result Relay * RelayFile :=
  let '(r, c) := open_at fs true p (fun _ => Some (at_file d)) recover NOW (at_file d) in
  (match r with
   | Ok events => Ok (at_rest (rf_rows (disk c)) events)
   | Err e => Err e
   end, disk c).

(** With nothing to recover. *)
Definition open_database : FileSystem -> RelayFile -> Result Relay * RelayFile := recover_and_open id.

Definition with_version (n : Z) (d : RelayFile) : RelayFile :=
  mkRelayFile n (rf_view d) (rf_foreign_key_problem d) (rf_integrity d) (rf_rows d)
    (rf_wal d).

(** ** Fixtures *)

(** One mailbox, one message without signature, one tombstone and one retired queue. *)
Definition create_legacy_database (v : View) (queue_id legacy_message_id tombstone_message_id
    legacy_ciphertext : list byte) : RelayFile :=
  mkRelayFile 0 v false ["ok"]
    (mkDb {[ queue_id := mkMailbox (replicate 32 x44) (replicate 32 x55) (replicate 32 x66) NOW ]}
       [mkMessage queue_id legacy_message_id legacy_ciphertext (NOW + 60) []]
       {[ (queue_id, tombstone_message_id) := NOW + 60 ]} ∅ ∅ {[ replicate 32 x77 := NOW ]}) false.

Definition create_current_database_with_messages (v : View) (rows : RelayDb) : RelayFile :=
  mkRelayFile 2 v false ["ok"] rows false.

Definition queue_id : list byte := replicate 32 x11.
Definition legacy_database (v : View) : RelayFile :=
  create_legacy_database v queue_id (replicate 16 x22) (replicate 16 x33)
    (bstr "legacy-unverifiable-ciphertext").

(** ** Opening a file in a directory *)

Lemma lookup_wal p' suffix files :
  (0 < length (bstr suffix))%nat ->
  lookup_file [(p', files)] (p' ++ bstr suffix)%list = None.
Proof.
  intros Hs. unfold lookup_file. simpl. rewrite decide_False; [done|].
  intros E. apply (f_equal length) in E. rewrite length_app in E. lia.
Qed.

Lemma alone_preflight d :
  preflight_existing_database alone true p (fun _ => Some (at_file d))
    = result_guard (acceptable d) Storage.
Proof.
  assert (Hmain : lookup_file [(p, rollback_database rest)] p = Some (rollback_database rest)).
  { unfold lookup_file. simpl. by rewrite decide_True. }
  assert (Hno : forall suffix, (0 < length (bstr suffix))%nat -> nonempty_companion alone p suffix = Ok false).
  { intros suffix Hs. unfold nonempty_companion, alone, directory. simpl. by rewrite lookup_wal. }
  unfold preflight_existing_database.
  assert (fs_metadata alone p = FsOk (mkMetadata true (Z.of_nat (length (rollback_database rest)))))
    as -> by (unfold alone, directory; simpl; by rewrite Hmain).
  cbn [md_is_file md_len negb]. rewrite (proj2 (Z.eqb_neq _ 0)) by (simpl; lia).
  unfold reject_anomalous_wal, has_nonempty_recovery_companion. cbn [fs_canonicalize alone directory default].
  fold alone. cbn [mbind result_bind ok_or]. rewrite !Hno by (simpl; lia).
  cbn [mbind result_bind negb]. cbn. rewrite run_validate_open by done. done.
Qed.

(** A file that is not acceptable is refused and left as it is. *)
Lemma open_alone_refuses d : acceptable d = false -> open_database alone d = (Err Storage, d).
Proof.
  intros Ha. unfold open_database, recover_and_open, open_at, mbind, SM_bind, sm_lift. rewrite alone_preflight, Ha. done.
Qed.

Lemma open_alone_accepts d :
  acceptable d = true ->
  exists d', open_database alone d = (Ok (at_rest (rf_rows d') []), d') /\
    init_tx NOW (rollback_file d) d'.
Proof.
  intros Ha. unfold open_database, recover_and_open, open_at.
  destruct (initialize_clean NOW d) as [(d' & E & Ht)|(d' & _ & [?|?])]; [|congruence|unfold NOW, I64_MAX in *; lia].
  exists d'. split; [|done].
  fold (open_at alone true p (fun _ => Some (at_file d)) id NOW).
  rewrite open_at_clean by (by rewrite alone_preflight, Ha). unfold id. by rewrite E.
Qed.

(** A planted WAL is refused before the database is opened. *)
Lemma beside_wal_lookup wal :
  let files := [(p, rollback_database rest); (p ++ bstr "-wal", wal)]%list in
  lookup_file files p = Some (rollback_database rest) /\
  lookup_file files (p ++ bstr "-wal")%list = Some wal.
Proof.
  assert (Hne : p <> (p ++ bstr "-wal")%list).
  { intros E. apply (f_equal length) in E. rewrite length_app in E. simpl in E. lia. }
  unfold lookup_file. simpl. rewrite decide_True by done. split; [done|].
  rewrite decide_False by done. by rewrite decide_True.
Qed.

Lemma open_beside_wal_refuses wal d :
  wal <> [] -> open_database (beside_wal wal) d = (Err Storage, d).
Proof.
  intros Hw. destruct (beside_wal_lookup wal) as [L1 L2]. cbv zeta in L1, L2.
  assert (Hr : reject_anomalous_wal (beside_wal wal) p = Err Storage).
  { unfold reject_anomalous_wal, nonempty_companion, database_header_uses_wal, beside_wal, directory.
    cbn [fs_canonicalize fs_metadata fs_open from_option id]. unfold id. rewrite L2.
    destruct wal; [done|]. cbn [mbind result_bind length negb]. by rewrite L1. }
  unfold open_database, recover_and_open, open_at, mbind at 1, SM_bind at 1, sm_lift, preflight_existing_database.
  assert (fs_metadata (beside_wal wal) p = FsOk (mkMetadata true (Z.of_nat (length (rollback_database rest)))))
    as -> by (unfold beside_wal, directory; cbn [fs_metadata]; by rewrite L1).
  cbn [md_is_file negb]. rewrite Hr. by destruct (_ =? 0).
Qed.

(** ** The tests *)

Lemma kind_unknown v mf :
  manifest_of_view v = Some mf -> mf <> default_manifest -> mf <> legacy_manifest ->
  mf <> current_manifest -> kind_of v = Some Unknown.
Proof.
  intros Hm H1 H2 H3. unfold kind_of. rewrite Hm. simpl. unfold classify_schema.
  by rewrite !bool_decide_false.
Qed.

Lemma kind_legacy v : manifest_of_view v = Some legacy_manifest -> kind_of v = Some Legacy.
Proof.
  intros Hm. unfold kind_of. rewrite Hm. simpl. unfold classify_schema.
  by rewrite bool_decide_false, bool_decide_true by (done || apply legacy_not_empty).
Qed.

Lemma kind_empty : kind_of empty_view = Some Empty.
Proof.
  assert (Hm : manifest_of_view empty_view = Some default_manifest) by reflexivity.
  unfold kind_of. rewrite Hm. simpl. unfold classify_schema. by rewrite bool_decide_true.
Qed.

Theorem upgrade_discards_unverifiable_legacy_messages_and_preserves_relay_state v :
  manifest_of_view v = Some legacy_manifest ->
  exists relay upgraded, open_database alone (legacy_database v) = (Ok relay, upgraded) /\
    (let '(queued, relay1) := queued_message_count_at NOW relay in
     queued = Ok 0%nat /\ fst (tombstone_count relay1) = Ok 1%nat) /\
    rf_version upgraded = 2 /\ manifest_of_view (rf_view upgraded) = Some current_manifest /\
    size (retired_queues (rf_rows upgraded)) = 1%nat.
Proof.
  intros Hv. pose proof (kind_legacy _ Hv) as Hk.
  destruct (open_alone_accepts (legacy_database v)) as (d' & E & _ & _ & d1 & [Hver Hm _ Hrows _] & ->).
  { unfold acceptable. simpl. by rewrite Hk. }
  assert (Hkept : kept_rows (rollback_file (legacy_database v)) = set_messages [] (rf_rows (legacy_database v))).
  { unfold kept_rows. simpl. by rewrite Hk. }
  eexists _, _. split; [exact E|]. cbn [swept_file rf_rows rf_version rf_view].
  rewrite Hrows, Hkept. split; [by vm_compute|]. split; [done|]. split; [done|]. by vm_compute.
Qed.

Theorem future_schema_version_fails_closed rows :
  let future := mkRelayFile 3 empty_view false ["ok"] rows false in
  open_database alone future = (Err Storage, future).
Proof.
  apply open_alone_refuses. unfold acceptable. cbn [rf_view rf_version]. by rewrite kind_empty.
Qed.

Theorem current_schema_version_without_sender_signatures_fails_closed v :
  manifest_of_view v = Some legacy_manifest ->
  let malformed := with_version 2 (legacy_database v) in
  open_database alone malformed = (Err Storage, malformed).
Proof. intros Hv. apply open_alone_refuses. unfold acceptable. simpl. by rewrite kind_legacy. Qed.

(** The tables lack the constraints, so their manifest is none of the known ones. *)
Theorem current_schema_with_sender_signature_but_missing_constraints_fails_closed v mf rows :
  manifest_of_view v = Some mf -> mf <> default_manifest -> mf <> legacy_manifest ->
  mf <> current_manifest ->
  let broken := create_current_database_with_messages v rows in
  open_database alone broken = (Err Storage, broken).
Proof.
  intros. apply open_alone_refuses. unfold acceptable. simpl. by erewrite kind_unknown.
Qed.

(** What an open leaves is at version two with the current schema; a trigger adds an object to the
    manifest. *)
Theorem current_schema_rejects_extra_trigger_and_version_shape_disagreement d v mf trigger :
  rf_version d = 2 -> manifest_of_view (rf_view d) = Some current_manifest ->
  manifest_of_view v = Some mf -> objects mf = trigger :: objects current_manifest ->
  mf <> default_manifest -> mf <> legacy_manifest ->
  let extra := mkRelayFile 2 v (rf_foreign_key_problem d) (rf_integrity d) (rf_rows d) (rf_wal d) in
  open_database alone extra = (Err Storage, extra) /\
  open_database alone (with_version 1 d) = (Err Storage, with_version 1 d).
Proof.
  intros Hver Hm Hv Ho H1 H2. assert (mf <> current_manifest) as H3.
  { intros ->. apply (f_equal length) in Ho. simpl in Ho. lia. }
  split; apply open_alone_refuses; unfold acceptable; simpl.
  - by erewrite kind_unknown.
  - by rewrite kind_current.
Qed.

(** [SQLite] records the same schema for [CREATE TABLE IF NOT EXISTS]. *)
Theorem historical_v2_if_not_exists_shape_remains_compatible v rows :
  manifest_of_view v = Some current_manifest ->
  exists relay d', open_database alone (create_current_database_with_messages v rows) = (Ok relay, d').
Proof.
  intros Hv. destruct (open_alone_accepts (create_current_database_with_messages v rows))
    as (d' & E & _); [|by eauto]. unfold acceptable. simpl. by rewrite kind_current.
Qed.

(** Refused as often as it is tried; without the planted file the victim opens again. *)
Theorem planted_wal_is_refused_without_touching_the_database wal victim :
  wal <> [] -> acceptable victim = true ->
  let attempt d := snd (open_database (beside_wal wal) d) in
  open_database (beside_wal wal) (attempt (attempt victim)) = (Err Storage, victim) /\
  exists relay d', open_database alone (attempt (attempt (attempt victim))) = (Ok relay, d').
Proof.
  intros Hw Ha attempt. assert (Hat : attempt victim = victim)
    by (unfold attempt; by rewrite open_beside_wal_refuses).
  rewrite !Hat. split; [by apply open_beside_wal_refuses|].
  destruct (open_alone_accepts victim Ha) as (d' & E & _). eauto.
Qed.

Theorem malformed_schema_with_wal_artifact_is_rejected_without_target_mutation v rows :
  let d := create_current_database_with_messages v rows in
  open_database (beside_wal (bstr "hostile-wal-artifact")) d = (Err Storage, d).
Proof. by apply open_beside_wal_refuses. Qed.

Theorem integrity_check_rejects_constraint_poison_without_mutation v rows report :
  report <> ["ok"] ->
  let poisoned := mkRelayFile 2 v false report rows false in
  open_database alone poisoned = (Err Storage, poisoned).
Proof.
  intros Hr. apply open_alone_refuses. unfold acceptable. simpl.
  rewrite (bool_decide_false (report = _)) by done. apply andb_false_r.
Qed.

(** ** Recovery *)

(** The bytes of a database in WAL mode. *)
Definition wal_database (rest : list byte) : list byte :=
  SQLITE_MAGIC ++ [x10; x00; x02; x02] ++ rest.

Definition beside_journal (journal : list byte) : FileSystem :=
  directory [(p, rollback_database rest); (p ++ bstr "-journal", journal)]%list.
Definition beside_live_wal (wal : list byte) : FileSystem :=
  directory [(p, wal_database rest); (p ++ bstr "-wal", wal)]%list.

Lemma lookup_pair main suffix bytes :
  (0 < length (bstr suffix))%nat ->
  let files := [(p, main); (p ++ bstr suffix, bytes)]%list in
  lookup_file files p = Some main /\ lookup_file files (p ++ bstr suffix)%list = Some bytes /\
  forall suffix', (0 < length (bstr suffix'))%nat -> bstr suffix' <> bstr suffix ->
    lookup_file files (p ++ bstr suffix')%list = None.
Proof.
  intros Hs. assert (Hne : forall x, (0 < length (bstr x))%nat -> p <> (p ++ bstr x)%list).
  { intros x Hx E. apply (f_equal length) in E. rewrite length_app in E. lia. }
  unfold lookup_file. cbn [list_find]. simpl. rewrite decide_True by done. split; [done|].
  rewrite decide_False, decide_True by auto. split; [done|].
  intros x Hx Hd. rewrite decide_False, decide_False; [done| |by apply Hne].
  intros E. by apply app_inv_head in E.
Qed.

(** A non-empty journal skips the inspection of the image, and so does a live WAL beside a
    WAL-mode header. *)
Lemma journal_preflight journal readonly :
  journal <> [] -> preflight_existing_database (beside_journal journal) true p readonly = Ok tt.
Proof.
  intros Hj. destruct (lookup_pair (rollback_database rest) "-journal" journal) as (L1 & L2 & L3);
    [simpl; lia|]. cbv zeta in *.
  assert (Hw : nonempty_companion (beside_journal journal) p "-wal" = Ok false).
  { unfold nonempty_companion, beside_journal, directory. cbn [fs_metadata]. by rewrite L3 by (simpl; done || lia). }
  assert (Hn : nonempty_companion (beside_journal journal) p "-journal" = Ok true).
  { unfold nonempty_companion, beside_journal, directory. cbn [fs_metadata]. rewrite L2. by destruct journal. }
  unfold preflight_existing_database, reject_anomalous_wal, has_nonempty_recovery_companion.
  assert (fs_metadata (beside_journal journal) p = FsOk (mkMetadata true (Z.of_nat (length (rollback_database rest)))))
    as -> by (unfold beside_journal, directory; cbn [fs_metadata]; by rewrite L1).
  change (fs_canonicalize (beside_journal journal) p) with (Some p). simpl (default _ _).
  rewrite Hw. cbn [mbind result_bind ok_or negb]. rewrite Hn. cbn [md_is_file md_len negb].
  by destruct (_ =? 0).
Qed.

Lemma live_wal_preflight wal readonly :
  wal <> [] -> preflight_existing_database (beside_live_wal wal) true p readonly = Ok tt.
Proof.
  intros Hj. destruct (lookup_pair (wal_database rest) "-wal" wal) as (L1 & L2 & L3);
    [simpl; lia|]. cbv zeta in *.
  assert (Hn : nonempty_companion (beside_live_wal wal) p "-journal" = Ok false).
  { unfold nonempty_companion, beside_live_wal, directory. cbn [fs_metadata]. by rewrite L3 by (simpl; done || lia). }
  assert (Hw : nonempty_companion (beside_live_wal wal) p "-wal" = Ok true).
  { unfold nonempty_companion, beside_live_wal, directory. cbn [fs_metadata]. rewrite L2. by destruct wal. }
  assert (Hh : database_header_uses_wal (beside_live_wal wal) p = Ok true).
  { unfold database_header_uses_wal, beside_live_wal, directory. cbn [fs_open]. by rewrite L1. }
  unfold preflight_existing_database, reject_anomalous_wal, has_nonempty_recovery_companion.
  assert (fs_metadata (beside_live_wal wal) p = FsOk (mkMetadata true (Z.of_nat (length (wal_database rest)))))
    as -> by (unfold beside_live_wal, directory; cbn [fs_metadata]; by rewrite L1).
  change (fs_canonicalize (beside_live_wal wal) p) with (Some p). simpl (default _ _).
  rewrite Hw. cbn [mbind result_bind ok_or negb]. rewrite Hh, Hn. cbn [mbind result_bind].
  rewrite Hw. cbn [mbind result_bind negb md_is_file md_len]. by destruct (_ =? 0).
Qed.

(** Past the preflight, recovery comes first and validation second. *)
Lemma recovered_refused recover fs d :
  preflight_existing_database fs true p (fun _ => Some (at_file d)) = Ok tt ->
  acceptable (recover d) = false -> recover_and_open recover fs d = (Err Storage, recover d).
Proof.
  intros Hp Ha. unfold recover_and_open. rewrite open_at_clean by done.
  unfold initialize. rewrite run_file_query by done.
  rewrite (sm_bind_err _ _ _ Storage (at_file (recover d))); [done|].
  rewrite run_validate_open by done. change (current (at_file (recover d))) with (recover d).
  by rewrite Ha.
Qed.

Lemma recovered_opens recover fs d :
  preflight_existing_database fs true p (fun _ => Some (at_file d)) = Ok tt ->
  acceptable (recover d) = true ->
  exists d', recover_and_open recover fs d = (Ok (at_rest (rf_rows d') []), d') /\
    init_tx NOW (rollback_file (recover d)) d'.
Proof.
  intros Hp Ha. unfold recover_and_open. rewrite open_at_clean by done.
  destruct (initialize_clean NOW (recover d)) as [(d' & -> & Ht)|(d' & _ & [?|?])];
    [by exists d'|congruence|unfold NOW, I64_MAX in *; lia].
Qed.

(** The main database is rewritten before validation rejects it. The journal need not be its own:
    this is also [foreign_journal_is_replayed_into_an_unrelated_database]. *)
Theorem hot_journal_replay_mutates_main_database_before_validation_rejects journal recover torn :
  journal <> [] -> acceptable (recover torn) = false ->
  recover_and_open recover (beside_journal journal) torn = (Err Storage, recover torn).
Proof. intros. apply recovered_refused; [by apply journal_preflight|done]. Qed.

(** An aborted deletion of all messages is undone by its journal. *)
Theorem hot_journal_from_aborted_bulk_delete_recovers_all_current_messages journal recover torn v rows :
  journal <> [] -> manifest_of_view v = Some current_manifest ->
  recover torn = create_current_database_with_messages v rows ->
  exists relay d', recover_and_open recover (beside_journal journal) torn = (Ok relay, d') /\
    rf_rows d' = sweep NOW rows.
Proof.
  intros Hj Hv Hr. destruct (recovered_opens recover (beside_journal journal) torn)
    as (d' & E & _ & _ & d1 & [_ _ _ Hrows _] & ->).
  - by apply journal_preflight.
  - rewrite Hr. unfold acceptable. simpl. by rewrite kind_current.
  - eexists _, _. split; [exact E|]. simpl. rewrite Hrows, Hr. unfold kept_rows. simpl.
    by rewrite kind_current.
Qed.

(** An aborted migration is undone by its journal, and done again. *)
Theorem hot_journal_from_aborted_legacy_migration_recovers_then_migrates journal recover torn v :
  journal <> [] -> manifest_of_view v = Some legacy_manifest -> recover torn = legacy_database v ->
  exists relay d', recover_and_open recover (beside_journal journal) torn = (Ok relay, d') /\
    rf_version d' = 2 /\ manifest_of_view (rf_view d') = Some current_manifest /\
    messages (rf_rows d') = [] /\ size (mailboxes (rf_rows d')) = 1%nat /\
    size (tombstones (rf_rows d')) = 1%nat /\ size (retired_queues (rf_rows d')) = 1%nat.
Proof.
  intros Hj Hv Hr. pose proof (kind_legacy _ Hv) as Hk.
  destruct (recovered_opens recover (beside_journal journal) torn)
    as (d' & E & _ & _ & d1 & [Hver Hm _ Hrows _] & ->).
  - by apply journal_preflight.
  - rewrite Hr. unfold acceptable. simpl. by rewrite Hk.
  - eexists _, _. split; [exact E|]. cbn [swept_file rf_rows rf_version rf_view].
    rewrite Hrows, Hr. unfold kept_rows. cbn [rollback_file rf_view rf_rows legacy_database
      create_legacy_database]. rewrite Hk. split; [done|]. split; [done|]. by vm_compute.
Qed.

(** The committed deletion in the WAL is kept, and the database leaves WAL mode. *)
Theorem wal_mode_database_with_live_wal_opens_and_recovers wal recover d v rows :
  wal <> [] -> manifest_of_view v = Some current_manifest ->
  recover d = mkRelayFile 2 v false ["ok"] (set_messages [] rows) true ->
  exists relay d', recover_and_open recover (beside_live_wal wal) d = (Ok relay, d') /\
    messages (rf_rows d') = [] /\ rf_wal d' = false.
Proof.
  intros Hj Hv Hr. destruct (recovered_opens recover (beside_live_wal wal) d)
    as (d' & E & _ & _ & d1 & [_ _ _ Hrows Hwal] & ->).
  - by apply live_wal_preflight.
  - rewrite Hr. unfold acceptable. simpl. by rewrite kind_current.
  - eexists _, _. split; [exact E|]. simpl. rewrite Hrows, Hwal, Hr. unfold kept_rows. simpl.
    by rewrite kind_current.
Qed.

(** The WAL is checkpointed into the database, which keeps its WAL-mode header. *)
Theorem rejected_wal_open_checkpoints_and_removes_both_companions wal recover d :
  wal <> [] -> acceptable (recover d) = false -> rf_wal (recover d) = true ->
  let '(r, d') := recover_and_open recover (beside_live_wal wal) d in
  r = Err Storage /\ d' = recover d /\ rf_wal d' = true.
Proof.
  intros Hj Ha Hw. rewrite (recovered_refused recover) by (by try apply live_wal_preflight). done.
Qed.

End SchemaTests.
