(* ===== verification/Demo.v ===== *)
(** * The executable proof: [src/main.rs]

    [run_demo] opens a relay and drives it, the capabilities and two clients through one exchange
    in each direction. The clock readings (its own, the one of [Relay::open] and the one of
    [queued_message_count]), the database at the path, and all random draws are arguments. *)

From S2P Require Import Prelude Core Capability Sqlite RelayDb Relay RelayFacts RelayTx Client.
From S2P Require Import Companion Schema.

#[local] Open Scope string_scope.
#[local] Open Scope Z_scope.

Section Demo.
Context `{Lib : CryptoOps} {Olm : OlmOps} `{Ddl : DdlOps}.

Record World : Type := mkWorld {
  relay : Relay;
  alice : OlmClient;
  bob : OlmClient;
}.

Abbreviation DemoM := (SM World LabError).

Definition on_relay {A} (m : SM Relay LabError A) : DemoM A :=
  sm_zoom relay (fun r w => mkWorld r (alice w) (bob w)) m.
Definition on_alice {A} (m : SM OlmClient LabError A) : DemoM A :=
  sm_zoom alice (fun c w => mkWorld (relay w) c (bob w)) m.
Definition on_bob {A} (m : SM OlmClient LabError A) : DemoM A :=
  sm_zoom bob (fun c w => mkWorld (relay w) (alice w) c) m.

(** The values drawn at random, in the order of the code. *)
Record Draws : Type := mkDraws {
  dr_conversation : ConversationId;
  dr_alice_account : Entropy;
  dr_bob_account : Entropy;
  dr_alice_keys : Entropy;
  dr_bob_keys : Entropy;
  dr_alice_inbox : MailboxOwner;
  dr_bob_inbox : MailboxOwner;
  dr_alice_registration : Nonce;
  dr_bob_registration : Nonce;
  dr_outbound : Entropy;
  dr_first_id : MessageId;
  dr_first_encryption : Entropy;
  dr_first_fetch : Nonce;
  dr_reply_id : MessageId;
  dr_reply_encryption : Entropy;
  dr_reply_fetch : Nonce;
}.

Definition initial_world (d : Draws) (r : Relay) : World :=
  mkWorld r (new (dr_alice_account d) (dr_conversation d))
    (new (dr_bob_account d) (dr_conversation d)).

(** [run_demo] from the first prekey bundle on *)
Definition exchange (now : Z) (count_clock : option Z) (d : Draws) : DemoM unit :=
  alice_pre_key ← on_alice (prekey_bundle (dr_alice_keys d) (now + 60));
  bob_pre_key ← on_bob (prekey_bundle (dr_bob_keys d) (now + 60));
  w ← sm_get;
  verified_alice ← sm_lift (peer_verify alice_pre_key (signing_identity (alice w)) now);
  verified_bob ← sm_lift (peer_verify bob_pre_key (signing_identity (bob w)) now);
  let alice_inbox := dr_alice_inbox d in
  let bob_inbox := dr_bob_inbox d in
  on_relay (register (registration alice_inbox (dr_alice_registration d) (now + 60)) now);;
  on_relay (register (registration bob_inbox (dr_bob_registration d) (now + 60)) now);;
  on_alice (start_outbound_session (dr_outbound d) verified_bob now);;
  first ← on_alice (seal (dr_first_encryption d) (dr_first_id d) "phase-zero-demo-message" now);
  let '(first_id, first_packet) := first in
  let first_request := authorize (sender_capability bob_inbox) first_id first_packet (now + 3600) in
  outcome ← on_relay (enqueue first_request now);
  sm_guard (bool_decide (outcome = Stored)) Storage;;
  fetched ← on_relay (fetch (authorize_fetch (receiver_capability bob_inbox) (dr_first_fetch d)
                               (now + 60)) now);
  first ← sm_lift (ok_or MessageNotFound (head fetched));
  let bob_receiver := receiver_capability bob_inbox in
  verified_first ← sm_lift (verify_envelope bob_receiver first now);
  received ← on_bob (open_initial verified_first verified_alice now);
  sm_guard (bool_decide (pm_body (om_message received) = "phase-zero-demo-message"))
    InvalidPayload;;
  let ack := authorize_ack bob_receiver received (now + 60) in
  outcome ← on_relay (acknowledge ack now);
  sm_guard (bool_decide (outcome = Deleted)) Storage;;
  reply ← on_bob (seal (dr_reply_encryption d) (dr_reply_id d) "phase-zero-demo-reply" (now + 1));
  let '(reply_id, reply_packet) := reply in
  let reply_request := authorize (sender_capability alice_inbox) reply_id reply_packet (now + 3600) in
  on_relay (enqueue reply_request (now + 1));;
  replies ← on_relay (fetch (authorize_fetch (receiver_capability alice_inbox) (dr_reply_fetch d)
                               (now + 61)) (now + 1));
  reply ← sm_lift (ok_or MessageNotFound (head replies));
  let alice_receiver := receiver_capability alice_inbox in
  verified_reply ← sm_lift (verify_envelope alice_receiver reply (now + 1));
  received_reply ← on_alice (open verified_reply (now + 1));
  sm_guard (bool_decide (pm_body (om_message received_reply) = "phase-zero-demo-reply"))
    InvalidPayload;;
  on_relay (acknowledge (authorize_ack alice_receiver received_reply (now + 61)) (now + 1));;
  count ← on_relay (queued_message_count count_clock);
  sm_guard (bool_decide (count = 0%nat)) Storage.

(** The readings of the system clock, [None] for a time before the epoch. *)
Record Clocks : Type := mkClocks {
  ck_start : option Z;
  ck_open : option Z;
  ck_count : option Z;
}.

(** [run_demo], on the connection to the database at [p] in the temporary directory. *)
Definition run_demo (k : Clocks) (fs : FileSystem) (utf8 : bool) (p : path)
    (readonly : list byte -> option (Connection RelayFile)) (recover : RelayFile -> RelayFile)
    (d : Draws) (c : Connection RelayFile) : Result unit * option World :=
  match ok_or InvalidPayload (ck_start k) with
  | Err e => (Err e, None)
  | Ok now =>
      match relay_open fs utf8 p readonly recover (ck_open k) c with
      | (Err e, _) => (Err e, None)
      | (Ok events, c') =>
          let relay := at_rest (rf_rows (disk c')) events in
          let '(r, w) := exchange now (ck_count k) d (initial_world d relay) in (r, Some w)
      end
  end.

(** [main]: the exit status of the process. *)
Definition main (k : Clocks) (fs : FileSystem) (utf8 : bool) (p : path)
    (readonly : list byte -> option (Connection RelayFile)) (recover : RelayFile -> RelayFile)
    (d : Draws) (c : Connection RelayFile) : Z :=
  match run_demo k fs utf8 p readonly recover d c with
  | (Ok _, _) => 0
  | (Err _, _) => 1
  end.

End Demo.
