(* ===== verification/EndToEnd.v ===== *)
(** * End to end: clients, capabilities and relay together

    The composition of the components in [src/main.rs]. [OlmChannelLaws] states what the Olm
    protocol documents of a pair of sessions; under it, and the laws of the signature library,
    the demo of [main.rs] succeeds for every choice of its random values, and a conversation of
    any length delivers every message, in order, exactly as it was written. *)

From S2P Require Import Prelude Core Capability Sqlite RelayDb Relay.
From S2P Require Import RelayFacts RelayTx RelayInv RelayTrace RelayTheorems.
From S2P Require Import RelayRuns RelayExchange Client ClientFacts Companion Schema Demo.

#[local] Open Scope string_scope.
#[local] Open Scope Z_scope.

(** ** The channel *)

(** [offers a k]: the account holds the private half of the published one-time key [k].
    [in_step x y]: each of the two sessions decrypts what the other encrypts next. *)
Class OlmChannel `{OlmOps} : Type := {
  offers : Account -> Curve25519PublicKey -> Prop;
  in_step : Session -> Session -> Prop;
}.

(** Documented behaviour of [vodozemac]'s Olm and of [serde_json]. Generating one-time keys
    makes at least one available, which publishing keeps usable, and neither changes the
    account's identity. An outbound session to an offered key encrypts a first message that is
    a pre-key message, from which the other account makes a session in step with it. Sessions in
    step stay so when one sends and the other receives. Payloads and messages have a JSON
    encoding, which is not empty. *)
Class OlmChannelLaws `{OlmChannel} : Prop := {
  keys_generated : forall e a, is_Some (head (one_time_keys (generate_one_time_keys e a)));
  keys_offered : forall e a k,
    head (one_time_keys (generate_one_time_keys e a)) = Some k ->
    offers (mark_keys_as_published (generate_one_time_keys e a)) k;
  identity_generated : forall e a,
    ed25519_key (generate_one_time_keys e a) = ed25519_key a /\
    curve25519_key (generate_one_time_keys e a) = curve25519_key a;
  identity_published : forall a,
    ed25519_key (mark_keys_as_published a) = ed25519_key a /\
    curve25519_key (mark_keys_as_published a) = curve25519_key a;
  outbound_created : forall e a b k, offers b k ->
    is_Some (create_outbound_session e a (curve25519_key b) k);
  outbound_first : forall e a b k s e' m, offers b k ->
    create_outbound_session e a (curve25519_key b) k = Some s ->
    exists pre s' b' t, session_encrypt e' s m = (Some (inr pre), s') /\
      create_inbound_session b (curve25519_key a) pre = Some (b', t, m) /\ in_step t s';
  in_step_sym : forall x y, in_step x y -> in_step y x;
  in_step_sends : forall e x y m, in_step x y ->
    exists msg x' y', session_encrypt e x m = (Some msg, x') /\
      session_decrypt y msg = (Some m, y') /\ in_step x' y';
  plain_encodes : forall m, is_u8 (pm_version m) -> is_u64 (pm_sent_at m) ->
    is_Some (plain_to_json m);
  olm_encodes : forall m, is_Some (olm_to_json m);
  olm_json_nonempty : forall m b, olm_to_json m = Some b -> b <> [];
}.

Section EndToEnd.
Context `{Lib : CryptoOps} {Laws : CryptoLaws} {Olm : OlmOps} {OLaws : OlmLaws}.
Context {Channel : OlmChannel} {CLaws : OlmChannelLaws}.

(** ** Clients *)

(** The payload a client seals. *)
Definition payload (c : OlmClient) (mid : MessageId) (t : Z) (body : string) : PlainMessage :=
  mkPlain PAYLOAD_VERSION (conversation_id c) mid t body.

(** Sealing over a session that encrypts. *)
Lemma seal_run e mid body t c s :
  session c = Some s -> is_u64 t ->
  exists encoded, plain_to_json (payload c mid t body) = Some encoded /\
    forall msg s', session_encrypt e s encoded = (Some msg, s') ->
    exists packet, olm_to_json msg = Some packet /\ 
      seal e mid body t c = (Ok (mid, mkPacket packet), set_session (Some s') c).
Proof.
  intros Hs Ht. destruct (plain_encodes (payload c mid t body)) as [encoded Ee]; [done..|].
  exists encoded. split; [done|]. intros msg s' Hm. destruct (olm_encodes msg) as [packet Ep].
  exists packet. split; [done|].
  unfold seal, mbind, SM_bind, sm_get, sm_lift, sm_modify, mret, SM_ret.
  fold (payload c mid t body). rewrite Ee, Hs. cbn. rewrite Hm. cbn. by rewrite Ep.
Qed.

Lemma validate_payload c c' encoded mid t body :
  plain_to_json (payload c mid t body) = Some encoded ->
  conversation_id c' = conversation_id c -> as_slice mid ∉ displayed_messages c' ->
  validate_plaintext c' encoded mid = Ok (payload c mid t body).
Proof.
  intros E Ec Hd. apply validate_plaintext_ok. split; [by apply plain_json_restores|].
  by split_and!.
Qed.

(** A message between clients whose sessions are in step. *)
Lemma carried e mid body t c1 c2 x y :
  session c1 = Some x -> session c2 = Some y -> in_step x y -> is_u64 t ->
  conversation_id c2 = conversation_id c1 -> as_slice mid ∉ displayed_messages c2 ->
  exists packet x' y', packet <> [] /\ in_step x' y' /\
    seal e mid body t c1 = (Ok (mid, mkPacket packet), set_session (Some x') c1) /\
    forall q expires_at now, now < expires_at ->
      open (mkVerified q mid (mkPacket packet) expires_at) now c2 =
        (Ok (mkOpened (payload c1 mid t body) (mkVerified q mid (mkPacket packet) expires_at)),
         display mid (set_session (Some y') c2)).
Proof.
  intros H1 H2 Hstep Ht Hc Hd.
  destruct (seal_run e mid body t c1 x H1 Ht) as (encoded & Ee & Hseal).
  destruct (in_step_sends e x y encoded Hstep) as (msg & x' & y' & Hx & Hy & Hstep').
  destruct (Hseal msg x' Hx) as (packet & Ep & Es).
  exists packet, x', y'. split; [by eapply olm_json_nonempty|]. split; [done|]. split; [done|].
  intros q expires_at now Hnow.
  unfold open, mbind, SM_bind, sm_get, sm_guard, sm_lift, sm_modify, mret, SM_ret. simpl.
  rewrite (proj2 (Z.leb_gt _ _)) by lia. simpl.
  rewrite (olm_json_restores _ _ Ep), H2. cbn. rewrite session_pickle_restores, Hy. cbn.
  by rewrite (validate_payload c1 c2 encoded mid t body).
Qed.

(** The first message of an outbound session, opened by the account that offered the key. *)
Lemma carried_first e e' mid body t c1 c2 k x peer :
  session c1 = Some x -> session c2 = None -> offers (account c2) k ->
  create_outbound_session e (account c1) (curve25519_key (account c2)) k = Some x ->
  vp_curve_identity peer = curve25519_key (account c1) -> is_u64 t ->
  conversation_id c2 = conversation_id c1 -> as_slice mid ∉ displayed_messages c2 ->
  exists packet x' a' y', packet <> [] /\ in_step y' x' /\
    seal e' mid body t c1 = (Ok (mid, mkPacket packet), set_session (Some x') c1) /\
    forall q expires_at now, now < expires_at ->
      open_initial (mkVerified q mid (mkPacket packet) expires_at) peer now c2 =
        (Ok (mkOpened (payload c1 mid t body) (mkVerified q mid (mkPacket packet) expires_at)),
         display mid (set_session (Some y') (set_account a' c2))).
Proof.
  intros H1 H2 Ho Hx Hp Ht Hc Hd.
  destruct (seal_run e' mid body t c1 x H1 Ht) as (encoded & Ee & Hseal).
  destruct (outbound_first e _ _ k x e' encoded Ho Hx) as (pre & x' & a' & y' & Hen & Hin & Hstep).
  destruct (Hseal (inr pre) x' Hen) as (packet & Ep & Es).
  exists packet, x', a', y'. split; [by eapply olm_json_nonempty|]. split; [done|]. split; [done|].
  intros q expires_at now Hnow.
  unfold open_initial, mbind, SM_bind, sm_get, sm_guard, sm_lift, sm_modify, mret, SM_ret. simpl.
  rewrite H2, bool_decide_true by done. simpl.
  rewrite (proj2 (Z.leb_gt _ _)) by lia. simpl. rewrite (olm_json_restores _ _ Ep). cbn.
  rewrite account_pickle_restores, Hp, Hin. cbn.
  by rewrite (validate_payload c1 c2 encoded mid t body).
Qed.

(** ** Running the relay inside the world *)

Lemma on_relay_run {A} (m : RelayM A) r a b v r' :
  m r = (Ok v, r') -> on_relay m (mkWorld r a b) = (Ok v, mkWorld r' a b).
Proof. intros E. unfold on_relay, sm_zoom. simpl. by rewrite E. Qed.

Lemma on_alice_run {A} (m : SM OlmClient LabError A) r a b v a' :
  m a = (Ok v, a') -> on_alice m (mkWorld r a b) = (Ok v, mkWorld r a' b).
Proof. intros E. unfold on_alice, sm_zoom. simpl. by rewrite E. Qed.

Lemma on_bob_run {A} (m : SM OlmClient LabError A) r a b v b' :
  m b = (Ok v, b') -> on_bob m (mkWorld r a b) = (Ok v, mkWorld r a b').
Proof. intros E. unfold on_bob, sm_zoom. simpl. by rewrite E. Qed.

(** ** Conversations *)

Inductive Side : Type := Alice | Bob.

Definition other (s : Side) : Side := match s with Alice => Bob | Bob => Alice end.

Definition client_of (s : Side) (w : World) : OlmClient :=
  match s with Alice => alice w | Bob => bob w end.

Definition on_client {A} (s : Side) (m : SM OlmClient LabError A) : SM World LabError A :=
  match s with Alice => on_alice m | Bob => on_bob m end.

Definition set_client (s : Side) (c : OlmClient) (w : World) : World :=
  match s with
  | Alice => mkWorld (relay w) c (bob w)
  | Bob => mkWorld (relay w) (alice w) c
  end.

(** One message: who sends it, its body, the values drawn for it, the clock and the expiries. *)
Record Turn : Type := mkTurn {
  tn_from : Side;
  tn_body : string;
  tn_id : MessageId;
  tn_entropy : Entropy;
  tn_nonce : Nonce;
  tn_now : Z;
  tn_expires_at : Z;
  tn_until : Z;
}.

Section Conversation.
(** The mailboxes of the two sides. *)
Context (inbox : Side -> MailboxOwner).

(** The calls of [main.rs] for a message over an established session. *)
Definition turn (t : Turn) : SM World LabError OpenedMessage :=
  let receiver := other (tn_from t) in
  let box := inbox receiver in
  let capability := receiver_capability box in
  sealed ← on_client (tn_from t) (seal (tn_entropy t) (tn_id t) (tn_body t) (tn_now t));
  let '(id, packet) := sealed in
  on_relay (enqueue (authorize (sender_capability box) id packet (tn_expires_at t)) (tn_now t));;
  fetched ← on_relay (fetch (authorize_fetch capability (tn_nonce t) (tn_until t)) (tn_now t));
  first ← sm_lift (ok_or MessageNotFound (head fetched));
  verified ← sm_lift (verify_envelope capability first (tn_now t));
  received ← on_client receiver (open verified (tn_now t));
  on_relay (acknowledge (authorize_ack capability received (tn_until t)) (tn_now t));;
  mret received.

Fixpoint converse (ts : list Turn) : SM World LabError (list OpenedMessage) :=
  match ts with
  | [] => mret []
  | t :: ts => m ← turn t; ms ← converse ts; mret (m :: ms)
  end.

(** Sealing this body never yields a packet larger than the relay accepts. *)
Definition packets_fit (body : string) : Prop :=
  forall e m t c v c', seal e m body t c = (Ok v, c') ->
    Z.of_nat (length (packet_bytes (snd v))) <= MAX_PACKET_BYTES.

Definition turn_fits (t : Turn) : Prop :=
  in_window (tn_now t) (tn_expires_at t) (tn_until t) (tn_until t) /\ packets_fit (tn_body t).

(** The relay is at rest with both mailboxes registered and empty; the clients share a
    conversation and their sessions are in step. *)
Definition talking (db : RelayDb) (w : World) : Prop :=
  (exists ev, relay w = at_rest db ev) /\ db_wf db /\ (forall s, mailbox_empty (inbox s) db) /\
  conversation_id (bob w) = conversation_id (alice w) /\
  exists x y, session (alice w) = Some x /\ session (bob w) = Some y /\ in_step x y.

(** The recipient of a turn has not used its identifier or nonce. *)
Definition turn_fresh (db : RelayDb) (w : World) (t : Turn) : Prop :=
  unused (inbox (other (tn_from t))) (tn_id t) (tn_nonce t) db /\
  as_slice (tn_id t) ∉ displayed_messages (client_of (other (tn_from t)) w).

Lemma on_client_run {A} (m : SM OlmClient LabError A) s w v c' :
  m (client_of s w) = (Ok v, c') -> on_client s m w = (Ok v, set_client s c' w).
Proof. destruct w, s; [apply on_alice_run|apply on_bob_run]. Qed.

Lemma client_set_same s c w : client_of s (set_client s c w) = c.
Proof. by destruct s. Qed.

Lemma client_set_other s c w : client_of (other s) (set_client s c w) = client_of (other s) w.
Proof. by destruct s. Qed.

Lemma talking_side db w s :
  talking db w ->
  conversation_id (client_of (other s) w) = conversation_id (client_of s w) /\
  conversation_id (client_of s w) = conversation_id (alice w) /\
  exists x y, session (client_of s w) = Some x /\ session (client_of (other s) w) = Some y /\
    in_step x y.
Proof.
  intros (_ & _ & _ & Hc & x & y & Ha & Hb & Hxy). destruct s; simpl.
  - eauto 8.
  - split; [done|]. split; [done|]. exists y, x. auto using in_step_sym.
Qed.

Lemma mailbox_empty_transferred o o' mid nonce now db db' :
  mailbox_empty o db -> transferred o' mid nonce now db db' -> mailbox_empty o db'.
Proof.
  intros [Hmb Hno] [_ Em Eg _ _]. split; [by rewrite Em|]. intros row. rewrite Eg.
  intros [_ Hr]%list_elem_of_filter. by apply Hno.
Qed.

(** The clients of a world after one turn from [s]. *)
Lemma talking_intro db ev s c1 c2 x y w :
  db_wf db -> (forall s, mailbox_empty (inbox s) db) -> session c1 = Some x -> session c2 = Some y ->
  in_step x y -> conversation_id c2 = conversation_id c1 -> relay w = at_rest db ev ->
  talking db (set_client (other s) c2 (set_client s c1 w)).
Proof.
  intros ? ? ? ? ? ? ?.
  destruct s; simpl; (split; [by exists ev|]); (split; [done|]); (split; [done|]); simpl.
  - split; [done|]. by exists x, y.
  - split; [done|]. exists y, x. auto using in_step_sym.
Qed.

Definition with_relay (r : Relay) (w : World) : World := mkWorld r (alice w) (bob w).

Lemma run_on_relay {A} (m : RelayM A) w r v r' :
  relay w = r -> m r = (Ok v, r') -> on_relay m w = (Ok v, with_relay r' w).
Proof. intros <-. destruct w. apply on_relay_run. Qed.

Lemma relay_set_client s c w : relay (set_client s c w) = relay w.
Proof. by destruct s. Qed.

Lemma client_with_relay s r w : client_of s (with_relay r w) = client_of s w.
Proof. by destruct s. Qed.

Lemma turn_delivers db w t :
  talking db w -> turn_fresh db w t -> turn_fits t ->
  exists om db' w', turn t w = (Ok om, w') /\ talking db' w' /\
    om_message om = payload (client_of (tn_from t) w) (tn_id t) (tn_now t) (tn_body t) /\
    transferred (inbox (other (tn_from t))) (tn_id t) (tn_nonce t) (tn_now t) db db' /\
    (forall s, displayed_messages (client_of s w')
       ⊆ {[ as_slice (tn_id t) ]} ∪ displayed_messages (client_of s w)) /\
    conversation_id (alice w') = conversation_id (alice w).
Proof.
  intros Htalk [Hun Hnd] [Hwin Hfit]. destruct t as [from body id e nonce now exp until]. simpl in *.
  destruct (talking_side db w from Htalk) as (Hc & Hca & x & y & Hx & Hy & Hxy).
  destruct Htalk as ([ev Er] & Hwf & Hbox & _ & _).
  assert (is_u64 now) as Hu.
  { destruct Hwin as (? & ? & _). unfold is_u64, I64_MAX, U64_MAX, TOMBSTONE_TTL_SECONDS in *. lia. }
  destruct (carried e id body now _ _ x y Hx Hy Hxy Hu Hc Hnd)
    as (packet & x' & y' & Hne & Hxy' & Hseal & Hopen).
  set (pkt := mkPacket packet) in *. set (o := inbox (other from)) in *.
  assert (0 < Z.of_nat (length (packet_bytes pkt)) <= MAX_PACKET_BYTES) as Hsz.
  { split; [by destruct packet|]. exact (Hfit _ _ _ _ _ _ Hseal). }
  destruct (transfer_run o id pkt nonce now exp until until db ev Hwf (Hbox _) Hun Hwin Hsz)
    as (db1 & db2 & ev1 & ev2 & T1 & T2 & T3 & T4).
  set (om := mkOpened (payload (client_of from w) id now body)
               (mkVerified (mo_queue_id o) id pkt exp)).
  destruct (T4 om eq_refl) as (db' & ev' & T5 & Htr). exists om, db'. eexists.
  split.
  { unfold turn. cbn [tn_from tn_now tn_id tn_body tn_entropy tn_nonce tn_expires_at tn_until].
    rewrite (sm_bind_ok _ _ _ _ _ (on_client_run _ _ _ _ _ Hseal)). cbv beta iota.
    erewrite sm_bind_ok by (eapply run_on_relay, T1; by rewrite relay_set_client).
    erewrite sm_bind_ok by by eapply run_on_relay, T2.
    erewrite (sm_bind_ok _ _ _ (delivered o id pkt exp)) by reflexivity.
    erewrite sm_bind_ok by (unfold sm_lift; fold o; rewrite T3; reflexivity).
    erewrite sm_bind_ok.
    2:{ apply on_client_run. rewrite !client_with_relay, client_set_other.
        apply Hopen. apply Hwin. }
    erewrite sm_bind_ok by (eapply run_on_relay, T5; by rewrite relay_set_client).
    reflexivity. }
  split; [|split; [done|split; [done|]]].
  - split; [by exists ev'|]. split; [apply Htr|].
    split; [intros s; by eapply mailbox_empty_transferred|].
    destruct from; simpl in *; (split; [congruence|]); [exists x', y'|exists y', x'];
      auto using in_step_sym.
  - split; [intros s; destruct from, s; simpl; set_solver|by destruct from].
Qed.

Lemma turn_fresh_later db db' w w' t t' :
  turn_fresh db w t' -> tn_id t' <> tn_id t -> tn_nonce t' <> tn_nonce t ->
  transferred (inbox (other (tn_from t))) (tn_id t) (tn_nonce t) (tn_now t) db db' ->
  (forall s, displayed_messages (client_of s w')
     ⊆ {[ as_slice (tn_id t) ]} ∪ displayed_messages (client_of s w)) ->
  turn_fresh db' w' t'.
Proof.
  intros [[Ht Hn] Hd] Hid Hno Htr Hsub. split; [split|].
  - apply (tr_tombstones _ _ _ _ _ _ Htr); [|done]. intros [= _ E]. by apply Hid, as_slice_inj.
  - apply (tr_nonces _ _ _ _ _ _ Htr); [|done]. intros [= _ E]. by apply Hno, as_slice_inj.
  - intros [E%elem_of_singleton|?]%Hsub%elem_of_union; [|done]. by apply Hid, as_slice_inj.
Qed.


End Conversation.

(** A conversation of any length is delivered. Two clients whose sessions are in step and
    whose mailboxes are registered and empty exchange any sequence of messages, in any
    direction, through the relay: every call succeeds; the recipient of each message obtains
    exactly the payload that was sealed, with its conversation, identifier, time and body, in
    order; and afterwards both mailboxes are empty again and the sessions in step. *)
Theorem conversation_delivers inbox ts db w :
  talking inbox db w -> Forall (turn_fresh inbox db w) ts -> Forall turn_fits ts ->
  NoDup (tn_id <$> ts) -> NoDup (tn_nonce <$> ts) ->
  exists oms db' w', converse inbox ts w = (Ok oms, w') /\ talking inbox db' w' /\
    om_message <$> oms =
      (fun t => mkPlain PAYLOAD_VERSION (conversation_id (alice w)) (tn_id t) (tn_now t) (tn_body t))
        <$> ts.
Proof.
  revert db w. induction ts as [|t ts IH]; intros db w Htalk Hfresh Hfits Hid Hno.
  { by exists [], db, w. }
  apply Forall_cons in Hfresh as [Ht Hts], Hfits as [Hf Hfs].
  rewrite fmap_cons, NoDup_cons in Hid, Hno. destruct Hid as [Hid1 Hid], Hno as [Hno1 Hno].
  destruct (turn_delivers inbox db w t Htalk Ht Hf) as (om & db1 & w1 & E & Htalk1 & Eo & Htr & Hsub & Ec).
  destruct (IH db1 w1) as (oms & db' & w' & E' & Htalk' & Eos); [done|..|done|done|done|].
  { rewrite Forall_forall in Hts |- *. intros t' Hin. eapply turn_fresh_later; eauto.
    - intros Eq. apply Hid1. rewrite <- Eq. by apply list_elem_of_fmap_2.
    - intros Eq. apply Hno1. rewrite <- Eq. by apply list_elem_of_fmap_2. }
  exists (om :: oms), db', w'. split.
  - cbn [converse]. rewrite (sm_bind_ok _ _ _ _ _ E), (sm_bind_ok _ _ _ _ _ E'). done.
  - split; [done|]. rewrite !fmap_cons, Eos, Eo, Ec. unfold payload.
    by destruct (talking_side inbox db w (tn_from t) Htalk) as (_ & -> & _).
Qed.

(** ** The demo *)

(** Publishing a contact bundle. *)
Lemma prekey_bundle_run e t c :
  exists k sig, let a := mark_keys_as_published (generate_one_time_keys e (account c)) in
    prekey_bundle e t c =
      (Ok (mkPeer (ed25519_key (account c)) (curve25519_key (account c)) k t sig),
       set_account a c) /\
    offers a k /\ ed25519_key a = ed25519_key (account c) /\
    curve25519_key a = curve25519_key (account c) /\
    verify (ed25519_key (account c))
      (peer_prekey_signing_bytes (ed25519_key (account c)) (curve25519_key (account c)) k t) sig
      = true.
Proof.
  destruct (keys_generated e (account c)) as [k Hk].
  destruct (identity_generated e (account c)) as [E1 E2].
  destruct (identity_published (generate_one_time_keys e (account c))) as [E3 E4].
  eexists k, _. split; [|split; [by apply keys_offered|split; [congruence|split; [congruence|]]]].
  - unfold prekey_bundle, mbind, SM_bind, sm_get, sm_lift, sm_modify, mret, SM_ret. simpl.
    rewrite Hk. simpl. rewrite E1, E2. reflexivity.
  - rewrite <- E1. apply account_sign_verifies.
Qed.

Lemma peer_verify_run pk ck k t sig now :
  now < t <= now + 300 -> now + 300 <= I64_MAX ->
  verify pk (peer_prekey_signing_bytes pk ck k t) sig = true ->
  peer_verify (mkPeer pk ck k t sig) pk now = Ok (mkVerifiedPeer pk ck k t).
Proof.
  intros Ht Hm Hv. unfold peer_verify, CONTACT_BUNDLE_MAX_VALIDITY_SECONDS. simpl.
  rewrite bool_decide_true, (proj2 (Z.leb_gt _ _)), (proj2 (Z.ltb_ge _ _)) by (done || rewrite ?saturating_small; lia).
  simpl. unfold peer_signing_bytes. simpl. by rewrite Hv.
Qed.

(** Both mailboxes registered in an empty relay. *)
Section Setup.
Context (oa ob : MailboxOwner) (na nb : Nonce) (now : Z).
Context (Hq : mo_queue_id oa <> mo_queue_id ob).
Context (H0 : 0 <= now) (Hmax : now + 60 <= I64_MAX).

Abbreviation ra := (registration oa na (now + 60)).
Abbreviation rb := (registration ob nb (now + 60)).
Definition db_one : RelayDb := registered_db ra now empty_db.
Definition db_two : RelayDb := registered_db rb now db_one.

Lemma queue_ne : as_slice (mo_queue_id oa) <> as_slice (mo_queue_id ob).
Proof. intros E. by apply Hq, as_slice_inj. Qed.

Lemma validity : now < now + 60 <= saturating_add now (5 * 60).
Proof. unfold saturating_add, I64_MAX, U64_MAX in *. lia. Qed.

Lemma register_first : register_tx ra now empty_db = Ok (Registered true, Some "mailbox_registered", db_one).
Proof.
  apply register_new; [apply registration_verifies, validity|lia|simpl; lia|apply lookup_empty..].
Qed.

Lemma register_second : register_tx rb now db_one = Ok (Registered true, Some "mailbox_registered", db_two).
Proof.
  apply register_new; [apply registration_verifies, validity|lia|simpl; lia|..]; simpl.
  - rewrite lookup_insert_ne by apply queue_ne. apply lookup_empty.
  - apply lookup_empty.
  - rewrite lookup_insert_ne by (intros [= E _]; by apply queue_ne). apply map_lookup_filter_None.
    left. apply lookup_empty.
Qed.

Lemma wf_two : db_wf db_two.
Proof.
  eapply (tx_wf (Register rb)), register_second; [done|].
  eapply (tx_wf (Register ra)), register_first; [done|apply wf_empty].
Qed.

Lemma empty_two : mailbox_empty oa db_two /\ mailbox_empty ob db_two.
Proof.
  split; (split; [|by intros row ?%not_elem_of_nil]); eexists; simpl.
  - rewrite lookup_insert_ne, lookup_insert_eq by (symmetry; apply queue_ne). by split.
  - rewrite lookup_insert_eq. by split.
Qed.

Lemma unused_two o mid nonce : unused o mid nonce db_two.
Proof. split; simpl; do 2 (apply map_lookup_filter_None; left); apply lookup_empty. Qed.

End Setup.

Lemma start_outbound_run e c peer now s :
  session c = None -> now < vp_valid_until peer ->
  create_outbound_session e (account c) (vp_curve_identity peer) (vp_one_time_key peer) = Some s ->
  start_outbound_session e peer now c = (Ok tt, set_session (Some s) c).
Proof.
  intros Hs Hv Hc.
  unfold start_outbound_session, mbind, SM_bind, sm_get, sm_guard, sm_lift, sm_modify, mret, SM_ret.
  rewrite Hs, bool_decide_true by done. cbn. rewrite (proj2 (Z.leb_gt _ _)) by lia. cbn.
  by rewrite Hc.
Qed.

Lemma queue_count_run later db ev :
  later <= I64_MAX -> messages db = [] ->
  exists ev', queued_message_count_at later (at_rest db ev) = (Ok 0%nat, at_rest (sweep later db) ev').
Proof.
  intros Hl Hm.
  assert (E : purge_expired later (at_rest db ev)
    = (Ok 0%nat, at_rest (sweep later db) (ev ++ option_list None))).
  { apply (exec_ok _ Purged PurgeExpired later); [done| |congruence].
    simpl. unfold purge_tx, expired_messages. by rewrite to_i64_le, Hm by done. }
  eexists. unfold queued_message_count_at. rewrite (sm_bind_ok _ _ _ _ _ E).
  unfold query_row, on_conn, sm_zoom, query, sql. simpl. by rewrite Hm.
Qed.

(** The calls one transfer makes on the relay, with the states in between. *)
Definition transfers (o : MailboxOwner) (mid : MessageId) (pkt : EncryptedPacket) (nonce : Nonce)
    (now expires_at until : Z) (r : Relay) (done : Relay -> Prop) : Prop :=
  exists env r1 r2,
    enqueue (authorize (sender_capability o) mid pkt expires_at) now r = (Ok Stored, r1) /\
    fetch (authorize_fetch (receiver_capability o) nonce until) now r1 = (Ok [env], r2) /\
    verify_envelope (receiver_capability o) env now
      = Ok (mkVerified (mo_queue_id o) mid pkt expires_at) /\
    forall om, om_envelope om = mkVerified (mo_queue_id o) mid pkt expires_at ->
      exists r3, acknowledge (authorize_ack (receiver_capability o) om until) now r2
        = (Ok Deleted, r3) /\ done r3.

(** Both transfers of the demo and the final count, for any two packets the relay accepts. *)
Lemma demo_relay oa ob na nb id1 id2 p1 p2 f1 f2 now later :
  mo_queue_id oa <> mo_queue_id ob -> 0 <= now -> now + 1 + TOMBSTONE_TTL_SECONDS <= I64_MAX ->
  later <= I64_MAX -> 0 < Z.of_nat (length (packet_bytes p1)) <= MAX_PACKET_BYTES ->
  0 < Z.of_nat (length (packet_bytes p2)) <= MAX_PACKET_BYTES ->
  transfers ob id1 p1 f1 now (now + 3600) (now + 60)
    (at_rest (db_two oa ob na nb now) ["mailbox_registered"; "mailbox_registered"])
    (fun r => transfers oa id2 p2 f2 (now + 1) (now + 3600) (now + 61) r
       (fun r => exists r', queued_message_count_at later r = (Ok 0%nat, r') /\
                  messages (disk (connection r')) = [])).
Proof.
  intros Hq H0 Hmax Hl Hp1 Hp2. unfold TOMBSTONE_TTL_SECONDS in Hmax.
  assert (now + 60 <= I64_MAX) as Hm by lia.
  destruct (empty_two oa ob na nb now Hq) as [Hea Heb].
  destruct (transfer_run ob id1 p1 f1 now (now + 3600) (now + 60) (now + 60)
    (db_two oa ob na nb now) ["mailbox_registered"; "mailbox_registered"])
    as (db1 & db2 & ev1 & ev2 & T1 & T2 & T3 & T4); [by apply wf_two|done|apply unused_two| |done|].
  { unfold in_window, TOMBSTONE_TTL_SECONDS, MAX_MESSAGE_TTL_SECONDS. lia. }
  eexists _, _, _. split; [exact T1|]. split; [exact T2|]. split; [exact T3|]. intros om Eom.
  destruct (T4 om Eom) as (db3 & ev3 & T5 & Htr). eexists. split; [exact T5|].
  destruct (transfer_run oa id2 p2 f2 (now + 1) (now + 3600) (now + 61) (now + 61) db3 ev3)
    as (db4 & db5 & ev4 & ev5 & U1 & U2 & U3 & U4); [apply Htr| | | |done|].
  { by eapply mailbox_empty_transferred. }
  { destruct (unused_two oa ob na nb now oa id2 f2) as [Hu1 Hu2]. split.
    - apply (tr_tombstones _ _ _ _ _ _ Htr); [|done]. intros [= E _]. by apply Hq, as_slice_inj.
    - apply (tr_nonces _ _ _ _ _ _ Htr); [|done]. intros [= E _]. by apply Hq, as_slice_inj. }
  { unfold in_window, TOMBSTONE_TTL_SECONDS, MAX_MESSAGE_TTL_SECONDS. lia. }
  eexists _, _, _. split; [exact U1|]. split; [exact U2|]. split; [exact U3|]. intros om' Eom'.
  destruct (U4 om' Eom') as (db6 & ev6 & U5 & Htr'). eexists. split; [exact U5|].
  assert (messages db6 = []) as E6.
  { by rewrite (tr_messages _ _ _ _ _ _ Htr'), (tr_messages _ _ _ _ _ _ Htr). }
  destruct (queue_count_run later db6 ev6 Hl E6) as [ev7 E7]. eexists. split; [exact E7|].
  simpl. by rewrite E6.
Qed.

(** The clients of the demo: both bundles, the outbound session, both messages. *)
Lemma demo_clients conv ea eb ka kb eo id1 id2 en1 en2 now :
  0 <= now -> now + 1 + TOMBSTONE_TTL_SECONDS <= I64_MAX ->
  let alice0 := new ea conv in let bob0 := new eb conv in
  exists bundle1 bundle2 verified1 verified2 alice1 bob1 alice2 alice3 bob2 bob3 alice4 p1 p2 m1 m2,
    prekey_bundle ka (now + 60) alice0 = (Ok bundle1, alice1) /\
    prekey_bundle kb (now + 60) bob0 = (Ok bundle2, bob1) /\
    peer_verify bundle1 (signing_identity alice1) now = Ok verified1 /\
    peer_verify bundle2 (signing_identity bob1) now = Ok verified2 /\
    start_outbound_session eo verified2 now alice1 = (Ok tt, alice2) /\
    seal en1 id1 "phase-zero-demo-message" now alice2 = (Ok (id1, p1), alice3) /\
    (forall q, let env := mkVerified q id1 p1 (now + 3600) in
       open_initial env verified1 now bob1 = (Ok (mkOpened m1 env), bob2)) /\
    pm_body m1 = "phase-zero-demo-message" /\
    seal en2 id2 "phase-zero-demo-reply" (now + 1) bob2 = (Ok (id2, p2), bob3) /\
    (forall q, let env := mkVerified q id2 p2 (now + 3600) in
       open env (now + 1) alice3 = (Ok (mkOpened m2 env), alice4)) /\
    pm_body m2 = "phase-zero-demo-reply" /\ packet_bytes p1 <> [] /\ packet_bytes p2 <> [].
Proof.
  intros H0 Hmax. unfold TOMBSTONE_TTL_SECONDS in Hmax. cbv zeta.
  destruct (prekey_bundle_run ka (now + 60) (new ea conv)) as (k1 & sig1 & B1 & O1 & Ie1 & Ic1 & V1).
  destruct (prekey_bundle_run kb (now + 60) (new eb conv)) as (k2 & sig2 & B2 & O2 & Ie2 & Ic2 & V2).
  set (alice1 := set_account _ (new ea conv)) in B1. set (bob1 := set_account _ (new eb conv)) in B2.
  destruct (outbound_created eo (account alice1) (account bob1) k2 O2) as [x Hx].
  assert (is_u64 now /\ is_u64 (now + 1)) as [Hu1 Hu2].
  { unfold is_u64, I64_MAX, U64_MAX in *. lia. }
  destruct (carried_first eo en1 id1 "phase-zero-demo-message" now (set_session (Some x) alice1) bob1
    k2 x (mkVerifiedPeer (ed25519_key (account (new ea conv))) (curve25519_key (account (new ea conv)))
            k1 (now + 60)) eq_refl eq_refl O2 Hx (eq_sym Ic1) Hu1 eq_refl)
    as (p1 & x1 & a1 & y1 & Hne1 & Hstep1 & Hseal1 & Hopen1); [set_solver|].
  destruct (carried en2 id2 "phase-zero-demo-reply" (now + 1)
    (display id1 (set_session (Some y1) (set_account a1 bob1)))
    (set_session (Some x1) (set_session (Some x) alice1)) y1 x1 eq_refl eq_refl Hstep1 Hu2 eq_refl)
    as (p2 & x2 & y2 & Hne2 & Hstep2 & Hseal2 & Hopen2); [set_solver|].
  do 15 eexists. split; [exact B1|]. split; [exact B2|].
  split; [rewrite (Ie1 : signing_identity alice1 = _); apply peer_verify_run, V1; lia|].
  split; [rewrite (Ie2 : signing_identity bob1 = _); apply peer_verify_run, V2; lia|].
  split; [apply start_outbound_run; [done|simpl; lia|]; cbn [vp_curve_identity vp_one_time_key]; rewrite <- Ic2; exact Hx|].
  split; [exact Hseal1|]. split; [intros q; apply Hopen1; lia|]. split; [done|].
  split; [exact Hseal2|]. split; [intros q; apply Hopen2; lia|]. done.
Qed.

(** One step of the demo whose result is known. *)
Tactic Notation "known" tactic3(t) := erewrite sm_bind_ok by t; cbv beta iota.

(** The exchange on a relay without rows. *)
Lemma exchange_succeeds d now later :
  mo_queue_id (dr_alice_inbox d) <> mo_queue_id (dr_bob_inbox d) ->
  0 <= now -> now + 1 + TOMBSTONE_TTL_SECONDS <= I64_MAX -> later <= I64_MAX ->
  packets_fit "phase-zero-demo-message" -> packets_fit "phase-zero-demo-reply" ->
  exists w', exchange now (Some later) d (initial_world d (at_rest empty_db [])) = (Ok tt, w') /\
    messages (disk (connection (relay w'))) = [].
Proof.
  intros Hq H0 Hmax Hl Hfit1 Hfit2.
  destruct d as [conv ea eb ka kb oa ob na nb eo id1 en1 f1 id2 en2 f2]. simpl in Hq.
  destruct (demo_clients conv ea eb ka kb eo id1 id2 en1 en2 now H0 Hmax) as (b1 & b2 & v1 & v2 &
    alice1 & bob1 & alice2 & alice3 & bob2 & bob3 & alice4 & p1 & p2 & m1 & m2 &
    B1 & B2 & V1 & V2 & Ho & S1 & O1 & E1 & S2 & O2 & E2 & N1 & N2).
  destruct (demo_relay oa ob na nb id1 id2 p1 p2 f1 f2 now later Hq H0 Hmax Hl)
    as (env1 & r1 & r2 & T1 & T2 & T3 & T4).
  { split; [by destruct (packet_bytes p1)|exact (Hfit1 _ _ _ _ _ _ S1)]. }
  { split; [by destruct (packet_bytes p2)|exact (Hfit2 _ _ _ _ _ _ S2)]. }
  destruct (T4 (mkOpened m1 (mkVerified (mo_queue_id ob) id1 p1 (now + 3600))) eq_refl)
    as (r3 & T5 & env2 & r4 & r5 & U1 & U2 & U3 & U4).
  destruct (U4 (mkOpened m2 (mkVerified (mo_queue_id oa) id2 p2 (now + 3600))) eq_refl)
    as (r6 & U5 & r7 & U6 & Hend).
  exists (mkWorld r7 alice4 bob3). split; [|exact Hend]. unfold exchange, initial_world.
  cbn [dr_conversation dr_alice_account dr_bob_account dr_alice_keys dr_bob_keys dr_alice_inbox
       dr_bob_inbox dr_alice_registration dr_bob_registration dr_outbound dr_first_id
       dr_first_encryption dr_first_fetch dr_reply_id dr_reply_encryption dr_reply_fetch].
  known (apply on_alice_run; exact B1). known (apply on_bob_run; exact B2).
  known (reflexivity). cbn [alice bob].
  known (unfold sm_lift; rewrite V1; reflexivity).
  known (unfold sm_lift; rewrite V2; reflexivity).
  known (apply on_relay_run, register_run; apply register_first; unfold TOMBSTONE_TTL_SECONDS in *; lia).
  known (apply on_relay_run, register_run, register_second; unfold TOMBSTONE_TTL_SECONDS in *; done || lia).
  known (apply on_alice_run; exact Ho). known (apply on_alice_run; exact S1).
  known (apply on_relay_run; exact T1). known (reflexivity).
  known (apply on_relay_run; exact T2). known (reflexivity).
  known (unfold sm_lift; rewrite T3; reflexivity).
  known (apply on_bob_run; apply O1).
  known (simpl; rewrite E1; reflexivity).
  known (apply on_relay_run; exact T5). known (reflexivity).
  known (apply on_bob_run; exact S2). known (apply on_relay_run; exact U1).
  known (apply on_relay_run; exact U2). known (reflexivity).
  known (unfold sm_lift; rewrite U3; reflexivity).
  known (apply on_alice_run; apply O2).
  known (simpl; rewrite E2; reflexivity).
  known (apply on_relay_run; exact U5). known (apply on_relay_run; exact U6).
  reflexivity.
Qed.

(** A database that [Connection::open] has just created. *)
Record new_database `{DdlOps} {Schemas : DdlLaws} (f : RelayFile) : Prop := {
  nd_version : rf_version f = 0;
  nd_schema : kind_of (rf_view f) = Some Empty;
  nd_intact : rf_foreign_key_problem f = false /\ rf_integrity f = ["ok"%string];
  nd_rows : rf_rows f = empty_db;
}.

(** Opening it gives an empty relay. *)
Lemma new_database_opens `{DdlOps} {Schemas : DdlLaws} fs utf8 p readonly now f :
  fs_metadata fs p = FsNotFound -> new_database f -> now <= I64_MAX ->
  exists f', relay_open fs utf8 p readonly id (Some now) (at_file f) = (Ok [], at_file f') /\
    rf_rows f' = empty_db.
Proof.
  intros Hfs [Hv Hk [Hp Hi] Hr] Hn.
  change (relay_open fs utf8 p readonly id (Some now) (at_file f))
    with (open_at fs utf8 p readonly id now (at_file f)).
  rewrite open_at_clean by (unfold preflight_existing_database; by rewrite Hfs).
  destruct (initialize_clean now (id f)) as [(f' & -> & _ & _ & f1 & [_ _ _ Hrows _] & ->)|(f' & _ & [Ha|?])];
    [|unfold acceptable, id in Ha; by rewrite Hk, Hv, Hp, Hi in Ha|lia].
  eexists. split; [done|]. simpl. rewrite Hrows. unfold kept_rows. simpl. by rewrite Hk, Hr.
Qed.

(** C13. The demo succeeds. For every choice of its random values with two distinct mailboxes, on
    a path where there is no database yet, from any clock value for which the seven-day expiries
    fit, with storage that does not fail and packets within the relay's size limit, [run_demo]
    opens its relay and returns success: both bodies arrive unchanged, both acknowledgements
    delete their message, and at the end no message is queued. *)
Theorem demo_succeeds `{DdlOps} {Schemas : DdlLaws} fs utf8 p readonly f d now opening later :
  fs_metadata fs p = FsNotFound -> new_database f ->
  mo_queue_id (dr_alice_inbox d) <> mo_queue_id (dr_bob_inbox d) ->
  0 <= now -> now + 1 + TOMBSTONE_TTL_SECONDS <= I64_MAX -> opening <= I64_MAX -> later <= I64_MAX ->
  packets_fit "phase-zero-demo-message" -> packets_fit "phase-zero-demo-reply" ->
  exists w', run_demo (mkClocks (Some now) (Some opening) (Some later)) fs utf8 p readonly id d
      (at_file f) = (Ok tt, Some w') /\
    messages (disk (connection (relay w'))) = [].
Proof.
  intros Hfs Hf Hq H0 Hmax Ho Hl Hfit1 Hfit2.
  destruct (new_database_opens fs utf8 p readonly opening f Hfs Hf Ho) as (f' & E & Er).
  destruct (exchange_succeeds d now later) as (w' & Ex & Hm); [done..|].
  exists w'. split; [|done]. unfold run_demo. cbn [ck_start ck_open ck_count ok_or].
  rewrite E. cbn [disk at_file]. by rewrite Er, Ex.
Qed.

End EndToEnd.
