(* ===== verification/Unreliable.v ===== *)
(** * Conversations over an unreliable, busy relay

    [EndToEnd] composes clients and relay when every call works the first time. Here every call
    of [src/main.rs] for a message is retried until it works: before each attempt other callers
    use the relay, during it any call into [SQLite] may fail, and a failed attempt may have taken
    effect. The relay's idempotence (duplicate sends, acknowledgements of buried messages, one
    nonce per fetch) makes the outcome that of the perfect run. *)

From S2P Require Import Prelude Core Capability Sqlite RelayDb Relay.
From S2P Require Import RelayFacts RelayTx RelayInv RelayTrace RelayTheorems RelayDelivery.
From S2P Require Import RelayRuns RelayExchange RelaySpec RelayBoxes RelayDrain RelayPersist.
From S2P Require Import Client ClientFacts Demo EndToEnd.

#[local] Open Scope Z_scope.

Section Unreliable.
Context `{Lib : CryptoOps} {Laws : CryptoLaws} {Olm : OlmOps} {OLaws : OlmLaws}.
Context {Channel : OlmChannel} {CLaws : OlmChannelLaws}.

(** The mailboxes of the two sides; their locators do not collide. *)
Context (inbox : Side -> MailboxOwner).
Context (Hapart : digest (as_slice (mo_queue_id (inbox Alice)))
                  <> digest (as_slice (mo_queue_id (inbox Bob)))).

(** One message: who sends it, its body, the values drawn for it, and the attempts of its calls;
    every attempt to fetch draws its own nonce. *)
Record Delivery : Type := mkDelivery {
  dl_from : Side;
  dl_body : string;
  dl_id : MessageId;
  dl_entropy : Entropy;
  dl_sealed_at : Z;
  dl_expires_at : Z;
  dl_sends : list Attempt;
  dl_fetches : list (Nonce * Attempt);
  dl_opened_at : Z;
  dl_acks : list Attempt;
}.

Definition dl_nonces (d : Delivery) : list Nonce := fst <$> dl_fetches d.
Definition dl_end (d : Delivery) : Z := ends (dl_opened_at d) (dl_acks d).

(** The calls of [main.rs] for a message over an established session, each retried. *)
Definition deliver (d : Delivery) : SM World LabError OpenedMessage :=
  let receiver := other (dl_from d) in
  let box := inbox receiver in
  sealed ← on_client (dl_from d) (seal (dl_entropy d) (dl_id d) (dl_body d) (dl_sealed_at d));
  let '(id, packet) := sealed in
  on_relay (tries (sending box id packet (dl_expires_at d) (dl_sends d)));;
  reply ← on_relay (tries (fetching box (dl_fetches d)));
  let fetched := match reply with Fetched envelopes => envelopes | _ => [] end in
  first ← sm_lift (ok_or MessageNotFound (head fetched));
  verified ← sm_lift (verify_envelope (receiver_capability box) first (dl_opened_at d));
  received ← on_client receiver (open verified (dl_opened_at d));
  on_relay (tries (acknowledging box received (dl_acks d)));;
  mret received.

Fixpoint deliver_all (ds : list Delivery) : SM World LabError (list OpenedMessage) :=
  match ds with
  | [] => mret []
  | d :: ds => m ← deliver d; ms ← deliver_all ds; mret (m :: ms)
  end.

(** The delivery starts after [t] and is over before the message expires; the last attempt of
    each call works. *)
Record delivery_fits (t : Z) (d : Delivery) : Prop := {
  df_start : t <= dl_sealed_at d;
  df_expiry : dl_end d < dl_expires_at d <= dl_sealed_at d + MAX_MESSAGE_TTL_SECONDS;
  df_range : dl_end d + TOMBSTONE_TTL_SECONDS <= I64_MAX;
  df_packet : packets_fit (dl_body d);
  df_sends : attempts (inbox (other (dl_from d))) (mo_queue_id (inbox (dl_from d))) (dl_end d)
               (dl_sealed_at d) (dl_sends d);
  df_fetches : attempts (inbox (other (dl_from d))) (mo_queue_id (inbox (dl_from d))) (dl_end d)
                 (ends (dl_sealed_at d) (dl_sends d)) (snd <$> dl_fetches d);
  df_open : ends (ends (dl_sealed_at d) (dl_sends d)) (snd <$> dl_fetches d) <= dl_opened_at d;
  df_acks : attempts (inbox (other (dl_from d))) (mo_queue_id (inbox (dl_from d))) (dl_end d)
              (dl_opened_at d) (dl_acks d);
}.

Fixpoint deliveries_fit (t : Z) (ds : list Delivery) : Prop :=
  match ds with
  | [] => True
  | d :: ds => delivery_fits t d /\ deliveries_fit (dl_end d) ds
  end.

Definition last_end (t : Z) (ds : list Delivery) : Z := foldl (fun _ d => dl_end d) t ds.

(** Between two deliveries: both mailboxes are empty and have not seen the identifiers and
    nonces still to come, the clients share a conversation and their sessions are in step. *)
Record in_touch (t : Z) (ids : list MessageId) (nonces : list Nonce) (w : World) : Prop := {
  it_idle : idle (relay w);
  it_boxes s : exists b,
    agrees_at t (mo_queue_id (inbox s)) b (disk (connection (relay w))) /\
    ready (inbox s) ids nonces t [] b;
  it_conversation : conversation_id (bob w) = conversation_id (alice w);
  it_sessions : exists x y, session (alice w) = Some x /\ session (bob w) = Some y /\ in_step x y;
  it_unseen s m : m ∈ ids -> as_slice m ∉ displayed_messages (client_of s w);
}.

Lemma in_touch_side t ids nonces w s :
  in_touch t ids nonces w ->
  conversation_id (client_of (other s) w) = conversation_id (client_of s w) /\
  conversation_id (client_of s w) = conversation_id (alice w) /\
  exists x y, session (client_of s w) = Some x /\ session (client_of (other s) w) = Some y /\
    in_step x y.
Proof.
  intros [_ _ Hc (x & y & Ha & Hb & Hxy) _]. destruct s; simpl.
  - eauto 8.
  - split; [done|]. split; [done|]. exists y, x. auto using in_step_sym.
Qed.

Lemma sides_apart s :
  digest (as_slice (mo_queue_id (inbox (other s)))) <> digest (as_slice (mo_queue_id (inbox s))).
Proof. destruct s; simpl; congruence. Qed.

(** The three calls of a delivery, once the packet is known. *)
Lemma delivery_relayed d pkt t ids nonces b b2 s :
  let o := inbox (other (dl_from d)) in
  delivery_fits t d -> 0 <= t -> idle s ->
  0 < Z.of_nat (length (packet_bytes pkt)) <= MAX_PACKET_BYTES ->
  dl_id d ∉ ids -> NoDup (dl_nonces d ++ nonces) ->
  ready o (dl_id d :: ids) (dl_nonces d ++ nonces) t [] b ->
  agrees_at t (mo_queue_id o) b (disk (connection s)) ->
  agrees_at t (mo_queue_id (inbox (dl_from d))) b2 (disk (connection s)) ->
  exists v s1 s2, 
    tries (sending o (dl_id d) pkt (dl_expires_at d) (dl_sends d)) s = (Ok (Enqueued v), s1) /\
    tries (fetching o (dl_fetches d)) s1
      = (Ok (Fetched [delivered o (dl_id d) pkt (dl_expires_at d)]), s2) /\
    forall opened, om_envelope opened = mkVerified (mo_queue_id o) (dl_id d) pkt (dl_expires_at d) ->
    exists v' s3 b', tries (acknowledging o opened (dl_acks d)) s2 = (Ok (Acknowledged v'), s3) /\
      idle s3 /\ ready o ids nonces (dl_end d) [] b' /\
      agrees_at (dl_end d) (mo_queue_id o) b' (disk (connection s3)) /\
      agrees_at (dl_end d) (mo_queue_id (inbox (dl_from d))) b2 (disk (connection s3)).
Proof.
  intros o [Hs [He He'] Hr _ Hsd Hft Hop Hak] H0 Hi Hsz Hid Hnd Hrd Ha Ha2.
  pose proof (ends_later _ _ (am_timed _ _ _ _ _ Hsd)) as T1.
  pose proof (ends_later _ _ (am_timed _ _ _ _ _ Hft)) as T2.
  pose proof (ends_later _ _ (am_timed _ _ _ _ _ Hak)) as T3. fold (dl_end d) in T3.
  set (q2 := mo_queue_id (inbox (dl_from d))) in *.
  pose proof (sides_apart (dl_from d)) as Hap. fold o q2 in Hap.
  apply (ready_later _ _ _ _ (dl_sealed_at d)) in Hrd; [|done|constructor].
  apply (agrees_at_later _ (dl_sealed_at d)) in Ha, Ha2; [|done..].
  destruct (send_persists o (dl_id d) pkt (dl_expires_at d) q2 Hap (dl_end d) He Hr
    ids (dl_nonces d ++ nonces) (dl_sealed_at d) (dl_sends d) b b2 s)
    as (v & s1 & t1 & b1 & E1 & Hi1 & Ht1 & Hr1 & Ha1 & Ha21); [done|done|lia|done..|].
  set (u1 := ends (dl_sealed_at d) (dl_sends d)) in *.
  apply (agrees_at_later _ u1) in Ha1, Ha21; [|lia..].
  apply (ready_later _ _ _ _ u1) in Hr1; [|lia|apply env_live; lia].
  destruct (fetch_persists o (dl_id d) pkt (dl_expires_at d) q2 Hap (dl_end d) He Hr
    (dl_id d :: ids) nonces u1 (dl_fetches d) b1 b2 s1)
    as (s2 & t2 & b2' & E2 & Hi2 & Ht2 & Hr2 & Ha2' & Ha22); [done|lia|done..|].
  apply (agrees_at_later _ (dl_opened_at d)) in Ha2', Ha22; [|lia..].
  apply (ready_later _ _ _ _ (dl_opened_at d)) in Hr2; [|lia|apply env_live; lia].
  exists v, s1, s2. split; [done|]. split; [done|]. intros opened Eo.
  apply (ready_sub _ _ _ ids nonces) in Hr2; [|set_solver|done].
  unfold TOMBSTONE_TTL_SECONDS, MAX_MESSAGE_TTL_SECONDS in *.
  destruct (ack_persists o (dl_id d) pkt (dl_expires_at d) q2 Hap (dl_end d) He Hr
    ids nonces opened (dl_opened_at d) (dl_acks d) b2' b2 s2)
    as (v' & s3 & t3 & b3 & E3 & Hi3 & Ht3 & Hr3 & Ha3 & Ha23);
    [done|done|done|lia|done|unfold TOMBSTONE_TTL_SECONDS; lia|done..|]. fold (dl_end d) in Ht3.
  exists v', s3, b3. split; [done|]. split; [done|].
  split; [by apply (ready_later _ _ _ t3); [|lia|constructor]|].
  split; eapply agrees_at_later; [|done| |done]; lia.
Qed.

(** ** Deliveries *)

Lemma ends_sealed t d : delivery_fits t d -> dl_sealed_at d <= dl_opened_at d <= dl_end d.
Proof.
  intros [_ _ _ _ Hsd Hft Hop Hak].
  pose proof (ends_later _ _ (am_timed _ _ _ _ _ Hsd)) as T1.
  pose proof (ends_later _ _ (am_timed _ _ _ _ _ Hft)) as T2.
  pose proof (ends_later _ _ (am_timed _ _ _ _ _ Hak)) as T3. fold (dl_end d) in T3. lia.
Qed.

(** The clients' part of what holds after a delivery. *)
Lemma in_touch_after t ids nonces from c1 c2 x y r w :
  session c1 = Some x -> session c2 = Some y -> in_step x y ->
  conversation_id c2 = conversation_id c1 -> idle r ->
  (forall s, exists b, agrees_at t (mo_queue_id (inbox s)) b (disk (connection r)) /\
     ready (inbox s) ids nonces t [] b) ->
  (forall m, m ∈ ids ->
     (as_slice m ∉ displayed_messages c1) /\ (as_slice m ∉ displayed_messages c2)) ->
  in_touch t ids nonces (with_relay r (set_client (other from) c2 (set_client from c1 w))).
Proof.
  intros H1 H2 Hxy Hc Hi Hb Hd. split; [done|done|..].
  - by destruct from.
  - destruct from; simpl; [by exists x, y|]. exists y, x. auto using in_step_sym.
  - intros s m Hm. destruct (Hd m Hm). by destruct from, s.
Qed.

(** The monadic run of a delivery, from the results of its calls. *)
Lemma deliver_run d w pkt m c1 c2 v v' s1 s2 s3 :
  let from := dl_from d in
  let o := inbox (other from) in
  let env := mkVerified (mo_queue_id o) (dl_id d) pkt (dl_expires_at d) in
  dl_opened_at d < dl_expires_at d ->
  seal (dl_entropy d) (dl_id d) (dl_body d) (dl_sealed_at d) (client_of from w)
    = (Ok (dl_id d, pkt), c1) ->
  tries (sending o (dl_id d) pkt (dl_expires_at d) (dl_sends d)) (relay w) = (Ok v, s1) ->
  tries (fetching o (dl_fetches d)) s1
    = (Ok (Fetched [delivered o (dl_id d) pkt (dl_expires_at d)]), s2) ->
  open env (dl_opened_at d) (client_of (other from) w) = (Ok (mkOpened m env), c2) ->
  tries (acknowledging o (mkOpened m env) (dl_acks d)) s2 = (Ok v', s3) ->
  deliver d w
    = (Ok (mkOpened m env), with_relay s3 (set_client (other from) c2 (set_client from c1 w))).
Proof.
  intros from o env Hexp Hseal T1 T2 Hopen T3.
  assert (Hve : verify_envelope (receiver_capability o)
    (delivered o (dl_id d) pkt (dl_expires_at d)) (dl_opened_at d) = Ok env).
  { by apply (verify_envelope_authorized o (dl_id d) pkt (dl_expires_at d) (dl_opened_at d)). }
  unfold deliver. rewrite (sm_bind_ok _ _ _ _ _ (on_client_run _ _ _ _ _ Hseal)). cbv beta iota.
  erewrite sm_bind_ok by (eapply run_on_relay, T1; by rewrite relay_set_client).
  erewrite sm_bind_ok by by eapply run_on_relay, T2.
  erewrite (sm_bind_ok _ _ _ (delivered o (dl_id d) pkt (dl_expires_at d))) by reflexivity.
  erewrite sm_bind_ok by (unfold sm_lift; fold from o; rewrite Hve; reflexivity).
  erewrite sm_bind_ok.
  2:{ apply on_client_run. rewrite !client_with_relay. unfold from in *.
      rewrite client_set_other. exact Hopen. }
  erewrite sm_bind_ok by (eapply run_on_relay, T3; by rewrite relay_set_client).
  unfold from. by destruct (dl_from d).
Qed.

Lemma deliver_works t ids nonces d w :
  in_touch t (dl_id d :: ids) (dl_nonces d ++ nonces) w -> 0 <= t -> delivery_fits t d ->
  dl_id d ∉ ids -> NoDup (dl_nonces d ++ nonces) ->
  exists om w', deliver d w = (Ok om, w') /\ in_touch (dl_end d) ids nonces w' /\
    om_message om = payload (client_of (dl_from d) w) (dl_id d) (dl_sealed_at d) (dl_body d) /\
    conversation_id (alice w') = conversation_id (alice w).
Proof.
  intros Hw H0 Hfit Hid Hnd.
  destruct (in_touch_side _ _ _ _ (dl_from d) Hw) as (Hc & Hca & x & y & Hx & Hy & Hxy).
  destruct Hw as [Hi Hbox _ _ Hun]. pose proof (ends_sealed _ _ Hfit) as Hends.
  assert (is_u64 (dl_sealed_at d)) as Hu.
  { pose proof (df_start _ _ Hfit). pose proof (df_range _ _ Hfit).
    unfold is_u64, I64_MAX, U64_MAX, TOMBSTONE_TTL_SECONDS in *. lia. }
  destruct (carried (dl_entropy d) (dl_id d) (dl_body d) (dl_sealed_at d) _ _ x y Hx Hy Hxy Hu Hc
    (Hun _ _ (list_elem_of_here _ _))) as (packet & x' & y' & Hne & Hxy' & Hseal & Hopen).
  set (pkt := mkPacket packet) in *.
  assert (0 < Z.of_nat (length (packet_bytes pkt)) <= MAX_PACKET_BYTES) as Hsz.
  { split; [by destruct packet|]. exact (df_packet _ _ Hfit _ _ _ _ _ _ Hseal). }
  destruct (Hbox (other (dl_from d))) as (b & Ha & Hr), (Hbox (dl_from d)) as (b2 & Ha2 & Hr2).
  destruct (delivery_relayed d pkt t ids nonces b b2 (relay w) Hfit H0 Hi Hsz Hid Hnd Hr Ha Ha2)
    as (v & s1 & s2 & T1 & T2 & T3).
  set (o := inbox (other (dl_from d))) in *.
  set (env := mkVerified (mo_queue_id o) (dl_id d) pkt (dl_expires_at d)) in *.
  set (om := mkOpened (payload (client_of (dl_from d) w) (dl_id d) (dl_sealed_at d) (dl_body d)) env).
  destruct (T3 om eq_refl) as (v' & s3 & b' & T4 & Hi3 & Hr3 & Ha3 & Ha23).
  set (c1 := set_session (Some x') (client_of (dl_from d) w)) in *.
  set (c2 := display (dl_id d) (set_session (Some y') (client_of (other (dl_from d)) w))) in *.
  assert (Hexp : dl_opened_at d < dl_expires_at d) by (pose proof (df_expiry _ _ Hfit); lia).
  exists om, (with_relay s3 (set_client (other (dl_from d)) c2 (set_client (dl_from d) c1 w))).
  split; [|split; [|split; [done|by destruct (dl_from d)]]].
  - by eapply deliver_run; eauto.
  - apply (in_touch_after _ _ _ _ _ _ x' y'); try done.
    + assert (Hsides : forall s, s = dl_from d \/ s = other (dl_from d))
        by (intros s; destruct s, (dl_from d); auto).
      intros s. destruct (Hsides s) as [-> | ->]; [|by exists b'].
      exists b2. split; [done|].
      apply (ready_later _ _ _ t); [|pose proof (df_start _ _ Hfit); lia|constructor].
      eapply ready_sub; [exact Hr2|set_solver..].
    + intros m Hm. split; [apply Hun; by right|]. unfold c2. cbn [displayed_messages display set_session].
      intros [E%elem_of_singleton%as_slice_inj|E]%elem_of_union; [by subst m|].
      by apply (Hun (other (dl_from d)) m); [right|].
Qed.

(** ** From the tables of a relay *)

(** A relay with any past on which both sides have an empty mailbox, at the time [t]. *)
Record set_up (t : Z) (ids : list MessageId) (nonces : list Nonce) (w : World) : Prop := {
  su_history : exists ks t0, relay w = snd (run ks fresh_relay) /\ 0 <= t0 /\ clocked t0 ks /\
    last_clock t0 ks <= t /\
    forall s, Forall (fun k => digest_apart (mo_queue_id (inbox s)) (call_command k)) ks;
  su_boxes s : let q := as_slice (mo_queue_id (inbox s)) in
    let db := disk (connection (relay w)) in
    (exists mb, mailboxes db !! q = Some mb /\ owned_by (inbox s) mb) /\ deliverable q t db = [] /\
    (forall m : MessageId, m ∈ ids -> tombstones db !! (q, as_slice m) = None) /\
    (forall n : Nonce, n ∈ nonces -> request_nonces db !! (q, "receive"%string, as_slice n) = None);
  su_conversation : conversation_id (bob w) = conversation_id (alice w);
  su_sessions : exists x y, session (alice w) = Some x /\ session (bob w) = Some y /\ in_step x y;
  su_unseen s m : m ∈ ids -> as_slice m ∉ displayed_messages (client_of s w);
}.

Lemma set_up_in_touch t ids nonces w : set_up t ids nonces w -> in_touch t ids nonces w.
Proof.
  intros [(ks & t0 & Er & H0 & Hc & Ht & Hd) Hb Hcv Hs Hu].
  destruct (run_wf ks t0 fresh_relay) as [Hi Hwf]; [done..|apply wf_empty|].
  rewrite <- Er in Hi, Hwf. split; try done. intros s.
  pose proof (run_agrees ks t0 fresh_relay (mo_queue_id (inbox s)) empty_box H0 Hc eq_refl (Hd s)
    (agrees_age _ _ _ _ (agrees_empty _))) as Hr.
  rewrite (surjective_pairing (run ks fresh_relay)), <- Er in Hr. destruct Hr as (b & _ & Ha).
  apply (agrees_at_later _ t) in Ha; [|done]. exists b. split; [done|].
  destruct (Hb s) as ((mb & Hmb & Hown) & Hdel & Hm & Hn).
  rewrite (inbox_deliverable _ _ _ _ Ha) in Hdel. apply fmap_nil_inv in Hdel.
  pose proof (sound_agrees _ _ _ _ _ Hwf Hmb Hown Ha) as Hsound.
  split; [apply Hsound|done|..].
  - intros m Hin. rewrite <- (ag_buried _ _ _ Ha m). apply map_lookup_filter_None. left. by apply Hm.
  - intros n Hin. rewrite <- (ag_spent _ _ _ Ha Receiver n). apply map_lookup_filter_None. left.
    by apply Hn.
Qed.

Lemma deliver_all_works ds : forall t w,
  in_touch t (dl_id <$> ds) (ds ≫= dl_nonces) w -> 0 <= t -> deliveries_fit t ds ->
  NoDup (dl_id <$> ds) -> NoDup (ds ≫= dl_nonces) ->
  exists oms w', deliver_all ds w = (Ok oms, w') /\ in_touch (last_end t ds) [] [] w' /\
    om_message <$> oms =
      (fun d => mkPlain PAYLOAD_VERSION (conversation_id (alice w)) (dl_id d) (dl_sealed_at d) (dl_body d))
        <$> ds.
Proof.
  induction ds as [|d ds IH]; intros t w Hw H0 Hf Hid Hno; [by exists [], w|].
  destruct Hf as [Hd Hf]. rewrite fmap_cons in Hw, Hid. rewrite bind_cons in Hw, Hno.
  apply NoDup_cons in Hid as [Hid1 Hid]. pose proof (ends_sealed _ _ Hd) as Hends.
  pose proof (df_start _ _ Hd) as Hstart. apply NoDup_app in Hno as Hno2. destruct Hno2 as (_ & _ & Hno2).
  destruct (in_touch_side _ _ _ _ (dl_from d) Hw) as (_ & Hca & _).
  destruct (deliver_works t (dl_id <$> ds) (ds ≫= dl_nonces) d w Hw H0 Hd Hid1 Hno)
    as (om & w1 & E1 & Hw1 & Em & Ec).
  destruct (IH (dl_end d) w1 Hw1) as (oms & w' & E2 & Hw' & Ems); [lia|done..|].
  exists (om :: oms), w'. split; [|split; [done|]].
  - cbn [deliver_all]. by rewrite (sm_bind_ok _ _ _ _ _ E1), (sm_bind_ok _ _ _ _ _ E2).
  - rewrite !fmap_cons, Ems, Em, Ec. unfold payload. by rewrite Hca.
Qed.

(** C6. Messages are delivered exactly once over an unreliable relay. The relay has any past and
    is used by others, on other mailboxes, all the time. Two clients whose sessions are in step
    and whose mailboxes are registered and empty exchange any sequence of messages, in any
    direction. Every call to the relay is repeated until it succeeds, any call into [SQLite] may
    fail during an attempt, and a failed attempt may have taken effect; only the last attempt of
    each call is free of failures. Then the recipient of each message obtains exactly the payload
    that was sealed, with its conversation, identifier, time and body, once and in order, and at
    the end no message is left for either of them. *)
Theorem unreliable_relay_delivers ds t w :
  set_up t (dl_id <$> ds) (ds ≫= dl_nonces) w -> 0 <= t -> deliveries_fit t ds ->
  NoDup (dl_id <$> ds) -> NoDup (ds ≫= dl_nonces) ->
  exists oms w', deliver_all ds w = (Ok oms, w') /\
    om_message <$> oms =
      (fun d => mkPlain PAYLOAD_VERSION (conversation_id (alice w)) (dl_id d) (dl_sealed_at d) (dl_body d))
        <$> ds /\
    forall s, deliverable (as_slice (mo_queue_id (inbox s))) (last_end t ds)
                (disk (connection (relay w'))) = [].
Proof.
  intros Hs H0 Hf Hid Hno. apply set_up_in_touch in Hs.
  destruct (deliver_all_works ds t w Hs H0 Hf Hid Hno) as (oms & w' & E & Hw' & Em).
  exists oms, w'. split; [done|]. split; [done|]. intros s.
  destruct (it_boxes _ _ _ _ Hw' s) as (b & Ha & Hr). rewrite (inbox_deliverable _ _ _ _ Ha).
  by rewrite (rd_inbox _ _ _ _ _ _ Hr).
Qed.

End Unreliable.
