(* ===== verification/ToyEndpoint.v ===== *)
(** * Concrete instances of the endpoint's libraries

    Small executable stand-ins for Olm, the JSON codec, the AEAD, the key protector and the DDL
    of [SQLite] that satisfy the laws the development states for them. They compute and offer no
    security. *)

From S2P Require Import Prelude Core Capability ToyCrypto Client ClientFacts.
From S2P Require Import Envelope Companion StateStore Schema EndToEnd.

#[local] Open Scope Z_scope.

(** ** Olm and JSON *)

(** An account: its keys and the unpublished and published one-time keys. *)
Record ToyAccount : Type := mkToyAccount {
  ta_sign : array 32;
  ta_curve : array 32;
  ta_fresh : list (array 32);
  ta_published : list (array 32);
}.

(** A session: the initiator's identity and one-time key while no reply has arrived. *)
Definition ToySession : Type := option (array 32 * array 32).
Definition ToyPreKey : Type := array 32 * array 32 * list byte.

Definition toy_olm_bytes (m : list byte + ToyPreKey) : list byte :=
  match m with
  | inl b => x00 :: b
  | inr (i, k, b) => x01 :: as_slice i ++ as_slice k ++ b
  end.

Definition toy_olm_parse (l : list byte) : option (list byte + ToyPreKey) :=
  match l with
  | x00 :: b => Some (inl b)
  | x01 :: b =>
      i ← array_from_slice 32 (take 32 b);
      k ← array_from_slice 32 (take 32 (drop 32 b));
      Some (inr (i, k, drop 64 b))
  | _ => None
  end.

Definition toy_plain_bytes (m : PlainMessage) : list byte :=
  be_bytes 1 (pm_version m) ++ as_slice (pm_conversation_id m) ++ as_slice (pm_message_id m) ++
  u64_be (pm_sent_at m) ++ bstr (pm_body m).

Definition toy_plain_parse (l : list byte) : option PlainMessage :=
  c ← array_from_slice 16 (take 16 (drop 1 l));
  m ← array_from_slice 16 (take 16 (drop 17 l));
  Some (mkPlain (be_value (take 1 l)) c m (be_value (take 8 (drop 33 l)))
          (String.string_of_list_byte (drop 41 l))).

#[global] Instance PlainMessage_eq_dec : EqDecision PlainMessage.
Proof. solve_decision. Defined.

(** An encoder that emits only what parses back. *)
Definition checked {A} `{EqDecision A} (enc : A -> list byte) (dec : list byte -> option A)
    (a : A) : option (list byte) :=
  if decide (dec (enc a) = Some a) then Some (enc a) else None.

Lemma checked_restores {A} `{EqDecision A} (enc : A -> list byte) dec a b :
  checked enc dec a = Some b -> dec b = Some a.
Proof. unfold checked. case_decide; naive_solver. Qed.

Lemma checked_value {A} `{EqDecision A} (enc : A -> list byte) dec a b :
  checked enc dec a = Some b -> b = enc a.
Proof. unfold checked. case_decide; naive_solver. Qed.

Definition toy_inbound (a : ToyAccount) (sender : array 32) (m : ToyPreKey)
    : option (ToyAccount * ToySession * list byte) :=
  let '(i, k, b) := m in
  if decide (i = sender /\ k ∈ ta_published a)
  then Some (mkToyAccount (ta_sign a) (ta_curve a) (ta_fresh a)
               (filter (fun x => x <> k) (ta_published a)), None, b)
  else None.

#[global] Instance toy_olm : OlmOps := {|
  Account := ToyAccount;
  Session := ToySession;
  AccountPickle := ToyAccount;
  SessionPickle := ToySession;
  Entropy := list byte;
  Curve25519PublicKey := array 32;
  PreKeyMessage := ToyPreKey;
  NormalMessage := list byte;
  curve_as_bytes := fun k => k;
  account_new := fun e => mkToyAccount (toy_array 32 (x01 :: e)) (toy_array 32 (x02 :: e)) [] [];
  generate_one_time_keys := fun e a =>
    mkToyAccount (ta_sign a) (ta_curve a) (toy_array 32 (x03 :: e) :: ta_fresh a) (ta_published a);
  one_time_keys := ta_fresh;
  mark_keys_as_published := fun a =>
    mkToyAccount (ta_sign a) (ta_curve a) [] (ta_fresh a ++ ta_published a);
  ed25519_key := ta_sign;
  curve25519_key := ta_curve;
  account_sign := fun a => toy_sign (ta_sign a);
  account_pickle := fun a => a;
  account_from_pickle := fun a => a;
  session_pickle := fun s => s;
  session_from_pickle := fun s => s;
  create_outbound_session := fun _ a _ k => Some (Some (ta_curve a, k));
  create_inbound_session := toy_inbound;
  session_encrypt := fun _ s b =>
    (match s with Some (i, k) => Some (inr (i, k, b)) | None => Some (inl b) end, s);
  session_decrypt := fun s m =>
    match m with inl b => (Some b, None) | inr (_, _, b) => (Some b, s) end;
  olm_to_json := checked toy_olm_bytes toy_olm_parse;
  olm_from_json := toy_olm_parse;
  plain_to_json := checked toy_plain_bytes toy_plain_parse;
  plain_from_json := toy_plain_parse;
|}.

#[global] Instance toy_olm_laws : OlmLaws.
Proof.
  split; simpl; try done.
  - intros. by apply bool_decide_eq_true.
  - intros m b. apply checked_restores.
  - intros m b. apply checked_restores.
Qed.

(** *** The channel *)

Lemma array_from_take {n} (a : array n) l : array_from_slice n (take n (as_slice a ++ l)) = Some a.
Proof. rewrite take_app_length' by (symmetry; apply length_as_slice). apply array_from_as_slice. Qed.

Lemma drop_as_slice {n} (a : array n) l : drop n (as_slice a ++ l) = l.
Proof. apply drop_app_length'. symmetry. apply length_as_slice. Qed.

Lemma toy_olm_roundtrip m : toy_olm_parse (toy_olm_bytes m) = Some m.
Proof.
  destruct m as [b|[[i k] b]]; [done|]. unfold toy_olm_bytes, toy_olm_parse.
  rewrite array_from_take. cbn [mbind option_bind]. rewrite drop_as_slice, array_from_take.
  cbn [mbind option_bind]. change 64%nat with (32 + 32)%nat. by rewrite <- drop_drop, !drop_as_slice.
Qed.

Lemma toy_plain_roundtrip m :
  is_u8 (pm_version m) -> is_u64 (pm_sent_at m) -> toy_plain_parse (toy_plain_bytes m) = Some m.
Proof.
  destruct m as [v c i t body]. unfold is_u8, is_u64, U8_MAX, U64_MAX. simpl. intros Hv Ht.
  unfold toy_plain_parse, toy_plain_bytes. cbn [pm_version pm_conversation_id pm_message_id pm_sent_at pm_body].
  assert (Hlen : length (be_bytes 1 v) = 1%nat) by apply length_be_bytes.
  assert (Hlen' : length (u64_be t) = 8%nat) by apply length_u64_be.
  set (l := be_bytes 1 v ++ as_slice c ++ as_slice i ++ u64_be t ++ bstr body).
  assert (E1 : drop 1 l = as_slice c ++ as_slice i ++ u64_be t ++ bstr body) by by apply drop_app_length'.
  assert (E17 : drop 17 l = as_slice i ++ u64_be t ++ bstr body).
  { change 17%nat with (1 + 16)%nat. by rewrite <- drop_drop, E1, drop_as_slice. }
  assert (E33 : drop 33 l = u64_be t ++ bstr body).
  { change 33%nat with (17 + 16)%nat. by rewrite <- drop_drop, E17, drop_as_slice. }
  assert (E41 : drop 41 l = bstr body).
  { change 41%nat with (33 + 8)%nat. rewrite <- drop_drop, E33. by apply drop_app_length'. }
  rewrite E1, E17, E33, E41, !array_from_take. cbn [mbind option_bind].
  unfold l. rewrite (take_app_length' (be_bytes 1 v)), (take_app_length' (u64_be t)) by done.
  unfold u64_be, bstr. rewrite !be_value_be_bytes by (simpl; lia).
  by rewrite String.string_of_list_byte_of_string.
Qed.

#[global] Instance toy_channel : OlmChannel := {|
  offers := fun a k => k ∈ ta_published a;
  in_step := fun _ _ => True;
|}.

#[global] Instance toy_channel_laws : OlmChannelLaws.
Proof.
  split; simpl.
  - by eexists.
  - intros e a k [= <-]. by left.
  - done.
  - done.
  - by eexists.
  - intros e a b k s e' m Hk [= <-]. do 4 eexists. split; [done|]. split; [|done].
    unfold toy_inbound. by rewrite decide_True.
  - done.
  - intros e x y m _. by destruct x as [[i k]|]; do 3 eexists.
  - intros m Hv Ht. unfold checked. rewrite decide_True by by apply toy_plain_roundtrip. by eexists.
  - intros m. unfold checked. rewrite decide_True by apply toy_olm_roundtrip. by eexists.
  - intros m b. unfold checked. rewrite decide_True by apply toy_olm_roundtrip. intros [= <-].
    by destruct m as [|[[]]].
Qed.

(** ** AEAD and protector *)

(** The ciphertext: the message followed by a checksum of key, nonce, context and message. *)
Definition toy_tag (k : array 32) (n : array 24) (a m : list byte) : list byte :=
  toy_hash 16 (as_slice k ++ as_slice n ++ a ++ m).

#[global] Instance toy_aead : AeadOps := {|
  aead_encrypt := fun k n a m => Some (m ++ toy_tag k n a m);
  aead_decrypt := fun k n a c =>
    let m := take (length c - 16) c in
    if decide (c = m ++ toy_tag k n a m) then Some m else None;
|}.

Lemma length_toy_tag k n a m : length (toy_tag k n a m) = 16%nat.
Proof. apply length_toy_hash. Qed.

#[global] Instance toy_aead_laws : AeadLaws.
Proof.
  split; simpl.
  - intros k n a m c [= <-]. rewrite length_app, length_toy_tag, Nat.add_sub, take_app_length.
    by rewrite decide_True.
  - intros k n a m c [= <-]. by rewrite length_app, length_toy_tag.
Qed.

(** A protector is the binding it guards; it wraps a key by prefixing the binding. *)
#[global] Instance toy_protector : StateKeyProtector ProfileBinding := {|
  expected_binding := fun b => Ok b;
  protection_level := fun _ => SoftwareBacked;
  wrap_dek := fun b k => Ok (as_slice (profile_id b) ++ as_slice (key_ref b) ++ as_slice k);
  unwrap_dek := fun b w => ok_or Storage (array_from_slice 32 (drop 32 w));
|}.

#[global] Instance toy_protector_laws : ProtectorLaws ProfileBinding.
Proof.
  split. simpl. intros b k w [= <-]. rewrite app_assoc, drop_app_length'.
  - by rewrite array_from_as_slice.
  - by rewrite length_app, !length_as_slice.
Qed.

(** ** DDL *)

Definition toy_table (sql : string) (ncol : Z) : View :=
  mkView [("table", "messages", "messages", Some sql)]%string
    (fun t => if decide (t = "messages"%string)
              then Some ("main", "messages", "table", ncol, 0, 1)%string else None)
    (fun _ => []) (fun _ => []) (fun _ => []) (fun _ => []).

#[global] Instance toy_ddl : DdlOps := {|
  execute_ddl := fun ddl _ =>
    if decide (ddl = CURRENT_SCHEMA_DDL) then Some (toy_table "current" 5)
    else if decide (ddl = CURRENT_MESSAGES_DDL) then Some (toy_table "current" 5)
    else if decide (ddl = LEGACY_SCHEMA_DDL) then Some (toy_table "legacy" 4)
    else if decide (ddl = "DROP TABLE messages;"%string) then Some empty_view
    else None;
|}.

Definition toy_manifest (sql : string) (ncol : Z) : SchemaManifest :=
  mkManifest [("table", "messages", "messages", Some sql)]%string
    {[ "messages"%string := mkTable ("main", "messages", "table", ncol, 0, 1)%string [] [] [] ]}.

#[global] Instance toy_ddl_laws : DdlLaws.
Proof.
  refine {| legacy_manifest := toy_manifest "legacy" 4;
            current_manifest := toy_manifest "current" 5 |}.
  - vm_compute. reflexivity.
  - vm_compute. reflexivity.
  - discriminate.
  - discriminate.
  - intros E. apply (f_equal objects) in E. discriminate E.
  - intros v _. exists (toy_table "current" 5). split; [|vm_compute; reflexivity].
    unfold execute_ddl, toy_ddl. by rewrite decide_True.
  - intros v _. exists empty_view, (toy_table "current" 5).
    split; [|split; [|vm_compute; reflexivity]]; reflexivity.
Defined.
