(* ===== verification/EndpointWitness.v ===== *)
(** * Endpoint, state store, schema and demo: the theorems at concrete inputs *)

From S2P Require Import Prelude Core Capability Sqlite RelayDb Relay.
From S2P Require Import RelayFacts RelayTx ToyCrypto Client ClientFacts Envelope.
From S2P Require Import Companion StateStore StateStoreTx StateStoreTheorems Schema Demo.
From S2P Require Import ToyEndpoint.

#[local] Open Scope Z_scope.

(** ** The demo *)

Definition other_owner : MailboxOwner :=
  mkOwner (toy_id 32 "queue2") (toy_id 32 "send2") (toy_id 32 "receive2") (toy_id 32 "manage2").

Definition toy_draws : Draws :=
  mkDraws (toy_id 16 "conversation") (bstr "alice") (bstr "bob") (bstr "k1") (bstr "k2")
    toy_owner other_owner (toy_id 16 "r1") (toy_id 16 "r2") (bstr "out") (toy_id 16 "first")
    (bstr "e1") (toy_id 16 "f1") (toy_id 16 "reply") (bstr "e2") (toy_id 16 "f2").

Definition demo_result : Result unit * World :=
  exchange 1000 (Some 1005) toy_draws (initial_world toy_draws (at_rest empty_db [])).

(** The exchange of [run_demo] succeeds, leaves no message queued, and records the audit events
    of its relay calls in order. *)
Example demo_passes :
  bool_decide (fst demo_result = Ok tt /\
    messages (disk (connection (relay (snd demo_result)))) = [] /\
    audit_events (relay (snd demo_result)) =
      ["mailbox_registered"; "mailbox_registered"; "message_enqueued"; "mailbox_fetched";
       "message_acknowledged_and_deleted"; "message_enqueued"; "mailbox_fetched";
       "message_acknowledged_and_deleted"]%string) = true.
Proof. vm_compute. reflexivity. Qed.

(** ** The client *)

Definition toy_conversation : ConversationId := toy_id 16 "conversation".
Definition alice0 : OlmClient := new (bstr "alice") toy_conversation.
Definition bob0 : OlmClient := new (bstr "bob") toy_conversation.
Definition bob1 : OlmClient := snd (prekey_bundle (bstr "k2") 1100 bob0).

Definition bob_bundle : PeerPreKey :=
  mkPeer (ta_sign (account bob0)) (ta_curve (account bob0)) (toy_array 32 (x03 :: bstr "k2")) 1100
    (toy_sign (ta_sign (account bob0))
       (peer_prekey_signing_bytes (ta_sign (account bob0)) (ta_curve (account bob0))
          (toy_array 32 (x03 :: bstr "k2")) 1100)).

(** The message [alice] sends to [bob], as a verified envelope. *)
Definition first_packet : EncryptedPacket :=
  mkPacket (toy_olm_bytes (inr (ta_curve (account alice0), toy_array 32 (x03 :: bstr "k2"),
    toy_plain_bytes (mkPlain 1 toy_conversation (toy_id 16 "m1") 1000 "hi")))).
Definition first_envelope : VerifiedEnvelope :=
  mkVerified (toy_id 32 "queue") (toy_id 16 "m1") first_packet 5000.
Definition other_envelope : VerifiedEnvelope :=
  mkVerified (toy_id 32 "queue") (toy_id 16 "m2") first_packet 5000.
Definition alice_peer : VerifiedPeerPreKey :=
  mkVerifiedPeer (ta_sign (account alice0)) (ta_curve (account alice0)) (toy_id 32 "unused") 1100.

Definition open_call : ClientCall := OpenInitial first_envelope alice_peer 1001.
Definition mismatched_call : ClientCall := OpenInitial other_envelope alice_peer 1001.

Definition reply_error (r : Result ClientReply) : option LabError :=
  match r with Err e => Some e | Ok _ => None end.
Definition reply_opened (r : Result ClientReply) : option OpenedMessage :=
  match r with Ok (Opened om) => Some om | _ => None end.

(** A packet whose inner identifier differs from the envelope's. *)
Lemma rejected_open_changes_nothing_witness :
  reply_error (fst (client_exec mismatched_call bob1)) = Some MessageIdMismatch /\
  snd (client_exec mismatched_call bob1) = bob1.
Proof.
  assert (E : reply_error (fst (client_exec mismatched_call bob1)) = Some MessageIdMismatch)
    by (vm_compute; reflexivity).
  split; [exact E|]. destruct (client_exec mismatched_call bob1) as [[r|e] c'] eqn:Ec; [discriminate E|].
  exact (rejected_open_changes_nothing mismatched_call bob1 e c' I Ec).
Defined.

Lemma opened_message_is_bound_witness :
  exists om, reply_opened (fst (client_exec open_call bob1)) = Some om /\
    well_bound bob1 (toy_id 16 "m1") (om_message om).
Proof.
  destruct (client_exec open_call bob1) as [r c'] eqn:Ec.
  assert (E : is_Some (reply_opened (fst (client_exec open_call bob1))))
    by (vm_compute; eexists; reflexivity).
  rewrite Ec in E. destruct r as [[| | |om]|]; try (by destruct E). exists om. split; [done|].
  destruct (opened_message_is_bound open_call bob1 om c' Ec) as (env & now & E' & _ & _ & Hb).
  injection E' as <- <-. exact Hb.
Defined.

Lemma bundle_signature_binds_witness :
  peer_signing_bytes bob_bundle
    <> signing_bytes (CmdFetch (authorize_fetch (receiver_capability toy_owner) (toy_id 16 "n") 1100)).
Proof. apply (bundle_signature_binds bob_bundle bob_bundle); done. Defined.

Lemma own_bundle_verifies_witness :
  prekey_bundle (bstr "k2") 1100 bob0 = (Ok bob_bundle, bob1) /\
  peer_verify bob_bundle (ta_sign (account bob0)) 1000
    = Ok (mkVerifiedPeer (ta_sign (account bob0)) (ta_curve (account bob0))
            (pp_one_time_key bob_bundle) 1100).
Proof.
  split; [reflexivity|].
  apply (own_bundle_verifies (Olm := toy_olm) (bstr "k2") 1100 1000 bob0 bob_bundle bob1); [reflexivity|done].
Defined.

(** ** The envelope *)

Definition toy_binding : ProfileBinding := mkBinding (toy_id 16 "profile") (toy_id 16 "key").

Lemma associated_data_binds_context_witness :
  (exists x, aad toy_binding 1 (bstr "wrapped") = Ok x) /\
  (aad toy_binding 1 (bstr "wrapped") = aad toy_binding 2 (bstr "wrapped") ->
   toy_binding = toy_binding /\ 1 = 2 /\ sha256 (bstr "wrapped") = sha256 (bstr "wrapped")).
Proof. apply associated_data_binds_context; done. Defined.

Lemma envelope_roundtrip_witness :
  match envelope_seal toy_binding 1 (bstr "wrapped") (toy_id 32 "dek") (toy_id 24 "nonce")
          (bstr "state") with
  | Ok c => envelope_open toy_binding 1 (bstr "wrapped") (toy_id 32 "dek") (toy_id 24 "nonce") c
      = Ok (bstr "state")
  | Err _ => False
  end.
Proof.
  pose proof (envelope_roundtrip toy_binding 1 (bstr "wrapped") (toy_id 32 "dek")
    (toy_id 24 "nonce") (bstr "state")) as [H _].
  assert (E : is_ok (envelope_seal toy_binding 1 (bstr "wrapped") (toy_id 32 "dek")
    (toy_id 24 "nonce") (bstr "state")) = true) by (vm_compute; reflexivity).
  destruct (envelope_seal _ _ _ _ _ _); [apply H|discriminate E].
Defined.

(** ** The state store *)

Definition plain_fs : FileSystem := mkFs (fun p => Some p) (fun _ => FsNotFound) (fun _ => None).
Definition db_path : path := bstr "/tmp/state.sqlite".

Definition blank_db : StateDb :=
  mkStateDb (mkShape 0 0 [] [("sqlite_schema", "table", 5, 0, 0)%string] [] 0 0 "ok"%string false) ∅ false.

Definition toy_create (c : Connection StateDb) : Result (Handle ProfileBinding) * Connection StateDb :=
  create_with_rng plain_fs db_path toy_binding (bstr "state") (Some (toy_id 32 "dek"))
    (Some (toy_id 24 "nonce")) c.

Definition handle1 : Handle ProfileBinding :=
  let w := as_slice (profile_id toy_binding) ++ as_slice (key_ref toy_binding)
             ++ as_slice (toy_id 32 "dek") in
  mkHandle toy_binding toy_binding (toy_id 32 "dek") w (toy_id 24 "nonce")
    (bstr "state" ++ toy_tag (toy_id 32 "dek") (toy_id 24 "nonce")
       (frames 4 (aad_parts toy_binding 1 w)) (bstr "state")) 1 (bstr "state") false.

Definition file1 : StateDb :=
  mkStateDb (client_state_shape "ok") {[ SLOT := row_of handle1 ]} false.
Definition store1 : ClientStateStore ProfileBinding := mkStore (mkConn file1 None []) handle1.



(** The file [toy_create] makes is [file1]. *)
Example toy_create_file :
  bool_decide (is_ok (fst (toy_create (file blank_db))) = true /\
    client_state (disk (snd (toy_create (file blank_db)))) = client_state file1) = true.
Proof. vm_compute. reflexivity. Qed.

Lemma handle1_opens :
  envelope_open (binding handle1) (generation handle1) (wrapped_dek handle1) (dek handle1)
    (nonce handle1) (ciphertext handle1) = Ok (state handle1).
Proof. vm_compute. reflexivity. Qed.

Lemma store1_current : current_store store1.
Proof.
  split; [reflexivity|]. split; [reflexivity|]. split.
  - vm_compute. reflexivity.
  - apply lookup_singleton_eq.
  - reflexivity.
  - by apply unwrap_wrap.
  - exact handle1_opens.
  - simpl. unfold I64_MAX. lia.
  - vm_compute. split; discriminate.
  - vm_compute. split; discriminate.
Qed.

Lemma plain_fs_ok : reject_anomalous_wal plain_fs db_path = Ok tt.
Proof. reflexivity. Qed.

(** A commit whose confirmation is lost. *)
Definition lost : list io := replicate 11 IoOk ++ [IoLost].
Definition store1_lost : ClientStateStore ProfileBinding := mkStore (mkConn file1 None lost) handle1.

Lemma store1_lost_current : current_store store1_lost.
Proof. exact store1_current. Qed.

Lemma commit_is_old_or_new_witness :
  is_ok (fst (commit_with_rng (bstr "next") (Some (toy_id 24 "n2")) store1_lost)) = false /\
  exists h, reopen plain_fs db_path
      (snd (commit_with_rng (bstr "next") (Some (toy_id 24 "n2")) store1_lost)) = Ok h.
Proof.
  split; [vm_compute; reflexivity|].
  pose proof (commit_is_old_or_new plain_fs db_path store1_lost (bstr "next")
    (Some (toy_id 24 "n2")) store1_lost_current plain_fs_ok) as H.
  destruct (commit_with_rng _ _ _) as [r s']. destruct H as (h & H & _). exists h. exact H.
Defined.

(** A second handle on the same file after the first one committed. *)
Definition stale_store : ClientStateStore ProfileBinding :=
  mkStore (store_connection (snd (commit_with_rng (bstr "next") (Some (toy_id 24 "n2")) store1)))
    handle1.

Lemma stale_handle_cannot_write_witness :
  is_ok (fst (commit_with_rng (bstr "other") (Some (toy_id 24 "n3")) stale_store)) = false.
Proof.
  pose proof (stale_handle_cannot_write stale_store (bstr "other") (Some (toy_id 24 "n3"))) as H.
  destruct (commit_with_rng _ _ stale_store) as [r s'].
  destruct H as [[e ->] _]; [vm_compute; reflexivity|vm_compute; reflexivity| |reflexivity].
  refine (bool_decide_unpack _ _). vm_compute. exact I.
Defined.

Lemma poisoned_handle_refuses_witness :
  get_state (handle (mkStore (store_connection store1) (poison handle1))) = Err Storage.
Proof.
  apply (poisoned_handle_refuses (mkStore (store_connection store1) (poison handle1)) [] None).
  reflexivity.
Defined.

Lemma create_never_overwrites_witness :
  is_ok (fst (toy_create (file file1))) = false.
Proof.
  pose proof (create_never_overwrites plain_fs db_path toy_binding (bstr "state")
    (Some (toy_id 32 "dek")) (Some (toy_id 24 "nonce")) (file file1) eq_refl) as H.
  unfold toy_create. destruct (create_with_rng _ _ _ _ _ _ _) as [r c'].
  apply H. vm_compute. reflexivity.
Defined.

(** The same database in WAL mode: opening it converts it. *)
Definition file1_wal : StateDb :=
  mkStateDb (shape file1) (client_state file1) true.


Definition toy_commits : list CommitCall :=
  [mkCommit (bstr "a") (Some (toy_id 24 "n2")) []; mkCommit (bstr "b") (Some (toy_id 24 "n3")) [IoErr];
   mkCommit (bstr "c") (Some (toy_id 24 "n4")) []].

Lemma successful_commits_form_prefix_witness :
  is_ok <$> fst (commit_run toy_commits store1) = [true; false; false] /\
  exists n errs, fst (commit_run toy_commits store1) = replicate n (Ok tt) ++ errs.
Proof.
  split; [vm_compute; reflexivity|].
  pose proof (successful_commits_form_prefix plain_fs db_path toy_commits store1 store1_current
    plain_fs_ok) as H.
  destruct (commit_run toy_commits store1) as [rs s'].
  destruct H as (n & errs & H & _). exists n, errs. exact H.
Defined.

(** ** The relay's schema *)

Definition legacy_file : RelayFile :=
  mkRelayFile 1 (toy_table "legacy" 4) false ["ok"%string]
    (mkDb ∅ [mkMessage [] [] [] 5000 []] ∅ ∅ ∅ ∅) true.

(** A legacy database torn by a crash, whose hot journal restores it. *)
Definition torn_file : RelayFile :=
  mkRelayFile 1 (toy_table "legacy" 4) false ["row missing"%string] (mkDb ∅ [] ∅ ∅ ∅ ∅) true.

Definition hot_journal_fs : FileSystem :=
  mkFs (fun p => Some p)
    (fun p => if decide (p = db_path) then FsOk (mkMetadata true 4096)
              else if decide (p = db_path ++ bstr "-journal") then FsOk (mkMetadata true 512)
              else FsNotFound)
    (fun _ => Some (mkFile (replicate 100 x00) false)).

Lemma open_migrates_atomically_witness :
  exists c', open_at hot_journal_fs true db_path (fun _ => None) (fun _ => legacy_file) 1000
      (at_file torn_file) = (Ok [], c') /\
    init_tx 1000 (rollback_file legacy_file) (disk c').
Proof.
  assert (Hp : preflight_existing_database hot_journal_fs true db_path (fun _ => None) = Ok tt)
    by (vm_compute; reflexivity).
  pose proof (open_migrates_atomically hot_journal_fs true db_path (fun _ => None)
    (fun _ => legacy_file) 1000 (at_file torn_file) eq_refl Hp) as H.
  destruct (open_at _ _ _ _ _ _ _) as [r c']. destruct H as (H & _ & Hall).
  assert (E : r = Ok []).
  { apply Hall; [reflexivity|vm_compute; reflexivity|unfold I64_MAX; lia]. }
  subst r. exists c'. split; [reflexivity|apply H].
Defined.

Definition fresh_file : RelayFile := mkRelayFile 0 empty_view false ["ok"%string] empty_db false.
Definition created_file : RelayFile := disk (snd (initialize 1000 (at_file fresh_file))).

Lemma created_file_init : init_tx 1000 fresh_file created_file.
Proof.
  destruct (initialize_clean 1000 fresh_file) as [(d' & E & Ht)|(d' & _ & [H|H])];
    [|vm_compute in H; discriminate H|vm_compute in H; discriminate H].
  unfold created_file. rewrite E. exact Ht.
Qed.

Lemma reopening_only_sweeps_witness :
  exists d'', initialize 2000 (at_file created_file) = (Ok [], at_file d'') /\
    rf_rows d'' = sweep 2000 (rf_rows created_file).
Proof.
  destruct (reopening_only_sweeps 1000 2000 fresh_file created_file created_file_init
    ltac:(unfold I64_MAX; lia)) as (d'' & E & _ & _ & H).
  exists d''. split; [exact E|exact H].
Defined.

(** A path with a [-wal] companion beside a database that is not in WAL mode. *)
Definition planted_fs : FileSystem :=
  mkFs (fun p => Some p) (fun _ => FsOk (mkMetadata true 4096))
    (fun _ => Some (mkFile (replicate 100 x00) false)).

Definition lone_fs : FileSystem :=
  mkFs (fun p => Some p)
    (fun p => if decide (p = db_path) then FsOk (mkMetadata true 4096) else FsNotFound)
    (fun _ => Some (mkFile (replicate 100 x00) false)).

(** It is refused; a database beside no companion, whose image is in order, is admitted. *)
Lemma preflight_guards_open_witness :
  open_at planted_fs true db_path (fun _ => None) id 1000 (at_file fresh_file)
    = (Err Storage, at_file fresh_file) /\
  admitted lone_fs true db_path (fun _ => Some (at_file fresh_file)).
Proof.
  destruct (preflight_guards_open planted_fs true db_path (fun _ => None)) as (_ & _ & H);
    [discriminate|].
  split; [apply H; vm_compute; reflexivity|].
  destruct (preflight_guards_open lone_fs true db_path (fun _ => Some (at_file fresh_file)))
    as (H1 & _ & _); [by intros _ image [= <-]|].
  apply H1. vm_compute. reflexivity.
Defined.
