(* ===== verification/RelayTests.v ===== *)
(** * The integration tests: [tests/e2e_relay.rs], [tests/expiry_revalidation.rs],
    [tests/request_boundaries.rs], [tests/state_staging.rs]

    The tests of the crate, translated and evaluated on the model with the concrete instances of
    the libraries: what the authors assert of the relay, the capabilities and the clients holds
    of the definitions. Random draws are constants, the system clock reads a fixed time before
    the [NOW] of the tests, and assertions on the raw bytes of the database file are left out. *)

From S2P Require Import Prelude Core Capability Sqlite RelayDb Relay.
From S2P Require Import RelayFacts RelayTx RelayTrace RelayConcurrent ToyCrypto Client Envelope.
From S2P Require Import Companion Schema ToyEndpoint EndpointWitness.

#[local] Open Scope string_scope.
#[local] Open Scope Z_scope.

Definition NOW : Z := 1800000000.
(** What [unix_now] reads while the tests run. *)
Definition CLOCK : option Z := Some 1790000000.

(** ** The test world *)

(** The relay's database file, the open relay, and the clients of the test. *)
Record TestWorld : Type := mkTestWorld {
  tw_file : RelayFile;
  tw_relay : Relay;
  tw_alice : OlmClient;
  tw_bob : OlmClient;
}.

(** A test ends with [Ok], with an error that [?] returned, or in a panic of an assertion. *)
Abbreviation TestM := (SM TestWorld (option LabError)).

Definition assert (b : bool) : TestM unit := sm_guard b None.
Definition try {A} (r : Result A) : TestM A :=
  match r with Ok a => mret a | Err e => sm_throw (Some e) end.

(** [matches!(r, Err(e))] *)
Definition fails_with {A} (e : LabError) (r : Result A) : bool :=
  match r with Err e' => bool_decide (e' = e) | Ok _ => false end.

(** Calls whose result the test looks at. *)
Definition relay_call {A} (m : RelayM A) : TestM (Result A) := fun w =>
  let '(r, s) := m (tw_relay w) in (Ok r, mkTestWorld (tw_file w) s (tw_alice w) (tw_bob w)).
Definition alice_call {A} (m : ClientM A) : TestM (Result A) := fun w =>
  let '(r, c) := m (tw_alice w) in (Ok r, mkTestWorld (tw_file w) (tw_relay w) c (tw_bob w)).
Definition bob_call {A} (m : ClientM A) : TestM (Result A) := fun w =>
  let '(r, c) := m (tw_bob w) in (Ok r, mkTestWorld (tw_file w) (tw_relay w) (tw_alice w) c).

(** Calls followed by [?]. *)
Definition relay_try {A} (m : RelayM A) : TestM A := r ← relay_call m; try r.
Definition alice_try {A} (m : ClientM A) : TestM A := r ← alice_call m; try r.
Definition bob_try {A} (m : ClientM A) : TestM A := r ← bob_call m; try r.

Definition set_opened (f : RelayFile) (r : Relay) : TestM unit :=
  sm_modify (fun w => mkTestWorld f r (tw_alice w) (tw_bob w)).

(** What an open left, and the relay on it. *)
Definition adopt (o : Result (list string) * Connection RelayFile) : TestM unit :=
  match o with
  | (Ok events, c) => set_opened (disk c) (at_rest (rf_rows (disk c)) events)
  | (Err e, _) => sm_throw (Some e)
  end.

(** [Relay::open_at(&database, now)?]; no companion files lie beside the database. *)
Definition open_relay_at (now : Z) : TestM unit :=
  w ← sm_get;
  adopt (open_at plain_fs true db_path (fun _ => Some (at_file (tw_file w))) id now (at_file (tw_file w))).
(** [Relay::open(&database)?] *)
Definition open_relay : TestM unit :=
  w ← sm_get;
  adopt (relay_open plain_fs true db_path (fun _ => Some (at_file (tw_file w))) id CLOCK
           (at_file (tw_file w))).
(** [Relay::open_in_memory()?] *)
Definition open_memory : TestM unit := adopt (open_in_memory CLOCK (at_file fresh_file)).
(** [drop(relay)]: the file keeps the rows. *)
Definition drop_relay : TestM unit :=
  sm_modify (fun w => mkTestWorld
    (mkRelayFile (rf_version (tw_file w)) (rf_view (tw_file w)) (rf_foreign_key_problem (tw_file w))
       (rf_integrity (tw_file w)) (disk (connection (tw_relay w))) (rf_wal (tw_file w)))
    (tw_relay w) (tw_alice w) (tw_bob w)).

Definition passes (t : TestM unit) : Prop :=
  fst (t (mkTestWorld fresh_file (at_rest empty_db []) alice0 bob0)) = Ok tt.

(** ** Shared set-up *)

(** [MailboxOwner::new()] *)
Definition owner (seed : string) : MailboxOwner :=
  mkOwner (toy_id 32 (seed ++ " queue")) (toy_id 32 (seed ++ " send"))
    (toy_id 32 (seed ++ " receive")) (toy_id 32 (seed ++ " manage")).
(** [Nonce::random()], [MessageId::random()] *)
Definition nonce (seed : string) : Nonce := toy_id 16 seed.
Definition message_id (seed : string) : MessageId := toy_id 16 seed.
Definition untrusted (s : string) : EncryptedPacket := mkPacket (bstr s).

(** [paired_clients] *)
Definition paired_clients : TestM VerifiedPeerPreKey :=
  sm_modify (fun w => mkTestWorld (tw_file w) (tw_relay w) alice0 bob0);;
  alice_bundle ← alice_try (prekey_bundle (bstr "k1") (NOW + 60));
  bob_bundle ← bob_try (prekey_bundle (bstr "k2") (NOW + 60));
  w ← sm_get;
  verified_alice ← try (peer_verify alice_bundle (signing_identity (tw_alice w)) NOW);
  verified_bob ← try (peer_verify bob_bundle (signing_identity (tw_bob w)) NOW);
  alice_try (start_outbound_session (bstr "out") verified_bob NOW);;
  mret verified_alice.

(** [fetched.iter().find(|envelope| envelope.message_id == id).ok_or(..)?] *)
Definition find_envelope (id : MessageId) (fetched : list StoredEnvelope) : TestM StoredEnvelope :=
  match list_find (fun e => se_message_id e = id) fetched with
  | Some (_, e) => mret e
  | None => sm_throw (Some MessageNotFound)
  end.

Definition first_envelope_of (fetched : list StoredEnvelope) : TestM StoredEnvelope :=
  match head fetched with Some e => mret e | None => sm_throw (Some MessageNotFound) end.

Definition assert_queued (n : nat) : TestM unit :=
  count ← relay_try (queued_message_count CLOCK); assert (bool_decide (count = n)).
Definition assert_queued_at (now : Z) (n : nat) : TestM unit :=
  count ← relay_try (queued_message_count_at now); assert (bool_decide (count = n)).
Definition assert_tombstones (n : nat) : TestM unit :=
  count ← relay_try tombstone_count; assert (bool_decide (count = n)).

(** ** [tests/e2e_relay.rs] *)

Definition ciphertext_is_stored_then_logically_erased_after_recipient_ack : TestM unit :=
  open_relay;;
  verified_alice ← paired_clients;
  let bob_inbox := owner "bob" in
  relay_try (register (registration bob_inbox (nonce "r") (NOW + 60)) NOW);;
  let canary := "PT-A-7f3-relay-must-never-see-this" in
  sealed ← alice_try (seal (bstr "e") (message_id "m") canary NOW);
  let '(id, packet) := sealed in
  relay_try (enqueue (authorize (sender_capability bob_inbox) id packet (NOW + 3600)) NOW);;
  assert_queued 1;;
  let receiver := receiver_capability bob_inbox in
  fetched ← relay_try (fetch (authorize_fetch receiver (nonce "f") (NOW + 60)) NOW);
  assert_queued 1;;
  envelope ← first_envelope_of fetched;
  verified_envelope ← try (verify_envelope receiver envelope NOW);
  opened ← bob_try (open_initial verified_envelope verified_alice NOW);
  assert (bool_decide (pm_body (om_message opened) = canary));;
  outcome ← relay_try (acknowledge (authorize_ack receiver opened (NOW + 60)) NOW);
  assert (bool_decide (outcome = Deleted));;
  assert_queued 0;;
  assert_tombstones 1;;
  drop_relay;;
  open_relay_at (NOW + 1);;
  assert_queued_at (NOW + 1) 0;;
  assert_tombstones 1.

Definition retries_are_idempotent_and_conflicting_ciphertext_is_rejected : TestM unit :=
  open_memory;;
  paired_clients;;
  let bob_inbox := owner "bob" in
  relay_try (register (registration bob_inbox (nonce "r") (NOW + 60)) NOW);;
  sealed ← alice_try (seal (bstr "e1") (message_id "m1") "one" NOW);
  let '(id, packet) := sealed in
  let sender := sender_capability bob_inbox in
  let request := authorize sender id packet (NOW + 3600) in
  first ← relay_try (enqueue request NOW);
  assert (bool_decide (first = Stored));;
  second ← relay_try (enqueue request NOW);
  assert (bool_decide (second = Duplicate));;
  assert_queued 1;;
  sealed ← alice_try (seal (bstr "e2") (message_id "m2") "different" (NOW + 1));
  let conflict := authorize sender id (snd sealed) (NOW + 3600) in
  r ← relay_call (enqueue conflict NOW);
  assert (fails_with MessageConflict r);;
  assert_queued 1.

Definition wrong_capabilities_cannot_send_fetch_or_manage : TestM unit :=
  open_memory;;
  let target := owner "target" in
  let attacker := owner "attacker" in
  let target_registration := registration target (nonce "r") (NOW + 60) in
  created ← relay_try (register target_registration NOW);
  assert created;;
  again ← relay_try (register target_registration NOW);
  assert (negb again);;
  let r := registration attacker (nonce "r2") (NOW + 60) in
  let unauthorized_registration :=
    mkRegistration (mo_queue_id target) (mr_send_key r) (mr_receive_key r) (mr_manage_key r)
      (mr_nonce r) (mr_valid_until r) (mr_signature r) in
  r ← relay_call (register unauthorized_registration NOW);
  assert (fails_with Unauthorized r);;
  let r := authorize (sender_capability attacker) (message_id "m") (untrusted "opaque-test-packet")
             (NOW + 60) in
  let unauthorized_send :=
    mkSend (mo_queue_id target) (sr_message_id r) (sr_packet r) (sr_expires_at r) (sr_signature r) in
  r ← relay_call (enqueue unauthorized_send NOW);
  assert (fails_with Unauthorized r);;
  let r := authorize_fetch (receiver_capability attacker) (nonce "f") (NOW + 60) in
  let unauthorized_fetch :=
    mkFetch (mo_queue_id target) (fr_nonce r) (fr_valid_until r) (fr_signature r) in
  r ← relay_call (fetch unauthorized_fetch NOW);
  assert (fails_with Unauthorized r);;
  let r := authorize_delete (manager_capability attacker) (nonce "d") (NOW + 60) in
  let unauthorized_delete :=
    mkDelete (mo_queue_id target) (dr_nonce r) (dr_valid_until r) (dr_signature r) in
  r ← relay_call (delete_mailbox unauthorized_delete NOW);
  assert (fails_with Unauthorized r).

Example e2e_first_tests :
  bool_decide (passes ciphertext_is_stored_then_logically_erased_after_recipient_ack /\
    passes retries_are_idempotent_and_conflicting_ciphertext_is_rejected /\
    passes wrong_capabilities_cannot_send_fetch_or_manage) = true.
Proof. vm_compute. reflexivity. Qed.

(** [*byte ^= 1] in the middle of the packet *)
Definition flip_middle (l : list byte) : list byte :=
  alter (fun b => byte_of_Z (Z.lxor (byte_val b) 1)) (length l / 2)%nat l.

Definition tamper_wrong_recipient_and_missing_session_all_fail_closed : TestM unit :=
  verified_alice ← paired_clients;
  let charlie := new (bstr "charlie") (toy_id 16 "charlie's conversation") in
  let mailbox := owner "mailbox" in
  open_memory;;
  relay_try (register (registration mailbox (nonce "r") (NOW + 60)) NOW);;
  sealed ← alice_try (seal (bstr "e") (message_id "m") "tamper-canary" NOW);
  let '(id, packet) := sealed in
  relay_try (enqueue (authorize (sender_capability mailbox) id packet (NOW + 60)) NOW);;
  fetched ← relay_try (fetch (authorize_fetch (receiver_capability mailbox) (nonce "f") (NOW + 60))
                         NOW);
  envelope ← first_envelope_of fetched;
  let receiver := receiver_capability mailbox in
  assert (fails_with Unauthorized
    (verify_envelope (receiver_capability (owner "other mailbox")) envelope NOW));;
  let tampered := mkStored (se_queue_id envelope) (se_message_id envelope)
    (mkPacket (flip_middle (packet_bytes (se_packet envelope)))) (se_expires_at envelope)
    (se_sender_signature envelope) in
  assert (fails_with Unauthorized (verify_envelope receiver tampered NOW));;
  let changed_outer_id := mkStored (se_queue_id envelope) (message_id "another")
    (se_packet envelope) (se_expires_at envelope) (se_sender_signature envelope) in
  assert (fails_with Unauthorized (verify_envelope receiver changed_outer_id NOW));;
  let changed_expiry := mkStored (se_queue_id envelope) (se_message_id envelope)
    (se_packet envelope) (se_expires_at envelope + 1) (se_sender_signature envelope) in
  assert (fails_with Unauthorized (verify_envelope receiver changed_expiry NOW));;
  verified ← try (verify_envelope receiver envelope NOW);
  assert (negb (is_ok (fst (open_initial verified verified_alice NOW charlie))));;
  opened ← bob_try (open_initial verified verified_alice NOW);
  assert (bool_decide (pm_body (om_message opened) = "tamper-canary"));;
  let no_session := new (bstr "no session") (toy_id 16 "unused conversation") in
  assert (fails_with MissingSession
    (fst (seal (bstr "e2") (message_id "m2") "must-not-send" NOW no_session))).

Definition forged_curve_prekey_bundle_is_rejected_by_pinned_signing_identity : TestM unit :=
  let attacker := new (bstr "attacker") toy_conversation in
  claimed ← bob_try (prekey_bundle (bstr "k2") (NOW + 60));
  attacker_bundle ← try (fst (prekey_bundle (bstr "k3") (NOW + 60) attacker));
  let claimed_bob_bundle := mkPeer (pp_signing_identity claimed) (pp_curve_identity attacker_bundle)
    (pp_one_time_key attacker_bundle) (pp_valid_until claimed) (pp_signature claimed) in
  w ← sm_get;
  assert (fails_with PeerVerificationFailed
    (peer_verify claimed_bob_bundle (signing_identity (tw_bob w)) NOW)).

Definition ack_binding_and_lost_request_or_response_retries_are_safe : TestM unit :=
  open_memory;;
  verified_alice ← paired_clients;
  let bob_inbox := owner "bob" in
  relay_try (register (registration bob_inbox (nonce "r") (NOW + 60)) NOW);;
  let sender := sender_capability bob_inbox in
  sealed ← alice_try (seal (bstr "e") (message_id "m1") "first" NOW);
  let '(first_id, first_packet) := sealed in
  relay_try (enqueue (authorize sender first_id first_packet (NOW + 3600)) NOW);;
  let second_id := message_id "m2" in
  relay_try (enqueue (authorize sender second_id (untrusted "second-opaque-packet") (NOW + 3600))
               NOW);;
  let receiver := receiver_capability bob_inbox in
  fetched ← relay_try (fetch (authorize_fetch receiver (nonce "f") (NOW + 60)) NOW);
  first ← find_envelope first_id fetched;
  verified ← try (verify_envelope receiver first NOW);
  opened ← bob_try (open_initial verified verified_alice NOW);
  let retained_ack := authorize_ack receiver opened (NOW + 60) in
  let substituted := mkAck (ar_queue_id retained_ack) second_id (ar_packet_hash retained_ack)
    (ar_valid_until retained_ack) (ar_signature retained_ack) in
  r ← relay_call (acknowledge substituted NOW);
  assert (fails_with Unauthorized r);;
  assert_queued 2;;
  let changed_digest := mkAck (ar_queue_id retained_ack) (ar_message_id retained_ack)
    (default (ar_packet_hash retained_ack) (array_from_slice 32 (replicate 32 x00)))
    (ar_valid_until retained_ack) (ar_signature retained_ack) in
  r ← relay_call (acknowledge changed_digest NOW);
  assert (fails_with Unauthorized r);;
  outcome ← relay_try (acknowledge retained_ack NOW);
  assert (bool_decide (outcome = Deleted));;
  outcome ← relay_try (acknowledge retained_ack NOW);
  assert (bool_decide (outcome = AlreadyDeleted));;
  assert_queued 1.

Definition replayed_fetch_is_rejected_and_expired_ciphertext_is_purged : TestM unit :=
  open_memory;;
  let mailbox := owner "mailbox" in
  relay_try (register (registration mailbox (nonce "r") (NOW + 60)) NOW);;
  let request := authorize (sender_capability mailbox) (message_id "m")
                   (untrusted "synthetic-ciphertext") (NOW + 1) in
  relay_try (enqueue request NOW);;
  let request := authorize_fetch (receiver_capability mailbox) (nonce "f") (NOW + 60) in
  fetched ← relay_try (fetch request NOW);
  assert (bool_decide (length fetched = 1%nat));;
  r ← relay_call (fetch request NOW);
  assert (fails_with Unauthorized r);;
  purged ← relay_try (purge_expired (NOW + 1));
  assert (bool_decide (purged = 1%nat));;
  assert_queued 0.

Definition restart_sweeps_idle_expired_ciphertext_without_a_recipient_fetch : TestM unit :=
  let mailbox := owner "mailbox" in
  open_relay_at NOW;;
  relay_try (register (registration mailbox (nonce "r") (NOW + 60)) NOW);;
  relay_try (enqueue (authorize (sender_capability mailbox) (message_id "m")
                        (untrusted "restart-expiry-ciphertext") (NOW + 1)) NOW);;
  drop_relay;;
  w ← sm_get;
  assert (bool_decide (length (messages (rf_rows (tw_file w))) = 1%nat));;
  open_relay_at (NOW + 2);;
  drop_relay;;
  w ← sm_get;
  assert (bool_decide (length (messages (rf_rows (tw_file w))) = 0%nat)).

Definition deleted_mailbox_cannot_be_resurrected_by_registration_or_send_replay : TestM unit :=
  open_memory;;
  let mailbox := owner "mailbox" in
  let registration := registration mailbox (nonce "r") (NOW + 60) in
  relay_try (register registration NOW);;
  let send := authorize (sender_capability mailbox) (message_id "m")
                (untrusted "captured-ciphertext") (NOW + 3600) in
  relay_try (enqueue send NOW);;
  relay_try (delete_mailbox (authorize_delete (manager_capability mailbox) (nonce "d") (NOW + 60))
               (NOW + 1));;
  r ← relay_call (register registration (NOW + 1));
  assert (fails_with MailboxConflict r);;
  r ← relay_call (enqueue send (NOW + 1));
  assert (fails_with MailboxNotFound r).

Example e2e_more_tests :
  bool_decide (passes tamper_wrong_recipient_and_missing_session_all_fail_closed /\
    passes forged_curve_prekey_bundle_is_rejected_by_pinned_signing_identity /\
    passes ack_binding_and_lost_request_or_response_retries_are_safe /\
    passes replayed_fetch_is_rejected_and_expired_ciphertext_is_purged /\
    passes restart_sweeps_idle_expired_ciphertext_without_a_recipient_fetch /\
    passes deleted_mailbox_cannot_be_resurrected_by_registration_or_send_replay) = true.
Proof. vm_compute. reflexivity. Qed.

(** The two threads of a test, each with its own relay on the same file, in the order in which
    they get the lock: one waits within its busy timeout while the other finishes. *)
Definition both_orders : list (nat * nat) := [(0, 1); (1, 0)]%nat.

Definition race_of (r1 r2 : SendRequest) (order : nat * nat) : TestM (list (Result Reply)) :=
  w ← sm_get;
  let threads : gmap nat Process := <[0%nat := mkProcess Free []]> {[ 1%nat := mkProcess Free [] ]} in
  let turns :=
    [DoCall 0 (mkCall (Enqueue r1) NOW []); DoCall 1 (mkCall (Enqueue r2) NOW []);
     DoOpen order.1; DoWork order.1; DoReturn order.1;
     DoOpen order.2; DoWork order.2; DoReturn order.2] in
  match schedule turns (RelayConcurrent.opened (disk (connection (tw_relay w))) threads) with
  | None => sm_throw None
  | Some (events, system) =>
      set_opened (tw_file w) (at_rest (RelayConcurrent.file system) []);;
      mret (snd <$> finished events)
  end.

Definition count_matching (p : Result Reply -> bool) (l : list (Result Reply)) : nat :=
  length (List.filter p l).
Definition is_stored (r : Result Reply) : bool :=
  match r with Ok (Enqueued Stored) => true | _ => false end.
Definition is_duplicate (r : Result Reply) : bool :=
  match r with Ok (Enqueued Duplicate) => true | _ => false end.

Definition concurrent_identical_sends_resolve_to_stored_plus_duplicate (order : nat * nat)
    : TestM unit :=
  let mailbox := owner "mailbox" in
  open_relay_at NOW;;
  relay_try (register (registration mailbox (nonce "r") (NOW + 60)) NOW);;
  let request := authorize (sender_capability mailbox) (message_id "m")
                   (untrusted "concurrent-ciphertext") (NOW + 60) in
  outcomes ← race_of request request order;
  assert (bool_decide (count_matching is_stored outcomes = 1%nat /\
                       count_matching is_duplicate outcomes = 1%nat));;
  assert_queued_at NOW 1.

Definition concurrent_conflicting_sends_resolve_to_stored_plus_conflict (order : nat * nat)
    : TestM unit :=
  let mailbox := owner "mailbox" in
  open_relay_at NOW;;
  relay_try (register (registration mailbox (nonce "r") (NOW + 60)) NOW);;
  let sender := sender_capability mailbox in
  let request_one := authorize sender (message_id "m") (untrusted "concurrent-conflict-one")
                       (NOW + 60) in
  let request_two := authorize sender (message_id "m") (untrusted "concurrent-conflict-two")
                       (NOW + 60) in
  outcomes ← race_of request_one request_two order;
  assert (bool_decide (count_matching is_stored outcomes = 1%nat /\
                       count_matching (fails_with MessageConflict) outcomes = 1%nat));;
  assert_queued_at NOW 1.

Example e2e_concurrent_tests :
  bool_decide (
    Forall (fun o => passes (concurrent_identical_sends_resolve_to_stored_plus_duplicate o)) both_orders /\
    Forall (fun o => passes (concurrent_conflicting_sends_resolve_to_stored_plus_conflict o)) both_orders)
  = true.
Proof. vm_compute. reflexivity. Qed.

(** [relay_schema_has_no_users_contacts_conversations_or_plaintext_columns] *)
Definition to_lower (a : Ascii.ascii) : Ascii.ascii :=
  let n := Ascii.nat_of_ascii a in
  if (65 <=? n)%nat && (n <=? 90)%nat then Ascii.ascii_of_nat (n + 32) else a.
Definition to_lowercase (s : string) : string :=
  String.string_of_list_ascii (to_lower <$> String.list_ascii_of_string s).

Example relay_schema_has_no_users_contacts_conversations_or_plaintext_columns :
  Forall (fun prohibited => String.index 0 prohibited (to_lowercase CURRENT_SCHEMA_DDL) = None)
    ["plaintext"; "contact"; "conversation"; "phone"; "email"; "username"].
Proof. repeat constructor. Qed.

(** ** [tests/expiry_revalidation.rs] *)

Definition expired_verified_prekey_cannot_create_an_outbound_session : TestM unit :=
  bob_bundle ← bob_try (prekey_bundle (bstr "k2") (NOW + 1));
  w ← sm_get;
  verified_bob ← try (peer_verify bob_bundle (signing_identity (tw_bob w)) NOW);
  r ← alice_call (start_outbound_session (bstr "out") verified_bob (NOW + 1));
  assert (fails_with PeerVerificationFailed r);;
  r ← alice_call (seal (bstr "e") (message_id "m") "must-not-send" (NOW + 1));
  assert (fails_with MissingSession r).

(** Seal [body] as Alice, queue it until [expires_at], fetch with [n] and pick it. *)
Definition send_and_fetch (mailbox : MailboxOwner) (seed body : string) (sent_at expires_at : Z)
    : TestM StoredEnvelope :=
  sealed ← alice_try (seal (bstr seed) (message_id seed) body sent_at);
  let '(id, packet) := sealed in
  relay_try (enqueue (authorize (sender_capability mailbox) id packet expires_at) NOW);;
  fetched ← relay_try (fetch (authorize_fetch (receiver_capability mailbox) (nonce seed) (NOW + 60))
                         NOW);
  find_envelope id fetched.

Definition expired_verified_envelopes_cannot_advance_initial_or_existing_sessions : TestM unit :=
  verified_alice ← paired_clients;
  open_memory;;
  let mailbox := owner "mailbox" in
  relay_try (register (registration mailbox (nonce "r") (NOW + 60)) NOW);;
  let receiver := receiver_capability mailbox in
  expired_initial ← send_and_fetch mailbox "m1" "expired-initial" NOW (NOW + 1);
  verified ← try (verify_envelope receiver expired_initial NOW);
  r ← bob_call (open_initial verified verified_alice (NOW + 1));
  assert (fails_with Unauthorized r);;
  fresh_initial ← send_and_fetch mailbox "m2" "fresh-initial" NOW (NOW + 60);
  verified ← try (verify_envelope receiver fresh_initial NOW);
  bob_try (open_initial verified verified_alice NOW);;
  expired_message ← send_and_fetch mailbox "m3" "expired-established" NOW (NOW + 1);
  verified ← try (verify_envelope receiver expired_message NOW);
  r ← bob_call (open verified (NOW + 1));
  assert (fails_with Unauthorized r);;
  fresh_message ← send_and_fetch mailbox "m4" "fresh-established" NOW (NOW + 60);
  verified ← try (verify_envelope receiver fresh_message NOW);
  opened ← bob_try (open verified NOW);
  assert (bool_decide (pm_body (om_message opened) = "fresh-established")).

(** ** [tests/request_boundaries.rs] *)

(** [for invalid_until in [..] { .. }] *)
Fixpoint for_each {A} (l : list A) (body : A -> TestM unit) : TestM unit :=
  match l with
  | [] => mret tt
  | x :: l => body x;; for_each l body
  end.

Definition invalid_windows : list Z := [NOW - 1; NOW; NOW + 301].

Definition signed_request_time_boundaries_fail_closed_for_every_command : TestM unit :=
  verified_alice ← paired_clients;
  let mailbox := owner "mailbox" in
  open_memory;;
  for_each invalid_windows (fun invalid_until =>
    r ← relay_call (register (registration mailbox (nonce "r0") invalid_until) NOW);
    assert (fails_with RequestExpired r));;
  relay_try (register (registration mailbox (nonce "r") (NOW + 60)) NOW);;
  let receiver := receiver_capability mailbox in
  let manager := manager_capability mailbox in
  for_each invalid_windows (fun invalid_until =>
    r ← relay_call (fetch (authorize_fetch receiver (nonce "f0") invalid_until) NOW);
    assert (fails_with RequestExpired r);;
    r ← relay_call (delete_mailbox (authorize_delete manager (nonce "d0") invalid_until) NOW);
    assert (fails_with RequestExpired r));;
  envelope ← send_and_fetch mailbox "m" "request-boundary" NOW (NOW + 60);
  verified ← try (verify_envelope receiver envelope NOW);
  opened ← bob_try (open_initial verified verified_alice NOW);
  for_each invalid_windows (fun invalid_until =>
    r ← relay_call (acknowledge (authorize_ack receiver opened invalid_until) NOW);
    assert (fails_with RequestExpired r));;
  let maximum_window := authorize_fetch receiver (nonce "f1") (NOW + 300) in
  fetched ← relay_try (fetch maximum_window NOW);
  assert (bool_decide (length fetched = 1%nat));;
  r ← relay_call (fetch maximum_window NOW);
  assert (fails_with Unauthorized r);;
  outcome ← relay_try (acknowledge (authorize_ack receiver opened (NOW + 60)) NOW);
  assert (bool_decide (outcome = Deleted)).

Definition message_retention_expiry_bounds_fail_closed : TestM unit :=
  let mailbox := owner "mailbox" in
  let sender := sender_capability mailbox in
  open_memory;;
  relay_try (register (registration mailbox (nonce "r") (NOW + 60)) NOW);;
  for_each [NOW; NOW + 7 * 24 * 60 * 60 + 1] (fun invalid_expiry =>
    r ← relay_call (enqueue (authorize sender (message_id "m") (untrusted "synthetic-ciphertext")
                               invalid_expiry) NOW);
    assert (fails_with InvalidExpiry r));;
  assert_queued_at NOW 0.

(** ** [tests/state_staging.rs] *)

(** Seal as Alice and queue under another identifier. *)
Definition send_mislabelled (mailbox : MailboxOwner) (seed body : string) (sent_at : Z)
    : TestM StoredEnvelope :=
  sealed ← alice_try (seal (bstr seed) (message_id seed) body sent_at);
  let wrong_outer_id := message_id (seed ++ " outside") in
  relay_try (enqueue (authorize (sender_capability mailbox) wrong_outer_id (snd sealed) (NOW + 60))
               NOW);;
  fetched ← relay_try (fetch (authorize_fetch (receiver_capability mailbox) (nonce seed) (NOW + 60))
                         NOW);
  find_envelope wrong_outer_id fetched.

Definition rejected_initial_binding_does_not_consume_the_one_time_key : TestM unit :=
  verified_alice ← paired_clients;
  let mailbox := owner "mailbox" in
  let receiver := receiver_capability mailbox in
  open_memory;;
  relay_try (register (registration mailbox (nonce "r") (NOW + 60)) NOW);;
  invalid ← send_mislabelled mailbox "m1" "binding-invalid-initial" NOW;
  verified ← try (verify_envelope receiver invalid NOW);
  r ← bob_call (open_initial verified verified_alice NOW);
  assert (fails_with MessageIdMismatch r);;
  valid ← send_and_fetch mailbox "m2" "valid-after-rejected-initial" (NOW + 1) (NOW + 60);
  verified ← try (verify_envelope receiver valid NOW);
  opened ← bob_try (open_initial verified verified_alice NOW);
  assert (bool_decide (pm_body (om_message opened) = "valid-after-rejected-initial")).

Definition rejected_established_binding_does_not_advance_the_ratchet : TestM unit :=
  verified_alice ← paired_clients;
  let mailbox := owner "mailbox" in
  let receiver := receiver_capability mailbox in
  open_memory;;
  relay_try (register (registration mailbox (nonce "r") (NOW + 60)) NOW);;
  initial ← send_and_fetch mailbox "m1" "initial" NOW (NOW + 60);
  verified ← try (verify_envelope receiver initial NOW);
  opened ← bob_try (open_initial verified verified_alice NOW);
  outcome ← relay_try (acknowledge (authorize_ack receiver opened (NOW + 60)) NOW);
  assert (bool_decide (outcome = Deleted));;
  invalid ← send_mislabelled mailbox "m2" "binding-invalid-established" (NOW + 1);
  verified_invalid ← try (verify_envelope receiver invalid NOW);
  r ← bob_call (open verified_invalid NOW);
  assert (fails_with MessageIdMismatch r);;
  r ← bob_call (open verified_invalid NOW);
  assert (fails_with MessageIdMismatch r);;
  valid ← send_and_fetch mailbox "m3" "valid-after-rejected-established" (NOW + 2) (NOW + 60);
  verified ← try (verify_envelope receiver valid NOW);
  opened ← bob_try (open verified NOW);
  assert (bool_decide (pm_body (om_message opened) = "valid-after-rejected-established")).

Example expiry_boundary_and_staging_tests :
  bool_decide (passes expired_verified_prekey_cannot_create_an_outbound_session /\
    passes expired_verified_envelopes_cannot_advance_initial_or_existing_sessions /\
    passes signed_request_time_boundaries_fail_closed_for_every_command /\
    passes message_retention_expiry_bounds_fail_closed /\
    passes rejected_initial_binding_does_not_consume_the_one_time_key /\
    passes rejected_established_binding_does_not_advance_the_ratchet) = true.
Proof. vm_compute. reflexivity. Qed.
