(* ===== verification/StateStoreTests.v ===== *)
(** * The state store's own tests: [src/persistence/sqlite.rs], [src/persistence/envelope.rs]

    The test doubles of the crate ([TestProtector], [TestRng], the fail points) and its unit
    tests, translated and evaluated on the model: what the authors assert of the code holds of
    the definitions. A directory holds database files and other files by path; an attacker's
    connection edits rows and the schema directly. The values drawn by [OsRng] are constants. *)

From S2P Require Import Prelude Core Sqlite Envelope Companion StateStore StateStoreTx.
From S2P Require Import StateStoreTheorems StateStoreShared StateStoreBounds Redaction ToyCrypto ToyEndpoint.

#[local] Open Scope Z_scope.

(** ** [TestProtector] *)

(** [^] on bytes *)
Definition byte_xor (a b : byte) : byte := byte_of_Z (Z.lxor (byte_val a) (byte_val b)).

Lemma byte_xor_involutive a m : byte_xor (byte_xor a m) m = a.
Proof.
  unfold byte_xor. apply byte_val_inj. rewrite !byte_val_of_Z.
  pose proof (byte_val_range a) as Ha. pose proof (byte_val_range m) as Hm.
  assert (Z.lxor (byte_val a) (byte_val m) mod 256 = Z.lxor (byte_val a) (byte_val m)) as ->.
  { change 256 with (2 ^ 8). rewrite <- Z.land_ones by lia. apply Z.bits_inj'. intros i Hi.
    rewrite Z.land_spec.
    destruct (decide (i < 8)).
    - by rewrite Z.ones_spec_low, andb_true_r by lia.
    - rewrite Z.ones_spec_high, andb_false_r, Z.lxor_spec by lia.
      rewrite <- (Z.mod_small (byte_val a) (2 ^ 8)), <- (Z.mod_small (byte_val m) (2 ^ 8)) by lia.
      by rewrite !Z.mod_pow2_bits_high by lia. }
  rewrite Z.lxor_assoc, Z.lxor_nilpotent, Z.lxor_0_r. by apply Z.mod_small.
Qed.

(** [[b; n]] *)
Definition filled (n : nat) (b : byte) : array n :=
  dexist (replicate n b) (length_replicate n b).

Record TestProtector : Type := mkTestProtector {
  tp_binding : ProfileBinding;
  tp_mask : array 32;
}.

Definition TestProtector_new (profile key : Z) : TestProtector :=
  mkTestProtector
    (mkBinding (filled 16 (byte_of_Z profile)) (filled 16 (byte_of_Z key)))
    (filled 32 (byte_of_Z key)).

Definition TestProtector_with_mask (profile key mask : Z) : TestProtector :=
  mkTestProtector
    (mkBinding (filled 16 (byte_of_Z profile)) (filled 16 (byte_of_Z key)))
    (filled 32 (byte_of_Z mask)).

Definition WRAP_PREFIX : list byte := bstr "state-wrap/v1".

Definition test_wrap_dek (self : TestProtector) (dek : array 32) : Result (list byte) :=
  let wrapped := WRAP_PREFIX in
  let wrapped := wrapped ++ as_slice (profile_id (tp_binding self)) in
  let wrapped := wrapped ++ as_slice (key_ref (tp_binding self)) in
  let wrapped := wrapped ++ zip_with byte_xor (as_slice dek) (as_slice (tp_mask self)) in
  Ok wrapped.

Definition test_unwrap_dek (self : TestProtector) (wrapped_dek : list byte) : Result (array 32) :=
  let expected := (length WRAP_PREFIX + 16 + 16 + 32)%nat in
  if bool_decide (length wrapped_dek <> expected) then Err Storage
  else if bool_decide (take (length WRAP_PREFIX) wrapped_dek <> WRAP_PREFIX)
          || bool_decide (take 16 (drop (length WRAP_PREFIX) wrapped_dek)
                          <> as_slice (profile_id (tp_binding self)))
          || bool_decide (take 16 (drop (length WRAP_PREFIX + 16) wrapped_dek)
                          <> as_slice (key_ref (tp_binding self)))
  then Err Storage
  else ok_or Storage (array_from_slice 32
         (zip_with byte_xor (drop (length WRAP_PREFIX + 32) wrapped_dek) (as_slice (tp_mask self)))).

#[global] Instance test_protector : StateKeyProtector TestProtector := {|
  expected_binding := fun self => Ok (tp_binding self);
  protection_level := fun _ => SoftwareBacked;
  wrap_dek := test_wrap_dek;
  unwrap_dek := test_unwrap_dek;
|}.

Lemma xor_twice (l m : list byte) :
  length l = length m -> zip_with byte_xor (zip_with byte_xor l m) m = l.
Proof.
  revert m. induction l as [|x l IH]; intros [|y m] E; try done. simpl in *.
  rewrite byte_xor_involutive, IH by lia. done.
Qed.

(** What another test protector makes of a wrapped key: the same key under the same binding and
    mask, and an error under any other binding. *)
Lemma test_unwrap_wrapped p1 p2 dek w :
  test_wrap_dek p1 dek = Ok w ->
  test_unwrap_dek p2 w =
    if bool_decide (tp_binding p1 = tp_binding p2)
    then ok_or Storage (array_from_slice 32
           (zip_with byte_xor (zip_with byte_xor (as_slice dek) (as_slice (tp_mask p1)))
              (as_slice (tp_mask p2))))
    else Err Storage.
Proof.
  unfold test_wrap_dek. cbv zeta. intros <-%Ok_inj. unfold test_unwrap_dek.
  assert (Hp : length WRAP_PREFIX = 13%nat) by reflexivity. rewrite !Hp.
  set (x := zip_with byte_xor (as_slice dek) (as_slice (tp_mask p1))).
  assert (Hx : length x = 32%nat) by (unfold x; rewrite length_zip_with, !length_as_slice; done).
  rewrite bool_decide_false by (intros E; apply E; rewrite !length_app, Hp, Hx, !length_as_slice; done).
  rewrite <- !app_assoc. rewrite take_app_length' by done.
  rewrite (drop_app_length' _ _ 13) by done. rewrite take_app_length' by (by rewrite length_as_slice).
  assert (forall a b c, drop (13 + 16) (WRAP_PREFIX ++ as_slice (profile_id a) ++ b ++ c) = (b ++ c : list byte)) as Hd.
  { intros a b c. rewrite <- drop_drop, (drop_app_length' _ _ 13) by done. apply drop_app_length'.
    by rewrite length_as_slice. }
  rewrite Hd, take_app_length' by (by rewrite length_as_slice).
  change (13 + 32)%nat with (13 + 16 + 16)%nat. rewrite <- drop_drop, Hd, drop_app_length' by (by rewrite length_as_slice).
  destruct (tp_binding p1) as [a1 k1], (tp_binding p2) as [a2 k2]. cbn [profile_id key_ref].
  rewrite (bool_decide_false (WRAP_PREFIX <> WRAP_PREFIX)) by naive_solver. cbn [orb].
  destruct (decide (a1 = a2)) as [<-|Ha]; [|rewrite (bool_decide_true (_ <> _)), (bool_decide_false (mkBinding _ _ = _));
    [done|congruence|by intros E%as_slice_inj]].
  rewrite (bool_decide_false (_ <> _)) by naive_solver. cbn [orb].
  destruct (decide (k1 = k2)) as [<-|Hk]; [|rewrite (bool_decide_true (_ <> _)), (bool_decide_false (mkBinding _ _ = _));
    [done|congruence|by intros E%as_slice_inj]].
  by rewrite (bool_decide_false (_ <> _)), (bool_decide_true (mkBinding _ _ = _)) by naive_solver.
Qed.

#[global] Instance test_protector_laws : ProtectorLaws TestProtector.
Proof.
  split. simpl. intros p dek w H. rewrite (test_unwrap_wrapped p p dek w H), bool_decide_true by done.
  rewrite xor_twice by by rewrite !length_as_slice. by rewrite array_from_as_slice.
Qed.

(** ** [TestRng] *)

(** [next] is a [u8]. *)
Record TestRng : Type := mkRng { rng_next : Z; rng_fail : bool }.

Definition wrapping_next (v : Z) : Z := (v + 1) mod 256.

Definition next_u32 (self : TestRng) : Z * TestRng :=
  let value := rng_next self in (value, mkRng (wrapping_next value) (rng_fail self)).

Definition next_u64 (self : TestRng) : Z * TestRng :=
  let value := rng_next self in (value, mkRng (wrapping_next value) (rng_fail self)).

(** The loop over [dest]. *)
Fixpoint fill_loop (n : nat) (next : Z) : list byte * Z :=
  match n with
  | O => ([], next)
  | S n => let '(bytes, last) := fill_loop n (wrapping_next next) in (byte_of_Z next :: bytes, last)
  end.

(** [try_fill_bytes] on a destination of [n] bytes; [None] for the injected failure. *)
Definition try_fill_bytes (n : nat) (self : TestRng) : option (list byte) * TestRng :=
  if rng_fail self then (None, self)
  else let '(bytes, last) := fill_loop n (rng_next self) in (Some bytes, mkRng last false).

Definition draw (n : nat) (self : TestRng) : option (array n) * TestRng :=
  let '(bytes, rng) := try_fill_bytes n self in (bytes ≫= array_from_slice n, rng).

Lemma length_fill_loop n next : length (fst (fill_loop n next)) = n.
Proof.
  revert next. induction n as [|n IH]; intros next; simpl; [done|].
  specialize (IH (wrapping_next next)). destruct (fill_loop n (wrapping_next next)). simpl in *. by rewrite IH.
Qed.

(** ** Directories *)

Record Directory : Type := mkDirectory {
  databases : gmap path StateDb;
  other_files : gmap path (list byte);
}.

Definition empty_directory : Directory := mkDirectory ∅ ∅.

(** What [Connection::open] finds at a new path. *)
Definition blank_database : StateDb :=
  mkStateDb (mkShape 0 0 [] [("sqlite_schema", "table", 5, 0, 0)%string] [] 0 0 "ok"%string false) ∅ false.

(** The first twenty bytes of a database file: magic, page size, format versions. *)
Definition header_bytes (f : StateDb) : list byte :=
  let version := if wal_mode f then x02 else x01 in
  SQLITE_MAGIC ++ [x10; x00; version; version].

Definition directory_fs (d : Directory) : FileSystem :=
  mkFs (fun p => if decide (is_Some (databases d !! p)) then Some p else None)
    (fun p => match other_files d !! p with
              | Some bytes => FsOk (mkMetadata true (Z.of_nat (length bytes)))
              | None => FsNotFound
              end)
    (fun p => (fun f => mkFile (header_bytes f) false) <$> databases d !! p).

(** ** Tests *)

(** A test ends with [Ok], with an error that [?] returned, or in a panic of an assertion. *)
Abbreviation TestM := (SM Directory (option LabError)).

Definition assert (b : bool) : TestM unit := sm_guard b None.

(** [r?] *)
Definition try {A} (r : Result A) : TestM A :=
  match r with Ok a => mret a | Err e => sm_throw (Some e) end.

Definition is_err {A} (r : Result A) : bool := negb (is_ok r).

Definition is_storage {A} (r : Result A) : bool :=
  match r with Err Storage => true | _ => false end.

Definition database_at (p : path) (d : Directory) : StateDb :=
  default blank_database (databases d !! p).

(** Write back what a connection left. When a database leaves WAL mode, [SQLite] checkpoints and
    unlinks its [-wal] first. *)
Definition put_database (p : path) (db : StateDb) (d : Directory) : Directory :=
  mkDirectory (<[p := db]> (databases d))
    (if wal_mode (database_at p d) && negb (wal_mode db)
     then delete (p ++ bstr "-wal") (other_files d) else other_files d).

Abbreviation TestHandle := (Handle TestProtector).

(** [ClientStateStore::create] with the drawn values, and the failures of its calls. *)
Definition store_create_with (faults : list io) (p : path) (prot : TestProtector)
    (state : list byte) (rk : option (array 32)) (rn : option (array 24))
    : TestM (Result TestHandle) := fun d =>
  let '(r, c) := create_with_rng (directory_fs d) p prot state rk rn
                   (mkConn (database_at p d) None faults) in
  (Ok r, put_database p (disk c) d).

Definition os_dek : array 32 := filled 32 x5a.
Definition os_nonce (k : Z) : array 24 :=
  default (filled 24 x00) (array_from_slice 24 (be_bytes 24 k)).

Definition store_create (p : path) (prot : TestProtector) (state : list byte)
    : TestM (Result TestHandle) :=
  store_create_with [] p prot state (Some os_dek) (Some (os_nonce 1)).

Definition store_create_rng (p : path) (prot : TestProtector) (state : list byte) (rng : TestRng)
    : TestM (Result TestHandle * TestRng) :=
  let '(rk, rng) := draw 32 rng in
  let '(rn, rng) := draw 24 rng in
  r ← store_create_with [] p prot state rk rn; mret (r, rng).

Definition store_open (p : path) (prot : TestProtector) : TestM (Result TestHandle) := fun d =>
  let '(r, c) := open_store (directory_fs d) p prot (mkConn (database_at p d) None []) in
  (Ok r, put_database p (disk c) d).

(** [store.commit(..)] on the handle [h] of the file at [p]. *)
Definition store_commit_with (faults : list io) (p : path) (h : TestHandle) (state : list byte)
    (rn : option (array 24)) : TestM (Result unit * TestHandle) := fun d =>
  let '(r, s) := commit_with_rng state rn (mkStore (mkConn (database_at p d) None faults) h) in
  (Ok (r, handle s), put_database p (disk (store_connection s)) d).

Definition store_commit (k : Z) (p : path) (h : TestHandle) (state : list byte)
    : TestM (Result unit * TestHandle) := store_commit_with [] p h state (Some (os_nonce k)).

Definition store_commit_rng (p : path) (h : TestHandle) (state : list byte) (rng : TestRng)
    : TestM (Result unit * TestHandle * TestRng) :=
  let '(rn, rng) := draw 24 rng in
  r ← store_commit_with [] p h state rn; mret (r, rng).

(** The row of slot one as another connection reads it. *)
Definition full_row (p : path) : TestM StateRow := fun d =>
  match client_state (database_at p d) !! SLOT with
  | Some r => (Ok r, d)
  | None => (Err (Some Storage), d)
  end.

Definition raw_snapshot (p : path) : TestM (Z * list byte * list byte * list byte) :=
  r ← full_row p; mret (st_generation r, st_wrapped_dek r, st_nonce r, st_ciphertext r).

(** An attacker's [UPDATE client_state SET ..]; constraints hold unless they are switched off. *)
Definition update_row (checked : bool) (p : path) (f : StateRow -> StateRow) : TestM unit :=
  r ← full_row p;
  sm_guard (negb checked || check_row SLOT (f r)) (Some Storage);;
  sm_modify (fun d => put_database p
    (mkStateDb (shape (database_at p d)) (<[SLOT := f r]> (client_state (database_at p d)))
       (wal_mode (database_at p d))) d).

(** An attacker's edit of the schema. *)
Definition edit_shape (p : path) (f : Shape -> Shape) : TestM unit :=
  sm_modify (fun d => put_database p
    (mkStateDb (f (shape (database_at p d))) (client_state (database_at p d))
       (wal_mode (database_at p d))) d).

Definition copy_file (source target : path) : TestM unit :=
  sm_modify (fun d => put_database target (database_at source d) d).

Definition write_file (p : path) (bytes : list byte) : TestM unit :=
  sm_modify (fun d => mkDirectory (databases d) (<[p := bytes]> (other_files d))).

Definition remove_file (p : path) : TestM unit :=
  sm_modify (fun d => mkDirectory (databases d) (delete p (other_files d))).

(** Bytes 18 and 19 of the file: the format versions. *)
Definition read_versions (p : path) : TestM (list byte) := fun d =>
  (Ok (default [] ((fun f => take 2 (drop 18 (header_bytes f))) <$> databases d !! p)), d).

Definition read_database (p : path) : TestM StateDb := fun d => (Ok (database_at p d), d).

(** What [pragma_table_list] shows of a new schema row: tables and views, not triggers; the
    names used here sort between [client_state] and [sqlite_schema]. *)
Definition listed (kind name : string) (ncol strict : Z) (l : list (string * string * Z * Z * Z))
    : list (string * string * Z * Z * Z) :=
  if decide (kind = "trigger"%string) then l
  else take 1 l ++ (name, kind, ncol, 0, strict) :: drop 1 l.

Definition add_object (kind name tbl_name sql : string) (ncol strict : Z) (sh : Shape) : Shape :=
  mkShape (sh_application_id sh) (sh_user_version sh)
    (sh_objects sh ++ [(kind, name, tbl_name, Some sql)])
    (listed kind name ncol strict (sh_table_list sh)) (sh_xinfo sh)
    (sh_index_count sh) (sh_foreign_key_count sh) (sh_integrity sh) (sh_foreign_key_problem sh).

(** [inject_hostile_schema_row], through [writable_schema] *)
Definition inject_hostile_schema_row (p : path) (kind name tbl_name sql : string) : TestM unit :=
  edit_shape p (add_object kind name tbl_name sql 1 0).

#[global] Instance Shape_eq_dec : EqDecision Shape.
Proof. solve_decision. Defined.
#[global] Instance StateDb_eq_dec : EqDecision StateDb.
Proof. solve_decision. Defined.

Definition assert_open_rejects_and_row_is_intact (p : path) (prot : TestProtector)
    (before : StateRow) : TestM unit :=
  r ← store_open p prot;
  assert (is_storage r);;
  after ← full_row p;
  assert (bool_decide (after = before));;
  db ← read_database p;
  assert (bool_decide (size (client_state db) = 1%nat)).

(** *** Creation, commits and recovery *)

(** [text.contains(part)] *)
Definition contains (text part : string) : bool :=
  match String.index 0 part text with Some _ => true | None => false end.

(** [round_trip_restart_and_redaction] without its assertions on the raw bytes of the files. *)
Definition round_trip_restart_and_redaction : TestM unit :=
  let path := bstr "state.sqlite" in
  let canaries := ["message-plaintext-canary"; "raw-account-pickle-canary";
                   "private-capability-canary"]%string in
  let state := concat (map bstr canaries) in
  store ← store_create path (TestProtector_new 1 2) state; store ← try store;
  st ← try (get_state store); assert (bool_decide (st = state));;
  g ← try (get_generation store); assert (g =? 1);;
  let debug := debug_store store in
  let error_display := display Storage in
  let error_debug := "Storage"%string in
  assert (forallb (fun text => negb (contains debug text)) canaries);;
  assert (forallb (fun text => negb (contains error_display text)) canaries);;
  assert (forallb (fun text => negb (contains error_debug text)) canaries);;
  reopened ← store_open path (TestProtector_new 1 2); reopened ← try reopened;
  st ← try (get_state reopened); assert (bool_decide (st = state)).

Definition tamper_wrong_binding_and_authentic_rollback_are_explicit : TestM unit :=
  let path := bstr "state.sqlite" in
  let rollback := bstr "rollback.sqlite" in
  store ← store_create path (TestProtector_new 3 4) (bstr "old"); store ← try store;
  copy_file path rollback;;
  c ← store_commit 2 path store (bstr "new"); try (fst c);;
  copy_file rollback path;;
  r ← store_open path (TestProtector_new 3 4); h ← try r;
  st ← try (get_state h); assert (bool_decide (st = bstr "old"));;
  r ← store_open path (TestProtector_new 9 10); assert (is_err r);;
  r ← store_open path (TestProtector_with_mask 3 4 99); assert (is_err r);;
  update_row true path (fun r => mkStateRow (st_profile_id r) (st_generation r)
    (st_envelope_version r) (st_state_schema_version r) (st_crypto_suite r) (st_key_ref r)
    (st_wrapped_dek r) (st_nonce r) (replicate 16 x00));;
  r ← store_open path (TestProtector_new 3 4); assert (is_err r).

(** The part of [fresh_nonce_rng_failure_and_exact_size_bound] before the size bound. *)
Definition fresh_nonce_rng_failure : TestM unit :=
  let path := bstr "state.sqlite" in
  created ← store_create_rng path (TestProtector_new 5 6) (bstr "one") (mkRng 1 false);
  let '(store, rng) := created in
  store ← try store;
  first_row ← full_row path;
  committed ← store_commit_rng path store (bstr "two") rng;
  let '(r, store, rng) := committed in
  try r;;
  second_row ← full_row path;
  assert (negb (bool_decide (st_nonce first_row = st_nonce second_row)));;
  before ← read_database path;
  failed ← store_commit_rng path store (bstr "three") (mkRng 0 true);
  assert (is_err (fst (fst failed)));;
  after ← read_database path;
  assert (bool_decide (before = after)).

Definition failed_creation_leaves_no_partial_profile_and_retry_succeeds : TestM unit :=
  let path := bstr "creation.sqlite" in
  failed ← store_create_rng path (TestProtector_new 21 22) (bstr "state") (mkRng 0 true);
  assert (is_err (fst failed));;
  empty ← read_database path;
  assert (sh_application_id (shape empty) =? 0);;
  assert (sh_user_version (shape empty) =? 0);;
  assert (bool_decide (length (sh_objects (shape empty)) = 0%nat));;
  created ← store_create_rng path (TestProtector_new 21 22) (bstr "state") (mkRng 1 false);
  store ← try (fst created);
  st ← try (get_state store); assert (bool_decide (st = bstr "state")).

(** [test_abort_at]: the process dies at a fail point. From there on every call into [SQLite]
    fails; the number is that of the calls made before the point. *)
Definition test_abort_at (point : string) : list io :=
  let calls :=
    if decide (point = "create_after_schema"%string) then 13%nat
    else if decide (point = "create_after_insert"%string) then 14%nat
    else if decide (point = "create_after_commit"%string) then 24%nat
    else if decide (point = "commit_after_seal"%string) then 0%nat
    else if decide (point = "commit_after_update"%string) then 11%nat
    else (* commit_after_commit *) 12%nat in
  replicate calls IoOk ++ replicate 30 IoErr.

Definition death_during_creation (point : string) : TestM unit :=
  let path := bstr point ++ bstr ".sqlite" in
  store_create_with (test_abort_at point) path (TestProtector_new 31 32) (bstr "created")
    (Some os_dek) (Some (os_nonce 1));;
  r ← store_open path (TestProtector_new 31 32);
  if decide (point = "create_after_commit"%string)
  then h ← try r; st ← try (get_state h); assert (bool_decide (st = bstr "created"))
  else
    assert (is_err r);;
    store ← store_create path (TestProtector_new 31 32) (bstr "retried"); store ← try store;
    st ← try (get_state store); assert (bool_decide (st = bstr "retried")).

Definition forced_death_during_creation_reveals_no_half_profile : TestM unit :=
  death_during_creation "create_after_schema";;
  death_during_creation "create_after_insert";;
  death_during_creation "create_after_commit".

Definition death_during_commit (point : string) (expected : string) : TestM unit :=
  let path := bstr point ++ bstr ".sqlite" in
  created ← store_create path (TestProtector_new 31 32) (bstr "old"); try created;;
  (* the child opens the store, commits and dies *)
  child ← store_open path (TestProtector_new 31 32); child ← try child;
  store_commit_with (test_abort_at point) path child (bstr "committed") (Some (os_nonce 2));;
  store ← store_open path (TestProtector_new 31 32); store ← try store;
  st ← try (get_state store); assert (bool_decide (st = bstr expected)).

Definition forced_death_during_commit_reveals_complete_old_or_new_state : TestM unit :=
  death_during_commit "commit_after_seal" "old";;
  death_during_commit "commit_after_update" "old";;
  death_during_commit "commit_after_commit" "committed".

(** *** Substitution and rollback *)

Definition set_wrapped_dek w r :=
  mkStateRow (st_profile_id r) (st_generation r) (st_envelope_version r)
    (st_state_schema_version r) (st_crypto_suite r) (st_key_ref r) w (st_nonce r) (st_ciphertext r).
Definition set_nonce n r :=
  mkStateRow (st_profile_id r) (st_generation r) (st_envelope_version r)
    (st_state_schema_version r) (st_crypto_suite r) (st_key_ref r) (st_wrapped_dek r) n (st_ciphertext r).
Definition set_ciphertext c r :=
  mkStateRow (st_profile_id r) (st_generation r) (st_envelope_version r)
    (st_state_schema_version r) (st_crypto_suite r) (st_key_ref r) (st_wrapped_dek r) (st_nonce r) c.

Definition wrapped_key_substitution_cannot_be_committed_over : TestM unit :=
  let path := bstr "wrapper-race.sqlite" in
  store ← store_create path (TestProtector_new 23 24) (bstr "old"); store ← try store;
  update_row true path (fun r => set_wrapped_dek (replicate (length (st_wrapped_dek r)) x00) r);;
  before ← raw_snapshot path;
  committed ← store_commit 2 path store (bstr "new");
  assert (is_err (fst committed));;
  assert (is_err (get_state (snd committed)));;
  after ← raw_snapshot path;
  assert (bool_decide (after = before)).

(** [*first ^= 1] *)
Definition flip_first (l : list byte) : list byte :=
  match l with b :: l => byte_xor b x01 :: l | [] => [] end.

Definition substitution (name : string) (tamper_nonce : bool) : TestM unit :=
  let path := bstr name in
  store ← store_create path (TestProtector_new 27 28) (bstr "old"); store ← try store;
  update_row true path (fun r => if tamper_nonce then set_nonce (flip_first (st_nonce r)) r
                                 else set_ciphertext (flip_first (st_ciphertext r)) r);;
  before ← raw_snapshot path;
  committed ← store_commit 2 path store (bstr "new");
  assert (is_err (fst committed));;
  assert (is_err (get_state (snd committed)));;
  after ← raw_snapshot path;
  assert (bool_decide (after = before)).

Definition nonce_or_ciphertext_substitution_cannot_be_committed_over : TestM unit :=
  substitution "nonce.sqlite" true;;
  substitution "ciphertext.sqlite" false.

Definition divergent_commit_after_authentic_rollback_uses_a_fresh_nonce : TestM unit :=
  let path := bstr "rollback-nonce.sqlite" in
  let snapshot := bstr "generation-one.sqlite" in
  created ← store_create_rng path (TestProtector_new 25 26) (bstr "one") (mkRng 1 false);
  first ← try (fst created);
  copy_file path snapshot;;
  committed ← store_commit_rng path first (bstr "first-generation-two") (snd created);
  try (fst (fst committed));;
  first_row ← full_row path;
  copy_file snapshot path;;
  divergent ← store_open path (TestProtector_new 25 26); divergent ← try divergent;
  committed ← store_commit_rng path divergent (bstr "divergent-generation-two") (mkRng 201 false);
  try (fst (fst committed));;
  second_row ← full_row path;
  g ← try (get_generation (snd (fst committed))); assert (g =? 2);;
  assert (negb (bool_decide (st_nonce first_row = st_nonce second_row))).

(** The loop [for generation in 2_u64..=128]; [seen] collects the nonces. *)
Fixpoint nonce_corpus (generations : list Z) (p : path) (h : TestHandle) (seen : list (list byte))
    : TestM TestHandle :=
  match generations with
  | [] => mret h
  | g :: generations =>
      committed ← store_commit g p h (u64_be g);
      try (fst committed);;
      let h := snd committed in
      assert (bool_decide (as_slice (nonce h) ∉ seen));;
      nonce_corpus generations p h (as_slice (nonce h) :: seen)
  end.

Definition committed_nonce_corpus_is_unique : TestM unit :=
  let path := bstr "nonce-corpus.sqlite" in
  store ← store_create path (TestProtector_new 33 34) (bstr "zero"); store ← try store;
  store ← nonce_corpus (seqZ 2 127) path store [as_slice (nonce store)];
  g ← try (get_generation store); assert (g =? 128).

Definition cas_conflict_poisons_the_stale_handle : TestM unit :=
  let path := bstr "state.sqlite" in
  first ← store_create path (TestProtector_new 11 12) (bstr "one"); first ← try first;
  second ← store_open path (TestProtector_new 11 12); second ← try second;
  committed ← store_commit 2 path first (bstr "two"); try (fst committed);;
  r ← store_commit 3 path second (bstr "three"); assert (is_err (fst r));;
  let stale := snd r in
  r ← store_commit 4 path stale (bstr "four"); assert (is_err (fst r));;
  let stale := snd r in
  assert (is_err (get_state stale));;
  assert (is_err (get_generation stale));;
  assert (is_err (get_binding stale));;
  store ← store_open path (TestProtector_new 11 12); store ← try store;
  st ← try (get_state store); assert (bool_decide (st = bstr "two")).

(** *** Hostile schemas and companion files *)

Definition exact_schema_rejects_extra_objects : TestM unit :=
  let path := bstr "state.sqlite" in
  store ← store_create path (TestProtector_new 13 14) (bstr "state"); try store;;
  edit_shape path (add_object "table" "extra_state" "extra_state"
    "CREATE TABLE extra_state(value INTEGER) STRICT" 1 1);;
  r ← store_open path (TestProtector_new 13 14); assert (is_err r).

Definition hostile_sqlite_prefixed_delete_trigger_fails_closed_without_data_loss : TestM unit :=
  let path := bstr "evil-delete-trigger.sqlite" in
  store ← store_create path (TestProtector_new 41 42) (bstr "guarded"); store ← try store;
  before ← full_row path;
  inject_hostile_schema_row path "trigger" "sqlite_evil" "client_state"
    "CREATE TRIGGER sqlite_evil AFTER UPDATE ON client_state BEGIN DELETE FROM client_state; END";;
  assert_open_rejects_and_row_is_intact path (TestProtector_new 41 42) before;;
  committed ← store_commit 2 path store (bstr "post-injection");
  assert (is_err (fst committed));;
  after ← full_row path;
  assert (bool_decide (after = before)).

Definition hostile_row (path : path) (prot : TestProtector) (kind name tbl_name sql : string)
    : TestM unit :=
  created ← store_create path prot (bstr "guarded"); try created;;
  before ← full_row path;
  inject_hostile_schema_row path kind name tbl_name sql;;
  assert_open_rejects_and_row_is_intact path prot before.

Definition hostile_sqlite_prefixed_raise_ignore_trigger_fails_closed : TestM unit :=
  hostile_row (bstr "evil-ignore-trigger.sqlite") (TestProtector_new 43 44) "trigger" "sqlite_evil"
    "client_state"
    "CREATE TRIGGER sqlite_evil BEFORE UPDATE ON client_state BEGIN SELECT RAISE(IGNORE); END".

Definition hostile_sqlite_prefixed_view_fails_closed : TestM unit :=
  hostile_row (bstr "evil-view.sqlite") (TestProtector_new 45 46) "view" "sqlite_evil_view"
    "sqlite_evil_view" "CREATE VIEW sqlite_evil_view AS SELECT slot FROM client_state".

(** A table that is created, then renamed in the schema. *)
Definition hostile_sqlite_prefixed_table_with_valid_root_page_fails_closed : TestM unit :=
  hostile_row (bstr "evil-table.sqlite") (TestProtector_new 47 48) "table" "sqlite_evil_table"
    "sqlite_evil_table" "CREATE TABLE sqlite_evil_table(payload INTEGER)".

Definition strict_whole_schema_validation_accepts_the_clean_store : TestM unit :=
  let path := bstr "clean-control.sqlite" in
  created ← store_create path (TestProtector_new 49 50) (bstr "first"); try created;;
  store ← store_open path (TestProtector_new 49 50); store ← try store;
  committed ← store_commit 2 path store (bstr "second"); try (fst committed);;
  store ← store_open path (TestProtector_new 49 50); store ← try store;
  st ← try (get_state store); assert (bool_decide (st = bstr "second"));;
  g ← try (get_generation store); assert (g =? 2).

Definition planted_wal_is_refused_without_touching_the_state_store : TestM unit :=
  (* any non-empty WAL; the test stages one of a hostile database *)
  let planted := bstr "a write-ahead log with a hostile schema" in
  let victim := bstr "victim.sqlite" in
  created ← store_create victim (TestProtector_new 53 54) (bstr "irreplaceable-state"); try created;;
  before ← read_database victim;
  versions ← read_versions victim; assert (bool_decide (versions = [x01; x01]));;
  write_file (bstr "victim.sqlite-wal") planted;;
  r ← store_open victim (TestProtector_new 53 54); assert (is_storage r);;
  r ← store_open victim (TestProtector_new 53 54); assert (is_storage r);;
  r ← store_open victim (TestProtector_new 53 54); assert (is_storage r);;
  after ← read_database victim;
  assert (bool_decide (after = before));;
  versions ← read_versions victim; assert (bool_decide (versions = [x01; x01]));;
  remove_file (bstr "victim.sqlite-wal");;
  reopened ← store_open victim (TestProtector_new 53 54); reopened ← try reopened;
  st ← try (get_state reopened); assert (bool_decide (st = bstr "irreplaceable-state"));;
  g ← try (get_generation reopened); assert (g =? 1).

(** The child [wal-crash]: the header is converted, a live WAL remains, the row is unchanged. *)
Definition wal_crash (p : path) : TestM unit :=
  sm_modify (fun d => mkDirectory
    (<[p := mkStateDb (shape (database_at p d)) (client_state (database_at p d)) true]> (databases d))
    (<[p ++ bstr "-wal" := bstr "live"]> (other_files d))).

Definition wal_mode_state_store_with_live_wal_opens : TestM unit :=
  let path := bstr "wal-live.sqlite" in
  created ← store_create path (TestProtector_new 55 56) (bstr "wal-mode-state"); try created;;
  wal_crash path;;
  versions ← read_versions path; assert (bool_decide (versions = [x02; x02]));;
  opened ← store_open path (TestProtector_new 55 56); opened ← try opened;
  st ← try (get_state opened); assert (bool_decide (st = bstr "wal-mode-state"));;
  (* beyond the test: the open has converted the database back *)
  versions ← read_versions path; assert (bool_decide (versions = [x01; x01])).

(** *** The envelope *)

Definition test_binding : ProfileBinding := mkBinding (filled 16 x01) (filled 16 x02).
Definition test_dek : array 32 := filled 32 x03.
Definition test_nonce : array 24 := filled 24 x04.

Definition round_trip_authenticates_every_header_part : TestM unit :=
  let wrapped_dek := replicate 32 x05 in
  ciphertext ← try (envelope_seal test_binding 1 wrapped_dek test_dek test_nonce (bstr "state"));
  plaintext ← try (envelope_open test_binding 1 wrapped_dek test_dek test_nonce ciphertext);
  assert (bool_decide (plaintext = bstr "state"));;
  assert (is_storage (envelope_open test_binding 2 wrapped_dek test_dek test_nonce ciphertext));;
  assert (is_storage (envelope_open (mkBinding (filled 16 x09) (filled 16 x02)) 1 wrapped_dek
                        test_dek test_nonce ciphertext));;
  assert (is_storage (envelope_open (mkBinding (filled 16 x01) (filled 16 x09)) 1 wrapped_dek
                        test_dek test_nonce ciphertext));;
  assert (is_storage (envelope_open test_binding 1 (replicate 32 x06) test_dek test_nonce
                        ciphertext));;
  assert (is_storage (envelope_open test_binding 1 wrapped_dek test_dek (filled 24 x07) ciphertext));;
  assert (is_storage (envelope_open test_binding 1 wrapped_dek test_dek test_nonce
                        (flip_first ciphertext))).

Definition passes (t : TestM unit) : bool :=
  match fst (t empty_directory) with Ok _ => true | Err _ => false end.

Definition all_tests : list (TestM unit) :=
  [round_trip_restart_and_redaction;
   tamper_wrong_binding_and_authentic_rollback_are_explicit;
   fresh_nonce_rng_failure;
   failed_creation_leaves_no_partial_profile_and_retry_succeeds;
   forced_death_during_creation_reveals_no_half_profile;
   forced_death_during_commit_reveals_complete_old_or_new_state;
   wrapped_key_substitution_cannot_be_committed_over;
   nonce_or_ciphertext_substitution_cannot_be_committed_over;
   divergent_commit_after_authentic_rollback_uses_a_fresh_nonce;
   committed_nonce_corpus_is_unique;
   cas_conflict_poisons_the_stale_handle;
   exact_schema_rejects_extra_objects;
   hostile_sqlite_prefixed_delete_trigger_fails_closed_without_data_loss;
   hostile_sqlite_prefixed_raise_ignore_trigger_fails_closed;
   hostile_sqlite_prefixed_view_fails_closed;
   hostile_sqlite_prefixed_table_with_valid_root_page_fails_closed;
   strict_whole_schema_validation_accepts_the_clean_store;
   planted_wal_is_refused_without_touching_the_state_store;
   wal_mode_state_store_with_live_wal_opens;
   round_trip_authenticates_every_header_part].

(** Every assertion of the tests holds of the model. *)
Example tests_pass : forallb passes all_tests = true.
Proof. vm_compute. reflexivity. Qed.

(** *** Tests at the size limits *)

Lemma toy_seals_all : seals_all (Aead := toy_aead).
Proof. intros k n a m _. by eexists. Qed.

(** [vec![b; n]] *)
Definition bytes_of_len (b : byte) (n : Z) : list byte := replicate (Z.to_nat n) b.

Lemma length_bytes_of_len b n : 0 <= n -> Z.of_nat (length (bytes_of_len b n)) = n.
Proof. intros. unfold bytes_of_len. rewrite length_replicate. lia. Qed.

Lemma test_creatable profile key k p :
  creatable (directory_fs empty_directory) p (TestProtector_new profile key) k blank_database.
Proof.
  split; [by eexists| |done|done|done]. eexists. split; [reflexivity|].
  rewrite !length_app, length_zip_with, !length_as_slice. simpl. lia.
Qed.

(** The second half of [fresh_nonce_rng_failure_and_exact_size_bound]. *)
Definition create_of_size (p : string) (profile key n : Z) : Result TestHandle * Connection StateDb :=
  create_with_rng (directory_fs empty_directory) (bstr p) (TestProtector_new profile key)
    (bytes_of_len x07 n) (Some os_dek) (Some (os_nonce 1)) (file blank_database).

Example exact_size_bound :
  is_ok (fst (create_of_size "max.sqlite" 7 8 (MAX_CIPHERTEXT_BYTES - 16))) = true /\
  is_err (fst (create_of_size "over.sqlite" 9 10 (MAX_CIPHERTEXT_BYTES - 15))) = true /\
  sh_objects (shape (disk (snd (create_of_size "over.sqlite" 9 10 (MAX_CIPHERTEXT_BYTES - 15))))) = [].
Proof.
  unfold create_of_size. rewrite !create_clean. split.
  - destruct (create_tx_admissible _ _ _ _ (os_nonce 1) (bytes_of_len x07 (MAX_CIPHERTEXT_BYTES - 16))
      _ (test_creatable 7 8 os_dek (bstr "max.sqlite")) toy_seals_all) as (h & db' & E);
      [|by rewrite E].
    rewrite length_bytes_of_len; [reflexivity|by vm_compute].
  - rewrite create_tx_oversized; [done|apply test_creatable|].
    rewrite length_bytes_of_len; [reflexivity|by vm_compute].
Qed.

(** [rejects_oversized_ciphertext_before_decrypt] *)
Example rejects_oversized_ciphertext_before_decrypt :
  is_err (envelope_open test_binding 1 (replicate 32 x05) test_dek test_nonce
            (bytes_of_len x00 (MAX_CIPHERTEXT_BYTES + 1))) = true /\
  is_err (envelope_seal test_binding U64_MAX (replicate 32 x05) test_dek test_nonce (bstr "state"))
    = true.
Proof.
  split; [|reflexivity]. rewrite oversized_envelope_refused; [done|].
  rewrite length_bytes_of_len; [reflexivity|by vm_compute].
Qed.

(** [oversized_blobs_are_refused_by_length_before_materialization]: the row as the attacker's
    [UPDATE], with constraints ignored, leaves it. *)
Definition oversize (oversized_wrapper : bool) (r : StateRow) : StateRow :=
  if oversized_wrapper then set_wrapped_dek (bytes_of_len x00 (WRAPPED_DEK_MAX_BYTES + 1)) r
  else set_ciphertext (bytes_of_len x00 (MAX_CIPHERTEXT_BYTES + 1)) r.

Lemma oversized_blobs_are_refused_by_length_before_materialization db r binding oversized_wrapper :
  fst (read_row binding
    (file (mkStateDb (shape db) (<[SLOT := oversize oversized_wrapper r]> (client_state db))
       (wal_mode db))))
    = Err Storage.
Proof.
  erewrite oversized_row_refused; [done|apply lookup_insert_eq|].
  destruct oversized_wrapper; [left|right];
    cbn [oversize set_wrapped_dek set_ciphertext st_wrapped_dek st_ciphertext];
    rewrite length_bytes_of_len; (reflexivity || by vm_compute).
Qed.
