(* ===== verification/SystemWitness.v ===== *)
(** * Composed systems: the theorems at concrete inputs

    Two handles on one state file, two processes that open one legacy relay database, two clients
    talking through the relay, the demo, and runs of
    the relay with purges and failures. *)

From S2P Require Import Prelude Core Capability Sqlite RelayDb Relay.
From S2P Require Import RelayFacts RelayTx RelayInv RelayTrace ToyCrypto RelayRuns RelayExchange.
From S2P Require Import RelayObserve RelayWitness Client ClientFacts Envelope Companion StateStore.
From S2P Require Import StateStoreTx StateStoreTheorems StateStoreShared StateStoreBounds Demo.
From S2P Require Import StateStoreTamper EndToEnd ToyEndpoint EndpointWitness StateStoreTests.
From S2P Require Import Schema RelayOpening.

#[local] Open Scope Z_scope.

(** ** Two handles on one file *)

(** The first handle's second commit loses its confirmation; the second handle is stale. *)
Definition shared_events : list StoreEvent :=
  [EvCreate 0 (bstr "one") (Some (toy_id 32 "dek")) (Some (toy_id 24 "n1")) [];
   EvOpen 1 [];
   EvCommit 0 (bstr "two") (Some (toy_id 24 "n2")) [];
   EvCommit 1 (bstr "stale") (Some (toy_id 24 "n3")) [];
   EvCommit 0 (bstr "three") (Some (toy_id 24 "n4")) lost;
   EvRead 0;
   EvOpen 2 []].

Definition shared_start : SharedStore (P := ProfileBinding) := mkShared blank_db ∅.
Definition shared_result := store_run plain_fs db_path toy_binding shared_events shared_start.

#[global] Instance StoreReply_eq_dec : EqDecision StoreReply.
Proof. solve_decision. Defined.

Example shared_replies :
  bool_decide (fst shared_result =
    [Ok Created; Ok (Snapshot 1 (bstr "one")); Ok Committed; Err Storage; Err Storage; Err Storage;
     Ok (Snapshot 3 (bstr "three"))]) = true.
Proof. vm_compute. reflexivity. Qed.

Lemma blank_empty : empty_shape (shape blank_db) = true.
Proof. reflexivity. Qed.

Lemma shared_store_refines_register_witness :
  exists reg, reg_steps (mkRegister [] ∅) shared_events (fst shared_result) reg.
Proof.
  pose proof (shared_store_refines_register plain_fs db_path toy_binding shared_events blank_db
    blank_empty plain_fs_ok) as H.
  unfold shared_result, shared_start. destruct (store_run _ _ _ _ _) as [rs s'].
  destruct H as (reg & H & _). exists reg. exact H.
Defined.

Lemma acknowledged_snapshots_survive_witness :
  exists hist, all_recorded shared_events (fst shared_result) `sublist_of` hist /\
    hist `sublist_of` (shared_events ≫= submitted).
Proof.
  pose proof (acknowledged_snapshots_survive plain_fs db_path toy_binding shared_events blank_db
    blank_empty plain_fs_ok) as H.
  unfold shared_result, shared_start. destruct (store_run _ _ _ _ _) as [rs s'].
  destruct H as (hist & H1 & H2 & _). exists hist. split; [exact H1|exact H2].
Defined.

Lemma recovery_always_possible_witness :
  exists g old, fst (store_run plain_fs db_path toy_binding
      [EvOpen 5 []; EvCommit 5 (bstr "next") (Some (toy_id 24 "n9")) []; EvOpen 6 []]
      (snd shared_result))
    = [Ok (Snapshot g old); Ok Committed; Ok (Snapshot (g + 1) (bstr "next"))].
Proof.
  pose proof (recovery_always_possible plain_fs db_path toy_binding shared_events blank_db 5 6
    (bstr "next") (toy_id 24 "n9") blank_empty plain_fs_ok toy_seals_all) as H.
  assert (E : bool_decide (all_recorded shared_events (fst shared_result) = []) = false)
    by (vm_compute; reflexivity).
  apply bool_decide_eq_false in E. unfold shared_result, shared_start in *.
  destruct (store_run _ _ _ shared_events _) as [rs s'].
  apply H; [vm_compute; discriminate|vm_compute; reflexivity|exact E].
Defined.

(** *** An older copy of the file is put back *)

Definition seal_one : StoreEvent :=
  EvCreate 0 (bstr "one") (Some (toy_id 32 "dek")) (Some (toy_id 24 "n1")) [].
Definition seal_two : StoreEvent := EvCommit 0 (bstr "two") (Some (toy_id 24 "n2")) [].

Definition after_one : SharedStore := snd (store_event plain_fs db_path toy_binding seal_one shared_start).
Definition after_two : SharedStore := snd (store_event plain_fs db_path toy_binding seal_two after_one).
Definition rolled_back : SharedStore := mkShared (file_db after_one) (handles after_two).
Definition seal_log : list Sealing :=
  sealings plain_fs db_path toy_binding seal_one shared_start ++ sealings plain_fs db_path toy_binding seal_two after_one.

Definition toy_wrapped : list byte :=
  match wrap_dek toy_binding (toy_id 32 "dek") with Ok w => w | Err _ => [] end.
Definition first_sealing : Sealing :=
  match sealing toy_binding 1 toy_wrapped (toy_id 32 "dek") (Some (toy_id 24 "n1")) (bstr "one") with
  | Ok l => l
  | Err _ => mkSealing 0 [] (toy_id 32 "dek") (toy_id 24 "n1") [] []
  end.

Lemma rolled_back_attacked :
  attacked plain_fs db_path toy_binding seal_log rolled_back.
Proof.
  assert (H1 : attacked plain_fs db_path toy_binding
    (sealings plain_fs db_path toy_binding seal_one shared_start) after_one).
  { apply (attacked_call _ _ _ [] shared_start seal_one
      (fst (store_event plain_fs db_path toy_binding seal_one shared_start))).
    - apply attacked_start. intros row b k n ad m Hr. vm_compute in Hr. discriminate Hr.
    - apply surjective_pairing. }
  apply attacked_replace.
  - apply (attacked_call _ _ _ _ after_one seal_two
      (fst (store_event plain_fs db_path toy_binding seal_two after_one))); [exact H1|].
    apply surjective_pairing.
  - apply (unforged_sealed toy_binding _ _ toy_binding 1 toy_wrapped (toy_id 32 "dek") (toy_id 24 "n1")
      (bstr "one") first_sealing); [reflexivity|evaluate..].
Qed.

(** The old snapshot is shown, as what it is. *)
Lemma tampering_only_rolls_back_witness :
  exists l, l ∈ seal_log /\ sl_generation l = 1 /\ sl_state l = bstr "one".
Proof.
  apply (tampering_only_rolls_back plain_fs db_path toy_binding seal_log rolled_back (EvOpen 1 [])
    1 (bstr "one") (snd (store_event plain_fs db_path toy_binding (EvOpen 1 []) rolled_back))).
  - exact rolled_back_attacked.
  - assert (E : fst (store_event plain_fs db_path toy_binding (EvOpen 1 []) rolled_back)
      = Ok (Snapshot 1 (bstr "one"))) by evaluate.
    rewrite <- E. apply surjective_pairing.
Defined.

Lemma reachable_file_well_typed_witness :
  file_typed (file_db (snd shared_result)).
Proof.
  apply (reachable_file_well_typed plain_fs db_path toy_binding shared_events shared_start).
  left. split; reflexivity.
Defined.

Lemma state_size_bound_exact_witness :
  exists h db', create_with_rng plain_fs db_path toy_binding (bstr "state") (Some (toy_id 32 "dek"))
    (Some (toy_id 24 "n1")) (file blank_db) = (Ok h, file db') /\ generation h = 1.
Proof.
  assert (Hc : creatable plain_fs db_path toy_binding (toy_id 32 "dek") blank_db).
  { split; [by eexists| |exact plain_fs_ok|reflexivity|reflexivity].
    eexists. split; [reflexivity|]. vm_compute. split; discriminate. }
  destruct (state_size_bound_exact plain_fs db_path toy_binding (toy_id 32 "dek") (toy_id 24 "n1")
    (bstr "state") blank_db Hc toy_seals_all) as [H _].
  rewrite decide_True in H by (vm_compute; discriminate).
  destruct H as (h & db' & H & Hg & _). exists h, db'. split; [exact H|exact Hg].
Defined.

(** ** Packets of the concrete channel *)

Lemma length_toy_plain m : length (toy_plain_bytes m) = (41 + length (bstr (pm_body m)))%nat.
Proof. unfold toy_plain_bytes. rewrite !length_app, !length_as_slice, length_be_bytes, length_u64_be. lia. Qed.

Lemma length_toy_olm m :
  (length (toy_olm_bytes m) <= 65 + match m with inl b => length b | inr (_, _, b) => length b end)%nat.
Proof.
  destruct m as [b|[[i k] b]]; simpl; [lia|]. rewrite !length_app, !length_as_slice. lia.
Qed.

Lemma toy_packets_fit body :
  Z.of_nat (length (bstr body)) <= 1000 -> packets_fit (Olm := toy_olm) body.
Proof.
  intros Hb e mid t c v c' H.
  destruct (seal_cases e mid body t c)
    as [(_ & err & E)|[(s & _ & E)|(s & enc & o & s' & r & _ & Ep & Ee & E & Hr)]];
    rewrite H in E; [by injection E..|]. injection E as <- _.
  destruct (Hr _ eq_refl) as (msg & packet & -> & Ej & ->). cbn [snd packet_bytes].
  apply checked_value in Ep as ->. apply checked_value in Ej as ->.
  assert (length (toy_olm_bytes msg) <= 65 + (41 + length (bstr body)))%nat as Hl.
  { etrans; [apply length_toy_olm|]. apply Nat.add_le_mono_l.
    destruct s as [[i k]|]; injection Ee as <- _; cbv beta iota; by rewrite length_toy_plain. }
  unfold MAX_PACKET_BYTES. lia.
Qed.

(** ** A conversation *)

Definition toy_inbox (s : Side) : MailboxOwner :=
  match s with Alice => toy_owner | Bob => other_owner end.

Definition toy_db : RelayDb :=
  db_two toy_owner other_owner (toy_id 16 "r1") (toy_id 16 "r2") 1000.

(** Both clients after their sessions have been established. *)
Definition toy_world : World :=
  mkWorld (at_rest toy_db []) (set_session (Some None) alice0) (set_session (Some None) bob0).

Definition toy_turns : list Turn :=
  [mkTurn Alice "hello" (toy_id 16 "t1") (bstr "e1") (toy_id 16 "f1") 1001 4000 1060;
   mkTurn Alice "are you there?" (toy_id 16 "t2") (bstr "e2") (toy_id 16 "f2") 1002 4000 1060;
   mkTurn Bob "yes" (toy_id 16 "t3") (bstr "e3") (toy_id 16 "f3") 1003 4000 1060].

Lemma toy_queues_differ : mo_queue_id toy_owner <> mo_queue_id other_owner.
Proof. refine (bool_decide_unpack _ _). vm_compute. exact I. Qed.

Lemma toy_talking : talking toy_inbox toy_db toy_world.
Proof.
  assert (H0 : 0 <= 1000) by lia. assert (Hm : 1000 + 60 <= I64_MAX) by (unfold I64_MAX; lia).
  destruct (empty_two toy_owner other_owner (toy_id 16 "r1") (toy_id 16 "r2") 1000
    toy_queues_differ) as [Ha Hb].
  split; [by exists []|]. split; [by apply wf_two; first apply toy_queues_differ|].
  split; [by intros []|]. split; [done|]. by exists None, None.
Qed.

Lemma toy_turns_fresh : Forall (turn_fresh toy_inbox toy_db toy_world) toy_turns.
Proof. repeat constructor; (apply unused_two || (simpl; set_solver)). Qed.

Lemma toy_turns_fit : Forall turn_fits toy_turns.
Proof.
  unfold toy_turns. repeat apply Forall_cons_2; [..|apply Forall_nil_2]; split;
    try (apply toy_packets_fit; vm_compute; discriminate);
    unfold in_window, I64_MAX, TOMBSTONE_TTL_SECONDS, MAX_MESSAGE_TTL_SECONDS; simpl; lia.
Qed.

Lemma conversation_delivers_witness :
  exists oms w', converse toy_inbox toy_turns toy_world = (Ok oms, w') /\
    map (fun m => pm_body (om_message m)) oms = ["hello"; "are you there?"; "yes"]%string.
Proof.
  destruct (conversation_delivers toy_inbox toy_turns toy_db toy_world toy_talking toy_turns_fresh
    toy_turns_fit) as (oms & db' & w' & E & _ & Em).
  - refine (bool_decide_unpack _ _). vm_compute. exact I.
  - refine (bool_decide_unpack _ _). vm_compute. exact I.
  - exists oms, w'. split; [exact E|].
    change (om_message <$> oms) with (map om_message oms) in Em.
    rewrite <- (map_map om_message pm_body oms), Em. reflexivity.
Defined.

(** ** The demo *)

Lemma demo_succeeds_witness :
  exists w', run_demo (mkClocks (Some 1000) (Some 999) (Some 1005)) plain_fs true db_path
    (fun _ => None) id toy_draws (at_file fresh_file) = (Ok tt, Some w').
Proof.
  destruct (demo_succeeds plain_fs true db_path (fun _ => None) fresh_file toy_draws 1000 999 1005)
    as (w' & E & _).
  - reflexivity.
  - split; [reflexivity|vm_compute; reflexivity|split; reflexivity|reflexivity].
  - exact toy_queues_differ.
  - lia.
  - vm_compute. discriminate.
  - vm_compute. discriminate.
  - vm_compute. discriminate.
  - apply toy_packets_fit. vm_compute. discriminate.
  - apply toy_packets_fit. vm_compute. discriminate.
  - exists w'. exact E.
Defined.

(** ** Purges and the audit trail *)

(** A send whose commit is lost and that is repeated, a purge that fails, a fetch that fails in its
    own sweep, and a purge after the message has expired. *)
Definition purge_calls : list Call :=
  [k_register; mkCall (Enqueue toy_send) 1001 (repeat IoOk 9 ++ [IoLost]); k_send;
   mkCall PurgeExpired 1001 [IoOk; IoOk; IoOk; IoOk; IoOk; IoErr];
   mkCall (call_command k_fetch) (call_now k_fetch) [IoOk; IoOk; IoErr]; k_fetch;
   mkCall PurgeExpired 6000 []; mkCall (Enqueue toy_send) 6001 []].

Lemma purge_calls_replies :
  is_ok <$> fst (run purge_calls fresh_relay) = [true; false; true; false; false; true; true; false].
Proof. vm_compute. reflexivity. Qed.

Lemma purging_is_unobservable_witness :
  other_replies purge_calls (fst (run purge_calls fresh_relay))
    = fst (run (without_purges purge_calls) fresh_relay) /\
  fst (queued_message_count_at 7000 (load [IoErr] (snd (run purge_calls fresh_relay))))
    = fst (queued_message_count_at 7000
        (load [IoErr] (snd (run (without_purges purge_calls) fresh_relay)))).
Proof.
  destruct (purging_is_unobservable purge_calls fresh_relay 0) as [H1 H2];
    [reflexivity|solve_clock|].
  split; [exact H1|]. apply H2. vm_compute. discriminate.
Defined.


(** ** Two processes open one legacy database *)

(** Both validate the legacy schema. The first migrates and stores a message; the second begins
    its transaction only then; a third one's commit is durable but reported as failed. *)
Definition opening_host : Host :=
  mkHost legacy_file (<[0%nat := Closed]> (<[1%nat := Closed]> {[ 2%nat := Closed ]})).

(** The outcome of the last call of a transaction, the commit, is lost. *)
Definition lost_commit (calls : nat) : list io := replicate calls IoOk ++ [IoLost].

Definition opening_race : list HostAction :=
  [DoValidate 0 999 true []; DoValidate 1 1001 false []; DoRefuse 1; DoValidate 1 1001 true [];
   DoInitialize 0; DoServe 0 k_register; DoServe 0 k_send; DoInitialize 1; DoEnd 0;
   DoValidate 2 1001 true (lost_commit 51); DoInitialize 2; DoServe 1 k_fetch].

Definition opening_result : option (list HostEvent * Host) := host_run opening_race opening_host.

Definition opening_answers (es : list HostEvent) : list (Result unit) :=
  omap (fun e => match e with Initialized _ _ r => Some r | _ => None end) es.

Definition opening_summary (x : list HostEvent * Host) : list (Result unit) * Z * list (list byte) :=
  (opening_answers (fst x), rf_version (host_file (snd x)),
   map mg_message_id (messages (rf_rows (host_file (snd x))))).

(** The legacy message is gone, the new one is there. *)
Example opening_race_outcome :
  opening_summary <$> opening_result = Some ([Ok tt; Ok tt; Err Storage], 2, [as_slice toy_message]).
Proof. vm_compute. reflexivity. Qed.

Lemma opening_unserved : forall i ev, stages opening_host !! i <> Some (Serving ev).
Proof.
  intros i ev H. unfold opening_host in H. simpl in H.
  repeat (apply lookup_insert_Some in H as [[_ H]|[_ H]]; [discriminate H|]).
  apply lookup_singleton_Some in H as [_ H]. discriminate H.
Qed.

Lemma concurrent_opens_migrate_once_witness :
  exists es h, host_run opening_race opening_host = Some (es, h) /\ up_to_date (host_file h) /\
    exists before i now r after krs, es = before ++ Initialized i now r :: after /\
      effects after krs.
Proof.
  pose proof (concurrent_opens_migrate_once opening_race opening_host) as H.
  assert (E : opening_answers ∘ fst <$> host_run opening_race opening_host =
    Some [Ok tt; Ok tt; Err Storage]) by (vm_compute; reflexivity).
  destruct (host_run opening_race opening_host) as [[es h]|]; [|discriminate E].
  exists es, h. split; [reflexivity|].
  destruct (H es h opening_unserved eq_refl) as
    [[Hu _]|(before & i & now & r & after & krs & He & _ & _ & Hd & Hk & _)].
  - exfalso. injection E as E. assert (Hin : Ok tt ∈ opening_answers es) by (rewrite E; left).
    apply list_elem_of_omap in Hin as (e & Hin & Ee). rewrite Forall_forall in Hu.
    specialize (Hu e Hin). destruct e; try discriminate Ee. injection Ee as ->. exact Hu.
  - split; [exact Hd|]. exists before, i, now, r, after, krs. split; [exact He|exact Hk].
Defined.
