(* ===== verification/UnreliableWitness.v ===== *)
(** * Deliveries over an unreliable relay, at a concrete input

    Two messages, one each way. Of the first one the send is stored although its commit reports a
    failure, the first fetch cannot begin its transaction, and the first acknowledgement loses
    its confirmation; other callers register a mailbox, send and purge in between. *)

From S2P Require Import Prelude Core Capability Sqlite RelayDb Relay.
From S2P Require Import RelayFacts RelayTx RelayInv RelayTrace ToyCrypto RelayDelivery RelayRuns.
From S2P Require Import RelayExchange RelaySpec RelayBoxes RelayPersist RelayWitness.
From S2P Require Import Client ClientFacts Demo EndToEnd Unreliable.
From S2P Require Import ToyEndpoint EndpointWitness SystemWitness.

#[local] Open Scope Z_scope.

Definition third_owner : MailboxOwner :=
  mkOwner (toy_id 32 "queue3") (toy_id 32 "send3") (toy_id 32 "receive3") (toy_id 32 "manage3").

Definition toy_history : list Call :=
  [mkCall (Register (registration toy_owner (toy_id 16 "r1") 1060)) 1000 [];
   mkCall (Register (registration other_owner (toy_id 16 "r2") 1060)) 1000 []].

Definition busy_world : World :=
  mkWorld (snd (run toy_history fresh_relay)) (set_session (Some None) alice0)
    (set_session (Some None) bob0).

Definition strangers : list Call :=
  [mkCall (Register (registration third_owner (toy_id 16 "r3") 1060)) 1001 [];
   mkCall PurgeExpired 1002 []].

Definition stranger_sends : list Call :=
  [mkCall (Enqueue (authorize (sender_capability third_owner) (toy_id 16 "m3") toy_packet 2000))
     1005 []].

Definition busy_deliveries : list Delivery :=
  [mkDelivery Alice "hello" (toy_id 16 "t1") (bstr "e1") 1001 4000
     [mkAttempt strangers 1003 (lost_commit 9); mkAttempt [] 1004 []]
     [(toy_id 16 "f1", mkAttempt stranger_sends 1005 [IoErr]);
      (toy_id 16 "f2", mkAttempt [] 1006 [])]
     1007
     [mkAttempt [] 1008 (lost_commit 9); mkAttempt [mkCall PurgeExpired 1009 []] 1010 []];
   mkDelivery Bob "yes" (toy_id 16 "t2") (bstr "e2") 1011 4000
     [mkAttempt [] 1011 []] [(toy_id 16 "f3", mkAttempt [] 1012 [])] 1012 [mkAttempt [] 1013 []]].

(** The first attempt of every call of the first delivery fails. *)
Definition first_sends : list (Attempt * Command) :=
  sending other_owner (toy_id 16 "t1") toy_packet 4000
    [mkAttempt strangers 1003 (lost_commit 9)].

Definition outcome (x : Result Reply * Relay) : bool * nat :=
  (is_ok (fst x), length (messages (disk (connection (snd x))))).

Example lost_send_is_stored : outcome (tries first_sends (relay busy_world)) = (false, 1%nat).
Proof. vm_compute. reflexivity. Qed.

Definition busy_result : Result (list OpenedMessage) * World :=
  deliver_all toy_inbox busy_deliveries busy_world.

Definition bodies (r : Result (list OpenedMessage)) : list string :=
  match r with Ok oms => map (fun m => pm_body (om_message m)) oms | Err _ => [] end.

(** Both bodies arrive; the strangers' message is the only one left; the trail shows that the
    retried send and the retried acknowledgement were recognized as duplicates. *)
Example busy_delivered :
  (bodies (fst busy_result), length (messages (disk (connection (relay (snd busy_result))))),
   audit_events (relay (snd busy_result)))
  = (["hello"; "yes"], 1%nat,
     ["mailbox_registered"; "mailbox_registered"; "mailbox_registered";
      "message_enqueue_duplicate"; "message_enqueued"; "mailbox_fetched"; "message_ack_duplicate";
      "message_enqueued"; "mailbox_fetched"; "message_acknowledged_and_deleted"])%string.
Proof. vm_compute. reflexivity. Qed.

Lemma toy_digests_differ :
  digest (as_slice (mo_queue_id (toy_inbox Alice))) <> digest (as_slice (mo_queue_id (toy_inbox Bob))).
Proof. evaluate. Qed.

Lemma history_apart s :
  Forall (fun k => digest_apart (mo_queue_id (toy_inbox s)) (call_command k)) toy_history.
Proof.
  pose proof toy_digests_differ as Hd.
  destruct s; apply Forall_cons_2; [|apply Forall_cons_2; [|apply Forall_nil_2]| |
    apply Forall_cons_2; [|apply Forall_nil_2]]; intros q' E H; apply (inj Some) in E; subst q'.
  - reflexivity.
  - exfalso. apply Hd. symmetry. exact H.
  - exfalso. apply Hd. exact H.
  - reflexivity.
Qed.

Lemma strangers_elsewhere s :
  Forall (elsewhere (mo_queue_id (toy_inbox s))) (strangers ++ stranger_sends).
Proof.
  unfold strangers, stranger_sends. simpl app. repeat apply Forall_cons_2; [..|apply Forall_nil_2];
    intros q' E; [apply (inj Some) in E as <-|discriminate E|apply (inj Some) in E as <-];
    destruct s; evaluate.
Qed.

Lemma busy_set_up :
  set_up toy_inbox 1001 (dl_id <$> busy_deliveries) (busy_deliveries ≫= dl_nonces) busy_world.
Proof.
  split.
  - exists toy_history, 1000. split; [reflexivity|]. split; [lia|]. split; [solve_clock|].
    split; [vm_compute; discriminate|apply history_apart].
  - intros s. cbv zeta. split; [|split; [destruct s; evaluate|split]].
    + destruct s; eexists; (split; [vm_compute; reflexivity|]); by vm_compute.
    + intros m Hm. assert (E : tombstones (disk (connection (relay busy_world))) = ∅) by evaluate.
      by rewrite E.
    + intros n Hn. assert (E : request_nonces (disk (connection (relay busy_world))) = ∅) by evaluate.
      by rewrite E.
  - done.
  - by exists None, None.
  - intros s m _. by destruct s.
Qed.

Lemma others_elsewhere ks s :
  ks ⊆ strangers ++ stranger_sends ++ [mkCall PurgeExpired 1009 []] ->
  Forall (fun k => elsewhere (mo_queue_id (toy_inbox (other s))) k /\
                   elsewhere (mo_queue_id (toy_inbox s)) k) ks.
Proof.
  intros Hks. apply Forall_forall. intros k Hk%Hks. rewrite app_assoc in Hk.
  assert (H : forall s, elsewhere (mo_queue_id (toy_inbox s)) k); [|by split].
  intros s'. apply elem_of_app in Hk as [Hk|Hk%list_elem_of_singleton].
  - pose proof (strangers_elsewhere s') as H. rewrite Forall_forall in H. by apply H.
  - subst k. intros q' E. discriminate E.
Qed.

Ltac solve_attempts :=
  split; [repeat split; vm_compute; try done; discriminate|vm_compute; discriminate
    |eexists; split; [reflexivity|reflexivity]
    |repeat (apply Forall_cons_2; [apply (others_elsewhere _ (dl_from _)); simpl; set_solver|]);
     apply Forall_nil_2].

Lemma busy_fits : deliveries_fit toy_inbox 1001 busy_deliveries.
Proof.
  split; [|split; [|done]]; (split; [vm_compute; discriminate|by vm_compute|vm_compute; discriminate
    |apply toy_packets_fit; vm_compute; discriminate|solve_attempts|solve_attempts
    |vm_compute; discriminate|solve_attempts]).
Qed.

Lemma unreliable_relay_delivers_witness :
  exists oms w', deliver_all toy_inbox busy_deliveries busy_world = (Ok oms, w') /\
    map (fun m => pm_body (om_message m)) oms = ["hello"; "yes"]%string /\
    deliverable (as_slice (mo_queue_id other_owner)) 1013 (disk (connection (relay w'))) = [].
Proof.
  destruct (unreliable_relay_delivers toy_inbox toy_digests_differ busy_deliveries 1001 busy_world
    busy_set_up ltac:(lia) busy_fits) as (oms & w' & E & Em & Hd).
  - evaluate.
  - evaluate.
  - exists oms, w'. split; [exact E|]. split; [|exact (Hd Bob)].
    change (om_message <$> oms) with (map om_message oms) in Em.
    rewrite <- (map_map om_message pm_body oms), Em. reflexivity.
Defined.
